(* ===== verification/_CoqProject ===== *)
-Q . S2P
Prelude.v
GasFee.v
Hardforks.v
ChainSpec.v
Validation.v
Revm.v
ToyRevm.v
Precompile.v
PrecompileSafety.v
NativeCoin.v
SystemAccounting.v
NativeCoinProps.v
BlockEvm.v
ToyEvm.v
Executor.v
ExecutorProps.v
Frames.v
FramesProps.v
Subcall.v
SubcallProps.v
SubcallRuns.v
Selfdestruct.v
Handler.v
TxPool.v
PayloadBuilder.v
ToyFrames.v
ToyPool.v
PersistenceMeter.v
RpcMiddleware.v
RpcMiddlewareProps.v
ToyRpc.v
BTree.v
Validators.v
Proposal.v
ConsensusSpec.v
Codec.v
CodecProps.v
StoreCodec.v
Store.v
Migrations.v
StoreCodecProps.v
StoreProps.v
StoreInv.v
MigrationsProps.v
StoreQueries.v
ToyCrypto.v
ToyStore.v
ToyMigrations.v
Streaming.v
Decide.v
DecideProps.v
Ingest.v
Serve.v
ServeProps.v
Propose.v
IngestProps.v
RoundProps.v
Startup.v
StartupProps.v
ProposeProps.v
ToyStreams.v
ToyDecide.v
ToyIngest.v
ToyPropose.v
ToyServe.v
ToyStartup.v
StreamingProps.v
Reassembly.v
App.v
AppMem.v
AppProps.v
RequestProps.v
ToyApp.v
