(* ===== verification/Prelude.v ===== *)
(** * Verification of the Arc node

    Arc is an EVM chain: reth with Arc's fees, precompiles and block executor as the
    execution layer, and an application on the Malachite consensus engine that proposes,
    streams, decides and stores blocks.  This library translates parts of both into Rocq
    functions and proves what they promise.  Paths are relative to src/crates.

    ** Conventions

    This file has what all others share: Rust integers as [Z] with the wrap-around or the
    failure written out ([uint], [checked_add], [saturating_sub], ...), [result] for
    [Result], the monad [M] for code that threads a state and may fail and keeps the state
    a failing call leaves, big-endian bytes, and the tactics [ints] and [binds].  A panic is
    an error value.  Third-party code (revm, alloy, reth, prost, SSZ, signatures, hashes, redb,
    LRU caches) is a type class of operations, and what is relied on of it a class of laws.
    The Toy files give concrete instances that satisfy the laws, on which the witnesses
    evaluate the definitions.

    ** Execution layer

    - GasFee: execution-config/gas_fee.rs, protocol_config.rs and the bounds of
      chainspec.rs.  The fixed-point base fee equals its definition over the integers, its
      change is bounded, it stays positive, parameters are clamped, the header encoding
      round-trips.
    - Hardforks, ChainSpec: hardforks.rs, chainspec.rs.  Flags agree with the runtime gate, forks
      never deactivate, schedules of the networks and of a genesis file.
    - Validation: execution-validation/consensus.rs.  Which headers are accepted, and what
      a chain of accepted headers satisfies.
    - Revm, ToyRevm, Precompile, PrecompileSafety: the interface to revm and
      precompiles/helpers.rs, macros.rs, with their gas and state safety.
    - NativeCoin, NativeCoinProps: native_coin_authority.rs, native_coin_control.rs.
      The precompiles refine a ledger, the supply is the sum of the balances, blocklisted
      balances are frozen, other callers change nothing.
    - SystemAccounting: system_accounting.rs refines a ring of 64 entries.
    - BlockEvm, ToyEvm, Executor, ExecutorProps: evm/executor.rs, assembler.rs.  What a
      finished block records, proposer and verifier agree on its extra data, early and late
      writes are equivalent, block gas stays within the limit.
    - Frames, FramesProps: the hooks of evm/evm.rs around the initialisation of a call or
      creation, with frame_result.rs and log.rs.  Value moves only between allowed parties and
      every move is logged once.
    - Subcall, SubcallProps, SubcallRuns: precompiles/subcall.rs, call_from.rs, evm/subcall.rs and
      the interception of evm.rs.  Subcalls are authorised, paid for and atomic, and along every run
      of the frame loop each result reaches the call it belongs to.
    - Selfdestruct: evm/opcode.rs.  Which contracts may destroy themselves, and into what.
    - Handler: evm/handler.rs.  The blocklist gate and the fee of a transaction.
    - TxPool: execution-config/addresses_denylist.rs, execution-validation/denylist.rs,
      execution-txpool/validator.rs, error.rs.  The pool and execution agree on what is blocked;
      what is quarantined stays out.
    - PayloadBuilder: execution-payload/payload.rs.  What a build returns is within the gas and size of
      the block, with the exact fees; it returns when its time is over or the pool is dry; it evicts and
      quarantines what it should and nothing else.
    - RpcMiddleware, RpcMiddlewareProps: evm-node/rpc_middleware.rs.  Which calls the layers in front of the
      JSON-RPC handlers let through, alone or in a batch, and which submissions they do not check; that they
      change nothing else; how a raw transaction is relayed with failover.
    - ToyFrames, ToyPool, ToyRpc: concrete instances for these files and their witnesses.

    These build on one another: the frames and the handler run on the journal of Revm and read the
    blocklist that NativeCoin writes, the pool reads the same slots through a state provider, and the
    builder feeds the list of invalid transactions that the pool's validator consults.

    ** Consensus layer

    - Validators: types/validator_set.rs, proposer.rs.  Sets are canonical; every validator
      proposes once in a rotation.
    - Proposal, Streaming, StreamingProps, Reassembly: types/proposal_part(s).rs,
      malachite-app/proposal_parts.rs, streaming.rs.  The limits of the stream map
      hold in every reachable state, and a block is rebuilt from its stream in any order.
    - Codec, CodecProps: types/codec and the protobuf conversions.  Codecs are exact.
    - BTree: ordered maps, for [BTreeMap] and for redb's tables.
    - StoreCodec, StoreCodecProps: consensus-db/encoder.rs, decoder.rs.  Rows read back.
    - Store, StoreProps, StoreInv, StoreQueries: consensus-db/store.rs, keys.rs,
      services/pruning.rs.  Seven tables under transactions that may fail.  An invariant
      holds over every sequence of operations; rollback, pruning, the pending limit,
      certificate extension and range queries are described exactly.
    - Migrations, MigrationsProps: consensus-db/migrations.rs, migrators.rs, the opening of the
      database in store.rs and the migrate command of malachite-app/main.rs.  A migration gives
      the tables of Store, a dry run predicts it; one theorem shows what repeating a failed
      one does.
    - ConsensusSpec: types/spec.rs.  Fork versions only grow, at the announced heights.
    - Decide, DecideProps: malachite-app/handlers/decided.rs, finalized.rs, finalize.rs, the
      state of state.rs and types/consensus_params.rs.  A decision is durable before anyone is
      told; a finalized height gets at most one instruction, and when it gets none.
    - Ingest, IngestProps, RoundProps: received_proposal_part.rs, process_synced_value.rs,
      started_round.rs, skew_gate.rs and the verdicts of payload.rs.  Valid votes are earned;
      one theorem shows how an early forgery answers for a synced block.
    - Propose, ProposeProps: get_value.rs, restream_proposal.rs and the block building of
      payload.rs and eth-engine/engine.rs.  A proposer does not equivocate while its block is stored.
    - Startup, StartupProps: consensus_ready.rs, eth-engine/capabilities.rs.  A node resumes
      exactly after what it decided; one whose execution layer is behind catches up.
    - PersistenceMeter: eth-engine/persistence_meter.rs, as atomic steps of the background reader,
      seeds and waiting callers in any interleaving.  Callers are held back exactly as long as
      they should be.
    - Serve, ServeProps: get_decided_values.rs, get_history_min_height.rs.  What a syncing
      peer is served.
    - App, AppMem, AppProps, RequestProps: app.rs with request.rs and the status of state.rs.  The event loop
      dispatches to the handlers above.  Along every run the database and the memory of the node stay
      sound and everything it tells consensus, the execution layer and its peers is justified
      by what it had stored by then; each kind of request is answered from the store.

    The handlers share the [State] of Decide, which contains the stream map of Streaming and
    the database of Store; what a node sends is a log of messages with the tables at that time.
    AppProps composes the theorems of the handlers over sequences of messages, each with its own
    answers of the outside world.

    ** Fuel

    Eight loops are not structural and take fuel; but for the payload builder their callers give it in full.
    [Store.rollback_loop]: the number of heights to remove plus one, each round removes at
    least one ([StoreProps.rollback_cuts_at_one_height] shows it reaches the target).
    [Streaming.evict_down]: the number of streams, each round removes one
    ([StreamingProps.evict_down_spec]).  [Proposal.chunks_fuel]: the number of bytes, each chunk
    takes at least one ([Reassembly.chunks_fuel_spec]: the chunks concatenate to the input).
    [Ingest.missed_proposers]: the number of skipped rounds.  [Propose.generate_attempts]: the
    five retries of the code itself.  [PayloadBuilder.tx_loop]: a parameter, since the pool may go on
    offering transactions; it is enough if it exceeds the first iteration past the time limit, or the
    transactions the iterator yields ([PayloadBuilder.payload_within_limits] shows the build returns
    then).
    [Startup.poll_block]: one more than the polls that fit in the timeout ([Startup.poll_returns]).
    [Migrations.migrate_batches]: the number of rows plus one, each full batch moves the next height
    past its rows ([MigrationsProps.batches_run] shows all rows are reached).

    ** Not modelled

    - Of the consensus application: the construction of the node (node.rs), its RPC and the
      sync client of follower nodes.  The event loop is run on the sequence of its inputs; how
      the runtime schedules it beside the task that answers requests is not modelled.
    - Of the EVM: the variants of the hooks for inspectors and tracers, system calls, and the
      construction of the EVM from its environment; the post-quantum precompile, whose work is a
      third-party verifier.
    - The repositories of the database, which only forward to the store, and the retry policies of the
      Engine API client.
    - The DeBank RPC (debank-rpc), which traces calls and blocks and only reads the chain.
    - Servers, clients, command lines, metrics, logs, the database file, signers, and the tools
      (quake, spammer, snapshots, engine-bench, mesh-analysis): I/O and third-party code.
    - A redb error on a single row of a read, which some loops of the store skip. *)

From Stdlib Require Export ZArith Lia.
From Stdlib Require Strings.Byte.
From coqutil Require Export Byte.
From coqutil Require Import Word.LittleEndianList.
From stdpp Require Export base gmap numbers strings fin_maps tactics list.

Open Scope Z_scope.

(** ** Machine integers

    A Rust unsigned integer of [w] bits is a [Z] in [[0, 2^w)].  The
    operations below are the ones the sources use; each writes out what the
    Rust operation does at the end of the range. *)

Definition uint (w z : Z) : Prop := 0 ≤ z < 2 ^ w.

Declare Scope arc_scope.
Delimit Scope arc_scope with arc.
Notation "'u8' z" := (uint 8 z) (at level 9, z at level 9) : arc_scope.
Notation "'u32' z" := (uint 32 z) (at level 9, z at level 9) : arc_scope.
Notation "'u64' z" := (uint 64 z) (at level 9, z at level 9) : arc_scope.
Notation "'u128' z" := (uint 128 z) (at level 9, z at level 9) : arc_scope.
Notation "'u256' z" := (uint 256 z) (at level 9, z at level 9) : arc_scope.
Open Scope arc_scope.

#[export] Instance uint_dec w z : Decision (uint w z).
Proof. unfold uint; apply _. Defined.

Definition uint_max (w : Z) : Z := 2 ^ w - 1.
Definition U64_MAX : Z := uint_max 64.
Definition U256_MAX : Z := uint_max 256.

(** [uN::try_from(x)]: succeeds exactly on the values of the target type. *)
Definition try_from (w z : Z) : option Z :=
  if decide (uint w z) then Some z else None.

Arguments try_from : simpl never.
Definition checked_add (w a b : Z) : option Z := try_from w (a + b).
Definition checked_sub (w a b : Z) : option Z := try_from w (a - b).
Definition checked_mul (w a b : Z) : option Z := try_from w (a * b).
Definition saturating_add (w a b : Z) : Z := Z.min (a + b) (uint_max w).
Definition saturating_sub (a b : Z) : Z := Z.max (a - b) 0.
Definition saturating_mul (w a b : Z) : Z := Z.min (a * b) (uint_max w).

(** [Ord::clamp]; the callers guarantee [lo <= hi] (Rust panics otherwise). *)
Definition clamp (x lo hi : Z) : Z :=
  if decide (x < lo) then lo else if decide (hi < x) then hi else x.

(** ** Results: Rust's [Result<A, E>] *)

Inductive result (E A : Type) : Type :=
| Ok (a : A)
| Err (e : E).
Arguments Ok {E A} a.
Arguments Err {E A} e.

#[export] Instance result_ret {E} : MRet (result E) := λ A a, Ok a.
#[export] Instance result_bind {E} : MBind (result E) :=
  λ A B f m, match m with Ok a => f a | Err e => Err e end.
#[export] Instance result_fmap {E} : FMap (result E) :=
  λ A B f m, match m with Ok a => Ok (f a) | Err e => Err e end.

Definition map_err {E F A} (f : E → F) (r : result E A) : result F A :=
  match r with Ok a => Ok a | Err e => Err (f e) end.
Definition result_ok {E A} (r : result E A) : option A :=
  match r with Ok a => Some a | Err _ => None end.
Definition ok_or {E A} (o : option A) (e : E) : result E A :=
  match o with Some a => Ok a | None => Err e end.
Definition is_ok {E A} (r : result E A) : bool :=
  match r with Ok _ => true | Err _ => false end.

(** ** A state-and-error monad

    Code that threads a [&mut] state and returns a [Result]: the state a
    failing call leaves behind is kept, as Rust keeps it. *)

Definition M (S E A : Type) : Type := S → result E A * S.

Definition m_ret {S E A} (a : A) : M S E A := λ s, (Ok a, s).
Definition m_err {S E A} (e : E) : M S E A := λ s, (Err e, s).
Definition m_bind {S E A B} (m : M S E A) (f : A → M S E B) : M S E B :=
  λ s, match m s with
       | (Ok a, s') => f a s'
       | (Err e, s') => (Err e, s')
       end.
Definition m_get {S E} : M S E S := λ s, (Ok s, s).
Definition m_lift {S E A} (r : result E A) : M S E A := λ s, (r, s).

Notation "x <-- m ;; k" := (m_bind m (λ x, k))
  (at level 100, m at level 99, right associativity) : arc_scope.
Notation "m ;;; k" := (m_bind m (λ _, k))
  (at level 100, right associativity) : arc_scope.

(** ** Bytes: big-endian encodings *)

Abbreviation bytes := (list Byte.byte).
#[export] Instance byte_eq_decision : EqDecision Byte.byte := Strings.Byte.byte_eq_dec.

(** [x.to_be_bytes()] for an [n]-byte integer. *)
Definition to_be_bytes (n : nat) (z : Z) : bytes := rev (le_split n z).
(** [from_be_bytes] / [U256::from_be_slice]. *)
Definition from_be_bytes (bs : bytes) : Z := le_combine (rev bs).

(** ** Tactics *)

(** Case analysis on the discriminee of a [match] or [if] of the goal or of a
    hypothesis, innermost first. *)
Ltac case_split_in H :=
  match type of H with
  | context [match ?e with _ => _ end] =>
      lazymatch e with
      | context [match _ with _ => _ end] => fail
      | _ => destruct e eqn:?
      end
  end.
Ltac case_split :=
  match goal with
  | |- context [match ?e with _ => _ end] =>
      lazymatch e with
      | context [match _ with _ => _ end] => fail
      | _ => destruct e eqn:?
      end
  end.

(** Unfold the integer operations and finish by linear arithmetic. *)
Ltac ints :=
  unfold try_from, checked_add, checked_sub, checked_mul, saturating_add,
    saturating_sub, saturating_mul, clamp, U64_MAX, U256_MAX, uint_max, uint in *;
  repeat case_decide; simplify_eq/=; try lia.

(** ** Lemmas on integers *)

Create HintDb arc.

Lemma try_from_Some w z : uint w z → try_from w z = Some z.
Proof. intros H. unfold try_from. by rewrite decide_True. Qed.

Lemma try_from_inv w z r : try_from w z = Some r → r = z ∧ uint w z.
Proof. unfold try_from. case_decide; naive_solver. Qed.

Lemma try_from_None w z : ¬ uint w z → try_from w z = None.
Proof. intros H. unfold try_from. by rewrite decide_False. Qed.

Lemma checked_add_inv w a b r : checked_add w a b = Some r → r = a + b ∧ uint w r.
Proof. unfold checked_add. intros [-> ?]%try_from_inv. done. Qed.

Lemma checked_sub_inv w a b r : checked_sub w a b = Some r → r = a - b ∧ uint w r.
Proof. unfold checked_sub. intros [-> ?]%try_from_inv. done. Qed.

Lemma clamp_bounds x lo hi : lo ≤ hi → lo ≤ clamp x lo hi ≤ hi.
Proof. intros. ints. Qed.

Lemma clamp_id x lo hi : lo ≤ x ≤ hi → clamp x lo hi = x.
Proof. intros. ints. Qed.

Lemma clamp_fixpoint x lo hi : lo ≤ hi → clamp x lo hi = x → lo ≤ x ≤ hi.
Proof. intros ? <-. by apply clamp_bounds. Qed.

Lemma saturating_sub_range w a b : uint w a → 0 ≤ b → uint w (saturating_sub a b).
Proof. unfold saturating_sub, uint. lia. Qed.

Lemma saturating_add_range w a b : uint w a → 0 ≤ b → uint w (saturating_add w a b).
Proof. unfold saturating_add, uint, uint_max. lia. Qed.

#[export] Hint Resolve clamp_bounds saturating_sub_range saturating_add_range : arc.

(** ** Lemmas on bytes *)

Lemma length_to_be_bytes n z : length (to_be_bytes n z) = n.
Proof. unfold to_be_bytes. by rewrite length_rev, length_le_split. Qed.

Lemma from_to_be_bytes n z :
  uint (Z.of_nat n * 8) z → from_be_bytes (to_be_bytes n z) = z.
Proof.
  intros H. unfold from_be_bytes, to_be_bytes.
  rewrite rev_involutive, le_combine_split. by apply Z.mod_small.
Qed.

Lemma to_from_be_bytes bs : to_be_bytes (length bs) (from_be_bytes bs) = bs.
Proof.
  unfold from_be_bytes, to_be_bytes.
  rewrite <- (length_rev bs), split_le_combine. apply rev_involutive.
Qed.

Lemma from_be_bytes_range bs : uint (8 * Z.of_nat (length bs)) (from_be_bytes bs).
Proof.
  unfold uint, from_be_bytes. rewrite <- (length_rev bs). apply le_combine_bound.
Qed.

Lemma rev_replicate {A} n (x : A) : rev (replicate n x) = repeat x n.
Proof.
  assert (∀ k, repeat x k ++ [x] = x :: repeat x k) as E.
  { induction k as [|k IH]; simpl; [done|]. by rewrite IH. }
  induction n as [|n IH]; simpl; [done|]. by rewrite IH, E.
Qed.

(** Left padding with zeros does not change the value. *)
Lemma from_be_bytes_zeros n bs :
  from_be_bytes (replicate n Byte.x00 ++ bs) = from_be_bytes bs.
Proof.
  unfold from_be_bytes. by rewrite rev_app_distr, rev_replicate, le_combine_app_0.
Qed.

Create Rewrite HintDb arc_rw.
#[export] Hint Rewrite length_to_be_bytes : arc_rw.

(** ** Lemmas on results *)

Lemma bind_ok {E A B} (m : result E A) (f : A → result E B) b :
  (m ≫= f) = Ok b → ∃ a, m = Ok a ∧ f a = Ok b.
Proof. destruct m; unfold mbind, result_bind; [eauto|done]. Qed.

Lemma map_err_ok {E F A} (f : E → F) (r : result E A) a : map_err f r = Ok a → r = Ok a.
Proof. destruct r; simpl; congruence. Qed.

(** Invert the successful runs of a chain of [Result] computations. *)
Ltac binds :=
  repeat match goal with
  | H : (_ ≫= _) = Ok _ |- _ => apply bind_ok in H as (? & ? & H)
  | H : map_err _ _ = Ok _ |- _ => apply map_err_ok in H
  | u : unit |- _ => destruct u
  end.

(** ** Runs of the state-and-error monad *)

Lemma m_bind_ok {S E A B} (m : M S E A) (f : A → M S E B) s b s' :
  m_bind m f s = (Ok b, s') → ∃ a s1, m s = (Ok a, s1) ∧ f a s1 = (Ok b, s').
Proof. unfold m_bind. destruct (m s) as [[a|e] s1]; [eauto|done]. Qed.

Lemma m_bind_assoc {S E A B C} (m : M S E A) (f : A → M S E B) (g : B → M S E C) s :
  m_bind m (λ a, m_bind (f a) g) s = m_bind (m_bind m f) g s.
Proof. unfold m_bind. by destruct (m s) as [[a|e] s1]. Qed.

Lemma m_bind_cases {S E A B} (m : M S E A) (f : A → M S E B) s r s' :
  m_bind m f s = (r, s') →
  (∃ a s1, m s = (Ok a, s1) ∧ f a s1 = (r, s')) ∨ (∃ e, m s = (Err e, s') ∧ r = Err e).
Proof. unfold m_bind. destruct (m s) as [[a|e] s1]; naive_solver. Qed.

(** The value of a result known to be [Ok]; a run that is known to succeed. *)
Definition ok_value {E A} (d : A) (r : result E A) : A := match r with Ok a => a | Err _ => d end.

Lemma run_is_ok {S E A} (d : A) (p : result E A * S) :
  is_ok p.1 = true → p = (Ok (ok_value d p.1), p.2).
Proof. by destruct p as [[] ?]. Qed.

Lemma m_ret_ok {S E A} (a b : A) (s s' : S) : @m_ret S E A a s = (Ok b, s') → b = a ∧ s' = s.
Proof. by intros [= -> ->]. Qed.
