(* ===== verification/GasFee.v ===== *)
(** * Base fee and block gas limit

    The arithmetic of [crates/execution-config/src/gas_fee.rs], the clamps of
    [protocol_config.rs] and the per-network bounds of [chainspec.rs]
    ([BlockGasLimitConfig], [BoundedParam], [BaseFeeConfig]). *)

From S2P Require Import Prelude.

(** ** gas_fee.rs *)

Definition ALPHA_MAX : Z := 100.

Definition determine_ema_parent_gas_used
    (smoothed_parent_gas_used raw_block_gas_used alpha : Z) : option Z :=
  let a := alpha in
  if decide (a > ALPHA_MAX) then None else
  let raw := raw_block_gas_used in
  let smoothed := smoothed_parent_gas_used in
  let complement := ALPHA_MAX - a in
  left ← checked_mul 128 complement smoothed;
  right ← checked_mul 128 a raw;
  together ← checked_add 128 left right;
  try_from 64 (together / ALPHA_MAX).

Definition encode_base_fee_to_bytes (base_fee : Z) : bytes := to_be_bytes 8 base_fee.

Definition decode_base_fee_from_bytes (extra_data : bytes) : option Z :=
  if decide (length extra_data ≠ 8%nat) then None
  else Some (from_be_bytes extra_data).

Definition ARC_BASE_FEE_FIXED_POINT_SCALE : Z := 10000.

(** [a as u128 * b as u128]: the multiplication of the width, wrap-around
    written out.  [u128_mul_exact] shows that it never wraps on [u64] factors. *)
Definition u128_mul (a b : Z) : Z := (a * b) `mod` 2 ^ 128.

(** [u64::try_from(x).unwrap_or(u64::MAX)] *)
Definition to_u64_or_max (z : Z) : Z := default U64_MAX (try_from 64 z).

Definition arc_calc_next_block_base_fee
    (gas_used gas_limit base_fee k_rate inverse_elasticity_multiplier : Z) : Z :=
  let gas_target_u128 :=
    u128_mul gas_limit inverse_elasticity_multiplier / ARC_BASE_FEE_FIXED_POINT_SCALE in
  let gas_target := to_u64_or_max gas_target_u128 in
  if decide (gas_target = 0 ∨ k_rate = 0) then base_fee else
  let denominator := u128_mul gas_target ARC_BASE_FEE_FIXED_POINT_SCALE / k_rate in
  if decide (denominator = 0) then base_fee else
  match gas_used ?= gas_target with
  | Eq => base_fee
  | Gt =>
      let increase := u128_mul base_fee (gas_used - gas_target) / denominator in
      let increase := to_u64_or_max increase in
      saturating_add 64 base_fee (Z.max 1 increase)
  | Lt =>
      let decrease := u128_mul base_fee (gas_target - gas_used) / denominator in
      let decrease := to_u64_or_max decrease in
      saturating_sub base_fee decrease
  end.

(** ** protocol_config.rs: parameters read from the ProtocolConfig contract *)

Record FeeParams := mkFeeParams {
  alpha : Z;
  kRate : Z;
  inverseElasticityMultiplier : Z;
  minBaseFee : Z;
  maxBaseFee : Z;
  blockGasLimit : Z;
}.

(** The Solidity field types: three [uint64], three [uint256]. *)
Definition FeeParams_wf (fp : FeeParams) : Prop :=
  u64 (alpha fp) ∧ u64 (kRate fp) ∧ u64 (inverseElasticityMultiplier fp)
  ∧ u256 (minBaseFee fp) ∧ u256 (maxBaseFee fp) ∧ u256 (blockGasLimit fp).

Definition determine_bounded_base_fee (fee_params : FeeParams) (base_fee : Z) : Z :=
  let configured_max := to_u64_or_max (maxBaseFee fee_params) in
  let configured_min := to_u64_or_max (minBaseFee fee_params) in
  if decide (configured_max = 0 ∨ configured_max < configured_min) then base_fee
  else clamp base_fee configured_min configured_max.

(** ** chainspec.rs: bounds *)

Record BlockGasLimitConfig := mkBlockGasLimitConfig {
  bgl_min : Z;
  bgl_max : Z;
  bgl_default : Z;
}.

(** [BlockGasLimitConfig::new]: [None] is the [assert!] panicking. *)
Definition BlockGasLimitConfig_new (min max default : Z) : option BlockGasLimitConfig :=
  if decide (min ≤ default ∧ default ≤ max)
  then Some (mkBlockGasLimitConfig min max default) else None.

Definition expected_gas_limit
    (fee_params : option FeeParams) (config : BlockGasLimitConfig) : Z :=
  default (bgl_default config)
    (gl ← (fp ← fee_params; try_from 64 (blockGasLimit fp));
     if decide (bgl_min config ≤ gl ∧ gl ≤ bgl_max config) then Some gl else None).

Record BoundedParam := mkBoundedParam {
  bp_min : Z;
  bp_default : Z;
  bp_max : Z;
}.

Definition BoundedParam_new (min default max : Z) : option BoundedParam :=
  if decide (min ≤ default ∧ default ≤ max)
  then Some (mkBoundedParam min default max) else None.

Definition BoundedParam_resolve (p : BoundedParam) (on_chain : Z) : Z :=
  if decide (bp_min p ≤ on_chain ∧ on_chain ≤ bp_max p) then on_chain else bp_default p.

Record BaseFeeCalcParams := mkBaseFeeCalcParams {
  calc_alpha : Z;
  calc_k_rate : Z;
  calc_inverse_elasticity_multiplier : Z;
}.

Record BaseFeeConfig := mkBaseFeeConfig {
  cfg_alpha : BoundedParam;
  cfg_k_rate : BoundedParam;
  cfg_inverse_elasticity_multiplier : BoundedParam;
  absolute_min_base_fee : Z;
  absolute_max_base_fee : Z;
}.

Definition BaseFeeConfig_new (alpha k_rate inverse_elasticity_multiplier : BoundedParam)
    (absolute_min_base_fee absolute_max_base_fee : Z) : option BaseFeeConfig :=
  if decide (absolute_min_base_fee ≤ absolute_max_base_fee)
  then Some (mkBaseFeeConfig alpha k_rate inverse_elasticity_multiplier
               absolute_min_base_fee absolute_max_base_fee)
  else None.

Definition resolve_calc_params (self : BaseFeeConfig) (fee_params : option FeeParams)
    : BaseFeeCalcParams :=
  match fee_params with
  | None =>
      mkBaseFeeCalcParams (bp_default (cfg_alpha self)) (bp_default (cfg_k_rate self))
        (bp_default (cfg_inverse_elasticity_multiplier self))
  | Some fp =>
      mkBaseFeeCalcParams
        (BoundedParam_resolve (cfg_alpha self) (alpha fp))
        (BoundedParam_resolve (cfg_k_rate self) (kRate fp))
        (BoundedParam_resolve (cfg_inverse_elasticity_multiplier self)
           (inverseElasticityMultiplier fp))
  end.

Definition clamp_absolute (self : BaseFeeConfig) (base_fee : Z) : Z :=
  clamp base_fee (absolute_min_base_fee self) (absolute_max_base_fee self).

(** The two provider traits of [chainspec.rs]. *)
Class BlockGasLimitProvider (CS : Type) :=
  block_gas_limit_config : CS → Z → BlockGasLimitConfig.
Class BaseFeeConfigProvider (CS : Type) :=
  base_fee_config : CS → Z → BaseFeeConfig.

(** ** Well-formedness: what the constructors' assertions establish *)

Definition BoundedParam_wf (p : BoundedParam) : Prop :=
  0 ≤ bp_min p ∧ bp_min p ≤ bp_default p ≤ bp_max p ∧ u64 (bp_max p).

Definition BlockGasLimitConfig_wf (c : BlockGasLimitConfig) : Prop :=
  0 ≤ bgl_min c ∧ bgl_min c ≤ bgl_default c ≤ bgl_max c ∧ u64 (bgl_max c).

Definition BaseFeeConfig_wf (c : BaseFeeConfig) : Prop :=
  BoundedParam_wf (cfg_alpha c) ∧ BoundedParam_wf (cfg_k_rate c)
  ∧ BoundedParam_wf (cfg_inverse_elasticity_multiplier c)
  ∧ 0 ≤ absolute_min_base_fee c ≤ absolute_max_base_fee c
  ∧ u64 (absolute_max_base_fee c).

(** ** Lemmas *)

Lemma to_u64_or_max_range z : 0 ≤ z → u64 (to_u64_or_max z).
Proof. intros. unfold to_u64_or_max. ints. Qed.

Lemma to_u64_or_max_min z : 0 ≤ z → to_u64_or_max z = Z.min z U64_MAX.
Proof. intros. unfold to_u64_or_max. ints. Qed.

#[export] Hint Resolve to_u64_or_max_range : arc.

Lemma u128_mul_exact a b : u64 a → u64 b → u128_mul a b = a * b.
Proof. unfold u128_mul, uint. intros. apply Z.mod_small. nia. Qed.

Lemma BoundedParam_resolve_bounds p v :
  bp_min p ≤ bp_default p ≤ bp_max p → bp_min p ≤ BoundedParam_resolve p v ≤ bp_max p.
Proof. intros. unfold BoundedParam_resolve. case_decide; lia. Qed.

Lemma resolve_calc_params_bounds cfg fp :
  BaseFeeConfig_wf cfg →
  let p := resolve_calc_params cfg fp in
  bp_min (cfg_alpha cfg) ≤ calc_alpha p ≤ bp_max (cfg_alpha cfg)
  ∧ bp_min (cfg_k_rate cfg) ≤ calc_k_rate p ≤ bp_max (cfg_k_rate cfg)
  ∧ bp_min (cfg_inverse_elasticity_multiplier cfg)
      ≤ calc_inverse_elasticity_multiplier p
      ≤ bp_max (cfg_inverse_elasticity_multiplier cfg).
Proof.
  intros ((_ & ? & _) & (_ & ? & _) & (_ & ? & _) & _).
  destruct fp; simpl; auto using BoundedParam_resolve_bounds.
Qed.

Lemma expected_gas_limit_bounds gl fp :
  BlockGasLimitConfig_wf gl → bgl_min gl ≤ expected_gas_limit fp gl ≤ bgl_max gl.
Proof.
  intros (? & ? & ?). unfold expected_gas_limit, default, mbind, option_bind.
  repeat case_match; simplify_eq; unfold id; lia.
Qed.

Lemma expected_gas_limit_in_range gl f :
  BlockGasLimitConfig_wf gl → bgl_min gl ≤ blockGasLimit f ≤ bgl_max gl →
  expected_gas_limit (Some f) gl = blockGasLimit f.
Proof.
  intros (? & ? & ?) ?. unfold expected_gas_limit, default, mbind, option_bind.
  rewrite try_from_Some by (unfold uint in *; lia). by rewrite decide_True.
Qed.

(** The gas target and the divisor of the update, over unbounded integers. *)
Definition gas_target_of (gas_limit iem : Z) : Z :=
  Z.min (gas_limit * iem / ARC_BASE_FEE_FIXED_POINT_SCALE) U64_MAX.
Definition denominator_of (target k_rate : Z) : Z :=
  target * ARC_BASE_FEE_FIXED_POINT_SCALE / k_rate.

(** The signed-free form of the update with the target made explicit: what the
    code computes once every product is known not to wrap. *)
Definition base_fee_step (gas_used target base_fee k_rate : Z) : Z :=
  if decide (target = 0 ∨ k_rate = 0) then base_fee else
  if decide (denominator_of target k_rate = 0) then base_fee else
  if decide (target < gas_used) then
    Z.min (base_fee + Z.max 1 (base_fee * (gas_used - target) / denominator_of target k_rate))
      U64_MAX
  else Z.max 0 (base_fee - base_fee * (target - gas_used) / denominator_of target k_rate).

Lemma gas_target_of_u64 gas_limit iem : 0 ≤ gas_limit → 0 ≤ iem → u64 (gas_target_of gas_limit iem).
Proof.
  intros. unfold gas_target_of, ARC_BASE_FEE_FIXED_POINT_SCALE.
  assert (0 ≤ gas_limit * iem / 10000) by (apply Z.div_pos; nia). ints.
Qed.

Lemma denominator_of_nonneg target k : 0 ≤ target → 0 ≤ k → 0 ≤ denominator_of target k.
Proof.
  intros. unfold denominator_of, ARC_BASE_FEE_FIXED_POINT_SCALE.
  destruct (decide (k = 0)) as [->|]; [rewrite Z.div_0_r; lia|].
  apply Z.div_pos; lia.
Qed.

Lemma saturating_sub_min b d : 0 ≤ b ≤ U64_MAX → 0 ≤ d →
  saturating_sub b (Z.min d U64_MAX) = Z.max 0 (b - d).
Proof. unfold saturating_sub. lia. Qed.

Lemma saturating_add_min b d : 0 ≤ b ≤ U64_MAX → 0 ≤ d →
  saturating_add 64 b (Z.max 1 (Z.min d U64_MAX)) = Z.min (b + Z.max 1 d) U64_MAX.
Proof. unfold saturating_add, U64_MAX, uint_max. lia. Qed.

Lemma arc_calc_as_step gas_used gas_limit base_fee k iem :
  u64 gas_used → u64 gas_limit → u64 base_fee → u64 k → u64 iem →
  arc_calc_next_block_base_fee gas_used gas_limit base_fee k iem =
  base_fee_step gas_used (gas_target_of gas_limit iem) base_fee k.
Proof.
  intros Hu Hl Hb Hk Hi.
  pose proof (gas_target_of_u64 gas_limit iem) as Ht.
  unfold arc_calc_next_block_base_fee. rewrite (u128_mul_exact gas_limit iem) by done.
  assert (0 ≤ gas_limit * iem / ARC_BASE_FEE_FIXED_POINT_SCALE)
    by (apply Z.div_pos; unfold ARC_BASE_FEE_FIXED_POINT_SCALE, uint in *; nia).
  rewrite to_u64_or_max_min by done. fold (gas_target_of gas_limit iem).
  assert (u64 (gas_target_of gas_limit iem)) as HT by (apply Ht; unfold uint in *; lia).
  set (T := gas_target_of gas_limit iem) in *. clearbody T.
  unfold base_fee_step. case_decide; [done|].
  rewrite u128_mul_exact by (done || (unfold ARC_BASE_FEE_FIXED_POINT_SCALE, uint; lia)).
  fold (denominator_of T k).
  pose proof (denominator_of_nonneg T k ltac:(unfold uint in *; lia) ltac:(unfold uint in *; lia)).
  set (D := denominator_of T k) in *. clearbody D.
  case_decide; [done|].
  assert (0 ≤ base_fee ≤ U64_MAX) by (unfold U64_MAX, uint_max, uint in *; lia).
  destruct (Z.compare_spec gas_used T) as [->|Hlt|Hgt].
  - rewrite decide_False by lia. rewrite Z.sub_diag, Z.mul_0_r, Z.div_0_l by done. lia.
  - rewrite decide_False by lia.
    assert (0 ≤ base_fee * (T - gas_used) / D) by (apply Z.div_pos; nia).
    rewrite u128_mul_exact, to_u64_or_max_min by (done || (unfold uint in *; lia)).
    by apply saturating_sub_min.
  - rewrite decide_True by lia.
    assert (0 ≤ base_fee * (gas_used - T) / D) by (apply Z.div_pos; nia).
    rewrite u128_mul_exact, to_u64_or_max_min by (done || (unfold uint in *; lia)).
    by apply saturating_add_min.
Qed.

Lemma base_fee_step_range gas_used target base_fee k :
  u64 gas_used → u64 target → u64 base_fee → u64 k →
  u64 (base_fee_step gas_used target base_fee k).
Proof.
  intros. unfold base_fee_step. repeat case_decide; try done.
  - unfold U64_MAX, uint_max, uint in *. lia.
  - pose proof (denominator_of_nonneg target k).
    assert (0 ≤ base_fee * (target - gas_used) / denominator_of target k)
      by (apply Z.div_pos; unfold uint in *; nia).
    unfold uint in *; lia.
Qed.

Lemma base_fee_step_mono g1 g2 target base_fee k :
  g1 ≤ g2 → u64 g1 → u64 target → u64 base_fee → u64 k →
  base_fee_step g1 target base_fee k ≤ base_fee_step g2 target base_fee k.
Proof.
  intros Hg Hg1 Ht Hb Hk. unfold base_fee_step.
  pose proof (denominator_of_nonneg target k).
  set (D := denominator_of target k) in *. clearbody D.
  case_decide; [lia|]. case_decide; [lia|].
  assert (0 < D) by (unfold uint in *; lia). unfold uint in *.
  repeat case_decide; try lia.
  - assert (base_fee * (g1 - target) / D ≤ base_fee * (g2 - target) / D)
      by (apply Z.div_le_mono; nia). lia.
  - assert (0 ≤ base_fee * (target - g1) / D) by (apply Z.div_pos; nia).
    unfold U64_MAX, uint_max. lia.
  - assert (base_fee * (target - g2) / D ≤ base_fee * (target - g1) / D)
      by (apply Z.div_le_mono; nia). lia.
Qed.

Lemma decode_base_fee_Some bs f :
  decode_base_fee_from_bytes bs = Some f → u64 f ∧ encode_base_fee_to_bytes f = bs.
Proof.
  unfold decode_base_fee_from_bytes, encode_base_fee_to_bytes.
  case_decide as H; [done|]. intros [= <-].
  destruct (decide (length bs = 8%nat)) as [E|]; [|done]. split.
  - pose proof (from_be_bytes_range bs) as B. by rewrite E in B.
  - rewrite <- E. apply to_from_be_bytes.
Qed.

Lemma decode_encode_base_fee f :
  u64 f → decode_base_fee_from_bytes (encode_base_fee_to_bytes f) = Some f.
Proof.
  intros Hf. unfold decode_base_fee_from_bytes, encode_base_fee_to_bytes.
  rewrite length_to_be_bytes, decide_False by lia. by rewrite from_to_be_bytes.
Qed.

(** ** Properties *)

(** C30: on all [u64] inputs the next base fee is computed without any wrap of
    the [u128] products and equals the update rule over unbounded integers,
    saturated to [u64]: unchanged at the target, raised by at least one above
    it, lowered below it. *)
Theorem base_fee_exact gas_used gas_limit base_fee k_rate iem :
  u64 gas_used → u64 gas_limit → u64 base_fee → u64 k_rate → u64 iem →
  let target := gas_target_of gas_limit iem in
  let d := denominator_of target k_rate in
  let next := arc_calc_next_block_base_fee gas_used gas_limit base_fee k_rate iem in
  u64 next ∧
  (target = 0 ∨ k_rate = 0 ∨ d = 0 ∨ gas_used = target → next = base_fee) ∧
  (0 < target → 0 < k_rate → 0 < d → target < gas_used →
     next = Z.min (base_fee + Z.max 1 (base_fee * (gas_used - target) / d)) U64_MAX) ∧
  (0 < target → 0 < k_rate → 0 < d → gas_used < target →
     next = Z.max 0 (base_fee - base_fee * (target - gas_used) / d)).
Proof.
  intros Hu Hl Hb Hk Hi target d next. subst next. rewrite arc_calc_as_step by done.
  fold target.
  assert (u64 target) as HT by (apply gas_target_of_u64; unfold uint in *; lia).
  split; [by apply base_fee_step_range|].
  unfold base_fee_step. fold d. unfold uint in *.
  split_and!; intros; repeat case_decide; try lia.
  intuition subst; try lia.
  rewrite Z.sub_diag, Z.mul_0_r, Z.div_0_l by done. lia.
Qed.

Lemma base_fee_exact_witness :
  arc_calc_next_block_base_fee 20000000 30000000 1000000000 200 5000 = 1006666666.
Proof.
  destruct (base_fee_exact 20000000 30000000 1000000000 200 5000) as (_ & _ & H & _);
    [by vm_compute..|].
  rewrite H by (vm_compute; done). vm_compute. reflexivity.
Defined.

(** more gas used never gives a lower next base fee. *)
Theorem base_fee_monotone g1 g2 gas_limit base_fee k_rate iem :
  u64 g1 → u64 g2 → u64 gas_limit → u64 base_fee → u64 k_rate → u64 iem →
  g1 ≤ g2 →
  arc_calc_next_block_base_fee g1 gas_limit base_fee k_rate iem ≤
  arc_calc_next_block_base_fee g2 gas_limit base_fee k_rate iem.
Proof.
  intros. rewrite !arc_calc_as_step by done. apply base_fee_step_mono; try done.
  apply gas_target_of_u64; unfold uint in *; lia.
Qed.

Lemma base_fee_monotone_witness :
  arc_calc_next_block_base_fee 0 30000000 1000 200 5000 ≤
  arc_calc_next_block_base_fee 30000000 30000000 1000 200 5000.
Proof. apply base_fee_monotone; by vm_compute. Defined.

Lemma decrease_le base d den target :
  0 ≤ base → 0 ≤ d ≤ target → 0 < target ≤ den → base * d / den ≤ base * d / target.
Proof.
  intros. apply Z.div_le_lower_bound; [lia|].
  assert (den * (base * d / den) ≤ base * d) by (apply Z.mul_div_le; lia).
  assert (0 ≤ base * d / den) by (apply Z.div_pos; nia). nia.
Qed.

(** with a change rate of at most 100% (10_000 basis points, the bound
    every network configures) a positive base fee never drops to zero while
    the block used any gas: the saturating subtraction is never reached. *)
Theorem base_fee_stays_positive gas_used gas_limit base_fee k_rate iem :
  u64 gas_used → u64 gas_limit → u64 base_fee → u64 iem →
  0 ≤ k_rate ≤ 10000 → 0 < gas_used → 0 < base_fee →
  0 < arc_calc_next_block_base_fee gas_used gas_limit base_fee k_rate iem.
Proof.
  intros Hu Hl Hb Hi Hk Hg Hp.
  rewrite arc_calc_as_step by (done || (unfold uint in *; lia)).
  assert (u64 (gas_target_of gas_limit iem)) as HT
    by (apply gas_target_of_u64; unfold uint in *; lia).
  set (T := gas_target_of gas_limit iem) in *. clearbody T.
  unfold base_fee_step. repeat case_decide; try lia; [unfold U64_MAX, uint_max; lia|].
  unfold uint in *.
  assert (T ≤ denominator_of T k_rate).
  { unfold denominator_of, ARC_BASE_FEE_FIXED_POINT_SCALE.
    apply Z.div_le_lower_bound; [lia|nia]. }
  pose proof (decrease_le base_fee (T - gas_used) (denominator_of T k_rate) T).
  assert (base_fee * (T - gas_used) / T < base_fee) by (apply Z.div_lt_upper_bound; nia).
  lia.
Qed.

Lemma base_fee_stays_positive_witness :
  0 < arc_calc_next_block_base_fee 1 30000000 1 10000 5000.
Proof. apply base_fee_stays_positive; by vm_compute. Defined.

(** [k_rate] bounds the relative change of one block (in basis points,
    with the mandatory increase of one) as long as the gas used is within one
    target of the target and the fixed-point division is exact. *)
Theorem base_fee_change_bounded gas_used gas_limit base_fee k_rate iem :
  u64 gas_used → u64 gas_limit → u64 base_fee → u64 k_rate → u64 iem →
  let target := gas_target_of gas_limit iem in
  0 < target → 0 < k_rate → (k_rate | target * 10000) →
  gas_used ≤ 2 * target →
  Z.abs (arc_calc_next_block_base_fee gas_used gas_limit base_fee k_rate iem - base_fee)
    ≤ Z.max 1 (base_fee * k_rate / 10000).
Proof.
  intros Hu Hl Hb Hk Hi target Ht Hkp Hdiv Hg2. rewrite arc_calc_as_step by done.
  fold target. unfold base_fee_step, denominator_of, ARC_BASE_FEE_FIXED_POINT_SCALE.
  destruct Hdiv as [q Hq]. rewrite Hq, Z.div_mul by lia.
  unfold uint in *.
  assert (Hbnd : ∀ d, 0 ≤ d ≤ target → 0 < q →
            0 ≤ base_fee * d / q ≤ base_fee * k_rate / 10000).
  { intros d Hd Hqp. split; [apply Z.div_pos; nia|].
    apply Z.div_le_lower_bound; [lia|].
    transitivity (10000 * (base_fee * target / q)).
    { apply Z.mul_le_mono_nonneg_l; [lia|]. apply Z.div_le_mono; nia. }
    assert (q * (base_fee * target / q) ≤ base_fee * target) by (apply Z.mul_div_le; lia).
    assert (q * (10000 * (base_fee * target / q)) ≤ q * (base_fee * k_rate)) by nia. nia. }
  repeat case_decide; try lia.
  - pose proof (Hbnd (gas_used - target) ltac:(lia) ltac:(nia)). unfold U64_MAX, uint_max. lia.
  - pose proof (Hbnd (target - gas_used) ltac:(lia) ltac:(nia)). lia.
Qed.

Lemma base_fee_change_bounded_witness :
  Z.abs (arc_calc_next_block_base_fee 30000000 30000000 1000000 200 5000 - 1000000)
    ≤ Z.max 1 (1000000 * 200 / 10000).
Proof.
  apply base_fee_change_bounded; try (by vm_compute). by exists 750000000.
Defined.

(** Below an elasticity of one half a full block moves the fee by more than
    [k_rate]: here 6% with [k_rate] = 2%. *)
Example base_fee_change_exceeds_k_rate :
  arc_calc_next_block_base_fee 30000000 30000000 1000000 200 2500 = 1060000.
Proof. vm_compute. reflexivity. Qed.

(** for a smoothing factor in [0, 100] the smoothed gas is defined, is the
    floor of the weighted mean, and lies between the parent's smoothed value
    and the block's raw value; for any larger factor there is no value. *)
Theorem ema_weighted_mean smoothed raw a :
  u64 smoothed → u64 raw → u64 a →
  (a ≤ 100 → ∃ r, determine_ema_parent_gas_used smoothed raw a = Some r
     ∧ r = ((100 - a) * smoothed + a * raw) / 100
     ∧ Z.min smoothed raw ≤ r ≤ Z.max smoothed raw)
  ∧ (100 < a → determine_ema_parent_gas_used smoothed raw a = None).
Proof.
  intros Hs Hr Ha. unfold determine_ema_parent_gas_used, ALPHA_MAX.
  split; intros Hle; [|by rewrite decide_True by lia].
  rewrite decide_False by lia. unfold checked_mul, checked_add.
  set (r := ((100 - a) * smoothed + a * raw) / 100).
  assert (Z.min smoothed raw ≤ r ≤ Z.max smoothed raw) as Hr2.
  { unfold r, uint in *. split.
    - apply Z.div_le_lower_bound; nia.
    - apply Z.lt_succ_r, Z.div_lt_upper_bound; nia. }
  exists r. split_and!; try done; try lia.
  unfold uint in *.
  rewrite try_from_Some by (unfold uint; nia). simpl.
  rewrite try_from_Some by (unfold uint; nia). simpl.
  rewrite try_from_Some by (unfold uint; nia). simpl.
  apply try_from_Some. unfold uint. lia.
Qed.

Lemma ema_weighted_mean_witness :
  ∃ r, determine_ema_parent_gas_used 1000 2000 20 = Some r ∧ 1000 ≤ r ≤ 2000.
Proof.
  destruct (proj1 (ema_weighted_mean 1000 2000 20 ltac:(by vm_compute)
              ltac:(by vm_compute) ltac:(by vm_compute)) ltac:(lia)) as (r & E & _ & B).
  exists r. split; [exact E|]. lia.
Defined.

(** A factor of zero keeps the parent's value and ignores the block. *)
Example ema_alpha_zero : determine_ema_parent_gas_used 1000 2000 0 = Some 1000.
Proof. vm_compute. reflexivity. Qed.

(** the 8-byte encoding of the base fee in the block's extra data is a
    bijection between [u64] values and 8-byte strings: decoding inverts
    encoding, encoding inverts decoding, any other length is rejected. *)
Theorem base_fee_bytes_roundtrip :
  (∀ f, u64 f → decode_base_fee_from_bytes (encode_base_fee_to_bytes f) = Some f)
  ∧ (∀ bs f, decode_base_fee_from_bytes bs = Some f →
       u64 f ∧ encode_base_fee_to_bytes f = bs)
  ∧ (∀ bs, length bs ≠ 8%nat → decode_base_fee_from_bytes bs = None).
Proof.
  split_and!; [apply decode_encode_base_fee|apply decode_base_fee_Some|].
  intros bs H. unfold decode_base_fee_from_bytes. by rewrite decide_True.
Qed.

(** whatever the ProtocolConfig contract returns (or nothing at all), the
    parameters used are within the network's bounds and the expected block
    gas limit is within the network's limits. *)
Theorem config_bounds_enforced cfg gl fp :
  BaseFeeConfig_wf cfg → BlockGasLimitConfig_wf gl →
  let p := resolve_calc_params cfg fp in
  bp_min (cfg_alpha cfg) ≤ calc_alpha p ≤ bp_max (cfg_alpha cfg)
  ∧ bp_min (cfg_k_rate cfg) ≤ calc_k_rate p ≤ bp_max (cfg_k_rate cfg)
  ∧ bp_min (cfg_inverse_elasticity_multiplier cfg)
      ≤ calc_inverse_elasticity_multiplier p
      ≤ bp_max (cfg_inverse_elasticity_multiplier cfg)
  ∧ bgl_min gl ≤ expected_gas_limit fp gl ≤ bgl_max gl
  ∧ (∀ f, fp = Some f → bgl_min gl ≤ blockGasLimit f ≤ bgl_max gl →
       expected_gas_limit fp gl = blockGasLimit f).
Proof.
  intros Hc Hg p. pose proof (resolve_calc_params_bounds cfg fp Hc) as (? & ? & ?).
  split; [done|]. split; [done|]. split; [done|].
  split; [by apply expected_gas_limit_bounds|].
  intros f -> Hf. by apply expected_gas_limit_in_range.
Qed.

Lemma config_bounds_enforced_witness :
  let cfg := mkBaseFeeConfig (mkBoundedParam 1 20 100) (mkBoundedParam 1 200 1000)
               (mkBoundedParam 1 5000 9000) 1 20000000000000 in
  calc_k_rate (resolve_calc_params cfg (Some (mkFeeParams 0 100000 0 0 0 0))) ≤ 1000.
Proof.
  intros cfg.
  refine (proj2 (proj1 (proj2 (config_bounds_enforced cfg
            (mkBlockGasLimitConfig 10 200 30) (Some (mkFeeParams 0 100000 0 0 0 0)) _ _)))).
  all: vm_compute; intuition congruence.
Defined.
