(* ===== verification/Hardforks.v ===== *)
(** * Hardfork schedules

    [crates/execution-config/src/hardforks.rs]: the Arc hardforks, the flags
    derived from a schedule at a (block, timestamp) pair, the schedules of the
    four networks.  reth's [ChainHardforks] is an interface: its operations
    are the class [ChainHardforks], its documented behaviour the class
    [ChainHardforksLaws]. *)

From S2P Require Import Prelude.

Inductive ArcHardfork := Zero3 | Zero4 | Zero5 | Zero6 | Zero7 | Zero8.

(** The Ethereum forks the schedules name. *)
Inductive EthereumHardfork :=
| Frontier | Homestead | Tangerine | SpuriousDragon | Byzantium | Constantinople
| Petersburg | Istanbul | MuirGlacier | Berlin | London | ArrowGlacier | GrayGlacier
| Paris | Shanghai | Cancun | Prague | Osaka.

#[export] Instance ArcHardfork_eq_dec : EqDecision ArcHardfork.
Proof. solve_decision. Defined.
#[export] Instance EthereumHardfork_eq_dec : EqDecision EthereumHardfork.
Proof. solve_decision. Defined.

(** A key of the schedule ([Box<dyn Hardfork>]). *)
Inductive Fork := Eth (f : EthereumHardfork) | Arc (f : ArcHardfork).
#[export] Instance Fork_eq_dec : EqDecision Fork.
Proof. solve_decision. Defined.

Inductive ForkCondition :=
| Block (n : Z)
| TTD (activation_block_number : Z) (fork_block : option Z) (total_difficulty : Z)
| Timestamp (t : Z)
| Never.

(** reth_ethereum_forks: the table and the activation tests. *)
Class ChainHardforks (H : Type) := {
  CH_new : list (Fork * ForkCondition) → H;
  CH_insert : H → Fork → ForkCondition → H;
  CH_fork : H → Fork → ForkCondition;
  active_at_block : ForkCondition → Z → bool;
  active_at_timestamp : ForkCondition → Z → bool;
}.

Class ChainHardforksLaws (H : Type) `{!ChainHardforks H} := {
  CH_fork_new : ∀ l f c, NoDup l.*1 → (f, c) ∈ l → CH_fork (CH_new l) f = c;
  CH_fork_insert : ∀ h f c, CH_fork (CH_insert h f c) f = c;
  CH_fork_insert_ne : ∀ h f g c, f ≠ g → CH_fork (CH_insert h f c) g = CH_fork h g;
  active_at_block_block : ∀ n b, active_at_block (Block n) b = bool_decide (n ≤ b);
  active_at_block_timestamp : ∀ t b, active_at_block (Timestamp t) b = false;
  active_at_timestamp_timestamp :
    ∀ t s, active_at_timestamp (Timestamp t) s = bool_decide (t ≤ s);
  active_at_timestamp_block : ∀ n s, active_at_timestamp (Block n) s = false;
  active_at_block_mono :
    ∀ c b b', b ≤ b' → active_at_block c b = true → active_at_block c b' = true;
  active_at_timestamp_mono :
    ∀ c t t', t ≤ t' → active_at_timestamp c t = true → active_at_timestamp c t' = true;
}.

(** ** Genesis-configured schedules *)

Record ArcGenesisInfo := mkArcGenesisInfo {
  zero_3_block : option Z;
  zero_4_block : option Z;
  zero_5_block : option Z;
  zero_6_block : option Z;
  zero_7_time : option Z;
  zero_8_time : option Z;
}.

Definition get_hardfork_conditions (self : ArcGenesisInfo)
    : list (ArcHardfork * ForkCondition) :=
  let hardforks :=
    foldl (λ acc '(fork_block, hardfork),
             match fork_block with
             | Some fork_block => acc ++ [(hardfork, Block fork_block)]
             | None => acc
             end) []
      [(zero_3_block self, Zero3); (zero_4_block self, Zero4);
       (zero_5_block self, Zero5); (zero_6_block self, Zero6)] in
  let hardforks := match zero_7_time self with
                   | Some time => hardforks ++ [(Zero7, Timestamp time)]
                   | None => hardforks
                   end in
  match zero_8_time self with
  | Some time => hardforks ++ [(Zero8, Timestamp time)]
  | None => hardforks
  end.

(** ** Flags *)

Record ArcHardforkFlags := mkFlags {
  zero3 : bool; zero4 : bool; zero5 : bool; zero6 : bool; zero7 : bool; zero8 : bool;
}.
#[export] Instance ArcHardforkFlags_eq_dec : EqDecision ArcHardforkFlags.
Proof. solve_decision. Defined.

Definition flags_default : ArcHardforkFlags := mkFlags false false false false false false.

Definition ALL_HARDFORKS : list ArcHardfork := [Zero3; Zero4; Zero5; Zero6; Zero7; Zero8].

Definition is_active (self : ArcHardforkFlags) (hardfork : ArcHardfork) : bool :=
  match hardfork with
  | Zero3 => zero3 self
  | Zero4 => zero4 self
  | Zero5 => zero5 self
  | Zero6 => zero6 self
  | Zero7 => zero7 self
  | Zero8 => zero8 self
  end.

Definition flags_set (self : ArcHardforkFlags) (hardfork : ArcHardfork) (value : bool)
    : ArcHardforkFlags :=
  let 'mkFlags z3 z4 z5 z6 z7 z8 := self in
  match hardfork with
  | Zero3 => mkFlags value z4 z5 z6 z7 z8
  | Zero4 => mkFlags z3 value z5 z6 z7 z8
  | Zero5 => mkFlags z3 z4 value z6 z7 z8
  | Zero6 => mkFlags z3 z4 z5 value z7 z8
  | Zero7 => mkFlags z3 z4 z5 z6 value z8
  | Zero8 => mkFlags z3 z4 z5 z6 z7 value
  end.

Definition flags_with (hardforks : list ArcHardfork) : ArcHardforkFlags :=
  foldl (λ flags hf, flags_set flags hf true) flags_default hardforks.

(** [bits & (1 << i) != 0] for every fork of index [i]. *)
Definition all_combinations : list ArcHardforkFlags :=
  let n := length ALL_HARDFORKS in
  (λ bits, foldl (λ flags '(i, hf),
                    if decide (Z.land bits (Z.shiftl 1 i) ≠ 0) then flags_set flags hf true
                    else flags)
             flags_default (zip (Z.of_nat <$> seq 0 n) ALL_HARDFORKS))
  <$> (Z.of_nat <$> seq 0 (Z.to_nat (Z.shiftl 1 (Z.of_nat n)))).

Section Schedules.
Context {H : Type} `{!ChainHardforks H}.

Definition is_fork_active_at_block (hardforks : H) (f : Fork) (block : Z) : bool :=
  active_at_block (CH_fork hardforks f) block.
Definition is_fork_active_at_timestamp (hardforks : H) (f : Fork) (timestamp : Z) : bool :=
  active_at_timestamp (CH_fork hardforks f) timestamp.

Definition from_chain_hardforks (hardforks : H) (block timestamp : Z) : ArcHardforkFlags :=
  foldl (λ flags hf,
           if is_fork_active_at_block hardforks (Arc hf) block
              || is_fork_active_at_timestamp hardforks (Arc hf) timestamp
           then flags_set flags hf true else flags)
    flags_default ALL_HARDFORKS.

Definition is_arc_fork_active (chain_spec : H) (fork : ArcHardfork)
    (block_number block_timestamp : Z) : bool :=
  is_fork_active_at_block chain_spec (Arc fork) block_number
  || is_fork_active_at_timestamp chain_spec (Arc fork) block_timestamp.

(** ** The schedules *)

Definition BASE_FORKS : H :=
  CH_new
    [(Eth Frontier, Block 0); (Eth Homestead, Block 0); (Eth Tangerine, Block 0);
     (Eth SpuriousDragon, Block 0); (Eth Byzantium, Block 0); (Eth Constantinople, Block 0);
     (Eth Petersburg, Block 0); (Eth Istanbul, Block 0); (Eth MuirGlacier, Block 0);
     (Eth Berlin, Block 0); (Eth London, Block 0); (Eth ArrowGlacier, Block 0);
     (Eth GrayGlacier, Block 0); (Eth Paris, TTD 0 None 0);
     (Eth Shanghai, Timestamp 0); (Eth Cancun, Timestamp 0); (Eth Prague, Timestamp 0)].

Definition ARC_LOCALDEV_HARDFORKS : H :=
  let forks := BASE_FORKS in
  let forks := CH_insert forks (Arc Zero3) (Block 0) in
  let forks := CH_insert forks (Arc Zero4) (Block 0) in
  let forks := CH_insert forks (Eth Osaka) (Timestamp 0) in
  let forks := CH_insert forks (Arc Zero5) (Block 0) in
  let forks := CH_insert forks (Arc Zero6) (Block 0) in
  let forks := CH_insert forks (Arc Zero7) (Timestamp 0) in
  CH_insert forks (Arc Zero8) (Timestamp 0).

Definition ARC_ZERO3_HARDFORK_BLOCK_ACTIVATION_DEVNET : Z := 7437594.
Definition ARC_ZERO3_HARDFORK_BLOCK_ACTIVATION_TESTNET : Z := 11172019.
Definition ARC_ZERO4_HARDFORK_BLOCK_ACTIVATION_DEVNET : Z := 19491165.
Definition ARC_ZERO4_HARDFORK_BLOCK_ACTIVATION_TESTNET : Z := 26148086.
Definition ARC_ZERO5_HARDFORK_BLOCK_ACTIVATION_DEVNET : Z := 32371192.
Definition ARC_ZERO5_HARDFORK_TIMESTAMP_ACTIVATION_TESTNET : Z := 1779894517.
Definition ARC_ZERO6_HARDFORK_BLOCK_ACTIVATION_DEVNET : Z := 40033853.
Definition ARC_ZERO6_HARDFORK_TIMESTAMP_ACTIVATION_TESTNET : Z := 1779894517.
Definition ARC_OSAKA_HARDFORK_TIMESTAMP_ACTIVATION_DEVNET : Z := 1775483400.
Definition ARC_OSAKA_HARDFORK_TIMESTAMP_ACTIVATION_TESTNET : Z := 1779890400.
Definition ARC_ZERO7_HARDFORK_TIMESTAMP_ACTIVATION_DEVNET : Z := 1780495200.
Definition ARC_ZERO7_HARDFORK_TIMESTAMP_ACTIVATION_TESTNET : Z := 1781791200.
Definition ARC_ZERO7_HARDFORK_TIMESTAMP_ACTIVATION_MAINNET : Z := 1789052400.
Definition ARC_ZERO8_HARDFORK_TIMESTAMP_ACTIVATION_DEVNET : Z := 1787756400.
Definition ARC_ZERO8_HARDFORK_TIMESTAMP_ACTIVATION_TESTNET : Z := 1788447600.
Definition ARC_ZERO8_HARDFORK_TIMESTAMP_ACTIVATION_MAINNET : Z := 1789052400.

Definition ARC_MAINNET_HARDFORKS : H :=
  let forks := BASE_FORKS in
  let forks := CH_insert forks (Arc Zero3) (Block 0) in
  let forks := CH_insert forks (Arc Zero4) (Block 0) in
  let forks := CH_insert forks (Eth Osaka) (Timestamp 0) in
  let forks := CH_insert forks (Arc Zero5) (Block 0) in
  let forks := CH_insert forks (Arc Zero6) (Block 0) in
  let forks := CH_insert forks (Arc Zero7)
                 (Timestamp ARC_ZERO7_HARDFORK_TIMESTAMP_ACTIVATION_MAINNET) in
  CH_insert forks (Arc Zero8) (Timestamp ARC_ZERO8_HARDFORK_TIMESTAMP_ACTIVATION_MAINNET).

Definition ARC_DEVNET_HARDFORKS : H :=
  let forks := BASE_FORKS in
  let forks := CH_insert forks (Arc Zero3) (Block ARC_ZERO3_HARDFORK_BLOCK_ACTIVATION_DEVNET) in
  let forks := CH_insert forks (Arc Zero4) (Block ARC_ZERO4_HARDFORK_BLOCK_ACTIVATION_DEVNET) in
  let forks := CH_insert forks (Eth Osaka)
                 (Timestamp ARC_OSAKA_HARDFORK_TIMESTAMP_ACTIVATION_DEVNET) in
  let forks := CH_insert forks (Arc Zero5) (Block ARC_ZERO5_HARDFORK_BLOCK_ACTIVATION_DEVNET) in
  let forks := CH_insert forks (Arc Zero6) (Block ARC_ZERO6_HARDFORK_BLOCK_ACTIVATION_DEVNET) in
  let forks := CH_insert forks (Arc Zero7)
                 (Timestamp ARC_ZERO7_HARDFORK_TIMESTAMP_ACTIVATION_DEVNET) in
  CH_insert forks (Arc Zero8) (Timestamp ARC_ZERO8_HARDFORK_TIMESTAMP_ACTIVATION_DEVNET).

Definition ARC_TESTNET_HARDFORKS : H :=
  let forks := BASE_FORKS in
  let forks := CH_insert forks (Arc Zero3) (Block ARC_ZERO3_HARDFORK_BLOCK_ACTIVATION_TESTNET) in
  let forks := CH_insert forks (Arc Zero4) (Block ARC_ZERO4_HARDFORK_BLOCK_ACTIVATION_TESTNET) in
  let forks := CH_insert forks (Eth Osaka)
                 (Timestamp ARC_OSAKA_HARDFORK_TIMESTAMP_ACTIVATION_TESTNET) in
  let forks := CH_insert forks (Arc Zero5)
                 (Timestamp ARC_ZERO5_HARDFORK_TIMESTAMP_ACTIVATION_TESTNET) in
  let forks := CH_insert forks (Arc Zero6)
                 (Timestamp ARC_ZERO6_HARDFORK_TIMESTAMP_ACTIVATION_TESTNET) in
  let forks := CH_insert forks (Arc Zero7)
                 (Timestamp ARC_ZERO7_HARDFORK_TIMESTAMP_ACTIVATION_TESTNET) in
  CH_insert forks (Arc Zero8) (Timestamp ARC_ZERO8_HARDFORK_TIMESTAMP_ACTIVATION_TESTNET).

End Schedules.
Arguments BASE_FORKS H {_} : simpl never.
Arguments ARC_LOCALDEV_HARDFORKS H {_}.
Arguments ARC_MAINNET_HARDFORKS H {_}.
Arguments ARC_DEVNET_HARDFORKS H {_}.
Arguments ARC_TESTNET_HARDFORKS H {_}.

(** ** A concrete table, for the witnesses

    The list of insertions, newest first. *)
#[export] Instance table_hardforks : ChainHardforks (list (Fork * ForkCondition)) := {|
  CH_new l := l;
  CH_insert h f c := (f, c) :: h;
  CH_fork h f := match list_find (λ p, p.1 = f) h with
                 | Some (_, (_, c)) => c
                 | None => Never
                 end;
  active_at_block c b := match c with Block n => bool_decide (n ≤ b) | _ => false end;
  active_at_timestamp c t := match c with Timestamp n => bool_decide (n ≤ t) | _ => false end;
|}.

Lemma list_find_NoDup_fst (l : list (Fork * ForkCondition)) f c :
  NoDup l.*1 → (f, c) ∈ l → ∃ i, list_find (λ p, p.1 = f) l = Some (i, (f, c)).
Proof.
  induction l as [|[g d] l IH]; simpl; intros ND Hin; [by apply not_elem_of_nil in Hin|].
  apply NoDup_cons in ND as [Hni ND]. apply elem_of_cons in Hin as [[= -> ->]|Hin].
  - exists 0%nat. by rewrite decide_True.
  - destruct (IH ND Hin) as [i E]. exists (S i).
    rewrite decide_False; [by rewrite E|].
    intros ->. apply Hni, list_elem_of_fmap. by exists (f, c).
Qed.

#[export] Instance table_hardforks_laws : ChainHardforksLaws (list (Fork * ForkCondition)).
Proof.
  split; simpl; try done.
  - intros l f c ND Hin. by destruct (list_find_NoDup_fst l f c ND Hin) as [i ->].
  - intros h f c. by rewrite decide_True.
  - intros h f g c Hne. rewrite decide_False by done. by destruct (list_find _ h) as [[? []]|].
  - intros [] b b' ?; try done. rewrite !bool_decide_eq_true. lia.
  - intros [] b b' ?; try done. rewrite !bool_decide_eq_true. lia.
Qed.

(** ** Properties *)

Section Properties.
Context {H : Type} `{!ChainHardforks H, !ChainHardforksLaws H}.

Lemma is_active_set fl f g v :
  is_active (flags_set fl f v) g = if decide (f = g) then v else is_active fl g.
Proof. by destruct fl, f, g. Qed.

Lemma is_active_fold (cond : ArcHardfork → bool) l fl f :
  is_active (foldl (λ flags hf, if cond hf then flags_set flags hf true else flags) fl l) f
  = is_active fl f || (bool_decide (f ∈ l) && cond f).
Proof.
  revert fl. induction l as [|g l IH]; intros fl; simpl.
  { by rewrite orb_false_r. }
  rewrite IH. destruct (decide (g = f)) as [->|Hne].
  - rewrite (bool_decide_true (f ∈ f :: l)) by (apply elem_of_cons; auto).
    destruct (cond f); [rewrite is_active_set, decide_True by done|].
    + by rewrite orb_true_r.
    + by rewrite !andb_false_r.
  - rewrite (bool_decide_ext (f ∈ g :: l) (f ∈ l)) by (rewrite elem_of_cons; naive_solver).
    destruct (cond g); [|done]. by rewrite is_active_set, decide_False.
Qed.

Lemma elem_of_ALL_HARDFORKS f : f ∈ ALL_HARDFORKS.
Proof. unfold ALL_HARDFORKS. destruct f; set_solver. Qed.

Lemma from_chain_hardforks_active h b t f :
  is_active (from_chain_hardforks h b t) f = is_arc_fork_active h f b t.
Proof.
  etransitivity;
    [apply (is_active_fold (λ hf, is_arc_fork_active h hf b t) ALL_HARDFORKS flags_default)|].
  rewrite bool_decide_true by apply elem_of_ALL_HARDFORKS. by destruct f.
Qed.

Lemma flags_ext fl fl' : (∀ f, is_active fl f = is_active fl' f) → fl = fl'.
Proof.
  intros E. destruct fl, fl'.
  pose proof (E Zero3); pose proof (E Zero4); pose proof (E Zero5);
    pose proof (E Zero6); pose proof (E Zero7); pose proof (E Zero8).
  simpl in *. congruence.
Qed.

(** the EVM-level flags agree with the runtime gate for every Arc hardfork
    at every (block, timestamp), so no fork is left out of the derived flags. *)
Theorem flags_match_runtime_gate h b t f :
  is_active (from_chain_hardforks h b t) f = is_arc_fork_active h f b t.
Proof. apply from_chain_hardforks_active. Qed.

(** along a chain (block number and timestamp never decrease) an active
    hardfork stays active, whatever the schedule. *)
Theorem hardforks_never_deactivate h b t b' t' f :
  b ≤ b' → t ≤ t' →
  is_active (from_chain_hardforks h b t) f = true →
  is_active (from_chain_hardforks h b' t') f = true.
Proof.
  intros Hb Ht. rewrite !from_chain_hardforks_active.
  unfold is_arc_fork_active, is_fork_active_at_block, is_fork_active_at_timestamp.
  rewrite !orb_true_iff.
  intros [?|?]; [left; by eapply active_at_block_mono|right; by eapply active_at_timestamp_mono].
Qed.

Lemma active_block h f n b t :
  CH_fork h (Arc f) = Block n → is_arc_fork_active h f b t = bool_decide (n ≤ b).
Proof.
  intros E. unfold is_arc_fork_active, is_fork_active_at_block, is_fork_active_at_timestamp.
  by rewrite E, active_at_block_block, active_at_timestamp_block, orb_false_r.
Qed.

Lemma active_timestamp h f n b t :
  CH_fork h (Arc f) = Timestamp n → is_arc_fork_active h f b t = bool_decide (n ≤ t).
Proof.
  intros E. unfold is_arc_fork_active, is_fork_active_at_block, is_fork_active_at_timestamp.
  by rewrite E, active_at_block_timestamp, active_at_timestamp_timestamp.
Qed.

Ltac lookup_fork :=
  repeat (rewrite CH_fork_insert_ne by done); first [apply CH_fork_insert | reflexivity].

Ltac schedule :=
  apply flags_ext; intros f; rewrite from_chain_hardforks_active;
  destruct f; simpl is_active;
  first [ erewrite active_block by lookup_fork | erewrite active_timestamp by lookup_fork ];
  first [ reflexivity | by apply bool_decide_true ].

(** the activation table of the four networks.  On mainnet and localdev
    Zero3 to Zero6 are active from genesis; on devnet they activate by block
    and on testnet Zero5 and Zero6 by timestamp; Zero7 and Zero8 always
    activate by timestamp. *)
Theorem network_schedules b t :
  0 ≤ b → 0 ≤ t →
  from_chain_hardforks (ARC_LOCALDEV_HARDFORKS H) b t = mkFlags true true true true true true
  ∧ from_chain_hardforks (ARC_MAINNET_HARDFORKS H) b t =
      mkFlags true true true true (bool_decide (1789052400 ≤ t)) (bool_decide (1789052400 ≤ t))
  ∧ from_chain_hardforks (ARC_DEVNET_HARDFORKS H) b t =
      mkFlags (bool_decide (7437594 ≤ b)) (bool_decide (19491165 ≤ b))
        (bool_decide (32371192 ≤ b)) (bool_decide (40033853 ≤ b))
        (bool_decide (1780495200 ≤ t)) (bool_decide (1787756400 ≤ t))
  ∧ from_chain_hardforks (ARC_TESTNET_HARDFORKS H) b t =
      mkFlags (bool_decide (11172019 ≤ b)) (bool_decide (26148086 ≤ b))
        (bool_decide (1779894517 ≤ t)) (bool_decide (1779894517 ≤ t))
        (bool_decide (1781791200 ≤ t)) (bool_decide (1788447600 ≤ t)).
Proof.
  intros Hb Ht. unfold ARC_LOCALDEV_HARDFORKS, ARC_MAINNET_HARDFORKS, ARC_DEVNET_HARDFORKS,
    ARC_TESTNET_HARDFORKS. split_and!; schedule.
Qed.

End Properties.

Lemma flags_match_runtime_gate_witness :
  is_arc_fork_active (ARC_DEVNET_HARDFORKS (list (Fork * ForkCondition))) Zero5 32371192 0 = true.
Proof. rewrite <- (flags_match_runtime_gate _ 32371192 0 Zero5). vm_compute. reflexivity. Defined.

Lemma hardforks_never_deactivate_witness :
  is_active (from_chain_hardforks (ARC_DEVNET_HARDFORKS (list (Fork * ForkCondition)))
               20000000 1800000000) Zero4 = true.
Proof. apply (hardforks_never_deactivate _ 19491165 0); [lia|lia|vm_compute; reflexivity]. Defined.

Lemma network_schedules_witness :
  from_chain_hardforks (ARC_MAINNET_HARDFORKS (list (Fork * ForkCondition))) 7 1789052400
  = mkFlags true true true true true true.
Proof.
  rewrite (proj1 (proj2 (network_schedules 7 1789052400 ltac:(lia) ltac:(lia)))).
  vm_compute. reflexivity.
Defined.

(** [all_combinations] enumerates every flag assignment exactly once. *)
Theorem all_combinations_exhaustive :
  NoDup all_combinations ∧ ∀ fl, fl ∈ all_combinations.
Proof.
  split.
  - apply (bool_decide_unpack _). vm_compute. exact I.
  - intros fl. apply (bool_decide_unpack _).
    destruct fl as [[] [] [] [] [] []]; vm_compute; exact I.
Qed.
