(* ===== verification/ChainSpec.v ===== *)
(** * Chain specifications

    [crates/execution-config/src/chainspec.rs]: chain ids, the per-network
    gas-limit and base-fee configurations, the hardfork table chosen for a
    genesis, the denylist address and the next block's base fee.  reth's
    [ChainSpec] is represented by its chain id, its hardfork table and the
    genesis it was built from. *)

From S2P Require Import Prelude GasFee Hardforks.

(** crates/shared/src/chain_ids.rs *)
Definition MAINNET_CHAIN_ID : Z := 5042.
Definition DEVNET_CHAIN_ID : Z := 5042001.
Definition TESTNET_CHAIN_ID : Z := 5042002.
Definition LOCALDEV_CHAIN_ID : Z := 1337.

(** 20-byte addresses as 160-bit integers. *)
Definition DENYLIST_ADDRESS_DEVNET : Z := 0x36061d38f2d939249A947f1254097e0FFC9e2993.
Definition DENYLIST_ADDRESS_TESTNET : Z := 0x360b451bb0490637F52fa1794961455615777757.
Definition DENYLIST_ADDRESS_MAINNET : Z := 0x3600000000000000000000000000000000000004.

(** The part of a genesis file that [From<Genesis>] reads: the chain id and the
    Arc fields of [config.extra_fields] (absent when they do not parse). *)
Record Genesis := mkGenesis {
  genesis_chain_id : Z;
  genesis_extra : option ArcGenesisInfo;
}.

Record ArcChainSpec (H : Type) := mkArcChainSpec {
  spec_chain_id : Z;
  spec_hardforks : H;
}.
Arguments mkArcChainSpec {H}.
Arguments spec_chain_id {H}.
Arguments spec_hardforks {H}.

(** The header fields that the Arc code and the reth validators it calls read. *)
Record Header := mkHeader {
  hash : Z;
  parent_hash : Z;
  blob_gas_used : option Z;
  excess_blob_gas : option Z;
  number : Z;
  timestamp : Z;
  gas_limit : Z;
  gas_used : Z;
  base_fee_per_gas : option Z;
  extra_data : bytes;
  beneficiary : Z;
}.

(** The Rust types of the header's integers. *)
Definition Header_wf (h : Header) : Prop :=
  u64 (number h) ∧ u64 (timestamp h) ∧ u64 (gas_limit h) ∧ u64 (gas_used h)
  ∧ (∀ f, base_fee_per_gas h = Some f → u64 f).

Definition BASE_FEE_CONFIG_MAINNET : BaseFeeConfig :=
  mkBaseFeeConfig (mkBoundedParam 1 20 100) (mkBoundedParam 1 200 1000)
    (mkBoundedParam 1 5000 9000) 1 20000000000000.
Definition BASE_FEE_CONFIG_TESTNET : BaseFeeConfig :=
  mkBaseFeeConfig (mkBoundedParam 1 20 100) (mkBoundedParam 1 200 1000)
    (mkBoundedParam 1 5000 9000) 1 20000000000000.
Definition BASE_FEE_CONFIG_DEFAULT : BaseFeeConfig :=
  mkBaseFeeConfig (mkBoundedParam 1 20 100) (mkBoundedParam 1 200 10000)
    (mkBoundedParam 1 5000 10000) 1 (U64_MAX - 1).

Section ChainSpec.
Context {H : Type} `{!ChainHardforks H}.
Implicit Types self : ArcChainSpec H.

Definition denylist_address (DENYLIST_ADDRESS_LOCALDEV : Z) self : option Z :=
  let id := spec_chain_id self in
  if decide (id = LOCALDEV_CHAIN_ID) then Some DENYLIST_ADDRESS_LOCALDEV
  else if decide (id = DEVNET_CHAIN_ID) then Some DENYLIST_ADDRESS_DEVNET
  else if decide (id = TESTNET_CHAIN_ID) then Some DENYLIST_ADDRESS_TESTNET
  else if decide (id = MAINNET_CHAIN_ID) then Some DENYLIST_ADDRESS_MAINNET
  else None.

Definition get_hardfork_flags self (height timestamp : Z) : ArcHardforkFlags :=
  from_chain_hardforks (spec_hardforks self) height timestamp.

(** The limits handed to [BlockGasLimitConfig::new]. *)
Definition block_gas_limit_bounds self : Z * Z :=
  let id := spec_chain_id self in
  if decide (id = MAINNET_CHAIN_ID) then (10000000, 200000000)
  else if decide (id = TESTNET_CHAIN_ID) then (10000000, 200000000)
  else (1000000, 1000000000).

(** The configuration whose [assert!] [block_gas_limit_config_no_panic] proves. *)
#[export] Instance spec_block_gas_limit : BlockGasLimitProvider (ArcChainSpec H) :=
  λ self _block_height,
    let '(min, max) := block_gas_limit_bounds self in
    mkBlockGasLimitConfig min max 30000000.

#[export] Instance spec_base_fee : BaseFeeConfigProvider (ArcChainSpec H) :=
  λ self _block_height,
    let id := spec_chain_id self in
    if decide (id = MAINNET_CHAIN_ID) then BASE_FEE_CONFIG_MAINNET
    else if decide (id = TESTNET_CHAIN_ID) then BASE_FEE_CONFIG_TESTNET
    else BASE_FEE_CONFIG_DEFAULT.

(** [From<Genesis>]; [from_genesis] is reth's [ChainSpec::from_genesis]. *)
Definition ArcChainSpec_from (from_genesis : Genesis → H) (genesis : Genesis) : ArcChainSpec H :=
  let id := genesis_chain_id genesis in
  let hardforks :=
    if decide (id = MAINNET_CHAIN_ID) then ARC_MAINNET_HARDFORKS H
    else if decide (id = DEVNET_CHAIN_ID) then ARC_DEVNET_HARDFORKS H
    else if decide (id = TESTNET_CHAIN_ID) then ARC_TESTNET_HARDFORKS H
    else match genesis_extra genesis with
         | Some extra =>
             foldl (λ inner '(hardfork, condition), CH_insert inner (Arc hardfork) condition)
               (from_genesis genesis) (get_hardfork_conditions extra)
         | None => from_genesis genesis
         end in
  mkArcChainSpec id hardforks.

(** [bundled_chainspec_for_chain_id], over the four bundled networks. *)
Definition bundled_chainspec_for_chain_id (chain_id : Z) : option (ArcChainSpec H) :=
  if decide (chain_id = LOCALDEV_CHAIN_ID)
  then Some (mkArcChainSpec LOCALDEV_CHAIN_ID (ARC_LOCALDEV_HARDFORKS H))
  else if decide (chain_id = MAINNET_CHAIN_ID)
  then Some (mkArcChainSpec MAINNET_CHAIN_ID (ARC_MAINNET_HARDFORKS H))
  else if decide (chain_id = DEVNET_CHAIN_ID)
  then Some (mkArcChainSpec DEVNET_CHAIN_ID (ARC_DEVNET_HARDFORKS H))
  else if decide (chain_id = TESTNET_CHAIN_ID)
  then Some (mkArcChainSpec TESTNET_CHAIN_ID (ARC_TESTNET_HARDFORKS H))
  else None.

Definition next_block_base_fee self (parent : Header) (_target_timestamp : Z) : option Z :=
  let child_number := saturating_add 64 (number parent) 1 in
  let base_fee_config := base_fee_config self child_number in
  match decode_base_fee_from_bytes (extra_data parent) with
  | Some base_fee => Some base_fee
  | None =>
      let calc := resolve_calc_params base_fee_config None in
      let raw := arc_calc_next_block_base_fee (gas_used parent) (gas_limit parent)
                   (default 0 (base_fee_per_gas parent))
                   (calc_k_rate calc) (calc_inverse_elasticity_multiplier calc) in
      Some (clamp_absolute base_fee_config raw)
  end.

(** ** Lemmas and properties *)

Lemma base_fee_config_wf self h : BaseFeeConfig_wf (base_fee_config self h).
Proof.
  unfold base_fee_config, spec_base_fee. repeat case_decide; vm_compute; intuition congruence.
Qed.

Lemma block_gas_limit_config_wf self h : BlockGasLimitConfig_wf (block_gas_limit_config self h).
Proof.
  unfold block_gas_limit_config, spec_block_gas_limit, block_gas_limit_bounds.
  repeat case_decide; vm_compute; intuition congruence.
Qed.

(** no constructor assertion of the chain configurations can fail: on every
    chain id the gas-limit, parameter and base-fee configurations are the
    values their checked constructors return. *)
Theorem chain_configs_never_panic self h :
  let gl := block_gas_limit_config self h in
  let bf := base_fee_config self h in
  BlockGasLimitConfig_new (bgl_min gl) (bgl_max gl) (bgl_default gl) = Some gl
  ∧ BaseFeeConfig_new (cfg_alpha bf) (cfg_k_rate bf) (cfg_inverse_elasticity_multiplier bf)
      (absolute_min_base_fee bf) (absolute_max_base_fee bf) = Some bf
  ∧ Forall (λ p, BoundedParam_new (bp_min p) (bp_default p) (bp_max p) = Some p)
      [cfg_alpha bf; cfg_k_rate bf; cfg_inverse_elasticity_multiplier bf].
Proof.
  pose proof (block_gas_limit_config_wf self h) as (_ & ? & _).
  pose proof (base_fee_config_wf self h) as ((_ & ? & _) & (_ & ? & _) & (_ & ? & _) & ? & _).
  generalize dependent (block_gas_limit_config self h).
  generalize dependent (base_fee_config self h).
  intros [[] [] [] ? ?] ???? [] ?; simpl in *.
  unfold BlockGasLimitConfig_new, BaseFeeConfig_new, BoundedParam_new.
  split_and!; [..|repeat apply Forall_cons_2; simpl; try apply Forall_nil_2];
    by rewrite decide_True by lia.
Qed.

Lemma clamp_absolute_bounds c f :
  BaseFeeConfig_wf c → absolute_min_base_fee c ≤ clamp_absolute c f ≤ absolute_max_base_fee c.
Proof. intros (_ & _ & _ & [? ?] & _). by apply clamp_bounds. Qed.

Lemma clamp_absolute_u64 c f : BaseFeeConfig_wf c → u64 (clamp_absolute c f).
Proof.
  intros W. pose proof (clamp_absolute_bounds c f W).
  destruct W as (_ & _ & _ & [? ?] & [? ?]). unfold uint. lia.
Qed.

(** a next base fee always exists and is a positive-width [u64]; it is the
    value of the parent's extra data when that is 8 bytes long, and otherwise
    lies within the network's absolute bounds. *)
Theorem next_block_base_fee_total self parent ts :
  ∃ f, next_block_base_fee self parent ts = Some f ∧ u64 f
    ∧ match decode_base_fee_from_bytes (extra_data parent) with
      | Some g => f = g
      | None =>
          let c := base_fee_config self (saturating_add 64 (number parent) 1) in
          absolute_min_base_fee c ≤ f ≤ absolute_max_base_fee c
      end.
Proof.
  unfold next_block_base_fee.
  destruct (decode_base_fee_from_bytes (extra_data parent)) as [g|] eqn:E.
  - exists g. split_and!; try done. by apply decode_base_fee_Some in E as [? _].
  - pose proof (base_fee_config_wf self (saturating_add 64 (number parent) 1)) as W.
    eexists. split; [done|]. split; [|by apply clamp_absolute_bounds].
    eapply clamp_absolute_u64, W.
Qed.

Context `{!ChainHardforksLaws H}.

Lemma fold_insert_fork (l : list (ArcHardfork * ForkCondition)) h f :
  CH_fork (foldl (λ inner '(hardfork, condition), CH_insert inner (Arc hardfork) condition) h l)
    (Arc f)
  = match last (filter (λ p, p.1 = f) l) with
    | Some (_, c) => c
    | None => CH_fork h (Arc f)
    end.
Proof.
  revert h. induction l as [|[g c] l IH]; intros h; simpl; [done|].
  rewrite IH, filter_cons. simpl. case_decide as E; simpl in E.
  - subst g. rewrite last_cons. destruct (last (filter _ l)) as [[]|]; [done|].
    by rewrite CH_fork_insert.
  - destruct (last _) as [[]|]; [done|]. rewrite CH_fork_insert_ne; naive_solver.
Qed.

(** on a chain without a built-in schedule, each Arc hardfork that the
    genesis names activates exactly as the genesis says: Zero3 to Zero6 from
    their block, Zero7 and Zero8 from their timestamp; a fork the genesis does
    not name keeps reth's own condition.  The built-in networks ignore the
    genesis fields. *)
Theorem genesis_schedule from_genesis g b t f :
  let spec := ArcChainSpec_from from_genesis g in
  (genesis_chain_id g = MAINNET_CHAIN_ID →
     get_hardfork_flags spec b t = from_chain_hardforks (ARC_MAINNET_HARDFORKS H) b t)
  ∧ (genesis_chain_id g = DEVNET_CHAIN_ID →
     get_hardfork_flags spec b t = from_chain_hardforks (ARC_DEVNET_HARDFORKS H) b t)
  ∧ (genesis_chain_id g = TESTNET_CHAIN_ID →
     get_hardfork_flags spec b t = from_chain_hardforks (ARC_TESTNET_HARDFORKS H) b t)
  ∧ (genesis_chain_id g ∉ [MAINNET_CHAIN_ID; DEVNET_CHAIN_ID; TESTNET_CHAIN_ID] →
     ∀ e, genesis_extra g = Some e →
     is_active (get_hardfork_flags spec b t) f =
     match f with
     | Zero3 => from_option (λ n, bool_decide (n ≤ b)) (is_arc_fork_active (from_genesis g) f b t) (zero_3_block e)
     | Zero4 => from_option (λ n, bool_decide (n ≤ b)) (is_arc_fork_active (from_genesis g) f b t) (zero_4_block e)
     | Zero5 => from_option (λ n, bool_decide (n ≤ b)) (is_arc_fork_active (from_genesis g) f b t) (zero_5_block e)
     | Zero6 => from_option (λ n, bool_decide (n ≤ b)) (is_arc_fork_active (from_genesis g) f b t) (zero_6_block e)
     | Zero7 => from_option (λ n, bool_decide (n ≤ t)) (is_arc_fork_active (from_genesis g) f b t) (zero_7_time e)
     | Zero8 => from_option (λ n, bool_decide (n ≤ t)) (is_arc_fork_active (from_genesis g) f b t) (zero_8_time e)
     end).
Proof.
  intros spec. subst spec. unfold get_hardfork_flags, ArcChainSpec_from. simpl.
  split_and!; try (intros ->; by vm_compute).
  intros Hid e He. rewrite !not_elem_of_cons in Hid. destruct Hid as (? & ? & ? & _).
  rewrite !decide_False, He by done. rewrite from_chain_hardforks_active.
  unfold is_arc_fork_active at 1, is_fork_active_at_block, is_fork_active_at_timestamp.
  rewrite fold_insert_fork. destruct e as [[] [] [] [] [] []], f; simpl;
  rewrite ?active_at_block_block, ?active_at_timestamp_block, ?active_at_block_timestamp,
    ?active_at_timestamp_timestamp, ?orb_false_r; done.
Qed.

End ChainSpec.

Lemma genesis_schedule_witness :
  is_active (get_hardfork_flags (ArcChainSpec_from (λ _, BASE_FORKS (list (Fork * ForkCondition)))
     (mkGenesis 1337 (Some (mkArcGenesisInfo (Some 5) None None None None (Some 9))))) 5 0) Zero3
  = true.
Proof.
  rewrite (proj2 (proj2 (proj2 (genesis_schedule (λ _, BASE_FORKS (list (Fork * ForkCondition)))
     (mkGenesis 1337 (Some (mkArcGenesisInfo (Some 5) None None None None (Some 9)))) 5 0 Zero3)))
     ltac:(by vm_compute; intros E; repeat apply elem_of_cons in E as [E|E]; try done;
             apply not_elem_of_nil in E) _ eq_refl).
  vm_compute. reflexivity.
Defined.
