(* ===== verification/Validation.v ===== *)
(** * Header validation

    [crates/execution-validation/src/consensus.rs]: the [ArcConsensus] header
    checks, alone and against the parent.  The validators of
    [reth_consensus_common] that it calls are the class [RethValidation]; what
    the theorems rely on about them is [RethValidationLaws]. *)

From S2P Require Import Prelude GasFee Hardforks ChainSpec.

Inductive ConsensusError (R : Type) :=
| TimestampIsInPast (parent_timestamp timestamp : Z)
| BaseFeeMissing
| BaseFeeDiff (got expected : Z)
| ParentExtraDataLength (len : nat)
| ExtraDataLength (len : nat)
| GasLimitOutsideBounds (gas_limit min max : Z)
| ZeroBeneficiary
| Reth (e : R).
Arguments TimestampIsInPast {R}.
Arguments BaseFeeMissing {R}.
Arguments BaseFeeDiff {R}.
Arguments ParentExtraDataLength {R}.
Arguments ExtraDataLength {R}.
Arguments GasLimitOutsideBounds {R}.
Arguments ZeroBeneficiary {R}.
Arguments Reth {R}.

(** reth_consensus_common::validation *)
Class RethValidation (CS R BP : Type) := {
  validate_header_gas : Header → result R unit;
  validate_against_parent_hash_number : Header → Header → result R unit;
  validate_against_parent_4844 : Header → Header → BP → result R unit;
  validate_header_base_fee : Header → CS → result R unit;
  blob_params_at_timestamp : CS → Z → option BP;
}.

(** Their documented behaviour: a child names its parent's hash and has the next
    number; the gas used is at most the gas limit; the EIP-1559 field is present
    (London is active from genesis on every Arc chain). *)
Class RethValidationLaws (CS R BP : Type) `{!RethValidation CS R BP} := {
  header_gas_ok : ∀ h, validate_header_gas h = Ok () → gas_used h ≤ gas_limit h;
  hash_number_ok : ∀ h p, validate_against_parent_hash_number h p = Ok () →
    number h = number p + 1 ∧ parent_hash h = hash p;
  header_base_fee_ok : ∀ h cs, validate_header_base_fee h cs = Ok () →
    is_Some (base_fee_per_gas h);
}.

Section Validation.
Context {CS R BP : Type} `{!BlockGasLimitProvider CS, !BaseFeeConfigProvider CS}.
Context `{!RethValidation CS R BP}.
Abbreviation res := (result (ConsensusError R) unit).

Definition arc_validate_against_parent_timestamp (header parent : Header) : res :=
  if decide (timestamp header < timestamp parent)
  then Err (TimestampIsInPast (timestamp parent) (timestamp header))
  else Ok ().

Definition arc_validate_against_parent_base_fee (header parent : Header) : res :=
  if decide (number parent = 0) then Ok () else
  match decode_base_fee_from_bytes (extra_data parent) with
  | None => Err (ParentExtraDataLength (length (extra_data parent)))
  | Some expected_base_fee =>
      actual_base_fee ← ok_or (base_fee_per_gas header) BaseFeeMissing;
      if decide (expected_base_fee ≠ actual_base_fee)
      then Err (BaseFeeDiff actual_base_fee expected_base_fee)
      else Ok ()
  end.

Definition arc_validate_extra_data_format (header : Header) : res :=
  let len := length (extra_data header) in
  if decide (len ≠ 8%nat) then Err (ExtraDataLength len) else Ok ().

Definition arc_validate_header_base_fee (header : Header) (chain_spec : CS) : res :=
  _ ← map_err Reth (validate_header_base_fee header chain_spec);
  match base_fee_per_gas header with
  | None => Ok ()
  | Some base_fee =>
      let config := base_fee_config chain_spec (number header) in
      let clamped := clamp base_fee (absolute_min_base_fee config)
                       (absolute_max_base_fee config) in
      if decide (base_fee ≠ clamped) then Err (BaseFeeDiff base_fee clamped) else Ok ()
  end.

Definition arc_validate_gas_limit_bounds (header : Header) (chain_spec : CS) : res :=
  let gas_limit := gas_limit header in
  let config := block_gas_limit_config chain_spec (number header) in
  if decide (gas_limit < bgl_min config ∨ gas_limit > bgl_max config)
  then Err (GasLimitOutsideBounds gas_limit (bgl_min config) (bgl_max config))
  else Ok ().

Definition arc_validate_beneficiary_nonzero (header : Header) : res :=
  if decide (beneficiary header = 0) then Err ZeroBeneficiary else Ok ().

Definition validate_header (self : CS) (header : Header) : res :=
  _ ← map_err Reth (validate_header_gas header);
  _ ← arc_validate_gas_limit_bounds header self;
  _ ← arc_validate_extra_data_format header;
  _ ← arc_validate_header_base_fee header self;
  _ ← arc_validate_beneficiary_nonzero header;
  Ok ().

Definition validate_header_against_parent (self : CS) (header parent : Header) : res :=
  _ ← map_err Reth (validate_against_parent_hash_number header parent);
  _ ← arc_validate_against_parent_timestamp header parent;
  _ ← arc_validate_against_parent_base_fee header parent;
  _ ← match blob_params_at_timestamp self (timestamp header) with
      | Some blob_params => map_err Reth (validate_against_parent_4844 header parent blob_params)
      | None => Ok ()
      end;
  Ok ().

(** A chain as the node admits it: the newest header first, every header
    validated alone and against its parent. *)
Inductive admitted (self : CS) : list Header → Prop :=
| admitted_genesis g : admitted self [g]
| admitted_child h p hs :
    validate_header self h = Ok () →
    validate_header_against_parent self h p = Ok () →
    admitted self (p :: hs) →
    admitted self (h :: p :: hs).

(** ** Lemmas *)

Context `{!RethValidationLaws CS R BP}.

Lemma validate_header_inv self h :
  (∀ n, BaseFeeConfig_wf (base_fee_config self n)) →
  validate_header self h = Ok () →
  gas_used h ≤ gas_limit h
  ∧ bgl_min (block_gas_limit_config self (number h)) ≤ gas_limit h
    ≤ bgl_max (block_gas_limit_config self (number h))
  ∧ length (extra_data h) = 8%nat
  ∧ (∃ f, base_fee_per_gas h = Some f
       ∧ absolute_min_base_fee (base_fee_config self (number h)) ≤ f
         ≤ absolute_max_base_fee (base_fee_config self (number h)))
  ∧ beneficiary h ≠ 0.
Proof.
  intros W V. unfold validate_header in V. binds.
  unfold arc_validate_gas_limit_bounds, arc_validate_extra_data_format,
    arc_validate_header_base_fee, arc_validate_beneficiary_nonzero in *.
  binds. repeat case_decide; simplify_eq.
  split; [by apply header_gas_ok|]. split; [lia|].
  destruct (decide (length (extra_data h) = 8%nat)); [|done].
  split; [done|]. split; [|done].
  destruct (header_base_fee_ok h self) as [f Hf]; [done|].
  exists f. split; [done|]. rewrite Hf in *. case_decide as E; [done|].
  destruct (W (number h)) as (_ & _ & _ & [_ ?] & _).
  apply clamp_fixpoint; [done|]. lia.
Qed.

Lemma validate_against_parent_inv self h p :
  validate_header_against_parent self h p = Ok () →
  number h = number p + 1 ∧ parent_hash h = hash p ∧ timestamp p ≤ timestamp h
  ∧ (number p = 0 ∨ ∃ f, decode_base_fee_from_bytes (extra_data p) = Some f
                         ∧ base_fee_per_gas h = Some f).
Proof.
  intros V. unfold validate_header_against_parent in V. binds.
  unfold arc_validate_against_parent_timestamp, arc_validate_against_parent_base_fee in *.
  destruct (hash_number_ok h p) as [? ?]; [done|].
  destruct (decide (timestamp h < timestamp p)); [done|]. split_and!; try done; [lia|].
  destruct (decide (number p = 0)); [by left|right].
  destruct (decode_base_fee_from_bytes _) as [e|]; [|done].
  destruct (base_fee_per_gas h) as [a|]; simpl in *; [|done].
  case_decide as E; [done|]. exists e. split; [done|]. f_equal.
  destruct (decide (e = a)); congruence.
Qed.

(** ** Properties *)

(** C28: header validation accepts a header exactly when the reth gas and
    EIP-1559 checks accept it, its gas limit is within the network's bounds,
    its extra data is 8 bytes, its base fee (if any) is within the absolute
    bounds and its beneficiary is not the zero address. *)
Theorem validate_header_characterised self h :
  (∀ n, BaseFeeConfig_wf (base_fee_config self n)) →
  validate_header self h = Ok () ↔
    validate_header_gas h = Ok ()
    ∧ bgl_min (block_gas_limit_config self (number h)) ≤ gas_limit h
      ≤ bgl_max (block_gas_limit_config self (number h))
    ∧ length (extra_data h) = 8%nat
    ∧ validate_header_base_fee h self = Ok ()
    ∧ (∀ f, base_fee_per_gas h = Some f →
         absolute_min_base_fee (base_fee_config self (number h)) ≤ f
         ≤ absolute_max_base_fee (base_fee_config self (number h)))
    ∧ beneficiary h ≠ 0.
Proof.
  intros W. split.
  - intros V. pose proof (validate_header_inv self h W V) as (_ & ? & ? & (f & Ef & ?) & ?).
    unfold validate_header, arc_validate_header_base_fee in V. binds.
    do 4 (split; [done|]). split; [|done]. intros ? E. rewrite Ef in E. by simplify_eq.
  - intros (Hg & Hl & Hx & Hb & Hf & Hn). unfold validate_header.
    rewrite Hg. simpl. unfold arc_validate_gas_limit_bounds.
    rewrite decide_False by lia. simpl. unfold arc_validate_extra_data_format.
    rewrite decide_False by naive_solver. simpl. unfold arc_validate_header_base_fee.
    rewrite Hb. simpl. unfold arc_validate_beneficiary_nonzero.
    destruct (base_fee_per_gas h) as [f|]; simpl; [|by rewrite decide_False].
    rewrite (decide_False (P := f ≠ _)) by (rewrite clamp_id by auto; naive_solver).
    simpl. by rewrite decide_False.
Qed.

(** C29: on every chain of admitted headers the block numbers are consecutive,
    each header names its parent's hash, timestamps never decrease, the gas used is within the gas
    limit and that within the network's bounds, the beneficiary is not the zero address, the
    extra data announces a fee in 8 bytes, every base fee is within the network's absolute bounds, and
    above block 1 it is exactly the one that the parent's extra data announces. *)
Theorem admitted_chain_sound self hs :
  (∀ n, BaseFeeConfig_wf (base_fee_config self n)) →
  admitted self hs →
  ∀ i h p, hs !! i = Some h → hs !! S i = Some p →
    number h = number p + 1 ∧ parent_hash h = hash p ∧ timestamp p ≤ timestamp h
    ∧ gas_used h ≤ gas_limit h
    ∧ bgl_min (block_gas_limit_config self (number h)) ≤ gas_limit h
      ≤ bgl_max (block_gas_limit_config self (number h))
    ∧ beneficiary h ≠ 0 ∧ length (extra_data h) = 8%nat
    ∧ ∃ f, base_fee_per_gas h = Some f
        ∧ absolute_min_base_fee (base_fee_config self (number h)) ≤ f
          ≤ absolute_max_base_fee (base_fee_config self (number h))
        ∧ (number p ≠ 0 → encode_base_fee_to_bytes f = extra_data p).
Proof.
  intros W A. induction A as [g|h p hs V P A IH]; intros [|i] h' p' E1 E2; simplify_eq/=.
  - pose proof (validate_header_inv _ _ W V) as (? & ? & ? & (f & Ef & ?) & ?).
    apply validate_against_parent_inv in P as (? & ? & ? & Hf).
    do 3 (split; [done|]). do 2 (split; [lia|]). do 2 (split; [done|]). exists f. split_and!; try done; try lia. intros Hn.
    destruct Hf as [?|(f' & E & E')]; [done|].
    apply decode_base_fee_Some in E as [_ E]. by simplify_eq.
  - by eapply IH.
Qed.

End Validation.

(** proposer and validators agree on the base fee: any child accepted on
    top of a non-genesis parent pays exactly the fee that
    [next_block_base_fee] computes from that parent. *)
Theorem next_base_fee_agreement {H R BP : Type} `{!ChainHardforks H}
    `{!RethValidation (ArcChainSpec H) R BP, !RethValidationLaws (ArcChainSpec H) R BP}
    (self : ArcChainSpec H) (h p : Header) ts :
  number p ≠ 0 →
  validate_header_against_parent self h p = Ok () →
  base_fee_per_gas h = next_block_base_fee self p ts.
Proof.
  intros Hn V. apply validate_against_parent_inv in V as (_ & _ & _ & [?|(f & E & ->)]); [done|].
  unfold next_block_base_fee. by rewrite E.
Qed.

(** ** Witnesses: the reth checks as their documentation states them *)

#[export] Instance simple_reth {CS} : RethValidation CS unit unit := {|
  validate_header_gas h := if decide (gas_used h ≤ gas_limit h) then Ok () else Err ();
  validate_against_parent_hash_number h p :=
    if decide (number h = number p + 1 ∧ parent_hash h = hash p) then Ok () else Err ();
  validate_against_parent_4844 h p _ := Ok ();
  validate_header_base_fee h _ := match base_fee_per_gas h with Some _ => Ok () | None => Err () end;
  blob_params_at_timestamp _ _ := None;
|}.

#[export] Instance simple_reth_laws {CS} : RethValidationLaws CS unit unit.
Proof.
  split; simpl; intros; repeat case_decide; try done.
  by destruct (base_fee_per_gas h).
Qed.

Definition example_spec : ArcChainSpec (list (Fork * ForkCondition)) :=
  mkArcChainSpec MAINNET_CHAIN_ID (ARC_MAINNET_HARDFORKS _).
Definition example_header (n : Z) : Header :=
  mkHeader (n + 100) (n + 99) None None n n 30000000 15000000 (Some 1000)
    (encode_base_fee_to_bytes 1000) 7.

Lemma validate_header_characterised_witness :
  validate_header example_spec (example_header 2) = Ok ().
Proof.
  apply (validate_header_characterised example_spec (example_header 2)
           (base_fee_config_wf example_spec)).
  split; [vm_compute; reflexivity|]. split; [by vm_compute|].
  split; [vm_compute; reflexivity|]. split; [vm_compute; reflexivity|].
  split; [|by vm_compute]. intros f [= <-]. by vm_compute.
Defined.

Lemma admitted_chain_sound_witness :
  encode_base_fee_to_bytes 1000 = extra_data (example_header 1).
Proof.
  assert (A : admitted example_spec [example_header 2; example_header 1]).
  { apply admitted_child; [vm_compute; reflexivity|vm_compute; reflexivity|apply admitted_genesis]. }
  destruct (admitted_chain_sound example_spec _ (base_fee_config_wf example_spec) A 0 _ _
              eq_refl eq_refl) as (_ & _ & _ & _ & _ & _ & _ & f & E & _ & F).
  injection E as <-. apply F. vm_compute. congruence.
Defined.

Lemma next_base_fee_agreement_witness :
  base_fee_per_gas (example_header 2) = next_block_base_fee example_spec (example_header 1) 5.
Proof. apply next_base_fee_agreement; [vm_compute; congruence|vm_compute; reflexivity]. Defined.
