(* ===== verification/Revm.v ===== *)
(** * Interface to revm, alloy and keccak

    The precompiles run against code of other repositories: revm's gas counter
    and journal, alloy's ABI coders, the Keccak hash.  [RevmOps] lists the
    operations the Arc sources call; [RevmLaws] states the documented
    behaviour the theorems rely on, in terms of the world state a journal
    stands for ([view]).  [ToyRevm] is a concrete instance of both. *)

From S2P Require Import Prelude.

(** ** Data that crosses the interface *)

Record AccountInfo := mkAccountInfo {
  balance : Z;
  nonce : Z;
  code_hash : Z;
}.

Record LoadedAccount := mkLoadedAccount {
  is_cold : bool;
  info : AccountInfo;
  is_selfdestructed : bool;
}.

(** [EvmStorageSlot] *)
Record Slot := mkSlot { original_value : Z; present_value : Z }.

(** [JournalLoadError] *)
Inductive LoadError (D : Type) := ColdLoadSkipped | DBError (e : D).
Arguments ColdLoadSkipped {D}.
Arguments DBError {D}.

Inductive TransferError := OutOfFunds | OverflowPayment | CreateCollision.

Record LogData := mkLogData { topics : list Z; data : bytes }.
Record Log := mkLog { log_address : Z; log_data : LogData }.

(** The events of the precompiles ([sol!]). *)
Inductive Event :=
| Transfer (from to value : Z)
| Blocklisted (account : Z)
| UnBlocklisted (account : Z).

(** [GasValues] of the SystemAccounting interface. *)
Record GasValues := mkGasValues {
  gasUsed : Z;
  gasUsedSmoothed : Z;
  nextBaseFee : Z;
}.

(** The functions of the precompile interfaces, as dispatched by selector. *)
Inductive SolFunction :=
| mintCall | burnCall | transferCall | totalSupplyCall
| blocklistCall | isBlocklistedCall | unBlocklistCall
| storeGasValuesCall | getGasValuesCall.
#[export] Instance SolFunction_eq_dec : EqDecision SolFunction.
Proof. solve_decision. Defined.

(** ** Operations *)

Class RevmOps := {
  (* revm_interpreter::Gas *)
  Gas : Type;
  gas_new : Z → Gas;
  used : Gas → Z;
  remaining : Gas → Z;
  record_regular_cost : Gas → Z → bool * Gas;
  spend_all : Gas → Gas;
  (* revm_interpreter::gas, revm::handler *)
  COLD_ACCOUNT_ACCESS_COST : Z;
  WARM_STORAGE_READ_COST : Z;
  COLD_SLOAD_COST : Z;
  SSTORE_SET : Z;
  WARM_SSTORE_RESET : Z;
  CALL_STIPEND : Z;
  KECCAK_EMPTY : Z;
  SYSTEM_ADDRESS : Z;
  (* alloy_evm::EvmInternals *)
  Journal : Type;
  DbErr : Type;
  load_account : Journal → Z → result DbErr LoadedAccount * Journal;
  load_account_mut : Journal → Z → result DbErr unit * Journal;
  sload : Journal → Z → Z → bool → result (LoadError DbErr) Slot * Journal;
  sstore : Journal → Z → Z → Z → bool → result (LoadError DbErr) unit * Journal;
  journal_transfer : Journal → Z → Z → Z → result DbErr (option TransferError) * Journal;
  journal_balance_incr : Journal → Z → Z → result DbErr unit * Journal;
  decr_balance : Journal → Z → Z → bool * Journal;
  journal_log : Journal → Log → Journal;
  info_is_empty : AccountInfo → bool;
  (* alloy_sol_types *)
  SELECTOR : SolFunction → bytes;
  decode_mint : bytes → option (Z * Z);
  decode_burn : bytes → option (Z * Z);
  decode_transfer : bytes → option (Z * Z * Z);
  decode_totalSupply : bytes → option unit;
  decode_blocklist : bytes → option Z;
  decode_isBlocklisted : bytes → option Z;
  decode_unBlocklist : bytes → option Z;
  decode_storeGasValues : bytes → option (Z * GasValues);
  decode_getGasValues : bytes → option Z;
  abi_encode_string : string → bytes;
  abi_encode_bool : bool → bytes;
  abi_encode_u256 : Z → bytes;
  abi_encode_gas_values : GasValues → bytes;
  encode_log_data : Event → LogData;
  (* alloy_primitives *)
  keccak256 : bytes → Z;
}.

(** ** The world state behind a journal *)

Record World := mkWorld {
  w_account : Z → AccountInfo;
  w_selfdestructed : Z → bool;
  w_storage : Z → Z → Z;
  w_logs : list Log;
}.

(** Two worlds that no observation distinguishes. *)
#[export] Instance World_equiv : Equiv World := λ v w,
  (∀ a, w_account v a = w_account w a)
  ∧ (∀ a, w_selfdestructed v a = w_selfdestructed w a)
  ∧ (∀ a k, w_storage v a k = w_storage w a k)
  ∧ w_logs v = w_logs w.

#[export] Instance World_equivalence : Equivalence (≡@{World}).
Proof.
  split; unfold equiv, World_equiv.
  - intros w. done.
  - intros v w (? & ? & ? & ?). done.
  - intros u v w (A & B & C & D) (A' & B' & C' & D'). split_and!; intros.
    + by rewrite A. + by rewrite B. + by rewrite C. + by rewrite D.
Qed.

Definition set_balance (w : World) (a v : Z) : World :=
  mkWorld (λ b, if decide (a = b)
                then mkAccountInfo v (nonce (w_account w b)) (code_hash (w_account w b))
                else w_account w b)
    (w_selfdestructed w) (w_storage w) (w_logs w).
Definition set_storage (w : World) (a k v : Z) : World :=
  mkWorld (w_account w) (w_selfdestructed w)
    (λ b k', if decide (a = b ∧ k = k') then v else w_storage w b k') (w_logs w).
Definition add_log (w : World) (l : Log) : World :=
  mkWorld (w_account w) (w_selfdestructed w) (w_storage w) (w_logs w ++ [l]).

Definition balance_of (w : World) (a : Z) : Z := balance (w_account w a).

Ltac world_proper := intros ? ? (A & B & C & D); repeat intros ? ? <-;
  unfold balance_of in *; split_and! || idtac; simpl; intros; rewrite ?A, ?B, ?C, ?D; done.

#[export] Instance w_account_proper : Proper ((≡) ==> (=) ==> (=)) w_account.
Proof. world_proper. Qed.
#[export] Instance w_selfdestructed_proper : Proper ((≡) ==> (=) ==> (=)) w_selfdestructed.
Proof. world_proper. Qed.
#[export] Instance w_storage_proper : Proper ((≡) ==> (=) ==> (=) ==> (=)) w_storage.
Proof. world_proper. Qed.
#[export] Instance w_logs_proper : Proper ((≡) ==> (=)) w_logs.
Proof. world_proper. Qed.
#[export] Instance balance_of_proper : Proper ((≡) ==> (=) ==> (=)) balance_of.
Proof. world_proper. Qed.
#[export] Instance set_balance_proper : Proper ((≡) ==> (=) ==> (=) ==> (≡)) set_balance.
Proof. world_proper. Qed.
#[export] Instance set_storage_proper : Proper ((≡) ==> (=) ==> (=) ==> (=) ==> (≡)) set_storage.
Proof. world_proper. Qed.
#[export] Instance add_log_proper : Proper ((≡) ==> (=) ==> (≡)) add_log.
Proof. world_proper. Qed.

(** ** Laws *)

Class RevmLaws `{RO : RevmOps} := {
  (* Gas: a limit split into what is used and what remains. *)
  gas_new_remaining : ∀ l, remaining (gas_new l) = l;
  gas_new_used : ∀ l, used (gas_new l) = 0;
  record_cost_ok : ∀ g c, 0 ≤ c ≤ remaining g →
    ∃ g', record_regular_cost g c = (true, g')
      ∧ remaining g' = remaining g - c ∧ used g' = used g + c;
  record_cost_oog : ∀ g c, remaining g < c → record_regular_cost g c = (false, g);
  spend_all_remaining : ∀ g, remaining (spend_all g) = 0;
  spend_all_used : ∀ g, used (spend_all g) = used g + remaining g;
  (* Gas schedule (EIP-2929, EIP-2200). *)
  COLD_ACCOUNT_ACCESS_COST_val : COLD_ACCOUNT_ACCESS_COST = 2600;
  WARM_STORAGE_READ_COST_val : WARM_STORAGE_READ_COST = 100;
  COLD_SLOAD_COST_val : COLD_SLOAD_COST = 2100;
  SSTORE_SET_val : SSTORE_SET = 20000;
  WARM_SSTORE_RESET_val : WARM_SSTORE_RESET = 2900;
  CALL_STIPEND_val : CALL_STIPEND = 2300;
  (* Journal: loads report the world and only warm it, updates change what they
     name. *)
  view : Journal → World;
  view_balance_range : ∀ j a, u256 (balance_of (view j) a);
  view_storage_range : ∀ j a k, u256 (w_storage (view j) a k);
  load_account_view : ∀ j a, view (load_account j a).2 ≡ view j;
  load_account_mut_view : ∀ j a, view (load_account_mut j a).2 ≡ view j;
  sload_view : ∀ j a k skip, view (sload j a k skip).2 ≡ view j;
  load_account_info : ∀ j a la j', load_account j a = (Ok la, j') →
    info la = w_account (view j) a ∧ is_selfdestructed la = w_selfdestructed (view j) a;
  sload_present : ∀ j a k skip s j', sload j a k skip = (Ok s, j') →
    present_value s = w_storage (view j) a k;
  sload_not_skipped : ∀ j a k j', sload j a k false ≠ (Err ColdLoadSkipped, j');
  sstore_ok : ∀ j a k v skip r j', u256 v → sstore j a k v skip = (Ok r, j') →
    view j' ≡ set_storage (view j) a k v;
  transfer_ok : ∀ j from to amount j', 0 ≤ amount →
    journal_transfer j from to amount = (Ok None, j') →
    if decide (from = to) then view j' ≡ view j
    else amount ≤ balance_of (view j) from
         ∧ u256 (balance_of (view j) to + amount)
         ∧ view j' ≡ set_balance (set_balance (view j) from (balance_of (view j) from - amount))
                       to (balance_of (view j) to + amount);
  balance_incr_ok : ∀ j to amount r j', 0 ≤ amount →
    u256 (balance_of (view j) to + amount) →
    journal_balance_incr j to amount = (Ok r, j') →
    view j' ≡ set_balance (view j) to (balance_of (view j) to + amount);
  decr_balance_true : ∀ j from amount j', 0 ≤ amount →
    decr_balance j from amount = (true, j') →
    view j' ≡ set_balance (view j) from (balance_of (view j) from - amount);
  journal_log_view : ∀ j l, view (journal_log j l) ≡ add_log (view j) l;
  (* The selectors of the nine functions differ. *)
  SELECTOR_inj :: Inj (=) (=) SELECTOR;
  (* Validated ABI decoding yields values of the Solidity types. *)
  decode_mint_range : ∀ b a v, decode_mint b = Some (a, v) → uint 160 a ∧ u256 v;
  decode_burn_range : ∀ b a v, decode_burn b = Some (a, v) → uint 160 a ∧ u256 v;
  decode_transfer_range : ∀ b f t v, decode_transfer b = Some (f, t, v) →
    uint 160 f ∧ uint 160 t ∧ u256 v;
  decode_blocklist_range : ∀ b a, decode_blocklist b = Some a → uint 160 a;
  decode_unBlocklist_range : ∀ b a, decode_unBlocklist b = Some a → uint 160 a;
  decode_storeGasValues_range : ∀ b n g, decode_storeGasValues b = Some (n, g) →
    u64 n ∧ u64 (gasUsed g) ∧ u64 (gasUsedSmoothed g) ∧ u64 (nextBaseFee g);
}.

(** ** The laws in the form the proofs use *)

Section RevmLemmas.
Context `{RL : RevmLaws}.

Lemma load_account_ok j a la j' : load_account j a = (Ok la, j') →
  info la = w_account (view j) a
  ∧ is_selfdestructed la = w_selfdestructed (view j) a ∧ view j' ≡ view j.
Proof.
  intros E. destruct (load_account_info _ _ _ _ E) as [? ?]. split_and!; try done.
  pose proof (load_account_view j a) as V. by rewrite E in V.
Qed.

Lemma load_account_mut_ok j a r j' : load_account_mut j a = (r, j') → view j' ≡ view j.
Proof. intros E. pose proof (load_account_mut_view j a) as V. by rewrite E in V. Qed.

Lemma sload_ok j a k skip s j' : sload j a k skip = (Ok s, j') →
  present_value s = w_storage (view j) a k ∧ view j' ≡ view j.
Proof.
  intros E. split; [by eapply sload_present|].
  pose proof (sload_view j a k skip) as V. by rewrite E in V.
Qed.

Lemma sload_skipped j a k skip j' : sload j a k skip = (Err ColdLoadSkipped, j') →
  skip = true ∧ view j' ≡ view j.
Proof.
  intros E. split.
  - destruct skip; [done|]. by apply sload_not_skipped in E.
  - pose proof (sload_view j a k skip) as V. by rewrite E in V.
Qed.

End RevmLemmas.
