(* ===== verification/ToyRevm.v ===== *)
(** * A concrete revm interface

    An executable instance of [RevmOps] that satisfies [RevmLaws]: balances,
    storage and logs in finite maps, EIP-2929 warmth for storage slots, 32-byte
    ABI words.  It shows that the laws can hold together and lets the
    witnesses evaluate the precompiles on concrete inputs. *)

From S2P Require Import Prelude Revm.

Record ToyGas := mkToyGas { tg_used : Z; tg_remaining : Z; tg_refunded : Z }.

Record ToyJournal := mkToyJournal {
  tj_accounts : gmap Z (Z * Z * Z);
  tj_destroyed : gmap Z bool;
  tj_storage : gmap (Z * Z) (Z * Z);
  tj_warm : gmap (Z * Z) bool;
  tj_logs : list Log;
}.

Definition word (z : Z) : Z := z `mod` 2 ^ 256.

Definition toy_account (j : ToyJournal) (a : Z) : AccountInfo :=
  let '(b, n, h) := default (0, 0, 0) (tj_accounts j !! a) in mkAccountInfo (word b) n h.
Definition toy_slot (j : ToyJournal) (a k : Z) : Slot :=
  let '(o, p) := default (0, 0) (tj_storage j !! (a, k)) in mkSlot o (word p).
Definition toy_set_balance (j : ToyJournal) (a b : Z) : ToyJournal :=
  let i := toy_account j a in
  mkToyJournal (<[a := (b, nonce i, code_hash i)]> (tj_accounts j)) (tj_destroyed j)
    (tj_storage j) (tj_warm j) (tj_logs j).
Definition toy_warm (j : ToyJournal) (a k : Z) : ToyJournal :=
  mkToyJournal (tj_accounts j) (tj_destroyed j) (tj_storage j)
    (<[(a, k) := true]> (tj_warm j)) (tj_logs j).

Definition toy_word (n : nat) (b : bytes) : option Z :=
  let w := take 32 (drop (32 * n) b) in
  if decide (length w = 32%nat) then Some (word (from_be_bytes w)) else None.
Definition toy_addr (n : nat) (b : bytes) : option Z := a ← toy_word n b; try_from 160 a.
Definition toy_u64 (n : nat) (b : bytes) : option Z := a ← toy_word n b; try_from 64 a.

Definition toy_selector (f : SolFunction) : bytes :=
  to_be_bytes 4 (match f with
    | mintCall => 1 | burnCall => 2 | transferCall => 3 | totalSupplyCall => 4
    | blocklistCall => 5 | isBlocklistedCall => 6 | unBlocklistCall => 7
    | storeGasValuesCall => 8 | getGasValuesCall => 9 end).

#[export] Instance toy_revm : RevmOps := {|
  Gas := ToyGas;
  gas_new l := mkToyGas 0 l 0;
  used := tg_used;
  remaining := tg_remaining;
  record_regular_cost g c :=
    if decide (tg_remaining g < c) then (false, g)
    else (true, mkToyGas (tg_used g + c) (tg_remaining g - c) (tg_refunded g));
  spend_all g := mkToyGas (tg_used g + tg_remaining g) 0 (tg_refunded g);
  COLD_ACCOUNT_ACCESS_COST := 2600;
  WARM_STORAGE_READ_COST := 100;
  COLD_SLOAD_COST := 2100;
  SSTORE_SET := 20000;
  WARM_SSTORE_RESET := 2900;
  CALL_STIPEND := 2300;
  KECCAK_EMPTY := 0xc5d2;
  SYSTEM_ADDRESS := 0xfffffffffffffffffffffffffffffffffffffffe;
  Journal := ToyJournal;
  DbErr := unit;
  load_account j a :=
    (Ok (mkLoadedAccount true (toy_account j a) (default false (tj_destroyed j !! a))), j);
  load_account_mut j a := (Ok (), j);
  sload j a k skip :=
    if skip && negb (default false (tj_warm j !! (a, k))) then (Err ColdLoadSkipped, j)
    else (Ok (toy_slot j a k), toy_warm j a k);
  sstore j a k v _ :=
    (Ok (), mkToyJournal (tj_accounts j) (tj_destroyed j)
              (<[(a, k) := (original_value (toy_slot j a k), v)]> (tj_storage j))
              (tj_warm j) (tj_logs j));
  journal_transfer j from to amount :=
    let bf := balance (toy_account j from) in
    let bt := balance (toy_account j to) in
    if decide (from = to) then (Ok None, j)
    else if decide (bf < amount) then (Ok (Some OutOfFunds), j)
    else if decide (2 ^ 256 ≤ bt + amount) then (Ok (Some OverflowPayment), j)
    else (Ok None, toy_set_balance (toy_set_balance j from (bf - amount)) to (bt + amount));
  journal_balance_incr j to amount :=
    (Ok (), toy_set_balance j to (balance (toy_account j to) + amount));
  decr_balance j from amount :=
    let bf := balance (toy_account j from) in
    if decide (bf < amount) then (false, j) else (true, toy_set_balance j from (bf - amount));
  journal_log j l := mkToyJournal (tj_accounts j) (tj_destroyed j) (tj_storage j) (tj_warm j)
                       (tj_logs j ++ [l]);
  info_is_empty i := bool_decide (balance i = 0) && bool_decide (nonce i = 0);
  SELECTOR := toy_selector;
  decode_mint b := a ← toy_addr 0 b; v ← toy_word 1 b; Some (a, v);
  decode_burn b := a ← toy_addr 0 b; v ← toy_word 1 b; Some (a, v);
  decode_transfer b := f ← toy_addr 0 b; t ← toy_addr 1 b; v ← toy_word 2 b; Some (f, t, v);
  decode_totalSupply b := Some ();
  decode_blocklist := toy_addr 0;
  decode_isBlocklisted := toy_addr 0;
  decode_unBlocklist := toy_addr 0;
  decode_storeGasValues b :=
    n ← toy_u64 0 b; g ← toy_u64 1 b; s ← toy_u64 2 b; f ← toy_u64 3 b;
    Some (n, mkGasValues g s f);
  decode_getGasValues := toy_u64 0;
  abi_encode_string s := [];
  abi_encode_bool b := to_be_bytes 32 (if b then 1 else 0);
  abi_encode_u256 := to_be_bytes 32;
  abi_encode_gas_values g :=
    to_be_bytes 32 (gasUsed g) ++ to_be_bytes 32 (gasUsedSmoothed g)
    ++ to_be_bytes 32 (nextBaseFee g);
  encode_log_data e := match e with
    | Transfer f t v => mkLogData [1; f; t] (to_be_bytes 32 v)
    | Blocklisted a => mkLogData [2; a] []
    | UnBlocklisted a => mkLogData [3; a] []
    end;
  keccak256 d := from_be_bytes (take 32 d);
|}.

Definition toy_view (j : ToyJournal) : World :=
  mkWorld (toy_account j) (λ a, default false (tj_destroyed j !! a))
    (λ a k, present_value (toy_slot j a k)) (tj_logs j).

Lemma word_range z : u256 (word z).
Proof. unfold word, uint. apply Z.mod_pos_bound. lia. Qed.
Lemma word_id z : u256 z → word z = z.
Proof. intros. by apply Z.mod_small. Qed.

Lemma toy_set_balance_view j a b :
  u256 b → toy_view (toy_set_balance j a b) ≡ set_balance (toy_view j) a b.
Proof.
  intros Hb. split_and!; simpl; try done. intros c. unfold toy_set_balance.
  unfold toy_account at 1. simpl. rewrite lookup_insert.
  case_decide as E; simpl; [subst; by rewrite word_id|done].
Qed.

Lemma toy_word_range n b v : toy_word n b = Some v → u256 v.
Proof. unfold toy_word. case_decide; [|done]. intros [= <-]. apply word_range. Qed.
Lemma toy_addr_range n b a : toy_addr n b = Some a → uint 160 a.
Proof.
  unfold toy_addr. destruct (toy_word n b); simpl; [|done].
  by intros [-> ?]%try_from_inv.
Qed.
Lemma toy_u64_range n b a : toy_u64 n b = Some a → u64 a.
Proof.
  unfold toy_u64. destruct (toy_word n b); simpl; [|done].
  by intros [-> ?]%try_from_inv.
Qed.

Lemma toy_balance_range j a : u256 (balance (toy_account j a)).
Proof. unfold toy_account. destruct (default _ _) as [[]]. apply word_range. Qed.
Lemma toy_slot_range j a k : u256 (present_value (toy_slot j a k)).
Proof. unfold toy_slot. destruct (default _ _). apply word_range. Qed.

Lemma toy_transfer_view j from to amount j' :
  0 ≤ amount →
  journal_transfer (RevmOps := toy_revm) j from to amount = (Ok None, j') →
  if decide (from = to) then toy_view j' ≡ toy_view j
  else amount ≤ balance_of (toy_view j) from
       ∧ u256 (balance_of (toy_view j) to + amount)
       ∧ toy_view j' ≡
           set_balance (set_balance (toy_view j) from (balance_of (toy_view j) from - amount))
             to (balance_of (toy_view j) to + amount).
Proof.
  intros Ha. simpl. unfold balance_of, toy_view at 3 4. simpl.
  pose proof (toy_balance_range j from). pose proof (toy_balance_range j to).
  case_decide; [by intros [= <-]|]. unfold uint in *.
  case_decide; [done|]. case_decide; [done|]. intros [= <-].
  split; [lia|]. split; [lia|].
  rewrite !toy_set_balance_view by (unfold uint; lia). done.
Qed.

#[export] Instance toy_laws : RevmLaws (RO := toy_revm).
Proof.
  unshelve refine (Build_RevmLaws toy_revm _ _ _ _ _ _ _ _ _ _ _ _ toy_view
    _ _ _ _ _ _ _ _ _ _ _ _ _ _ _ _ _ _ _ _); simpl; try done.
  - intros g c Hc. rewrite decide_False by lia. eauto.
  - intros g c Hc. by rewrite decide_True.
  - intros j a. apply toy_balance_range.
  - intros j a k. apply toy_slot_range.
  - intros j a k skip. by destruct (_ && _).
  - intros j a la j' [= <- <-]. done.
  - intros j a k skip s j'. destruct (_ && _); [done|]. by intros [= <- <-].
  - intros j a k v skip r j' Hv [= _ <-]. split_and!; simpl; try done.
    intros b k'. unfold toy_slot at 1. simpl. rewrite lookup_insert. case_decide.
    + simplify_eq/=. rewrite decide_True by done. by rewrite word_id.
    + by rewrite decide_False by naive_solver.
  - apply toy_transfer_view.
  - intros j to amount r j' Ha Hr [= _ <-]. by apply toy_set_balance_view.
  - intros j from amount j' Ha. pose proof (toy_balance_range j from). unfold uint in *.
    case_decide; [done|]. intros [= <-]. apply toy_set_balance_view. unfold uint, balance_of. simpl. lia.
  - intros f g. by destruct f, g.
  - intros b a v. destruct (toy_addr 0 b) eqn:E; simpl; [|done].
    destruct (toy_word 1 b) eqn:E2; simpl; [|done]. intros [= <- <-].
    split_and?; eauto using toy_addr_range, toy_word_range.
  - intros b a v. destruct (toy_addr 0 b) eqn:E; simpl; [|done].
    destruct (toy_word 1 b) eqn:E2; simpl; [|done]. intros [= <- <-].
    split_and?; eauto using toy_addr_range, toy_word_range.
  - intros b f t v. destruct (toy_addr 0 b) eqn:E; simpl; [|done].
    destruct (toy_addr 1 b) eqn:E1; simpl; [|done].
    destruct (toy_word 2 b) eqn:E2; simpl; [|done]. intros [= <- <- <-].
    split_and?; eauto using toy_addr_range, toy_word_range.
  - intros b a. apply toy_addr_range.
  - intros b a. apply toy_addr_range.
  - intros b n g. destruct (toy_u64 0 b) eqn:E; simpl; [|done].
    destruct (toy_u64 1 b) eqn:E1; simpl; [|done].
    destruct (toy_u64 2 b) eqn:E2; simpl; [|done].
    destruct (toy_u64 3 b) eqn:E3; simpl; [|done]. intros [= <- <-]. simpl.
    split_and?; eauto using toy_u64_range.
Defined.

Lemma toy_keccak d : keccak256 d = from_be_bytes (take 32 d).
Proof. reflexivity. Qed.
