(* ===== verification/Precompile.v ===== *)
(** * Precompile helpers

    [crates/precompiles/src/helpers.rs] and the dispatch macro of
    [macros.rs].  A precompile body threads the journal ([internals]) and the
    gas counter; it is a computation of the monad [M] over [St].  A failing
    call keeps the journal as it is at that point: revm discards it with the
    call frame. *)

From S2P Require Import Prelude Hardforks Revm.

Definition NATIVE_FIAT_TOKEN_ADDRESS : Z := 0x3600000000000000000000000000000000000000.
Definition REVERT_SELECTOR : bytes := [Byte.x08; Byte.xc3; Byte.x79; Byte.xa0].

Definition PRECOMPILE_SSTORE_GAS_COST : Z := 2900.
Definition PRECOMPILE_SLOAD_GAS_COST : Z := 2100.
Definition PRECOMPILE_EMPTY_ACCOUNT_GAS_COST : Z := 25000.
Definition LOG_BASE_COST : Z := 375.
Definition LOG_TOPIC_COST : Z := 375.
Definition LOG_DATA_COST : Z := 8.
Definition PRECOMPILE_EARLY_REVERT_GAS_PENALTY : Z := 200.

Definition ERR_EXECUTION_REVERTED : string := "Execution reverted".
Definition ERR_INSUFFICIENT_FUNDS : string := "Insufficient funds".
Definition ERR_OVERFLOW : string := "Arithmetic overflow".
Definition ERR_INVALID_CALLER : string := "Invalid caller".
Definition ERR_CLEAR_EMPTY : string := "Cannot clear balance of empty account".
Definition ERR_DELEGATE_CALL_NOT_ALLOWED : string := "Delegate call not allowed".
Definition ERR_STATE_CHANGE_DURING_STATIC_CALL : string := "State change during static call".
Definition ERR_BLOCKED_ADDRESS : string := "Blocked address".
Definition ERR_ZERO_ADDRESS : string := "Zero address not allowed".
Definition ERR_SELFDESTRUCTED_BALANCE_INCREASED : string :=
  "Cannot increase the balance of selfdestructed account".

(** [PrecompileOutput]: its status with the gas used, bytes and reservoir. *)
Inductive PrecompileOutput :=
| Success (gas_used : Z) (bytes : bytes) (reservoir : Z)
| Reverted (gas_used : Z) (bytes : bytes) (reservoir : Z)
| HaltOutOfGas (reservoir : Z).

Inductive PrecompileErrorOrRevert :=
| Revert (output : PrecompileOutput)
| Error (output : PrecompileOutput)
| Fatal (op : string).

(** [PrecompileInput], with the journal held in the state. *)
Record PrecompileInput := mkPrecompileInput {
  input_data : bytes;
  input_gas : Z;
  input_reservoir : Z;
  caller : Z;
  target_address : Z;
  bytecode_address : Z;
  is_static : bool;
}.

Section Helpers.
Context `{RO : RevmOps}.

Record St := mkSt { internals : Journal; gas_counter : Gas }.
Abbreviation Op A := (M St PrecompileErrorOrRevert A).

(** Run a journal operation inside the state. *)
Definition on_journal {A} (f : Journal → A * Journal) : Op A := λ s,
  let '(a, j) := f (internals s) in (Ok a, mkSt j (gas_counter s)).
Definition current_gas : Op Gas := λ s, (Ok (gas_counter s), s).

Definition revert_message_to_bytes (msg : string) : bytes :=
  REVERT_SELECTOR ++ abi_encode_string msg.

Definition halt_oog (reservoir : Z) : PrecompileErrorOrRevert := Error (HaltOutOfGas reservoir).

Definition new_reverted (gas_counter : Gas) (reservoir : Z) (msg : string)
    : PrecompileErrorOrRevert :=
  Revert (Reverted (used gas_counter) (revert_message_to_bytes msg) reservoir).

Definition new_reverted_with_penalty (gas_counter : Gas) (reservoir gas_penalty : Z)
    (msg : string) : PrecompileErrorOrRevert :=
  let '(recorded, gas_with_penalty) := record_regular_cost gas_counter gas_penalty in
  if negb recorded then halt_oog reservoir
  else Revert (Reverted (used gas_with_penalty) (revert_message_to_bytes msg) reservoir).

Definition new_reverted_with_early_penalty (gas_counter : Gas) (reservoir : Z) (msg : string)
    : PrecompileErrorOrRevert :=
  new_reverted_with_penalty gas_counter reservoir PRECOMPILE_EARLY_REVERT_GAS_PENALTY msg.

(** [return Err(new_reverted(gas_counter, ..))] at the current counter. *)
Definition fail_reverted {A} (reservoir : Z) (msg : string) : Op A :=
  g <-- current_gas ;; m_err (new_reverted g reservoir msg).
Definition fail_early {A} (reservoir : Z) (msg : string) : Op A :=
  g <-- current_gas ;; m_err (new_reverted_with_early_penalty g reservoir msg).

Definition account_load_cost (is_cold : bool) : Z :=
  if is_cold then COLD_ACCOUNT_ACCESS_COST else WARM_STORAGE_READ_COST.

Definition storage_io_error (op : string) : PrecompileErrorOrRevert := Fatal op.

(** [.map_err(|e| storage_io_error(op, ..))?] *)
Definition io {E A} (op : string) (f : Journal → result E A * Journal) : Op A :=
  r <-- on_journal f ;;
  match r with
  | Ok a => m_ret a
  | Err _ => m_err (storage_io_error op)
  end.

Definition record_cost_or_out_of_gas (reservoir cost : Z) : Op unit := λ s,
  let '(recorded, g) := record_regular_cost (gas_counter s) cost in
  if negb recorded then (Err (halt_oog reservoir), mkSt (internals s) g)
  else (Ok (), mkSt (internals s) g).

Definition check_gas_remaining (reservoir cost : Z) : Op unit := λ s,
  if decide (remaining (gas_counter s) < cost) then (Err (halt_oog reservoir), s)
  else (Ok (), s).

Definition record_empty_account_creation_cost (account_info : AccountInfo)
    (amount reservoir : Z) : Op unit :=
  if negb (bool_decide (amount = 0)) && info_is_empty account_info
  then record_cost_or_out_of_gas reservoir PRECOMPILE_EMPTY_ACCOUNT_GAS_COST
  else m_ret ().

Definition read (address storage_key reservoir : Z) : Op bytes :=
  io "read" (λ j, load_account_mut j address) ;;;
  r <-- on_journal (λ j, sload j address storage_key true) ;;
  match r with
  | Ok slot_load =>
      record_cost_or_out_of_gas reservoir WARM_STORAGE_READ_COST ;;;
      m_ret (to_be_bytes 32 (present_value slot_load))
  | Err ColdLoadSkipped =>
      record_cost_or_out_of_gas reservoir COLD_SLOAD_COST ;;;
      slot_load <-- io "read" (λ j, sload j address storage_key false) ;;
      m_ret (to_be_bytes 32 (present_value slot_load))
  | Err (DBError _) => m_err (storage_io_error "read")
  end.

Definition sstore_base_cost (original present new : Z) : Z :=
  if decide (new = present) then WARM_STORAGE_READ_COST
  else if decide (original = present) then
    (if decide (original = 0) then SSTORE_SET else WARM_SSTORE_RESET)
  else WARM_STORAGE_READ_COST.

Definition write (address storage_key : Z) (input : bytes) (reservoir : Z) : Op unit :=
  g <-- current_gas ;;
  (if decide (remaining g ≤ CALL_STIPEND) then m_err (halt_oog reservoir) else m_ret ()) ;;;
  let value := from_be_bytes input in
  io "write" (λ j, load_account_mut j address) ;;;
  r <-- on_journal (λ j, sload j address storage_key true) ;;
  slot <-- match r with
           | Ok slot_load => m_ret slot_load
           | Err ColdLoadSkipped =>
               record_cost_or_out_of_gas reservoir COLD_SLOAD_COST ;;;
               io "write" (λ j, sload j address storage_key false)
           | Err (DBError _) => m_err (storage_io_error "write")
           end ;;
  record_cost_or_out_of_gas reservoir
    (sstore_base_cost (original_value slot) (present_value slot) value) ;;;
  io "write" (λ j, sstore j address storage_key value false) ;;;
  m_ret ().

Definition check_can_decr_account (loaded_account_info : AccountInfo) (amount reservoir : Z)
    (hardfork_flags : ArcHardforkFlags) : Op unit :=
  match checked_sub 256 (balance loaded_account_info) amount with
  | None => fail_reverted reservoir ERR_INSUFFICIENT_FUNDS
  | Some from_account_balance =>
      if is_active hardfork_flags Zero8 then m_ret () else
      let from_account_is_empty :=
        bool_decide (from_account_balance = 0)
        && bool_decide (nonce loaded_account_info = 0)
        && (bool_decide (code_hash loaded_account_info = KECCAK_EMPTY)
            || bool_decide (code_hash loaded_account_info = 0)) in
      if from_account_is_empty then
        record_cost_or_out_of_gas reservoir PRECOMPILE_SSTORE_GAS_COST ;;;
        fail_reverted reservoir ERR_CLEAR_EMPTY
      else m_ret ()
  end.

Definition transfer (from to amount reservoir : Z) (hardfork_flags : ArcHardforkFlags) : Op unit :=
  loaded_from_account <-- io "load" (λ j, load_account j from) ;;
  record_cost_or_out_of_gas reservoir (account_load_cost (is_cold loaded_from_account)) ;;;
  check_can_decr_account (info loaded_from_account) amount reservoir hardfork_flags ;;;
  record_cost_or_out_of_gas reservoir PRECOMPILE_SSTORE_GAS_COST ;;;
  to_load <-- io "load" (λ j, load_account j to) ;;
  record_cost_or_out_of_gas reservoir (account_load_cost (is_cold to_load)) ;;;
  record_cost_or_out_of_gas reservoir PRECOMPILE_SSTORE_GAS_COST ;;;
  (if is_selfdestructed to_load
   then fail_reverted reservoir ERR_SELFDESTRUCTED_BALANCE_INCREASED else m_ret ()) ;;;
  record_empty_account_creation_cost (info to_load) amount reservoir ;;;
  transfer_result <-- io "transfer" (λ j, journal_transfer j from to amount) ;;
  match transfer_result with
  | None => m_ret ()
  | Some OutOfFunds => fail_reverted reservoir ERR_INSUFFICIENT_FUNDS
  | Some OverflowPayment => fail_reverted reservoir ERR_OVERFLOW
  | Some CreateCollision => fail_reverted reservoir ERR_EXECUTION_REVERTED
  end.

Definition balance_incr (to amount reservoir : Z) : Op unit :=
  account <-- io "load" (λ j, load_account j to) ;;
  record_cost_or_out_of_gas reservoir (account_load_cost (is_cold account)) ;;;
  (if is_selfdestructed account
   then fail_reverted reservoir ERR_SELFDESTRUCTED_BALANCE_INCREASED else m_ret ()) ;;;
  let account_balance := balance (info account) in
  match checked_add 256 account_balance amount with
  | None => fail_reverted reservoir ERR_OVERFLOW
  | Some _ =>
      record_cost_or_out_of_gas reservoir PRECOMPILE_SSTORE_GAS_COST ;;;
      record_empty_account_creation_cost (info account) amount reservoir ;;;
      io "write" (λ j, journal_balance_incr j to amount)
  end.

Definition balance_decr (from amount reservoir : Z) (hardfork_flags : ArcHardforkFlags)
    : Op unit :=
  loaded_from_account <-- io "load" (λ j, load_account j from) ;;
  record_cost_or_out_of_gas reservoir (account_load_cost (is_cold loaded_from_account)) ;;;
  check_can_decr_account (info loaded_from_account) amount reservoir hardfork_flags ;;;
  record_cost_or_out_of_gas reservoir PRECOMPILE_SSTORE_GAS_COST ;;;
  io "load" (λ j, load_account_mut j from) ;;;
  decreased <-- on_journal (λ j, decr_balance j from amount) ;;
  if negb decreased then fail_reverted reservoir ERR_INSUFFICIENT_FUNDS else m_ret ().

Definition check_staticcall (precompile_input : PrecompileInput) : Op unit := λ s,
  if is_static precompile_input then
    let g := spend_all (gas_counter s) in
    (Err (new_reverted g (input_reservoir precompile_input)
            ERR_STATE_CHANGE_DURING_STATIC_CALL), mkSt (internals s) g)
  else (Ok (), s).

Definition check_delegatecall (precompile_address : Z) (precompile_input : PrecompileInput)
    (hardfork_flags : ArcHardforkFlags) : Op unit :=
  if decide (target_address precompile_input ≠ precompile_address
             ∨ bytecode_address precompile_input ≠ precompile_address) then
    g <-- current_gas ;;
    if is_active hardfork_flags Zero8 then
      m_err (new_reverted_with_penalty g (input_reservoir precompile_input)
               PRECOMPILE_EARLY_REVERT_GAS_PENALTY ERR_DELEGATE_CALL_NOT_ALLOWED)
    else
      m_err (new_reverted g (input_reservoir precompile_input) ERR_DELEGATE_CALL_NOT_ALLOWED)
  else m_ret ().

Definition emit_event (address : Z) (event : Event) (reservoir : Z) : Op unit :=
  let data := encode_log_data event in
  let topic_gas := saturating_mul 64 LOG_TOPIC_COST (Z.of_nat (length (topics data))) in
  let data_gas := saturating_mul 64 LOG_DATA_COST (Z.of_nat (length (Revm.data data))) in
  let log_gas := saturating_add 64 (saturating_add 64 LOG_BASE_COST topic_gas) data_gas in
  record_cost_or_out_of_gas reservoir log_gas ;;;
  on_journal (λ j, ((), journal_log j (mkLog address data))).

(** [if cond { return Err(new_reverted_with_early_penalty(..)) }] *)
Definition reject_if (cond : bool) (reservoir : Z) (msg : string) : Op unit :=
  if cond then fail_early reservoir msg else m_ret ().

(** [abi_decode_raw_validated(input).map_err(|_| new_reverted_with_penalty(..))?] *)
Definition decode_args {A} (decode : bytes → option A) (input : bytes) (reservoir : Z) : Op A :=
  match decode input with
  | Some args => m_ret args
  | None => fail_early reservoir ERR_EXECUTION_REVERTED
  end.

(** [Ok(PrecompileOutput::new(gas_counter.used(), output, reservoir))] *)
Definition finish (output : bytes) (reservoir : Z) : Op PrecompileOutput :=
  g <-- current_gas ;; m_ret (Success (used g) output reservoir).

(** The [From] conversion of [PrecompileErrorOrRevert]. *)
Definition into_result (val : PrecompileErrorOrRevert) : result string PrecompileOutput :=
  match val with
  | Revert output | Error output => Ok output
  | Fatal msg => Err msg
  end.

(** The [precompile!] macro: [bodies] are the arms, in order. *)
Definition precompile (bodies : list (SolFunction * (bytes → Op PrecompileOutput)))
    (precompile_input : PrecompileInput) (journal : Journal)
    : result string PrecompileOutput * Journal :=
  let input_bytes := input_data precompile_input in
  let reservoir := input_reservoir precompile_input in
  let gas_counter := gas_new (input_gas precompile_input) in
  if decide (length input_bytes < 4)%nat then
    (into_result (new_reverted_with_penalty gas_counter reservoir
       PRECOMPILE_EARLY_REVERT_GAS_PENALTY "Input too short"), journal)
  else
    let selector := take 4 input_bytes in
    match list_find (λ arm, selector = SELECTOR arm.1) bodies with
    | Some (_, (_, body)) =>
        let '(r, s) := body (drop 4 input_bytes) (mkSt journal gas_counter) in
        (match r with Ok output => Ok output | Err e => into_result e end, internals s)
    | None =>
        (into_result (new_reverted_with_penalty gas_counter reservoir
           PRECOMPILE_EARLY_REVERT_GAS_PENALTY "Invalid selector"), journal)
    end.

End Helpers.

(** ** Reasoning about runs *)

Section Runs.
Context `{RO : RevmOps}.
Abbreviation Op A := (M St PrecompileErrorOrRevert A).

Lemma on_journal_ok {A} (f : Journal → A * Journal) s a s' :
  on_journal f s = (Ok a, s') →
  ∃ j, f (internals s) = (a, j) ∧ s' = mkSt j (gas_counter s).
Proof. unfold on_journal. destruct (f (internals s)). intros [= <- <-]. eauto. Qed.

Lemma io_ok {E A} op (f : Journal → result E A * Journal) s a s' :
  io op f s = (Ok a, s') →
  ∃ j, f (internals s) = (Ok a, j) ∧ s' = mkSt j (gas_counter s).
Proof.
  intros (r & s1 & (j & E1 & E2)%on_journal_ok & E3)%m_bind_ok.
  destruct r; [|done]. injection E3 as <- <-. eauto.
Qed.

Lemma record_cost_inv r c s u s' :
  record_cost_or_out_of_gas r c s = (Ok u, s') →
  ∃ g, record_regular_cost (gas_counter s) c = (true, g) ∧ s' = mkSt (internals s) g.
Proof.
  unfold record_cost_or_out_of_gas.
  destruct (record_regular_cost _ c) as [[] g]; simpl; [|done]. intros [= _ <-]. eauto.
Qed.

Lemma fail_reverted_not_ok {A} r msg s (a : A) s' : fail_reverted r msg s ≠ (Ok a, s').
Proof. done. Qed.
Lemma fail_early_not_ok {A} r msg s (a : A) s' : fail_early r msg s ≠ (Ok a, s').
Proof. done. Qed.

Lemma decode_args_ok {A} (d : bytes → option A) b r s a s' :
  decode_args d b r s = (Ok a, s') → d b = Some a ∧ s' = s.
Proof. unfold decode_args. destruct (d b); [|done]. by intros [= -> ->]. Qed.

Lemma check_staticcall_ok i s u s' : check_staticcall i s = (Ok u, s') →
  is_static i = false ∧ s' = s.
Proof. unfold check_staticcall. destruct (is_static i); [done|]. by intros [= _ ->]. Qed.

Lemma check_delegatecall_ok p i fl s u s' : check_delegatecall p i fl s = (Ok u, s') →
  target_address i = p ∧ bytecode_address i = p ∧ s' = s.
Proof.
  unfold check_delegatecall. case_decide as D.
  - intros (? & ? & _ & H)%m_bind_ok. by destruct (is_active fl Zero8).
  - intros [= _ ->]. destruct (decide (target_address i = p)), (decide (bytecode_address i = p));
      naive_solver.
Qed.

Lemma reject_if_ok c r msg s u s' : reject_if c r msg s = (Ok u, s') → c = false ∧ s' = s.
Proof. unfold reject_if. destruct c; [done|]. by intros [= _ ->]. Qed.

Lemma check_gas_remaining_ok r c s u s' : check_gas_remaining r c s = (Ok u, s') →
  c ≤ remaining (gas_counter s) ∧ s' = s.
Proof. unfold check_gas_remaining. case_decide; [done|]. intros [= _ ->]. split; [lia|done]. Qed.

Lemma record_empty_ok i amt r s u s' :
  record_empty_account_creation_cost i amt r s = (Ok u, s') →
  ∃ g, s' = mkSt (internals s) g.
Proof.
  unfold record_empty_account_creation_cost. destruct (_ && _).
  - intros (g & _ & ->)%record_cost_inv. eauto.
  - intros [= _ <-]. exists (gas_counter s). by destruct s.
Qed.

End Runs.

(** Invert the hypotheses that say a computation succeeded, one step; the
    states become explicit pairs of a journal and a gas counter. *)
Ltac run_step :=
  match goal with
  | H : m_bind _ _ _ = (Ok _, _) |- _ =>
      apply m_bind_ok in H as (? & ? & ? & H); cbn beta in H
  | H : io _ _ _ = (Ok _, _) |- _ => apply io_ok in H as (? & ? & ->)
  | H : on_journal _ _ = (Ok _, _) |- _ => apply on_journal_ok in H as (? & ? & ->)
  | H : record_cost_or_out_of_gas _ _ _ = (Ok _, _) |- _ =>
      apply record_cost_inv in H as (? & ? & ->)
  | H : record_empty_account_creation_cost _ _ _ _ = (Ok _, _) |- _ =>
      apply record_empty_ok in H as (? & ->)
  | H : decode_args _ _ _ _ = (Ok _, _) |- _ => apply decode_args_ok in H as [? ->]
  | H : check_staticcall _ _ = (Ok _, _) |- _ => apply check_staticcall_ok in H as [? ->]
  | H : check_delegatecall _ _ _ _ = (Ok _, _) |- _ =>
      apply check_delegatecall_ok in H as (? & ? & ->)
  | H : check_gas_remaining _ _ _ = (Ok _, _) |- _ => apply check_gas_remaining_ok in H as [? ->]
  | H : m_ret _ _ = (Ok _, _) |- _ => apply m_ret_ok in H as [? ?]; simplify_eq
  | H : current_gas _ = (Ok _, _) |- _ => injection H as <- <-
  | H : fail_reverted _ _ _ = (Ok _, _) |- _ => by apply fail_reverted_not_ok in H
  | H : fail_early _ _ _ = (Ok _, _) |- _ => by apply fail_early_not_ok in H
  | H : m_err _ _ = (Ok _, _) |- _ => discriminate H
  | u : unit |- _ => destruct u
  | H : (match ?e with _ => _ end) _ = (Ok _, _) |- _ => destruct e eqn:?
  end.
Ltac run_inv := repeat (run_step; cbn [internals gas_counter] in *).

(** Replace each successful journal operation by what it says of the world. *)
Ltac journal_step :=
  match goal with
  | H : load_account_mut _ _ = (Ok _, _) |- _ => apply load_account_mut_ok in H
  | H : load_account _ _ = (Ok _, _) |- _ => apply load_account_ok in H as (? & ? & ?)
  | H : sload _ _ _ _ = (Ok _, _) |- _ => apply sload_ok in H as [? ?]
  | H : sload _ _ _ _ = (Err ColdLoadSkipped, _) |- _ => apply sload_skipped in H as [_ ?]
  end.
(** Rewrite the world of a later journal into that of an earlier one. *)
Ltac world_rewrite :=
  repeat match goal with
  | E : view ?j ≡ _ |- context [view ?j] => rewrite !E
  end.
Ltac world_done :=
  repeat match goal with
  | E : present_value _ = _ |- _ => rewrite E; clear E
  | E : info ?l = _ |- context [info ?l] => rewrite E; clear E
  | E : is_selfdestructed ?l = _ |- context [is_selfdestructed ?l] => rewrite E; clear E
  end; world_rewrite; done.

Section Specs.
Context `{RL : RevmLaws}.

Lemma read_spec a k r j g bs s' :
  read a k r (mkSt j g) = (Ok bs, s') →
  bs = to_be_bytes 32 (w_storage (view j) a k) ∧ view (internals s') ≡ view j.
Proof.
  unfold read. intros H. run_inv.
  all: repeat journal_step; split; [f_equal|]; by world_done.
Qed.

Lemma write_spec a k input r j g u s' :
  u256 (from_be_bytes input) →
  write a k input r (mkSt j g) = (Ok u, s') →
  CALL_STIPEND < remaining g
  ∧ view (internals s') ≡ set_storage (view j) a k (from_be_bytes input).
Proof.
  unfold write. intros Hv H. run_inv; split; try lia.
  all: match goal with H : sstore _ _ _ _ _ = _ |- _ => apply sstore_ok in H; [|done] end.
  all: repeat journal_step; by world_rewrite.
Qed.

(** Taking [amt] leaves an account without balance, nonce and code. *)
Definition clears_account (i : AccountInfo) (amt : Z) : Prop :=
  balance i = amt ∧ nonce i = 0 ∧ (code_hash i = KECCAK_EMPTY ∨ code_hash i = 0).

Lemma check_can_decr_spec i amt r fl j g u s' :
  check_can_decr_account i amt r fl (mkSt j g) = (Ok u, s') →
  u256 (balance i - amt) ∧ s' = mkSt j g ∧ (is_active fl Zero8 = false → ¬ clears_account i amt).
Proof.
  unfold check_can_decr_account.
  destruct (checked_sub 256 _ _) as [z|] eqn:E; [|by intros ?; run_inv].
  apply checked_sub_inv in E as [-> Hr].
  intros H. run_inv; do 2 (split; [done|]); [congruence|]. intros _ (Hb & Hn & Hc).
  match goal with E : _ && _ && _ = false |- _ => revert E end.
  rewrite Hb, Hn, Z.sub_diag, andb_false_iff, orb_false_iff, !bool_decide_eq_false. naive_solver.
Qed.

Lemma transfer_spec from to amt r fl j g u s' :
  0 ≤ amt →
  transfer from to amt r fl (mkSt j g) = (Ok u, s') →
  amt ≤ balance_of (view j) from
  ∧ (is_active fl Zero8 = false → ¬ clears_account (w_account (view j) from) amt)
  ∧ w_selfdestructed (view j) to = false
  ∧ if decide (from = to) then view (internals s') ≡ view j
    else u256 (balance_of (view j) to + amt)
       ∧ view (internals s') ≡
           set_balance (set_balance (view j) from (balance_of (view j) from - amt))
             to (balance_of (view j) to + amt).
Proof.
  unfold transfer. intros Ha H. run_inv.
  match goal with H : check_can_decr_account _ _ _ _ _ = _ |- _ =>
    apply check_can_decr_spec in H as (? & -> & HC) end. run_inv.
  match goal with H : journal_transfer _ _ _ _ = _ |- _ => apply transfer_ok in H as HT; [|done] end.
  repeat journal_step. cbn [internals gas_counter] in *.
  match goal with H : uint _ (balance (info ?l) - _), E : info ?l = _ |- _ =>
    rewrite E in H, HC; fold (balance_of (view j) from) in H; unfold uint in H end.
  split; [lia|]. split; [done|]. split; [match goal with E : is_selfdestructed _ = false |- _ => revert E end;
    match goal with E : is_selfdestructed _ = w_selfdestructed _ to |- _ => rewrite E end;
    by world_rewrite|].
  case_decide; [by world_rewrite|]. destruct HT as (_ & HT1 & HT2).
  split; [revert HT1; by world_rewrite|]. rewrite HT2. by world_rewrite.
Qed.

Lemma balance_incr_spec to amt r j g u s' :
  0 ≤ amt → balance_incr to amt r (mkSt j g) = (Ok u, s') →
  u256 (balance_of (view j) to + amt)
  ∧ w_selfdestructed (view j) to = false
  ∧ view (internals s') ≡ set_balance (view j) to (balance_of (view j) to + amt).
Proof.
  unfold balance_incr. intros Ha H. run_inv.
  match goal with E : checked_add _ _ _ = Some _ |- _ => apply checked_add_inv in E as [-> HR] end.
  repeat journal_step. cbn [internals gas_counter] in *.
  match goal with E : info _ = _ |- _ => rewrite E in HR end.
  split; [done|]. split; [congruence|].
  match goal with H : journal_balance_incr ?jj _ _ = _, E : view ?jj ≡ _ |- _ =>
    apply balance_incr_ok in H as HB; [|done|by rewrite E] end.
  by world_rewrite.
Qed.

Lemma balance_decr_spec from amt r fl j g u s' :
  0 ≤ amt → balance_decr from amt r fl (mkSt j g) = (Ok u, s') →
  u256 (balance_of (view j) from - amt)
  ∧ (is_active fl Zero8 = false → ¬ clears_account (w_account (view j) from) amt)
  ∧ view (internals s') ≡ set_balance (view j) from (balance_of (view j) from - amt).
Proof.
  unfold balance_decr. intros Ha H. run_inv.
  match goal with H : check_can_decr_account _ _ _ _ _ = _ |- _ =>
    apply check_can_decr_spec in H as (HR & -> & HC) end. run_inv.
  match goal with H : decr_balance _ _ _ = (?b, _), N : negb ?b = false |- _ =>
    apply negb_false_iff in N; subst b; apply decr_balance_true in H; [|done] end.
  repeat journal_step. cbn [internals gas_counter] in *.
  match goal with E : info _ = _ |- _ => rewrite E in HR, HC end.
  split; [done|]. split; [done|]. by world_rewrite.
Qed.

Lemma emit_event_spec addr ev r j g u s' :
  emit_event addr ev r (mkSt j g) = (Ok u, s') →
  view (internals s') ≡ add_log (view j) (mkLog addr (encode_log_data ev)).
Proof.
  unfold emit_event. intros H. run_inv. simplify_eq. apply journal_log_view.
Qed.

End Specs.
