(* ===== verification/PrecompileSafety.v ===== *)
(** * Safety of the precompile helpers

    Three facts every stateful precompile needs, stated compositionally so that an
    arm's proof follows its text: [gas_safe] (the reported gas stays within the
    call's limit), [keeps] (the world is untouched) and [rejects] (the early
    penalty is charged and nothing runs). *)

From S2P Require Import Prelude Hardforks Revm Precompile.

(** ** Gas safety

    A computation is gas-safe for a limit [L] and a reservoir [R] when it keeps
    the gas counter's split of [L] and every revert or halt it reports carries
    [R] and at most [L] gas. *)

Section GasSafety.
Context `{RL : RevmLaws}.
Abbreviation Op A := (M St PrecompileErrorOrRevert A).

Definition gas_inv (L : Z) (g : Gas) : Prop :=
  0 ≤ remaining g ∧ 0 ≤ used g ∧ used g + remaining g = L.

Definition output_ok (L R : Z) (o : PrecompileOutput) : Prop :=
  match o with
  | Success g _ r | Reverted g _ r => 0 ≤ g ≤ L ∧ r = R
  | HaltOutOfGas r => r = R
  end.

Definition err_ok (L R : Z) (e : PrecompileErrorOrRevert) : Prop :=
  match e with
  | Revert (Reverted g _ r) => 0 ≤ g ≤ L ∧ r = R
  | Error (HaltOutOfGas r) => r = R
  | Fatal _ => True
  | _ => False
  end.

Definition gas_safe {A} (L R : Z) (Q : A → Prop) (m : Op A) : Prop :=
  ∀ s, gas_inv L (gas_counter s) →
    gas_inv L (gas_counter (m s).2)
    ∧ match (m s).1 with Ok a => Q a | Err e => err_ok L R e end.

Lemma gas_safe_ret {A} L R (Q : A → Prop) a : Q a → gas_safe L R Q (m_ret a).
Proof. by intros HQ s Hs. Qed.

Lemma gas_safe_err {A} L R (Q : A → Prop) e : err_ok L R e → gas_safe L R Q (m_err e).
Proof. by intros HQ s Hs. Qed.

Lemma gas_safe_bind {A B} L R (Q : A → Prop) (Q' : B → Prop) (m : Op A) f :
  gas_safe L R Q m → (∀ a, Q a → gas_safe L R Q' (f a)) → gas_safe L R Q' (m_bind m f).
Proof.
  intros Hm Hf s Hs. destruct (Hm s Hs) as [H1 H2]. unfold m_bind.
  destruct (m s) as [[a|e] s1]; simpl in *; [by apply Hf|done].
Qed.

Lemma gas_safe_mono {A} L R (Q Q' : A → Prop) m :
  gas_safe L R Q m → (∀ a, Q a → Q' a) → gas_safe L R Q' m.
Proof.
  intros Hm HQ s Hs. destruct (Hm s Hs) as [? H]. split; [done|].
  destruct (m s).1; auto.
Qed.

Lemma gas_safe_on_journal {A} L R (f : Journal → A * Journal) :
  gas_safe L R (λ _, True) (on_journal f).
Proof. intros s Hs. unfold on_journal. by destruct (f (internals s)). Qed.

Lemma gas_safe_current_gas L R : gas_safe L R (gas_inv L) current_gas.
Proof. by intros s Hs. Qed.

Lemma gas_safe_current_gas' L R : gas_safe L R (λ _, True) current_gas.
Proof. by eapply gas_safe_mono; [apply gas_safe_current_gas|]. Qed.

Lemma gas_safe_io {E A} L R op (f : Journal → result E A * Journal) :
  gas_safe L R (λ _, True) (io op f).
Proof.
  eapply gas_safe_bind; [apply gas_safe_on_journal|].
  intros [a|e] _; [by apply gas_safe_ret|by apply gas_safe_err].
Qed.

Lemma record_cost_cases g c L : gas_inv L g → 0 ≤ c →
  (record_regular_cost g c = (false, g)) ∨
  (∃ g', record_regular_cost g c = (true, g') ∧ gas_inv L g' ∧ used g' = used g + c).
Proof.
  intros (? & ? & ?) Hc. destruct (decide (remaining g < c)) as [|N].
  - left. by apply record_cost_oog.
  - right. destruct (record_cost_ok g c) as (g' & E & ? & ?); [lia|].
    exists g'. unfold gas_inv. split; [done|]. split; [lia|done].
Qed.

Lemma gas_safe_record L R c : 0 ≤ c → gas_safe L R (λ _, True) (record_cost_or_out_of_gas R c).
Proof.
  intros Hc s Hs. unfold record_cost_or_out_of_gas.
  by destruct (record_cost_cases _ c L Hs Hc) as [->|(g' & -> & ? & _)].
Qed.

Lemma new_reverted_ok L R g msg : gas_inv L g → err_ok L R (new_reverted g R msg).
Proof. intros (? & ? & ?). simpl. split; [lia|done]. Qed.

Lemma new_reverted_with_penalty_ok L R g c msg : gas_inv L g → 0 ≤ c →
  err_ok L R (new_reverted_with_penalty g R c msg).
Proof.
  intros Hg Hc. unfold new_reverted_with_penalty.
  destruct (record_cost_cases g c L Hg Hc) as [->|(g' & -> & (? & ? & ?) & _)]; simpl; [done|].
  split; [lia|done].
Qed.

Lemma gas_safe_fail_reverted {A} L R (Q : A → Prop) msg : gas_safe L R Q (fail_reverted R msg).
Proof.
  eapply gas_safe_bind; [apply gas_safe_current_gas|]. intros g Hg.
  by apply gas_safe_err, new_reverted_ok.
Qed.

Lemma gas_safe_fail_early {A} L R (Q : A → Prop) msg : gas_safe L R Q (fail_early R msg).
Proof.
  eapply gas_safe_bind; [apply gas_safe_current_gas|]. intros g Hg.
  apply gas_safe_err, new_reverted_with_penalty_ok; [done|].
  unfold PRECOMPILE_EARLY_REVERT_GAS_PENALTY. lia.
Qed.

Lemma gas_safe_check_gas L R c : gas_safe L R (λ _, True) (check_gas_remaining R c).
Proof. intros s Hs. unfold check_gas_remaining. by case_decide. Qed.

Lemma gas_safe_decode {A} L R (d : bytes → option A) b :
  gas_safe L R (λ _, True) (decode_args d b R).
Proof. unfold decode_args. case_match; [by apply gas_safe_ret|apply gas_safe_fail_early]. Qed.

Lemma gas_safe_static L i : gas_safe L (input_reservoir i) (λ _, True) (check_staticcall i).
Proof.
  intros s (? & ? & ?). unfold check_staticcall. case_match; [|done].
  unfold gas_inv. simpl. rewrite spend_all_remaining, spend_all_used.
  split; [lia|]. split; [lia|done].
Qed.

Lemma gas_safe_delegate L p i fl :
  gas_safe L (input_reservoir i) (λ _, True) (check_delegatecall p i fl).
Proof.
  unfold check_delegatecall. case_decide; [|by apply gas_safe_ret].
  eapply gas_safe_bind; [apply gas_safe_current_gas|]. intros g Hg.
  case_match; apply gas_safe_err;
    [apply new_reverted_with_penalty_ok|apply new_reverted_ok]; done.
Qed.

Lemma account_load_cost_nonneg c : 0 ≤ account_load_cost c.
Proof.
  unfold account_load_cost.
  destruct c; rewrite ?COLD_ACCOUNT_ACCESS_COST_val, ?WARM_STORAGE_READ_COST_val; lia.
Qed.

Lemma sstore_base_cost_nonneg o p n : 0 ≤ sstore_base_cost o p n.
Proof.
  unfold sstore_base_cost. repeat case_decide;
  rewrite ?WARM_STORAGE_READ_COST_val, ?SSTORE_SET_val, ?WARM_SSTORE_RESET_val; lia.
Qed.

Lemma gas_safe_if {A} L R (Q : A → Prop) (b : bool) m1 m2 :
  gas_safe L R Q m1 → gas_safe L R Q m2 → gas_safe L R Q (if b then m1 else m2).
Proof. by destruct b. Qed.

Lemma gas_safe_decide {A} L R (Q : A → Prop) P `{!Decision P} m1 m2 :
  gas_safe L R Q m1 → gas_safe L R Q m2 → gas_safe L R Q (if decide P then m1 else m2).
Proof. by case_decide. Qed.

Lemma gas_safe_finish L R out : gas_safe L R (output_ok L R) (finish out R).
Proof.
  eapply gas_safe_bind; [apply gas_safe_current_gas|]. intros g (? & ? & ?).
  apply gas_safe_ret. simpl. split; [lia|done].
Qed.
End GasSafety.

Create HintDb gas.
#[export] Hint Resolve gas_safe_on_journal gas_safe_current_gas' gas_safe_io gas_safe_record
  gas_safe_fail_reverted gas_safe_fail_early gas_safe_check_gas gas_safe_decode
  gas_safe_static gas_safe_delegate gas_safe_finish account_load_cost_nonneg
  sstore_base_cost_nonneg : gas.
#[export] Hint Extern 1 (0 ≤ PRECOMPILE_SSTORE_GAS_COST) => (vm_compute; congruence) : gas.
#[export] Hint Extern 1 (0 ≤ PRECOMPILE_EMPTY_ACCOUNT_GAS_COST) => (vm_compute; congruence) : gas.

(** Walk through a monadic program. *)
Ltac gas_step :=
  match goal with
  | |- gas_safe _ _ _ (m_bind _ _) => eapply (gas_safe_bind _ _ (λ _, True)); [|intros ? _]
  | |- gas_safe _ _ _ (m_ret _) => by apply gas_safe_ret
  | |- gas_safe _ _ _ (m_err (halt_oog _)) => by apply gas_safe_err
  | |- gas_safe _ _ _ (m_err (storage_io_error _)) => by apply gas_safe_err
  | |- gas_safe _ _ _ (if decide _ then _ else _) => apply gas_safe_decide
  | |- gas_safe _ _ _ (match ?e with _ => _ end) => destruct e
  | |- gas_safe _ _ _ (let _ := _ in _) => cbv zeta
  | |- gas_safe _ _ _ _ => solve [eauto with gas]
  end.
Ltac gas_tac := repeat gas_step.

Section GasSafeHelpers.
Context `{RL : RevmLaws}.

Lemma gas_safe_record_empty L R i amt :
  gas_safe L R (λ _, True) (record_empty_account_creation_cost i amt R).
Proof. unfold record_empty_account_creation_cost. gas_tac. Qed.
#[local] Hint Resolve gas_safe_record_empty : gas.

Lemma gas_safe_reject_if L R c msg : gas_safe L R (λ _, True) (reject_if c R msg).
Proof. unfold reject_if. gas_tac. Qed.

Lemma gas_safe_read L R a k : gas_safe L R (λ _, True) (read a k R).
Proof.
  unfold read. gas_tac; apply gas_safe_record;
    rewrite ?WARM_STORAGE_READ_COST_val, ?COLD_SLOAD_COST_val; lia.
Qed.

Lemma gas_safe_write L R a k v : gas_safe L R (λ _, True) (write a k v R).
Proof.
  unfold write. gas_tac. apply gas_safe_record. rewrite COLD_SLOAD_COST_val. lia.
Qed.

Lemma gas_safe_can_decr L R i amt fl :
  gas_safe L R (λ _, True) (check_can_decr_account i amt R fl).
Proof. unfold check_can_decr_account. gas_tac. Qed.
#[local] Hint Resolve gas_safe_can_decr : gas.

Lemma gas_safe_transfer L R f t amt fl : gas_safe L R (λ _, True) (transfer f t amt R fl).
Proof. unfold transfer. gas_tac. Qed.

Lemma gas_safe_balance_incr L R t amt : gas_safe L R (λ _, True) (balance_incr t amt R).
Proof. unfold balance_incr. gas_tac. Qed.

Lemma gas_safe_balance_decr L R f amt fl : gas_safe L R (λ _, True) (balance_decr f amt R fl).
Proof. unfold balance_decr. gas_tac. Qed.

Lemma gas_safe_emit L R a ev : gas_safe L R (λ _, True) (emit_event a ev R).
Proof.
  unfold emit_event. gas_tac. apply gas_safe_record.
  unfold saturating_add, saturating_mul, uint_max, LOG_BASE_COST, LOG_TOPIC_COST, LOG_DATA_COST.
  lia.
Qed.

(** A precompile whose arms are gas-safe reports at most the gas of the call,
    and the call's reservoir. *)
Lemma precompile_gas_safe bodies i j :
  0 ≤ input_gas i →
  Forall (λ arm, ∀ b, gas_safe (input_gas i) (input_reservoir i)
                   (output_ok (input_gas i) (input_reservoir i)) (arm.2 b)) bodies →
  match (precompile bodies i j).1 with
  | Ok o => output_ok (input_gas i) (input_reservoir i) o
  | Err _ => True
  end.
Proof.
  intros Hg HF. unfold precompile.
  assert (gas_inv (input_gas i) (gas_new (input_gas i))) as HI
    by (unfold gas_inv; rewrite gas_new_remaining, gas_new_used; lia).
  assert (∀ e, err_ok (input_gas i) (input_reservoir i) e →
    match into_result e with Ok o => output_ok (input_gas i) (input_reservoir i) o | Err _ => True end)
    as Hinto by (by intros [[]|[]|]).
  case_decide; [by apply Hinto, new_reverted_with_penalty_ok|].
  destruct (list_find _ bodies) as [[k [fn body]]|] eqn:E; simpl;
    [|by apply Hinto, new_reverted_with_penalty_ok].
  apply list_find_Some in E as (E & _).
  pose proof (Forall_lookup_1 _ _ _ _ HF E (drop 4 (input_data i))) as HB. simpl in HB.
  destruct (HB (mkSt j (gas_new (input_gas i))) HI) as [_ HQ].
  destruct (body _ _) as [[o|e] s]; simpl in *; [done|by apply Hinto].
Qed.

Lemma precompile_output_ok bodies i j o :
  0 ≤ input_gas i →
  Forall (λ arm, ∀ b, gas_safe (input_gas i) (input_reservoir i)
                   (output_ok (input_gas i) (input_reservoir i)) (arm.2 b)) bodies →
  (precompile bodies i j).1 = Ok o → output_ok (input_gas i) (input_reservoir i) o.
Proof. intros Hg HF E. pose proof (precompile_gas_safe bodies i j Hg HF) as H. by rewrite E in H. Qed.

(** A successful outcome comes from an arm that ran to its end. *)
Lemma precompile_success bodies i j gu out r j' :
  0 ≤ input_gas i →
  Forall (λ arm, ∀ b, gas_safe (input_gas i) (input_reservoir i)
                   (output_ok (input_gas i) (input_reservoir i)) (arm.2 b)) bodies →
  precompile bodies i j = (Ok (Success gu out r), j') →
  ∃ fn body s, (fn, body) ∈ bodies ∧ take 4 (input_data i) = SELECTOR fn
    ∧ body (drop 4 (input_data i)) (mkSt j (gas_new (input_gas i))) = (Ok (Success gu out r), s)
    ∧ j' = internals s.
Proof.
  intros Hg HF. unfold precompile.
  assert (gas_inv (input_gas i) (gas_new (input_gas i))) as HI
    by (unfold gas_inv; rewrite gas_new_remaining, gas_new_used; lia).
  assert (∀ e, err_ok (input_gas i) (input_reservoir i) e →
    into_result e ≠ Ok (Success gu out r)) as Hinto by (by intros [[]|[]|]).
  case_decide.
  { intros [= E _]. by apply Hinto in E; [|apply new_reverted_with_penalty_ok]. }
  destruct (list_find _ bodies) as [[k [fn body]]|] eqn:E.
  2: { intros [= E' _]. by apply Hinto in E'; [|apply new_reverted_with_penalty_ok]. }
  apply list_find_Some in E as (E & Hsel & _). simpl in Hsel.
  pose proof (Forall_lookup_1 _ _ _ _ HF E (drop 4 (input_data i))) as HB. simpl in HB.
  destruct (HB (mkSt j (gas_new (input_gas i))) HI) as [_ HQ].
  destruct (body _ _) as [[o|e] s] eqn:EB; simpl in *.
  - intros [= -> <-]. exists fn, body, s. split_and!; try done. by eapply list_elem_of_lookup_2.
  - intros [= E' _]. by apply Hinto in E'.
Qed.
End GasSafeHelpers.

#[export] Hint Resolve gas_safe_read gas_safe_write gas_safe_transfer gas_safe_balance_incr
  gas_safe_balance_decr gas_safe_emit gas_safe_record_empty gas_safe_can_decr
  gas_safe_reject_if : gas.

(** ** Operations that change nothing *)

Section Keeps.
Context `{RL : RevmLaws}.
Abbreviation Op A := (M St PrecompileErrorOrRevert A).

(** The operation changes no account, no slot and no log, whatever it returns. *)
Definition keeps {A} (m : Op A) : Prop :=
  ∀ s, view (internals (m s).2) ≡ view (internals s).

Lemma keeps_ret {A} (a : A) : keeps (m_ret a).
Proof. by intros s. Qed.
Lemma keeps_err {A} e : keeps (A := A) (m_err e).
Proof. by intros s. Qed.
Lemma keeps_current_gas : keeps current_gas.
Proof. by intros s. Qed.
Lemma keeps_record R c : keeps (record_cost_or_out_of_gas R c).
Proof. intros s. unfold record_cost_or_out_of_gas. by destruct (record_regular_cost _ _) as [[] ?]. Qed.
Lemma keeps_check_gas R c : keeps (check_gas_remaining R c).
Proof. intros s. unfold check_gas_remaining. by case_decide. Qed.
Lemma keeps_bind {A B} (m : Op A) (f : A → Op B) : keeps m → (∀ a, keeps (f a)) → keeps (m_bind m f).
Proof.
  intros Hm Hf s. unfold m_bind. specialize (Hm s). destruct (m s) as [[a|e] s1]; [|done].
  by rewrite (Hf a s1).
Qed.
(** What follows a rejection does not run. *)
Lemma keeps_reject {A B} R msg (f : A → Op B) : keeps (m_bind (fail_early R msg) f).
Proof. by intros s. Qed.
Lemma keeps_io {E A} op (f : Journal → result E A * Journal) :
  (∀ j, view (f j).2 ≡ view j) → keeps (io op f).
Proof.
  intros Hf. apply keeps_bind; [|intros []; [apply keeps_ret|apply keeps_err]].
  intros s. unfold on_journal. specialize (Hf (internals s)). by destruct (f _).
Qed.
Lemma keeps_decode {A} (d : bytes → option A) b R : keeps (decode_args d b R).
Proof. unfold decode_args. destruct (d b); [apply keeps_ret|by intros s]. Qed.
Lemma keeps_static i : keeps (check_staticcall i).
Proof. intros s. unfold check_staticcall. by destruct (is_static i). Qed.
End Keeps.

Create HintDb keeps.
#[export] Hint Resolve keeps_ret keeps_err keeps_current_gas keeps_record keeps_check_gas
  keeps_reject keeps_io keeps_decode keeps_static sload_view load_account_mut_view : keeps.
Ltac keeps_tac := repeat (first [progress auto with keeps | apply keeps_bind; [|intros ?]
  | match goal with |- keeps (match ?x with _ => _ end) => destruct x end]).

Section Rejects.
Context `{RL : RevmLaws}.
Variable i : PrecompileInput.

Lemma keeps_read a k R : keeps (read a k R).
Proof.
  unfold read. keeps_tac.
  intros s. unfold on_journal. pose proof (sload_view (internals s) a k true). by destruct (sload _ _ _ _).
Qed.

Lemma precompile_keeps bodies j :
  Forall (λ arm, ∀ b, keeps (arm.2 b)) bodies → view (precompile bodies i j).2 ≡ view j.
Proof.
  intros HF. unfold precompile. case_decide; [done|].
  destruct (list_find _ bodies) as [[k [fn body]]|] eqn:E; [|done].
  apply list_find_Some in E as (E & _). pose proof (Forall_lookup_1 _ _ _ _ HF E (drop 4 (input_data i))) as HK.
  specialize (HK (mkSt j (gas_new (input_gas i)))). cbn [snd] in HK. by destruct (body _ _).
Qed.

(** The operation stops with the early penalty and touches nothing. *)
Definition rejects {A} (m : M St PrecompileErrorOrRevert A) : Prop :=
  ∀ s, ∃ msg, m s =
    (Err (new_reverted_with_early_penalty (gas_counter s) (input_reservoir i) msg), s).

Lemma precompile_rejects (bodies : list (SolFunction * (bytes → M St PrecompileErrorOrRevert PrecompileOutput))) fn body j :
  NoDup bodies.*1 → (fn, body) ∈ bodies → rejects (body (drop 4 (input_data i))) →
  PRECOMPILE_EARLY_REVERT_GAS_PENALTY ≤ input_gas i →
  (4 ≤ length (input_data i))%nat → take 4 (input_data i) = SELECTOR fn →
  ∃ msg, precompile bodies i j =
    (Ok (Reverted PRECOMPILE_EARLY_REVERT_GAS_PENALTY (revert_message_to_bytes msg) (input_reservoir i)), j).
Proof.
  intros ND Hin HR Hg Hlen Hsel. unfold precompile. rewrite decide_False by lia.
  destruct (list_find _ bodies) as [[k [fn' body']]|] eqn:E.
  - apply list_find_Some in E as (E & Hs & _). cbn [fst] in Hs. rewrite Hsel in Hs.
    apply SELECTOR_inj in Hs as <-. apply list_elem_of_lookup in Hin as [k' Hk'].
    assert (k' = k) as ->.
    { apply (NoDup_lookup _ _ _ fn ND); by rewrite list_lookup_fmap, ?E, ?Hk'. }
    simplify_eq. destruct (HR (mkSt j (gas_new (input_gas i)))) as [msg ->]. exists msg.
    cbn [gas_counter internals]. unfold new_reverted_with_early_penalty, new_reverted_with_penalty.
    destruct (record_cost_ok (gas_new (input_gas i)) PRECOMPILE_EARLY_REVERT_GAS_PENALTY)
      as (g' & -> & _ & Hu); [by rewrite gas_new_remaining|].
    simpl. by rewrite Hu, gas_new_used.
  - apply list_find_None in E. rewrite Forall_forall in E. by destruct (E _ Hin).
Qed.
End Rejects.

#[export] Hint Resolve keeps_read : keeps.

Create HintDb arms.
#[export] Hint Extern 1 (NoDup _) => (apply (bool_decide_unpack _); vm_compute; exact I) : arms.
#[export] Hint Extern 1 (_ ∈ _ :: _) => (rewrite !elem_of_cons; tauto) : arms.
