(* ===== verification/NativeCoin.v ===== *)
(** * The native coin precompiles

    [crates/precompiles/src/native_coin_authority.rs] (mint, burn, transfer,
    totalSupply), [native_coin_control.rs] (blocklist, isBlocklisted,
    unBlocklist) and the blocklist slot of
    [crates/execution-config/src/native_coin_control.rs].

    [Coin] is the abstract ledger the two contracts promise; [coin_step] its
    transitions; the refinement theorems say that every successful call is a
    transition of the ledger. *)

From S2P Require Import Prelude Hardforks Revm Precompile.

Definition NATIVE_COIN_AUTHORITY_ADDRESS : Z := 0x1800000000000000000000000000000000000000.
Definition NATIVE_COIN_CONTROL_ADDRESS : Z := 0x1800000000000000000000000000000000000001.
Definition ALLOWED_CALLER_ADDRESS : Z := NATIVE_FIAT_TOKEN_ADDRESS.
Definition TOTAL_SUPPLY_STORAGE_KEY : Z := 2.
Definition TOTAL_SUPPLY_GAS_COST : Z := PRECOMPILE_SLOAD_GAS_COST.
Definition ADDRESS_ZERO : Z := 0.

Definition ERR_CANNOT_MINT : string := "Not enabled native coin minter".
Definition ERR_CANNOT_BURN : string := "Not enabled native coin burner".
Definition ERR_CANNOT_TRANSFER : string := "Not enabled for native coin transfers".
Definition ERR_ZERO_AMOUNT : string := "Zero amount invalid".

Definition BLOCKLISTED_EVENT_GAS_COST : Z := LOG_BASE_COST + 2 * LOG_TOPIC_COST.
Definition UNBLOCKLISTED_EVENT_GAS_COST : Z := LOG_BASE_COST + 2 * LOG_TOPIC_COST.
Definition BLOCKLIST_GAS_COST : Z :=
  PRECOMPILE_SLOAD_GAS_COST + PRECOMPILE_SSTORE_GAS_COST + BLOCKLISTED_EVENT_GAS_COST.
Definition IS_BLOCKLISTED_GAS_COST : Z := PRECOMPILE_SLOAD_GAS_COST.
Definition UNBLOCKLIST_GAS_COST : Z :=
  PRECOMPILE_SLOAD_GAS_COST + PRECOMPILE_SSTORE_GAS_COST + UNBLOCKLISTED_EVENT_GAS_COST.
Definition BLOCKLISTED_STATUS : Z := 1.
Definition UNBLOCKLISTED_STATUS : Z := 0.
Definition ERR_CANNOT_BLOCKLIST : string := "Not enabled for blocklisting".
Definition ERR_CANNOT_UNBLOCKLIST : string := "Not enabled for unblocklisting".
Definition BLOCKLIST_MAPPING_SLOT : Z := 2.

Section NativeCoin.
Context `{RO : RevmOps}.
Abbreviation Op A := (M St PrecompileErrorOrRevert A).

(** execution-config: [keccak256(pad32(key) . slot)] *)
Definition compute_is_blocklisted_storage_slot (key : Z) : Z :=
  let key_bytes := replicate 12 Byte.x00 ++ to_be_bytes 20 key in
  keccak256 (key_bytes ++ to_be_bytes 32 BLOCKLIST_MAPPING_SLOT).

Definition is_blocklisted_status (status : Z) : bool := negb (bool_decide (status = 0)).

Definition is_blocklisted (address reservoir : Z) : Op bool :=
  let storage_slot := compute_is_blocklisted_storage_slot address in
  storage_output <-- read NATIVE_COIN_CONTROL_ADDRESS storage_slot reservoir ;;
  m_ret (negb (bool_decide (from_be_bytes storage_output = UNBLOCKLISTED_STATUS))).

Definition reject_blocklisted (address reservoir : Z) : Op unit :=
  blocked <-- is_blocklisted address reservoir ;;
  reject_if blocked reservoir ERR_BLOCKED_ADDRESS.

Definition read_total_supply (reservoir : Z) : Op Z :=
  total_supply_output <-- read NATIVE_COIN_AUTHORITY_ADDRESS TOTAL_SUPPLY_STORAGE_KEY reservoir ;;
  m_ret (from_be_bytes total_supply_output).

Definition write_total_supply (new_total_supply reservoir : Z) : Op unit :=
  write NATIVE_COIN_AUTHORITY_ADDRESS TOTAL_SUPPLY_STORAGE_KEY
    (to_be_bytes 32 new_total_supply) reservoir.

(** ** Native coin authority *)

Definition mint (precompile_input : PrecompileInput) (hardfork_flags : ArcHardforkFlags)
    (input : bytes) : Op PrecompileOutput :=
  let reservoir := input_reservoir precompile_input in
  check_staticcall precompile_input ;;;
  args <-- decode_args decode_mint input reservoir ;;
  let '(to, amount) := args in
  reject_if (negb (bool_decide (caller precompile_input = ALLOWED_CALLER_ADDRESS)))
    reservoir ERR_CANNOT_MINT ;;;
  check_delegatecall NATIVE_COIN_AUTHORITY_ADDRESS precompile_input hardfork_flags ;;;
  reject_if (bool_decide (to = ADDRESS_ZERO)) reservoir ERR_ZERO_ADDRESS ;;;
  reject_blocklisted to reservoir ;;;
  reject_if (bool_decide (amount = 0)) reservoir ERR_ZERO_AMOUNT ;;;
  current_total_supply <-- read_total_supply reservoir ;;
  match checked_add 256 current_total_supply amount with
  | None => fail_early reservoir ERR_OVERFLOW
  | Some new_total_supply =>
      write_total_supply new_total_supply reservoir ;;;
      balance_incr to amount reservoir ;;;
      emit_event SYSTEM_ADDRESS (Transfer ADDRESS_ZERO to amount) reservoir ;;;
      finish (abi_encode_bool true) reservoir
  end.

Definition burn (precompile_input : PrecompileInput) (hardfork_flags : ArcHardforkFlags)
    (input : bytes) : Op PrecompileOutput :=
  let reservoir := input_reservoir precompile_input in
  check_staticcall precompile_input ;;;
  args <-- decode_args decode_burn input reservoir ;;
  let '(from, amount) := args in
  reject_if (negb (bool_decide (caller precompile_input = ALLOWED_CALLER_ADDRESS)))
    reservoir ERR_CANNOT_BURN ;;;
  check_delegatecall NATIVE_COIN_AUTHORITY_ADDRESS precompile_input hardfork_flags ;;;
  reject_if (bool_decide (from = ADDRESS_ZERO)) reservoir ERR_ZERO_ADDRESS ;;;
  reject_blocklisted from reservoir ;;;
  reject_if (bool_decide (amount = 0)) reservoir ERR_ZERO_AMOUNT ;;;
  balance_decr from amount reservoir hardfork_flags ;;;
  current_total_supply <-- read_total_supply reservoir ;;
  write_total_supply (saturating_sub current_total_supply amount) reservoir ;;;
  emit_event SYSTEM_ADDRESS (Transfer from ADDRESS_ZERO amount) reservoir ;;;
  finish (abi_encode_bool true) reservoir.

Definition transfer_call (precompile_input : PrecompileInput)
    (hardfork_flags : ArcHardforkFlags) (input : bytes) : Op PrecompileOutput :=
  let reservoir := input_reservoir precompile_input in
  check_staticcall precompile_input ;;;
  args <-- decode_args decode_transfer input reservoir ;;
  let '(from, to, amount) := args in
  reject_if (negb (bool_decide (caller precompile_input = ALLOWED_CALLER_ADDRESS)))
    reservoir ERR_CANNOT_TRANSFER ;;;
  check_delegatecall NATIVE_COIN_AUTHORITY_ADDRESS precompile_input hardfork_flags ;;;
  reject_if (bool_decide (from = ADDRESS_ZERO) || bool_decide (to = ADDRESS_ZERO))
    reservoir ERR_ZERO_ADDRESS ;;;
  reject_blocklisted from reservoir ;;;
  reject_blocklisted to reservoir ;;;
  (if negb (bool_decide (amount = 0)) then
     transfer from to amount reservoir hardfork_flags ;;;
     (if negb (bool_decide (from = to)) then
        emit_event SYSTEM_ADDRESS (Transfer from to amount) reservoir
      else m_ret ())
   else m_ret ()) ;;;
  finish (abi_encode_bool true) reservoir.

Definition totalSupply (precompile_input : PrecompileInput) (input : bytes)
    : Op PrecompileOutput :=
  let reservoir := input_reservoir precompile_input in
  decode_args decode_totalSupply input reservoir ;;;
  check_gas_remaining reservoir TOTAL_SUPPLY_GAS_COST ;;;
  total_supply <-- read_total_supply reservoir ;;
  finish (abi_encode_u256 total_supply) reservoir.

Definition run_native_coin_authority (precompile_input : PrecompileInput)
    (hardfork_flags : ArcHardforkFlags) (journal : Journal)
    : result string PrecompileOutput * Journal :=
  precompile
    [(mintCall, mint precompile_input hardfork_flags);
     (burnCall, burn precompile_input hardfork_flags);
     (transferCall, transfer_call precompile_input hardfork_flags);
     (totalSupplyCall, totalSupply precompile_input)]
    precompile_input journal.

(** ** Native coin control *)

(** The common part of the two blocklist updates: authorisation, the
    delegatecall check (before the gas floor from Zero8 on, after it before),
    the storage write and the event. *)
Definition set_blocklist_status (precompile_input : PrecompileInput)
    (hardfork_flags : ArcHardforkFlags) (decode : bytes → option Z) (input : bytes)
    (err : string) (gas_cost status : Z) (event : Z → Event) : Op PrecompileOutput :=
  let reservoir := input_reservoir precompile_input in
  check_staticcall precompile_input ;;;
  account <-- decode_args decode input reservoir ;;
  reject_if (negb (bool_decide (caller precompile_input = ALLOWED_CALLER_ADDRESS)))
    reservoir err ;;;
  (if is_active hardfork_flags Zero8
   then check_delegatecall NATIVE_COIN_CONTROL_ADDRESS precompile_input hardfork_flags
   else m_ret ()) ;;;
  check_gas_remaining reservoir (gas_cost - PRECOMPILE_SLOAD_GAS_COST) ;;;
  (if negb (is_active hardfork_flags Zero8)
   then check_delegatecall NATIVE_COIN_CONTROL_ADDRESS precompile_input hardfork_flags
   else m_ret ()) ;;;
  let storage_slot := compute_is_blocklisted_storage_slot account in
  write NATIVE_COIN_CONTROL_ADDRESS storage_slot (to_be_bytes 32 status) reservoir ;;;
  emit_event NATIVE_COIN_CONTROL_ADDRESS (event account) reservoir ;;;
  finish (abi_encode_bool true) reservoir.

Definition blocklist (precompile_input : PrecompileInput) (hardfork_flags : ArcHardforkFlags)
    (input : bytes) : Op PrecompileOutput :=
  set_blocklist_status precompile_input hardfork_flags decode_blocklist input
    ERR_CANNOT_BLOCKLIST BLOCKLIST_GAS_COST BLOCKLISTED_STATUS Blocklisted.

Definition isBlocklisted (precompile_input : PrecompileInput) (input : bytes)
    : Op PrecompileOutput :=
  let reservoir := input_reservoir precompile_input in
  account <-- decode_args decode_isBlocklisted input reservoir ;;
  check_gas_remaining reservoir IS_BLOCKLISTED_GAS_COST ;;;
  let storage_slot := compute_is_blocklisted_storage_slot account in
  storage_output <-- read NATIVE_COIN_CONTROL_ADDRESS storage_slot reservoir ;;
  let status := from_be_bytes storage_output in
  let is_blocked := negb (bool_decide (status = UNBLOCKLISTED_STATUS)) in
  finish (abi_encode_bool is_blocked) reservoir.

Definition unBlocklist (precompile_input : PrecompileInput) (hardfork_flags : ArcHardforkFlags)
    (input : bytes) : Op PrecompileOutput :=
  set_blocklist_status precompile_input hardfork_flags decode_unBlocklist input
    ERR_CANNOT_UNBLOCKLIST UNBLOCKLIST_GAS_COST UNBLOCKLISTED_STATUS UnBlocklisted.

Definition run_native_coin_control (precompile_input : PrecompileInput)
    (hardfork_flags : ArcHardforkFlags) (journal : Journal)
    : result string PrecompileOutput * Journal :=
  precompile
    [(blocklistCall, blocklist precompile_input hardfork_flags);
     (isBlocklistedCall, isBlocklisted precompile_input);
     (unBlocklistCall, unBlocklist precompile_input hardfork_flags)]
    precompile_input journal.
End NativeCoin.

(** ** The abstract ledger *)

Record Coin := mkCoin {
  balances : Z → Z;
  supply : Z;
  blocked : Z → bool;
  destroyed : Z → bool;
  bare : Z → bool;  (** neither nonce nor code *)
  coin_logs : list Log;
}.

(** The ledger transitions, for the 160-bit addresses. *)
Section Ledger.
Context `{RO : RevmOps}.

Definition same_blocklist (c c' : Coin) : Prop :=
  ∀ a, uint 160 a → blocked c' a = blocked c a.

(** Nothing but balances, supply, blocklist and log changes. *)
Definition same_accounts (c c' : Coin) : Prop :=
  ∀ a, destroyed c' a = destroyed c a ∧ bare c' a = bare c a.

(** Where accounts may not be cleared, one without nonce and code keeps some balance. *)
Definition may_take (clearing : bool) (c : Coin) (from amount : Z) : Prop :=
  amount ≤ balances c from ∧ (clearing = false → bare c from = true → balances c from ≠ amount).

(** What a call asks of the ledger. *)
Inductive CoinOp :=
| Mint (to amount : Z)
| Burn (from amount : Z)
| Move (from to amount : Z)
| Block (account : Z) (b : bool)
| Query.

(** The transitions with all their conditions; accounts may be cleared ([clearing]) from Zero8 on. *)
Inductive coin_step (clearing : bool) (c c' : Coin) : CoinOp → Prop :=
| step_mint to amount :
    to ≠ ADDRESS_ZERO → blocked c to = false → 0 < amount → destroyed c to = false →
    u256 (supply c + amount) → u256 (balances c to + amount) →
    (∀ a, balances c' a = if decide (a = to) then balances c a + amount else balances c a) →
    supply c' = supply c + amount → same_blocklist c c' → same_accounts c c' →
    coin_logs c' = coin_logs c
      ++ [mkLog SYSTEM_ADDRESS (encode_log_data (Transfer ADDRESS_ZERO to amount))] →
    coin_step clearing c c' (Mint to amount)
| step_burn from amount :
    from ≠ ADDRESS_ZERO → blocked c from = false → 0 < amount → may_take clearing c from amount →
    (∀ a, balances c' a = if decide (a = from) then balances c a - amount else balances c a) →
    supply c' = Z.max 0 (supply c - amount) → same_blocklist c c' → same_accounts c c' →
    coin_logs c' = coin_logs c
      ++ [mkLog SYSTEM_ADDRESS (encode_log_data (Transfer from ADDRESS_ZERO amount))] →
    coin_step clearing c c' (Burn from amount)
| step_transfer from to amount :
    from ≠ ADDRESS_ZERO → to ≠ ADDRESS_ZERO → from ≠ to →
    blocked c from = false → blocked c to = false →
    0 < amount → may_take clearing c from amount → destroyed c to = false → u256 (balances c to + amount) →
    (∀ a, balances c' a = if decide (a = from) then balances c a - amount
                          else if decide (a = to) then balances c a + amount
                          else balances c a) →
    supply c' = supply c → same_blocklist c c' → same_accounts c c' →
    coin_logs c' = coin_logs c
      ++ [mkLog SYSTEM_ADDRESS (encode_log_data (Transfer from to amount))] →
    coin_step clearing c c' (Move from to amount)
(* of nothing, or to oneself: checked like any other, without effect or event *)
| step_transfer_none from to amount :
    from ≠ ADDRESS_ZERO → to ≠ ADDRESS_ZERO →
    blocked c from = false → blocked c to = false →
    amount = 0 ∨ from = to ∧ 0 < amount ∧ may_take clearing c from amount ∧ destroyed c to = false →
    (∀ a, balances c' a = balances c a) → supply c' = supply c → same_blocklist c c' → same_accounts c c' →
    coin_logs c' = coin_logs c → coin_step clearing c c' (Move from to amount)
| step_block account b :
    uint 160 account →
    (∀ a, balances c' a = balances c a) → supply c' = supply c →
    (∀ a, uint 160 a → blocked c' a = if decide (a = account) then b else blocked c a) → same_accounts c c' →
    coin_logs c' = coin_logs c
      ++ [mkLog NATIVE_COIN_CONTROL_ADDRESS
            (encode_log_data (if b then Blocklisted account else UnBlocklisted account))] →
    coin_step clearing c c' (Block account b)
| step_query :
    (∀ a, balances c' a = balances c a) → supply c' = supply c → same_blocklist c c' → same_accounts c c' →
    coin_logs c' = coin_logs c → coin_step clearing c c' Query.

(** The ledger of a world. *)
Definition coin_of (w : World) : Coin := {|
  balances := balance_of w;
  supply := w_storage w NATIVE_COIN_AUTHORITY_ADDRESS TOTAL_SUPPLY_STORAGE_KEY;
  blocked a := is_blocklisted_status
    (w_storage w NATIVE_COIN_CONTROL_ADDRESS (compute_is_blocklisted_storage_slot a));
  destroyed := w_selfdestructed w;
  bare a := (nonce (w_account w a) =? 0)
    && ((code_hash (w_account w a) =? KECCAK_EMPTY) || (code_hash (w_account w a) =? 0));
  coin_logs := w_logs w;
|}.

(** What a state-changing call has checked: it comes from the native fiat token, is not static and
    not a delegate call. *)
Definition authorised (i : PrecompileInput) (self : Z) : Prop :=
  caller i = ALLOWED_CALLER_ADDRESS ∧ is_static i = false ∧ target_address i = self ∧ bytecode_address i = self.
End Ledger.

(** Two addresses never share a blocklist slot: collision resistance of Keccak
    on the 2^160 preimages that occur. *)
Class BlocklistSlotsDistinct `{RO : RevmOps} : Prop :=
  blocklist_slot_inj : ∀ a b, uint 160 a → uint 160 b →
    compute_is_blocklisted_storage_slot a = compute_is_blocklisted_storage_slot b → a = b.

Section Refinement.
Context `{RL : RevmLaws}.

Lemma from_to_be_bytes_storage j a k :
  from_be_bytes (to_be_bytes 32 (w_storage (view j) a k)) = w_storage (view j) a k.
Proof. apply from_to_be_bytes, view_storage_range. Qed.

Lemma reject_blocklisted_spec a r j g u s' :
  reject_blocklisted a r (mkSt j g) = (Ok u, s') →
  blocked (coin_of (view j)) a = false ∧ view (internals s') ≡ view j.
Proof.
  intros (b & s1 & H & [-> ->]%reject_if_ok)%m_bind_ok.
  apply m_bind_ok in H as (bs & s2 & [-> V]%read_spec & [= ? <-]).
  split; [|done]. rewrite from_to_be_bytes_storage in *. done.
Qed.

Lemma may_take_world fl w from amount :
  amount ≤ balance_of w from → (is_active fl Zero8 = false → ¬ clears_account (w_account w from) amount) →
  may_take (is_active fl Zero8) (coin_of w) from amount.
Proof.
  intros Ha Hc. split; [done|]. intros Hf Hb E. apply (Hc Hf). split; [exact E|]. cbn in Hb.
  apply andb_prop in Hb as [Hn%Z.eqb_eq Hh]. split; [done|].
  apply orb_prop in Hh as [Hh%Z.eqb_eq|Hh%Z.eqb_eq]; auto.
Qed.

Lemma read_total_supply_spec r j g v s' :
  read_total_supply r (mkSt j g) = (Ok v, s') →
  v = supply (coin_of (view j)) ∧ view (internals s') ≡ view j.
Proof.
  intros (bs & s1 & [-> V]%read_spec & [= <- <-])%m_bind_ok.
  by rewrite from_to_be_bytes_storage.
Qed.

Lemma write_total_supply_spec v r j g u s' :
  u256 v → write_total_supply v r (mkSt j g) = (Ok u, s') →
  view (internals s') ≡
    set_storage (view j) NATIVE_COIN_AUTHORITY_ADDRESS TOTAL_SUPPLY_STORAGE_KEY v.
Proof.
  intros Hv H. apply write_spec in H as [_ H]; rewrite from_to_be_bytes in * by done; done.
Qed.

End Refinement.

(** Invert a successful run of a coin operation. *)
Ltac coin_run_step :=
  match goal with
  | s : St |- _ => destruct s as [? ?]
  | H : reject_if _ _ _ _ = (Ok _, _) |- _ => apply reject_if_ok in H as [? ?]; simplify_eq
  | H : reject_blocklisted _ _ _ = (Ok _, _) |- _ => apply reject_blocklisted_spec in H as [? ?]
  | H : read_total_supply _ _ = (Ok _, _) |- _ =>
      apply read_total_supply_spec in H as [? ?]; simplify_eq
  | H : finish _ _ _ = (Ok _, _) |- _ => unfold finish in H
  | H : balance_decr _ _ _ _ _ = (Ok _, _), V : uint 256 _ |- _ =>
      apply balance_decr_spec in H as (? & ? & ?); [|by apply V]
  | H : balance_incr _ _ _ _ = (Ok _, _), V : uint 256 _ |- _ =>
      apply balance_incr_spec in H as (? & ? & ?); [|by apply V]
  | D : decode_mint _ = Some (_, ?v) |- _ =>
      lazymatch goal with
      | _ : uint 256 v |- _ => fail
      | _ => destruct (decode_mint_range _ _ _ D) as [? ?]
      end
  | D : decode_burn _ = Some (_, ?v) |- _ =>
      lazymatch goal with
      | _ : uint 256 v |- _ => fail
      | _ => destruct (decode_burn_range _ _ _ D) as [? ?]
      end
  | H : emit_event _ _ _ _ = (Ok _, _) |- _ => apply emit_event_spec in H
  end.
Ltac coin_run :=
  repeat first [ progress cbn [internals gas_counter] in * | run_step | coin_run_step ];
  repeat match goal with
  | H : negb (bool_decide _) = false |- _ =>
      apply negb_false_iff, bool_decide_eq_true in H
  | H : negb (bool_decide _) = true |- _ =>
      apply negb_true_iff, bool_decide_eq_false in H
  | H : bool_decide _ = false |- _ => apply bool_decide_eq_false in H
  | H : bool_decide _ = true |- _ => apply bool_decide_eq_true in H
  end.
(** Express every world in terms of the initial one. *)
Ltac worlds_to_initial :=
  unfold coin_of, balance_of in *; cbn in *;
  repeat match goal with
  | E : view ?x ≡ _, H : context [view ?x] |- _ =>
      lazymatch type of H with view x ≡ _ => fail | _ => rewrite !E in H end
  end.
(** Evaluate the ledger of the final world in terms of the initial one. *)
Ltac ledger :=
  unfold same_blocklist, same_accounts, uint in *; cbn in *; intros; split_and?; world_rewrite; cbn;
  repeat case_decide; destruct_and?; simplify_eq; try done; try lia.

Section RefinementAuthority.
Context `{RL : RevmLaws}.

Lemma mint_refines i fl b j g out s' :
  mint i fl b (mkSt j g) = (Ok out, s') →
  authorised i NATIVE_COIN_AUTHORITY_ADDRESS
  ∧ ∃ to amount gu, decode_mint b = Some (to, amount)
      ∧ out = Success gu (abi_encode_bool true) (input_reservoir i)
      ∧ coin_step (is_active fl Zero8) (coin_of (view j)) (coin_of (view (internals s'))) (Mint to amount).
Proof.
  unfold mint. intros H. coin_run.
  match goal with D : decode_mint _ = Some (?x, ?y) |- _ =>
    pose proof (decode_mint_range _ _ _ D) as [_ Hv]; rename x into to, y into amount end.
  match goal with A : checked_add _ _ _ = Some _ |- _ => apply checked_add_inv in A as [-> HS] end.
  match goal with W : write_total_supply _ _ _ = _ |- _ =>
    apply write_total_supply_spec in W; [|done] end.
  split; [done|]. eexists to, amount, _. do 2 (split; [done|]). worlds_to_initial.
  apply step_mint; ledger.
Qed.

Lemma burn_refines i fl b j g out s' :
  burn i fl b (mkSt j g) = (Ok out, s') →
  authorised i NATIVE_COIN_AUTHORITY_ADDRESS
  ∧ ∃ from amount gu, decode_burn b = Some (from, amount)
      ∧ out = Success gu (abi_encode_bool true) (input_reservoir i)
      ∧ coin_step (is_active fl Zero8) (coin_of (view j)) (coin_of (view (internals s'))) (Burn from amount).
Proof.
  unfold burn. intros H. coin_run.
  match goal with D : decode_burn _ = Some (?x, ?y) |- _ =>
    pose proof (decode_burn_range _ _ _ D) as [_ Hv]; rename x into from, y into amount end.
  match goal with W : write_total_supply _ _ _ = _ |- _ =>
    apply write_total_supply_spec in W;
    [|apply saturating_sub_range; [apply view_storage_range|unfold uint in *; lia]] end.
  split; [done|]. eexists from, amount, _. do 2 (split; [done|]). worlds_to_initial.
  apply step_burn; try (apply (may_take_world fl (view j)); [unfold uint, balance_of in *; lia|done]); ledger.
  unfold saturating_sub. lia.
Qed.

Lemma transfer_refines i fl b j g out s' :
  transfer_call i fl b (mkSt j g) = (Ok out, s') →
  authorised i NATIVE_COIN_AUTHORITY_ADDRESS
  ∧ ∃ from to amount gu, decode_transfer b = Some (from, to, amount)
      ∧ out = Success gu (abi_encode_bool true) (input_reservoir i)
      ∧ coin_step (is_active fl Zero8) (coin_of (view j)) (coin_of (view (internals s'))) (Move from to amount).
Proof.
  unfold transfer_call. intros H. coin_run.
  all: match goal with D : decode_transfer _ = Some (?x, ?y, ?v) |- _ =>
    pose proof (decode_transfer_range _ _ _ _ D) as (_ & _ & Hv); rename x into from; rename v into amount;
    try rename y into to end.
  all: repeat match goal with
    | Z : _ || _ = false |- _ => apply orb_false_iff in Z as [?%bool_decide_eq_false ?%bool_decide_eq_false]
    | T : transfer _ _ _ _ _ _ = _ |- _ =>
        apply transfer_spec in T as (? & ? & ? & T); [|unfold uint in *; lia] end.
  all: split; [done|]; eexists from, _, amount, _; do 2 (split; [done|]).
  - rewrite decide_False in * by done. destruct_and?. worlds_to_initial.
    apply step_transfer; try (by apply (may_take_world fl (view j))); ledger.
  - rewrite decide_True in * by done. worlds_to_initial. apply step_transfer_none; ledger.
    right. split_and!; [done|lia|by apply (may_take_world fl (view j))|done].
  - worlds_to_initial. apply step_transfer_none; ledger; auto.
Qed.

Lemma totalSupply_refines i b j g out s' :
  totalSupply i b (mkSt j g) = (Ok out, s') →
  view (internals s') ≡ view j
  ∧ ∃ gu, out = Success gu (abi_encode_u256 (supply (coin_of (view j)))) (input_reservoir i).
Proof.
  unfold totalSupply. intros H. coin_run. split; [done|]. eauto.
Qed.

End RefinementAuthority.

Section RefinementControl.
Context `{RL : RevmLaws} {BD : BlocklistSlotsDistinct}.

Lemma set_blocklist_status_refines i fl d b err cost (st : bool) j g out s' :
  (∀ bs a, d bs = Some a → uint 160 a) →
  set_blocklist_status i fl d b err cost
    (if st then BLOCKLISTED_STATUS else UNBLOCKLISTED_STATUS)
    (if st then Blocklisted else UnBlocklisted) (mkSt j g) = (Ok out, s') →
  authorised i NATIVE_COIN_CONTROL_ADDRESS
  ∧ ∃ account gu, d b = Some account
      ∧ out = Success gu (abi_encode_bool true) (input_reservoir i)
      ∧ coin_step (is_active fl Zero8) (coin_of (view j)) (coin_of (view (internals s'))) (Block account st).
Proof.
  intros Hd. unfold set_blocklist_status. intros H. coin_run;
    (match goal with D : d _ = Some ?a |- _ => pose proof (Hd _ _ D); rename a into account end);
    (match goal with W : write _ _ _ _ _ = _ |- _ =>
       apply write_spec in W as [_ W]; rewrite from_to_be_bytes in * by (by destruct st);
       [|by destruct st] end);
    (split; [done|]); eexists account, _; do 2 (split; [done|]); worlds_to_initial;
    apply step_block; ledger; try (by destruct st);
    (match goal with E : compute_is_blocklisted_storage_slot _ = _, N : _ ≠ _ |- _ =>
       apply blocklist_slot_inj in E; done end).
Qed.

Lemma isBlocklisted_refines i b j g out s' :
  isBlocklisted i b (mkSt j g) = (Ok out, s') →
  view (internals s') ≡ view j
  ∧ ∃ a gu, decode_isBlocklisted b = Some a
      ∧ out = Success gu (abi_encode_bool (blocked (coin_of (view j)) a)) (input_reservoir i).
Proof.
  unfold isBlocklisted. intros H. coin_run.
  match goal with R : read _ _ _ _ = _ |- _ => apply read_spec in R as [-> ?] end.
  split; [done|]. rewrite from_to_be_bytes_storage. eauto.
Qed.

End RefinementControl.
