(* ===== verification/SystemAccounting.v ===== *)
(** * The system accounting precompile

    precompiles/src/system_accounting.rs: the ring buffer of 64 slots in which the
    block executor records, per block, the gas used, its smoothed value and the next
    base fee; the packing of the three values into one storage word; the two
    functions of the precompile.

    The abstract specification is a ring, a function from the indices 0..63 to gas
    values: [storeGasValues] replaces the entry of [blockNumber mod 64] and
    [getGasValues] reads it. *)

From S2P Require Import Prelude Hardforks Revm ToyRevm Precompile PrecompileSafety.

Definition SYSTEM_ACCOUNTING_ADDRESS : Z := 0x1800000000000000000000000000000000000002.
Definition GAS_VALUES_STORAGE_KEY : Z := 1.
Definition GAS_VALUES_RING_BUFFER_SIZE : Z := 64.

(** [dst[at..].copy_from_slice(src)] and [src[a..b]] *)
Definition copy_at (at_ : nat) (src dst : bytes) : bytes :=
  take at_ dst ++ src ++ drop (at_ + length src) dst.
Definition slice (a b : nat) (bs : bytes) : bytes := take (b - a) (drop a bs).

Definition pack_gas_values_for_storage (g : GasValues) : bytes :=
  let slot := replicate 32 Byte.x00 in
  let slot := copy_at 24 (to_be_bytes 8 (gasUsed g)) slot in
  let slot := copy_at 16 (to_be_bytes 8 (gasUsedSmoothed g)) slot in
  copy_at 8 (to_be_bytes 8 (nextBaseFee g)) slot.

Definition unpack_gas_values_from_storage (slot : bytes) : GasValues :=
  mkGasValues (from_be_bytes (slice 24 32 slot)) (from_be_bytes (slice 16 24 slot))
    (from_be_bytes (slice 8 16 slot)).

Section SystemAccounting.
Context `{RO : RevmOps}.
Abbreviation Op A := (M St PrecompileErrorOrRevert A).

Definition ARC_SYSTEM_CALLER : Z := SYSTEM_ADDRESS.

Definition compute_gas_values_storage_slot (block_number : Z) : Z :=
  let key_value := block_number `mod` GAS_VALUES_RING_BUFFER_SIZE in
  let key_bytes := copy_at 24 (to_be_bytes 8 key_value) (replicate 32 Byte.x00) in
  let slot_bytes := to_be_bytes 32 GAS_VALUES_STORAGE_KEY in
  let data := copy_at 32 slot_bytes (copy_at 0 key_bytes (replicate 64 Byte.x00)) in
  keccak256 data.

Definition storeGasValues (precompile_input : PrecompileInput) (hardfork_flags : ArcHardforkFlags)
    (input : bytes) : Op PrecompileOutput :=
  let reservoir := input_reservoir precompile_input in
  check_staticcall precompile_input ;;;
  args <-- decode_args decode_storeGasValues input reservoir ;;
  let '(blockNumber, gasValues) := args in
  reject_if (negb (bool_decide (caller precompile_input = ARC_SYSTEM_CALLER)))
    reservoir ERR_INVALID_CALLER ;;;
  check_delegatecall SYSTEM_ACCOUNTING_ADDRESS precompile_input hardfork_flags ;;;
  let storage_slot := compute_gas_values_storage_slot blockNumber in
  let updated_value_bytes := pack_gas_values_for_storage gasValues in
  write SYSTEM_ACCOUNTING_ADDRESS storage_slot updated_value_bytes reservoir ;;;
  finish (abi_encode_bool true) reservoir.

Definition getGasValues (precompile_input : PrecompileInput) (input : bytes)
    : Op PrecompileOutput :=
  let reservoir := input_reservoir precompile_input in
  blockNumber <-- decode_args decode_getGasValues input reservoir ;;
  let storage_slot := compute_gas_values_storage_slot blockNumber in
  slot_value <-- read SYSTEM_ACCOUNTING_ADDRESS storage_slot reservoir ;;
  let gas_values := unpack_gas_values_from_storage slot_value in
  finish (abi_encode_gas_values gas_values) reservoir.

Definition run_system_accounting (precompile_input : PrecompileInput)
    (hardfork_flags : ArcHardforkFlags) (journal : Journal)
    : result string PrecompileOutput * Journal :=
  precompile
    [(storeGasValuesCall, storeGasValues precompile_input hardfork_flags);
     (getGasValuesCall, getGasValues precompile_input)]
    precompile_input journal.

(** ** The ring *)

(** The ring of a world: the values at each of the 64 indices. *)
Definition ring_of (w : World) (index : Z) : GasValues :=
  unpack_gas_values_from_storage
    (to_be_bytes 32 (w_storage w SYSTEM_ACCOUNTING_ADDRESS (compute_gas_values_storage_slot index))).

End SystemAccounting.

(** The 64 ring slots are distinct: no Keccak collision among 64 fixed preimages. *)
Class RingSlotsDistinct `{RO : RevmOps} : Prop :=
  ring_slot_inj : ∀ a b, 0 ≤ a < GAS_VALUES_RING_BUFFER_SIZE → 0 ≤ b < GAS_VALUES_RING_BUFFER_SIZE →
    compute_gas_values_storage_slot a = compute_gas_values_storage_slot b → a = b.

Definition GasValues_wf (g : GasValues) : Prop :=
  u64 (gasUsed g) ∧ u64 (gasUsedSmoothed g) ∧ u64 (nextBaseFee g).

(** ** Packing *)

Lemma pack_layout g : pack_gas_values_for_storage g =
  replicate 8 Byte.x00 ++ to_be_bytes 8 (nextBaseFee g)
  ++ to_be_bytes 8 (gasUsedSmoothed g) ++ to_be_bytes 8 (gasUsed g).
Proof. reflexivity. Qed.

Lemma length_pack g : length (pack_gas_values_for_storage g) = 32%nat.
Proof. reflexivity. Qed.

Lemma unpack_pack g :
  GasValues_wf g → unpack_gas_values_from_storage (pack_gas_values_for_storage g) = g.
Proof.
  intros (H1 & H2 & H3). unfold unpack_gas_values_from_storage.
  change (slice 24 32 _) with (to_be_bytes 8 (gasUsed g)).
  change (slice 16 24 _) with (to_be_bytes 8 (gasUsedSmoothed g)).
  change (slice 8 16 _) with (to_be_bytes 8 (nextBaseFee g)).
  rewrite !from_to_be_bytes by done. by destruct g.
Qed.

Lemma unpack_wf bs : length bs = 32%nat → GasValues_wf (unpack_gas_values_from_storage bs).
Proof.
  intros Hl. unfold unpack_gas_values_from_storage, GasValues_wf, slice; cbn.
  repeat split; match goal with |- context [from_be_bytes ?x] =>
    pose proof (from_be_bytes_range x) as R end;
    rewrite length_take, length_drop, Hl in R; apply R.
Qed.

(** ** What a successful call does *)

Section AccountingSpecs.
Context `{RL : RevmLaws}.

Lemma pack_range g : u256 (from_be_bytes (pack_gas_values_for_storage g)).
Proof. pose proof (from_be_bytes_range (pack_gas_values_for_storage g)) as H. by rewrite length_pack in H. Qed.

Lemma storeGasValues_spec i fl b j g out s' :
  storeGasValues i fl b (mkSt j g) = (Ok out, s') →
  caller i = ARC_SYSTEM_CALLER ∧ is_static i = false ∧ target_address i = SYSTEM_ACCOUNTING_ADDRESS
  ∧ ∃ n v gu, decode_storeGasValues b = Some (n, v)
      ∧ out = Success gu (abi_encode_bool true) (input_reservoir i)
      ∧ view (internals s') ≡ set_storage (view j) SYSTEM_ACCOUNTING_ADDRESS
          (compute_gas_values_storage_slot n) (from_be_bytes (pack_gas_values_for_storage v)).
Proof.
  unfold storeGasValues, finish. intros H. run_inv.
  match goal with H : reject_if _ _ _ _ = _ |- _ => apply reject_if_ok in H as [Hc ?]; simplify_eq end.
  apply negb_false_iff, bool_decide_eq_true in Hc. run_inv.
  match goal with H : write _ _ _ _ _ = _ |- _ => apply write_spec in H as [_ W]; [|apply pack_range] end.
  do 3 (split; [done|]). by eexists _, _, _.
Qed.

Lemma getGasValues_spec i b j g out s' :
  getGasValues i b (mkSt j g) = (Ok out, s') →
  view (internals s') ≡ view j
  ∧ ∃ n gu, decode_getGasValues b = Some n
      ∧ out = Success gu (abi_encode_gas_values (ring_of (view j) n)) (input_reservoir i).
Proof.
  unfold getGasValues, finish. intros H. run_inv.
  match goal with R : read _ _ _ _ = _ |- _ => apply read_spec in R as [-> ?] end. eauto 6.
Qed.

Lemma gas_safe_store L i fl b :
  gas_safe L (input_reservoir i) (output_ok L (input_reservoir i)) (storeGasValues i fl b).
Proof. unfold storeGasValues. gas_tac. Qed.

Lemma gas_safe_get L i b :
  gas_safe L (input_reservoir i) (output_ok L (input_reservoir i)) (getGasValues i b).
Proof. unfold getGasValues. gas_tac. Qed.

Lemma accounting_arms_safe i fl :
  Forall (λ arm, ∀ b, gas_safe (input_gas i) (input_reservoir i)
                   (output_ok (input_gas i) (input_reservoir i)) (arm.2 b))
    [(storeGasValuesCall, storeGasValues i fl); (getGasValuesCall, getGasValues i)].
Proof.
  rewrite !Forall_cons. split_and!; try (by apply Forall_nil); intros b; cbn [snd];
    [apply gas_safe_store|apply gas_safe_get].
Qed.

(** Values stored for a block; reads of a block. *)
Definition stores (n : Z) (v : GasValues) (i : PrecompileInput) : Prop :=
  take 4 (input_data i) = SELECTOR storeGasValuesCall
  ∧ decode_storeGasValues (drop 4 (input_data i)) = Some (n, v).
Definition fetches (n : Z) (i : PrecompileInput) : Prop :=
  take 4 (input_data i) = SELECTOR getGasValuesCall
  ∧ decode_getGasValues (drop 4 (input_data i)) = Some n.

Lemma accounting_success i fl j gu out r j' :
  0 ≤ input_gas i →
  run_system_accounting i fl j = (Ok (Success gu out r), j') →
  (∃ n v, stores n v i ∧ out = abi_encode_bool true
     ∧ caller i = ARC_SYSTEM_CALLER ∧ is_static i = false
     ∧ target_address i = SYSTEM_ACCOUNTING_ADDRESS
     ∧ view j' ≡ set_storage (view j) SYSTEM_ACCOUNTING_ADDRESS
          (compute_gas_values_storage_slot n) (from_be_bytes (pack_gas_values_for_storage v)))
  ∨ (∃ n, fetches n i ∧ out = abi_encode_gas_values (ring_of (view j) n) ∧ view j' ≡ view j).
Proof.
  intros Hg H. apply precompile_success in H; [|done|apply accounting_arms_safe].
  destruct H as (fn & body & s & Hin & Hsel & Hb & ->).
  rewrite !elem_of_cons, elem_of_nil in Hin. destruct_or!; simplify_eq.
  - apply storeGasValues_spec in Hb as (? & ? & ? & n & v & ? & ? & ? & ?). simplify_eq.
    left. exists n, v. by unfold stores.
  - apply getGasValues_spec in Hb as (? & n & ? & ? & ?). simplify_eq.
    right. exists n. by unfold fetches.
Qed.

End AccountingSpecs.

Section Ring.
Context `{RL : RevmLaws} {RD : RingSlotsDistinct}.

Lemma ring_slot_mod n :
  compute_gas_values_storage_slot (n `mod` GAS_VALUES_RING_BUFFER_SIZE)
  = compute_gas_values_storage_slot n.
Proof. unfold compute_gas_values_storage_slot. by rewrite Z.mod_mod. Qed.

Lemma ring_slot_eq m n :
  compute_gas_values_storage_slot m = compute_gas_values_storage_slot n ↔
  m `mod` GAS_VALUES_RING_BUFFER_SIZE = n `mod` GAS_VALUES_RING_BUFFER_SIZE.
Proof.
  split; [|intros E; by rewrite <- ring_slot_mod, E, ring_slot_mod].
  rewrite <- (ring_slot_mod m), <- (ring_slot_mod n).
  apply ring_slot_inj; by apply Z.mod_pos_bound.
Qed.

Lemma ring_of_stored w w' n v m :
  GasValues_wf v →
  w' ≡ set_storage w SYSTEM_ACCOUNTING_ADDRESS (compute_gas_values_storage_slot n)
         (from_be_bytes (pack_gas_values_for_storage v)) →
  ring_of w' m =
    if decide (m `mod` GAS_VALUES_RING_BUFFER_SIZE = n `mod` GAS_VALUES_RING_BUFFER_SIZE)
    then v else ring_of w m.
Proof.
  intros Hv E. unfold ring_of. rewrite E. cbn.
  case_decide as D.
  - destruct D as [_ D%ring_slot_eq]. rewrite decide_True by done.
    rewrite <- (length_pack v), to_from_be_bytes. by apply unpack_pack.
  - rewrite decide_False; [done|]. intros D'%ring_slot_eq. by apply D.
Qed.

#[global] Instance ring_of_proper : Proper ((≡) ==> (=) ==> (=)) ring_of.
Proof. intros w w' E ? ? <-. unfold ring_of. by rewrite E. Qed.

(** Everything but the ring: the storage of the precompile's own account aside,
    the worlds agree. *)
Definition same_outside_ring (w w' : World) : Prop :=
  (∀ a, w_account w' a = w_account w a)
  ∧ (∀ a k, a ≠ SYSTEM_ACCOUNTING_ADDRESS → w_storage w' a k = w_storage w a k)
  ∧ w_logs w' = w_logs w.

Lemma accounting_store i fl j gu out r j' n v :
  0 ≤ input_gas i → stores n v i →
  run_system_accounting i fl j = (Ok (Success gu out r), j') →
  view j' ≡ set_storage (view j) SYSTEM_ACCOUNTING_ADDRESS
    (compute_gas_values_storage_slot n) (from_be_bytes (pack_gas_values_for_storage v))
  ∧ out = abi_encode_bool true
  ∧ caller i = ARC_SYSTEM_CALLER ∧ is_static i = false ∧ target_address i = SYSTEM_ACCOUNTING_ADDRESS
  ∧ GasValues_wf v ∧ u64 n.
Proof.
  intros Hg [Hs Hd] H. apply decode_storeGasValues_range in Hd as Hw.
  apply accounting_success in H as [(n' & v' & [_ Hd'] & H)|(n' & [Hs' _] & _)]; [|..|done].
  - rewrite Hd in Hd'. simplify_eq. unfold GasValues_wf. naive_solver.
  - rewrite Hs in Hs'. by apply SELECTOR_inj in Hs'.
Qed.

Lemma accounting_fetch i fl j gu out r j' n :
  0 ≤ input_gas i → fetches n i →
  run_system_accounting i fl j = (Ok (Success gu out r), j') →
  out = abi_encode_gas_values (ring_of (view j) n) ∧ view j' ≡ view j.
Proof.
  intros Hg [Hs Hd] H.
  apply accounting_success in H as [(n' & v' & [Hs' _] & _)|(n' & [_ Hd'] & H)]; [..|done].
  - rewrite Hs in Hs'. by apply SELECTOR_inj in Hs'.
  - by simplify_eq.
Qed.

(** C31: Refinement of the ring buffer: a successful [storeGasValues] came from the
    system caller as a direct, non-static call, replaces the entry of
    [blockNumber mod 64] by exactly the given values, leaves the other 63 entries, every
    account, every other contract's storage and the logs as they were; a successful
    [getGasValues] returns the entry of [blockNumber mod 64] and changes nothing. *)
Theorem accounting_refines_ring i fl j gu out r j' :
  0 ≤ input_gas i →
  run_system_accounting i fl j = (Ok (Success gu out r), j') →
  (∃ n v, stores n v i ∧ caller i = ARC_SYSTEM_CALLER ∧ is_static i = false
     ∧ target_address i = SYSTEM_ACCOUNTING_ADDRESS ∧ out = abi_encode_bool true
     ∧ same_outside_ring (view j) (view j')
     ∧ ∀ m, ring_of (view j') m =
         if decide (m `mod` GAS_VALUES_RING_BUFFER_SIZE = n `mod` GAS_VALUES_RING_BUFFER_SIZE)
         then v else ring_of (view j) m)
  ∨ (∃ n, fetches n i ∧ out = abi_encode_gas_values (ring_of (view j) n) ∧ view j' ≡ view j).
Proof.
  intros Hg H. pose proof H as [(n & v & St & _)|(n & F & ? & ?)]%accounting_success; [|..|done];
    [left|right; eauto].
  eapply accounting_store in H as (W & ? & ? & ? & ? & Hv & _); [|done..].
  exists n, v. split_and!; try done.
  - unfold same_outside_ring. split_and!; intros; rewrite W; try done.
    cbn. by rewrite decide_False by naive_solver.
  - intros m. by apply ring_of_stored.
Qed.

(** The block executor's writes: block [n] and its successors record [vs], one
    successful call each; between two writes anything may happen that leaves the
    ring alone. *)
Inductive recorded : Journal → Z → list GasValues → Journal → Prop :=
| recorded_nil j n : recorded j n [] j
| recorded_cons j n v vs i fl gu out r j1 j2 j' :
    0 ≤ input_gas i → stores n v i →
    run_system_accounting i fl j = (Ok (Success gu out r), j1) →
    (∀ m, ring_of (view j2) m = ring_of (view j1) m) →
    recorded j2 (n + 1) vs j' →
    recorded j n (v :: vs) j'.

(** An entry survives the writes of the next 63 blocks. *)
Lemma recorded_kept j n vs j' m :
  recorded j n vs j' → m < n → n + Z.of_nat (length vs) ≤ m + GAS_VALUES_RING_BUFFER_SIZE →
  ring_of (view j') m = ring_of (view j) m.
Proof.
  induction 1 as [|j n v vs i fl gu out r j1 j2 j' Hg St Run Same _ IH]; [done|].
  cbn [length]. intros Hm Hlen. rewrite IH by lia. rewrite Same.
  eapply accounting_store in Run as (W & _ & _ & _ & _ & Hv & _); [|done..].
  rewrite (ring_of_stored _ _ _ _ m Hv W), decide_False; [done|].
  unfold GAS_VALUES_RING_BUFFER_SIZE in *.
  intros E. assert ((n - m) `mod` 64 = 0) as E0 by (rewrite Zminus_mod, E, Z.sub_diag; done).
  rewrite Z.mod_small in E0 by lia. lia.
Qed.

Lemma recorded_fresh j n vs j' k v :
  recorded j n vs j' → vs !! k = Some v →
  Z.of_nat (length vs) - GAS_VALUES_RING_BUFFER_SIZE ≤ Z.of_nat k →
  ring_of (view j') (n + Z.of_nat k) = v.
Proof.
  intros H. revert k. induction H as [|j n v' vs i fl gu out r j1 j2 j' Hg St Run Same Rec IH]; [done|].
  intros [|k] Hk Hlen; cbn [length] in *.
  - simplify_eq/=. rewrite Z.add_0_r. rewrite (recorded_kept _ _ _ _ n Rec) by lia. rewrite Same.
    eapply accounting_store in Run as (W & _ & _ & _ & _ & Hv & _); [|done..].
    rewrite (ring_of_stored _ _ _ _ n Hv W). by rewrite decide_True.
  - rewrite <- (IH k Hk) by lia. f_equal. lia.
Qed.

(** Freshness: after the executor has recorded the values of consecutive blocks,
    a successful [getGasValues] for any of the latest 64 of them returns exactly the
    values recorded for that block (in particular the parent's, which the next block's
    smoothing reads). *)
Theorem ring_buffer_fresh j n vs j' k v i fl gu out r j'' :
  recorded j n vs j' → vs !! k = Some v →
  Z.of_nat (length vs) - GAS_VALUES_RING_BUFFER_SIZE ≤ Z.of_nat k →
  0 ≤ input_gas i → fetches (n + Z.of_nat k) i →
  run_system_accounting i fl j' = (Ok (Success gu out r), j'') →
  out = abi_encode_gas_values v.
Proof.
  intros Rec Hk Hlen Hg F Run. apply (accounting_fetch _ _ _ _ _ _ _ _ Hg F) in Run as [-> _].
  by rewrite (recorded_fresh _ _ _ _ _ _ Rec Hk Hlen).
Qed.

End Ring.

Section AccountingSafety.
Context `{RL : RevmLaws}.

Lemma keeps_getGasValues i b : keeps (getGasValues i b).
Proof. unfold getGasValues, finish. keeps_tac. Qed.

Lemma unauthorised_store i fl b : caller i ≠ ARC_SYSTEM_CALLER → keeps (storeGasValues i fl b).
Proof.
  intros Hc. unfold storeGasValues. rewrite bool_decide_eq_false_2 by done.
  cbn [reject_if negb]. keeps_tac.
Qed.

Lemma rejects_store i fl b :
  caller i ≠ ARC_SYSTEM_CALLER → is_static i = false → rejects i (storeGasValues i fl b).
Proof.
  intros Hc Hs. unfold storeGasValues. rewrite bool_decide_eq_false_2 by done.
  cbn [reject_if negb]. intros s. unfold m_bind, check_staticcall, decode_args. rewrite Hs.
  repeat case_match; unfold fail_early, m_ret, m_bind, current_gas, m_err in *;
    simplify_eq/=; eauto.
Qed.

(** Safety of the system accounting precompile for every input and outcome: the
    gas reported lies within the call's gas and the reservoir is returned untouched;
    a caller other than the system caller changes nothing, and its non-static
    [storeGasValues] reverts charging exactly the early-revert penalty. *)
Theorem accounting_calls_safe i fl j :
  0 ≤ input_gas i →
  (∀ o, (run_system_accounting i fl j).1 = Ok o → output_ok (input_gas i) (input_reservoir i) o)
  ∧ (caller i ≠ ARC_SYSTEM_CALLER →
     view (run_system_accounting i fl j).2 ≡ view j
     ∧ (is_static i = false → PRECOMPILE_EARLY_REVERT_GAS_PENALTY ≤ input_gas i →
        (4 ≤ length (input_data i))%nat → take 4 (input_data i) = SELECTOR storeGasValuesCall →
        ∃ msg, run_system_accounting i fl j =
          (Ok (Reverted PRECOMPILE_EARLY_REVERT_GAS_PENALTY
                 (revert_message_to_bytes msg) (input_reservoir i)), j))).
Proof.
  intros Hg. split; [intros o Ho; by apply (precompile_output_ok _ _ _ _ Hg (accounting_arms_safe i fl) Ho)|].
  intros Hc. split.
  - apply precompile_keeps. rewrite !Forall_cons. split_and!; try (by apply Forall_nil); intros b;
      [by apply unauthorised_store|apply keeps_getGasValues].
  - intros Hs Hp Hl Hsel. eapply (precompile_rejects i _ _ (storeGasValues i fl));
      eauto using rejects_store with arms.
Qed.

End AccountingSafety.

(** Packing round trip: unpacking a packed word returns the three values; the
    packing is injective on 64-bit values, fills one 32-byte word and leaves its first
    eight bytes zero. *)
Theorem gas_values_pack_roundtrip :
  (∀ g, GasValues_wf g → unpack_gas_values_from_storage (pack_gas_values_for_storage g) = g)
  ∧ (∀ g g', GasValues_wf g → GasValues_wf g' →
       pack_gas_values_for_storage g = pack_gas_values_for_storage g' → g = g')
  ∧ (∀ g, length (pack_gas_values_for_storage g) = 32%nat
       ∧ take 8 (pack_gas_values_for_storage g) = replicate 8 Byte.x00)
  ∧ (∀ bs, length bs = 32%nat → GasValues_wf (unpack_gas_values_from_storage bs)).
Proof.
  split_and!.
  - apply unpack_pack.
  - intros g g' Hg Hg' E. by rewrite <- (unpack_pack g Hg), E, unpack_pack.
  - done.
  - apply unpack_wf.
Qed.

(** ** Concrete runs *)

#[export] Instance toy_ring_slots : RingSlotsDistinct (RO := toy_revm).
Proof.
  assert (∀ a, 0 ≤ a < GAS_VALUES_RING_BUFFER_SIZE → compute_gas_values_storage_slot a = a) as E.
  { intros a Ha. unfold compute_gas_values_storage_slot. rewrite Z.mod_small by done. rewrite toy_keccak.
    change (take 32 _) with (replicate 24 Byte.x00 ++ to_be_bytes 8 a).
    rewrite from_be_bytes_zeros, from_to_be_bytes; [done|].
    unfold uint, GAS_VALUES_RING_BUFFER_SIZE in *. lia. }
  intros a b Ha Hb. by rewrite !E.
Qed.

Module AccountingExample.
Definition journal : @Journal toy_revm := mkToyJournal ∅ ∅ ∅ ∅ [].
Definition call (caller_ : Z) (fn : SolFunction) (args : list Z) : PrecompileInput :=
  {| input_data := toy_selector fn ++ concat (to_be_bytes 32 <$> args);
     input_gas := 100000; input_reservoir := 7; caller := caller_;
     target_address := SYSTEM_ACCOUNTING_ADDRESS; bytecode_address := SYSTEM_ACCOUNTING_ADDRESS;
     is_static := false |}.
Definition store (n : Z) (v : GasValues) : PrecompileInput :=
  call SYSTEM_ADDRESS storeGasValuesCall [n; gasUsed v; gasUsedSmoothed v; nextBaseFee v].
Definition flags : ArcHardforkFlags := flags_with ALL_HARDFORKS.
Definition v1 : GasValues := mkGasValues 21000 5000 1000000000.
Definition v2 : GasValues := mkGasValues 42000 6000 1000000001.
Definition journal1 : @Journal toy_revm := (run_system_accounting (store 1 v1) flags journal).2.
Definition journal2 : @Journal toy_revm := (run_system_accounting (store 2 v2) flags journal1).2.
Definition fetch1 : PrecompileInput := call 0xabc getGasValuesCall [1].

Definition fetched : bytes :=
  match (run_system_accounting fetch1 flags journal2).1 with Ok (Success _ out _) => out | _ => [] end.

Lemma store1_runs : run_system_accounting (store 1 v1) flags journal
  = (Ok (Success 22100 (abi_encode_bool true) 7), journal1).
Proof. vm_compute. reflexivity. Qed.

Lemma store2_runs : run_system_accounting (store 2 v2) flags journal1
  = (Ok (Success 22100 (abi_encode_bool true) 7), journal2).
Proof. vm_compute. reflexivity. Qed.

Lemma fetch1_runs : run_system_accounting fetch1 flags journal2
  = (Ok (Success 100 fetched 7), (run_system_accounting fetch1 flags journal2).2).
Proof. vm_compute. reflexivity. Qed.

Lemma two_blocks_recorded : recorded journal 1 [v1; v2] journal2.
Proof.
  eapply recorded_cons; [| |apply store1_runs| |]; [done|split; vm_compute; reflexivity|done|].
  eapply recorded_cons; [| |apply store2_runs| |]; [done|split; vm_compute; reflexivity|done|].
  apply recorded_nil.
Qed.
End AccountingExample.

Lemma accounting_refines_ring_witness :
  same_outside_ring (view AccountingExample.journal) (view AccountingExample.journal1)
  ∧ ring_of (view AccountingExample.journal1) 65 = AccountingExample.v1.
Proof.
  split; [|vm_compute; reflexivity].
  destruct (accounting_refines_ring (AccountingExample.store 1 AccountingExample.v1)
    _ _ _ _ _ _ ltac:(done) AccountingExample.store1_runs)
    as [(n & v & _ & _ & _ & _ & _ & S & _)|(n & [F _] & _)]; [exact S|].
  vm_compute in F. discriminate F.
Defined.

Lemma ring_buffer_fresh_witness :
  AccountingExample.fetched = abi_encode_gas_values AccountingExample.v1.
Proof.
  eapply (ring_buffer_fresh _ _ _ _ 0 AccountingExample.v1 AccountingExample.fetch1 AccountingExample.flags
           100 _ 7 _ AccountingExample.two_blocks_recorded);
    [reflexivity|vm_compute; congruence|vm_compute; congruence|split; vm_compute; reflexivity|].
  apply AccountingExample.fetch1_runs.
Defined.

Lemma accounting_calls_safe_witness : ∃ msg,
  run_system_accounting (AccountingExample.call 0xabc storeGasValuesCall [1; 2; 3; 4])
    AccountingExample.flags AccountingExample.journal
  = (Ok (Reverted 200 (revert_message_to_bytes msg) 7), AccountingExample.journal).
Proof.
  apply (accounting_calls_safe (AccountingExample.call 0xabc storeGasValuesCall [1; 2; 3; 4])
    AccountingExample.flags AccountingExample.journal ltac:(done)); try done. vm_compute. lia.
Defined.
