(* ===== verification/NativeCoinProps.v ===== *)
(** * Properties of the native coin

    Refinement of the ledger, conservation of the supply, the blocklist freeze,
    authorisation, gas safety. *)

From S2P Require Import Prelude Hardforks Revm Precompile PrecompileSafety NativeCoin ToyRevm.

(** ** Sums of balances over a finite set of holders *)

Definition total (X : gset Z) (f : Z → Z) : Z := foldr (λ a acc, f a + acc) 0 (elements X).

#[local] Instance sum_perm (f : Z → Z) :
  Proper ((≡ₚ) ==> (=)) (foldr (λ a acc, f a + acc) 0).
Proof. apply (foldr_permutation_proper (=)); [apply _|]. intros. lia. Qed.

Lemma total_union_singleton X f a : a ∉ X → total ({[a]} ∪ X) f = f a + total X f.
Proof. intros H. unfold total. by rewrite elements_union_singleton. Qed.

Lemma total_ext X f g : (∀ a, a ∈ X → f a = g a) → total X f = total X g.
Proof.
  induction X as [|x X Hx IH] using set_ind_L; intros E; [done|].
  rewrite !total_union_singleton by done. rewrite E by set_solver.
  rewrite IH; [done|]. intros a Ha. apply E. set_solver.
Qed.

Lemma total_split X f a : a ∈ X → total X f = f a + total (X ∖ {[a]}) f.
Proof.
  intros Ha. rewrite <- (total_union_singleton (X ∖ {[a]}) f a) by set_solver.
  f_equal. apply set_eq. intros b. destruct (decide (b = a)); set_solver.
Qed.

Lemma total_update X f g a d :
  a ∈ X → g a = f a + d → (∀ b, b ≠ a → g b = f b) → total X g = total X f + d.
Proof.
  intros Ha Hg Ho. rewrite (total_split X f a), (total_split X g a) by done.
  rewrite (total_ext (X ∖ {[a]}) g f) by (intros b Hb; apply Ho; set_solver). lia.
Qed.

Lemma total_nonneg X f : (∀ a, 0 ≤ f a) → 0 ≤ total X f.
Proof.
  intros Hf. induction X as [|x X Hx IH] using set_ind_L; [done|].
  rewrite total_union_singleton by done. specialize (Hf x). lia.
Qed.

Lemma total_ge X f a : (∀ a, 0 ≤ f a) → a ∈ X → f a ≤ total X f.
Proof.
  intros Hf Ha. rewrite (total_split X f a) by done.
  pose proof (total_nonneg (X ∖ {[a]}) f Hf). lia.
Qed.

Lemma total_extend X f a : (∀ b, b ∉ X → f b = 0) → total ({[a]} ∪ X) f = total X f.
Proof.
  intros H. destruct (decide (a ∈ X)).
  - f_equal. set_solver.
  - rewrite total_union_singleton, H by done. lia.
Qed.

(** The supply is the sum of the balances of the (finitely many) holders. *)
Definition supply_backed (c : Coin) : Prop :=
  ∃ X : gset Z, (∀ a, a ∉ X → balances c a = 0) ∧ (∀ a, 0 ≤ balances c a)
    ∧ supply c = total X (balances c).

Section LedgerProps.
Context `{RO : RevmOps}.

Lemma same_coin_backed c c' :
  supply_backed c → (∀ a, balances c' a = balances c a) → supply c' = supply c → supply_backed c'.
Proof.
  intros (X & H0 & Hn & HS) B S. exists X.
  split_and!; [intros; rewrite B; by apply H0|intros; rewrite B; apply Hn|].
  rewrite S, HS. apply total_ext. auto.
Qed.

Lemma coin_step_backed cl c c' o : coin_step cl c c' o → supply_backed c → supply_backed c'.
Proof.
  intros St HB. pose proof HB as (X & H0 & Hn & HS).
  destruct St as [to amount Hz Hb Ha Hd Hs Hu B S K N L | from amount Hz Hb Hp [Ha _] B S K N L
    | from to amount Hf Ht Hd Hbf Hbt Hp [Ha _] Hs Hu B S K N L | from to amount Hf Ht Hbf Hbt Ha B S K N L
    | account b Hc B S K N L | B S K N L].
  - exists ({[to]} ∪ X). split_and!.
    + intros a Hx. rewrite B, decide_False by set_solver. apply H0. set_solver.
    + intros a. rewrite B. specialize (Hn a). case_decide; lia.
    + rewrite (total_update _ (balances c) _ to amount), total_extend; [lia|done|set_solver|..].
      * by rewrite B, decide_True.
      * intros b Hne. by rewrite B, decide_False.
  - assert (from ∈ X) as HX by (destruct (decide (from ∈ X)); [done|rewrite H0 in Ha; done || lia]).
    pose proof (total_ge X (balances c) from Hn HX). exists X. split_and!.
    + intros a Hx. rewrite B, decide_False by set_solver. by apply H0.
    + intros a. rewrite B. specialize (Hn a). case_decide; subst; lia.
    + rewrite (total_update _ (balances c) _ from (- amount)); [lia|done|..].
      * rewrite B, decide_True by done. lia.
      * intros b Hne. by rewrite B, decide_False.
  - assert (from ∈ X) as HX by (destruct (decide (from ∈ X)); [done|rewrite H0 in Ha; done || lia]).
    set (mid := λ a, if decide (a = from) then balances c a - amount else balances c a).
    exists ({[to]} ∪ X). split_and!.
    + intros a Hx. rewrite B, !decide_False by set_solver. apply H0. set_solver.
    + intros a. rewrite B. specialize (Hn a). repeat case_decide; subst; lia.
    + rewrite (total_update _ mid _ to amount); [|set_solver|..].
      * rewrite (total_update _ (balances c) mid from (- amount)), total_extend;
          [lia|done|set_solver|..]; unfold mid;
          [rewrite decide_True by done; lia|intros b Hne; by rewrite decide_False].
      * unfold mid. by rewrite B, decide_False, decide_True, decide_False.
      * intros b Hne. unfold mid. rewrite B. by rewrite (decide_False (P := b = to)).
  - by apply (same_coin_backed c).
  - by apply (same_coin_backed c).
  - by apply (same_coin_backed c).
Qed.

(** A step moves no balance of a blocklisted account. *)
Lemma coin_step_frozen cl c c' o a :
  coin_step cl c c' o → blocked c a = true → balances c' a = balances c a.
Proof.
  intros St Hb. destruct St; [| | |done|done|done];
    match goal with B : ∀ _, balances c' _ = _ |- _ => rewrite B end;
    repeat case_decide; congruence.
Qed.

End LedgerProps.

(** ** Gas safety of the arms *)

Section CoinGas.
Context `{RL : RevmLaws}.

Lemma gas_safe_reject_blocklisted L R a : gas_safe L R (λ _, True) (reject_blocklisted a R).
Proof. unfold reject_blocklisted, is_blocklisted. gas_tac. Qed.

Lemma gas_safe_read_supply L R : gas_safe L R (λ _, True) (read_total_supply R).
Proof. unfold read_total_supply. gas_tac. Qed.

Lemma gas_safe_write_supply L R v : gas_safe L R (λ _, True) (write_total_supply v R).
Proof. unfold write_total_supply. gas_tac. Qed.
#[local] Hint Resolve gas_safe_reject_blocklisted gas_safe_read_supply gas_safe_write_supply : gas.

Abbreviation safe_arm L i := (gas_safe L (input_reservoir i) (output_ok L (input_reservoir i))).

Lemma gas_safe_mint L i fl b : safe_arm L i (mint i fl b).
Proof. unfold mint. gas_tac. Qed.

Lemma gas_safe_burn L i fl b : safe_arm L i (burn i fl b).
Proof. unfold burn. gas_tac. Qed.

Lemma gas_safe_transfer_call L i fl b : safe_arm L i (transfer_call i fl b).
Proof. unfold transfer_call. gas_tac. Qed.

Lemma gas_safe_totalSupply L i b : safe_arm L i (totalSupply i b).
Proof. unfold totalSupply. gas_tac. Qed.

Lemma gas_safe_set_blocklist L i fl d b err c st ev :
  safe_arm L i (set_blocklist_status i fl d b err c st ev).
Proof. unfold set_blocklist_status. gas_tac. Qed.

Lemma gas_safe_isBlocklisted L i b : safe_arm L i (isBlocklisted i b).
Proof. unfold isBlocklisted. gas_tac. Qed.
#[local] Hint Resolve gas_safe_mint gas_safe_burn gas_safe_transfer_call gas_safe_totalSupply
  gas_safe_set_blocklist gas_safe_isBlocklisted : gas.

Abbreviation arms_safe i arms :=
  (Forall (λ arm, ∀ b, safe_arm (input_gas i) i (arm.2 b)) arms).

Lemma authority_arms_safe i fl : arms_safe i
  [(mintCall, mint i fl); (burnCall, burn i fl);
   (transferCall, transfer_call i fl); (totalSupplyCall, totalSupply i)].
Proof. rewrite !Forall_cons. split_and!; try (by apply Forall_nil); intros b; cbn [snd]; auto with gas. Qed.

Lemma control_arms_safe i fl : arms_safe i
  [(blocklistCall, blocklist i fl); (isBlocklistedCall, isBlocklisted i);
   (unBlocklistCall, unBlocklist i fl)].
Proof. rewrite !Forall_cons. split_and!; try (by apply Forall_nil); intros b; cbn [snd]; unfold blocklist, unBlocklist; auto with gas. Qed.

(** C27: Whatever the input, the journal and the outcome, a call to the native coin
    authority or control contract reports between zero and the call's gas as used,
    and returns the call's state-gas reservoir untouched. *)
Theorem native_coin_gas_safe i fl j :
  0 ≤ input_gas i →
  (∀ o, (run_native_coin_authority i fl j).1 = Ok o →
     output_ok (input_gas i) (input_reservoir i) o)
  ∧ (∀ o, (run_native_coin_control i fl j).1 = Ok o →
     output_ok (input_gas i) (input_reservoir i) o).
Proof.
  intros Hg. split; intros o Ho.
  - by apply (precompile_output_ok _ _ _ _ Hg (authority_arms_safe i fl) Ho).
  - by apply (precompile_output_ok _ _ _ _ Hg (control_arms_safe i fl) Ho).
Qed.
End CoinGas.

(** ** Refinement of the ledger *)

Section CoinRefinement.
Context `{RL : RevmLaws} {BD : BlocklistSlotsDistinct}.

(** The calls of the two contracts, as ledger operations with their return
    data: [coin_call self i c op ret]. *)
Inductive coin_call (self : Z) (i : PrecompileInput) (c : Coin) : CoinOp → bytes → Prop :=
| call_mint to amount :
    take 4 (input_data i) = SELECTOR mintCall → self = NATIVE_COIN_AUTHORITY_ADDRESS →
    authorised i self → decode_mint (drop 4 (input_data i)) = Some (to, amount) →
    coin_call self i c (Mint to amount) (abi_encode_bool true)
| call_burn from amount :
    take 4 (input_data i) = SELECTOR burnCall → self = NATIVE_COIN_AUTHORITY_ADDRESS →
    authorised i self → decode_burn (drop 4 (input_data i)) = Some (from, amount) →
    coin_call self i c (Burn from amount) (abi_encode_bool true)
| call_transfer from to amount :
    take 4 (input_data i) = SELECTOR transferCall → self = NATIVE_COIN_AUTHORITY_ADDRESS →
    authorised i self → decode_transfer (drop 4 (input_data i)) = Some (from, to, amount) →
    coin_call self i c (Move from to amount) (abi_encode_bool true)
| call_totalSupply :
    take 4 (input_data i) = SELECTOR totalSupplyCall → self = NATIVE_COIN_AUTHORITY_ADDRESS →
    coin_call self i c Query (abi_encode_u256 (supply c))
| call_blocklist account :
    take 4 (input_data i) = SELECTOR blocklistCall → self = NATIVE_COIN_CONTROL_ADDRESS →
    authorised i self → decode_blocklist (drop 4 (input_data i)) = Some account →
    coin_call self i c (Block account true) (abi_encode_bool true)
| call_unBlocklist account :
    take 4 (input_data i) = SELECTOR unBlocklistCall → self = NATIVE_COIN_CONTROL_ADDRESS →
    authorised i self → decode_unBlocklist (drop 4 (input_data i)) = Some account →
    coin_call self i c (Block account false) (abi_encode_bool true)
| call_isBlocklisted account :
    take 4 (input_data i) = SELECTOR isBlocklistedCall → self = NATIVE_COIN_CONTROL_ADDRESS →
    decode_isBlocklisted (drop 4 (input_data i)) = Some account →
    coin_call self i c Query (abi_encode_bool (blocked c account)).

Lemma same_world_step cl w w' : w' ≡ w → coin_step cl (coin_of w) (coin_of w') Query.
Proof. intros E. apply step_query; unfold same_blocklist, same_accounts, coin_of; simpl; intros; by rewrite !E. Qed.

Lemma authority_run i fl j gu out r j' :
  0 ≤ input_gas i →
  run_native_coin_authority i fl j = (Ok (Success gu out r), j') →
  ∃ op, coin_call NATIVE_COIN_AUTHORITY_ADDRESS i (coin_of (view j)) op out
    ∧ coin_step (is_active fl Zero8) (coin_of (view j)) (coin_of (view j')) op.
Proof.
  intros Hg H. apply precompile_success in H; [|done|apply authority_arms_safe].
  destruct H as (fn & body & s & Hin & Hsel & Hb & ->).
  rewrite !elem_of_cons, elem_of_nil in Hin. destruct_or!; simplify_eq.
  - apply mint_refines in Hb as (? & to & v & ? & ? & ? & ?). simplify_eq.
    eexists. split; [by apply call_mint|done].
  - apply burn_refines in Hb as (? & to & v & ? & ? & ? & ?). simplify_eq.
    eexists. split; [by apply call_burn|done].
  - apply transfer_refines in Hb as (? & f & to & v & ? & ? & ? & ?). simplify_eq.
    eexists. split; [by apply call_transfer|done].
  - apply totalSupply_refines in Hb as (E & ? & ?). simplify_eq.
    eexists. split; [by apply call_totalSupply|by apply same_world_step].
Qed.

Lemma control_run i fl j gu out r j' :
  0 ≤ input_gas i →
  run_native_coin_control i fl j = (Ok (Success gu out r), j') →
  ∃ op, coin_call NATIVE_COIN_CONTROL_ADDRESS i (coin_of (view j)) op out
    ∧ coin_step (is_active fl Zero8) (coin_of (view j)) (coin_of (view j')) op.
Proof.
  intros Hg H. apply precompile_success in H; [|done|apply control_arms_safe].
  destruct H as (fn & body & s & Hin & Hsel & Hb & ->).
  rewrite !elem_of_cons, elem_of_nil in Hin. destruct_or!; simplify_eq.
  - apply (set_blocklist_status_refines _ _ _ _ _ _ true) in Hb; [|apply decode_blocklist_range].
    destruct Hb as (? & a & ? & ? & ? & ?). simplify_eq.
    eexists. split; [by apply call_blocklist|done].
  - apply isBlocklisted_refines in Hb as (E & a & ? & ? & ?). simplify_eq.
    eexists. split; [by apply (call_isBlocklisted _ _ (coin_of (view j)) a)|by apply same_world_step].
  - apply (set_blocklist_status_refines _ _ _ _ _ _ false) in Hb; [|apply decode_unBlocklist_range].
    destruct Hb as (? & a & ? & ? & ? & ?). simplify_eq.
    eexists. split; [by apply call_unBlocklist|done].
Qed.

(** C1: Refinement: every successful call to the native coin authority or control
    contract is one transition of the abstract ledger, namely the one its selector
    and its decoded arguments name, with that call's return data.  The transition
    fixes every balance, the supply, the blocklist and the event log, changes nothing else of an
    account, and carries every check: no zero address, no blocklisted party, no self-destructed
    recipient, no zero mint or burn, sufficient funds, before Zero8 no clearing of an account
    without nonce and code, no overflow.  A call that changes state came from the native fiat
    token, is not static and is no delegate call: both its target and its code address are
    those of the contract. *)
Theorem native_coin_refines_ledger i fl j gu out r j' :
  0 ≤ input_gas i →
  (run_native_coin_authority i fl j = (Ok (Success gu out r), j') →
   ∃ op, coin_call NATIVE_COIN_AUTHORITY_ADDRESS i (coin_of (view j)) op out
     ∧ coin_step (is_active fl Zero8) (coin_of (view j)) (coin_of (view j')) op)
  ∧ (run_native_coin_control i fl j = (Ok (Success gu out r), j') →
   ∃ op, coin_call NATIVE_COIN_CONTROL_ADDRESS i (coin_of (view j)) op out
     ∧ coin_step (is_active fl Zero8) (coin_of (view j)) (coin_of (view j')) op).
Proof. intros Hg. split; [by apply authority_run|by apply control_run]. Qed.

(** A successful call of either contract, under any hardfork set. *)
Inductive coin_calls (j j' : Journal) : Prop :=
| authority_call i fl gu out r : 0 ≤ input_gas i →
    run_native_coin_authority i fl j = (Ok (Success gu out r), j') → coin_calls j j'
| control_call i fl gu out r : 0 ≤ input_gas i →
    run_native_coin_control i fl j = (Ok (Success gu out r), j') → coin_calls j j'.

Lemma coin_calls_step j j' : coin_calls j j' → ∃ cl op, coin_step cl (coin_of (view j)) (coin_of (view j')) op.
Proof.
  intros [i fl gu out r Hg E|i fl gu out r Hg E];
    [apply authority_run in E as (? & _ & ?)|apply control_run in E as (? & _ & ?)]; eauto.
Qed.

(** C8: Conservation: if the recorded total supply is the sum of all balances, it
    still is after any sequence of successful calls to the two contracts; the
    saturating subtraction of a burn never saturates. *)
Theorem supply_always_backed j j' :
  rtc coin_calls j j' → supply_backed (coin_of (view j)) → supply_backed (coin_of (view j')).
Proof.
  induction 1 as [|j1 j2 j3 (cl & op & St)%coin_calls_step _ IH]; [done|].
  intros B. by eapply IH, coin_step_backed.
Qed.

(** Freeze: a successful call to either contract leaves the balance of every
    blocklisted account as it is. *)
Theorem blocklisted_balance_frozen j j' a :
  coin_calls j j' → blocked (coin_of (view j)) a = true →
  balance_of (view j') a = balance_of (view j) a.
Proof. intros (cl & op & St)%coin_calls_step B. by apply (coin_step_frozen _ _ _ _ _ St). Qed.

End CoinRefinement.

(** ** Authorisation *)

Section Unauthorised.
Context `{RL : RevmLaws}.
Variable i : PrecompileInput.
Variable fl : ArcHardforkFlags.
Hypothesis Hcaller : caller i ≠ ALLOWED_CALLER_ADDRESS.

Lemma unauthorised_mint b : keeps (mint i fl b).
Proof. unfold mint. rewrite bool_decide_eq_false_2 by done. cbn [reject_if negb]. keeps_tac. Qed.

Lemma unauthorised_burn b : keeps (burn i fl b).
Proof. unfold burn. rewrite bool_decide_eq_false_2 by done. cbn [reject_if negb]. keeps_tac. Qed.

Lemma unauthorised_transfer b : keeps (transfer_call i fl b).
Proof. unfold transfer_call. rewrite bool_decide_eq_false_2 by done. cbn [reject_if negb]. keeps_tac. Qed.

Lemma keeps_totalSupply b : keeps (totalSupply i b).
Proof. unfold totalSupply, read_total_supply, finish. keeps_tac. Qed.

Lemma unauthorised_set_blocklist d b err c st ev : keeps (set_blocklist_status i fl d b err c st ev).
Proof. unfold set_blocklist_status. rewrite bool_decide_eq_false_2 by done. cbn [reject_if negb]. keeps_tac. Qed.

Lemma keeps_isBlocklisted b : keeps (isBlocklisted i b).
Proof. unfold isBlocklisted, finish. keeps_tac. Qed.

Hypothesis Hstatic : is_static i = false.

Ltac rejects_tac :=
  rewrite bool_decide_eq_false_2 by done; cbn [reject_if negb]; intros s;
  unfold m_bind, check_staticcall, decode_args; rewrite Hstatic;
  repeat case_match; unfold fail_early, m_ret, m_bind, current_gas, m_err in *;
  simplify_eq/=; eauto.

Lemma rejects_mint b : rejects i (mint i fl b).
Proof. unfold mint. rejects_tac. Qed.

Lemma rejects_burn b : rejects i (burn i fl b).
Proof. unfold burn. rejects_tac. Qed.

Lemma rejects_transfer b : rejects i (transfer_call i fl b).
Proof. unfold transfer_call. rejects_tac. Qed.

Lemma rejects_set_blocklist d b err c st ev : rejects i (set_blocklist_status i fl d b err c st ev).
Proof. unfold set_blocklist_status. rejects_tac. Qed.
End Unauthorised.

Section Rejection.
Context `{RL : RevmLaws}.

(** Authorisation: a caller other than the native fiat token changes no account,
    no storage slot and no log through the two contracts, whatever the outcome and the
    hardforks; a non-static call of a state-changing function reverts with a message,
    charges exactly the early-revert penalty, and leaves the journal untouched. *)
Theorem unauthorised_calls_rejected i fl j :
  caller i ≠ ALLOWED_CALLER_ADDRESS →
  view (run_native_coin_authority i fl j).2 ≡ view j
  ∧ view (run_native_coin_control i fl j).2 ≡ view j
  ∧ (is_static i = false → PRECOMPILE_EARLY_REVERT_GAS_PENALTY ≤ input_gas i →
     (4 ≤ length (input_data i))%nat →
     ∀ fn, take 4 (input_data i) = SELECTOR fn →
     (fn ∈ [mintCall; burnCall; transferCall] →
        ∃ msg, run_native_coin_authority i fl j =
          (Ok (Reverted PRECOMPILE_EARLY_REVERT_GAS_PENALTY
                 (revert_message_to_bytes msg) (input_reservoir i)), j))
     ∧ (fn ∈ [blocklistCall; unBlocklistCall] →
        ∃ msg, run_native_coin_control i fl j =
          (Ok (Reverted PRECOMPILE_EARLY_REVERT_GAS_PENALTY
                 (revert_message_to_bytes msg) (input_reservoir i)), j))).
Proof.
  intros Hc. split_and!.
  - apply precompile_keeps. rewrite !Forall_cons. split_and!; try (by apply Forall_nil); intros b;
      by eauto using unauthorised_mint, unauthorised_burn, unauthorised_transfer, keeps_totalSupply.
  - apply precompile_keeps. rewrite !Forall_cons. split_and!; try (by apply Forall_nil); intros b;
      [by apply unauthorised_set_blocklist|apply keeps_isBlocklisted|by apply unauthorised_set_blocklist].
  - intros Hs Hg Hl fn Hsel. rewrite !elem_of_cons, elem_of_nil.
    split; intros Hfn; destruct_or!; try done; subst fn.
    + eapply (precompile_rejects i _ _ (mint i fl)); eauto using rejects_mint with arms.
    + eapply (precompile_rejects i _ _ (burn i fl)); eauto using rejects_burn with arms.
    + eapply (precompile_rejects i _ _ (transfer_call i fl)); eauto using rejects_transfer with arms.
    + eapply (precompile_rejects i _ _ (blocklist i fl)); unfold blocklist;
        eauto using rejects_set_blocklist with arms.
    + eapply (precompile_rejects i _ _ (unBlocklist i fl)); unfold unBlocklist;
        eauto using rejects_set_blocklist with arms.
Qed.
End Rejection.

(** ** Concrete runs *)

#[export] Instance toy_blocklist_slots : BlocklistSlotsDistinct (RO := toy_revm).
Proof.
  assert (∀ a, uint 160 a → compute_is_blocklisted_storage_slot a = a) as E.
  { intros a Ha. unfold compute_is_blocklisted_storage_slot. rewrite toy_keccak.
    rewrite take_app_le by (rewrite length_app, length_to_be_bytes; simpl; lia).
    rewrite take_ge by (rewrite length_app, length_to_be_bytes; simpl; lia).
    by rewrite from_be_bytes_zeros, from_to_be_bytes. }
  intros a b Ha Hb. by rewrite !E.
Qed.

Definition ex_journal : @Journal toy_revm := mkToyJournal ∅ ∅ ∅ ∅ [].
Definition ex_call (caller_ : Z) (self : Z) (fn : SolFunction) (args : list Z) : PrecompileInput :=
  {| input_data := toy_selector fn ++ concat (to_be_bytes 32 <$> args);
     input_gas := 100000; input_reservoir := 7; caller := caller_;
     target_address := self; bytecode_address := self; is_static := false |}.
Definition ex_mint : PrecompileInput :=
  ex_call ALLOWED_CALLER_ADDRESS NATIVE_COIN_AUTHORITY_ADDRESS mintCall [0xa11ce; 1000].
Definition ex_flags : ArcHardforkFlags := flags_with [Zero3; Zero4; Zero5; Zero6; Zero7; Zero8].
Definition ex_minted : @Journal toy_revm := (run_native_coin_authority ex_mint ex_flags ex_journal).2.
Definition ex_block : PrecompileInput :=
  ex_call ALLOWED_CALLER_ADDRESS NATIVE_COIN_CONTROL_ADDRESS blocklistCall [0xa11ce].
Definition ex_blocked : @Journal toy_revm := (run_native_coin_control ex_block ex_flags ex_minted).2.
Definition ex_true : bytes := to_be_bytes 32 1.


Lemma ex_mint_runs : run_native_coin_authority ex_mint ex_flags ex_journal
  = (Ok (Success 56456 ex_true 7), ex_minted).
Proof. vm_compute. reflexivity. Qed.

Lemma ex_block_runs : run_native_coin_control ex_block ex_flags ex_minted
  = (Ok (Success 21125 ex_true 7), ex_blocked).
Proof. vm_compute. reflexivity. Qed.

Lemma ex_journal_backed : supply_backed (coin_of (view ex_journal)).
Proof. exists ∅. split_and!; by intros. Qed.

Lemma native_coin_gas_safe_witness :
  output_ok 100000 7 (Success 56456 ex_true 7) ∧ output_ok 100000 7 (Success 21125 ex_true 7).
Proof.
  split.
  - apply (proj1 (native_coin_gas_safe ex_mint ex_flags ex_journal ltac:(done))).
    by rewrite ex_mint_runs.
  - apply (proj2 (native_coin_gas_safe ex_block ex_flags ex_minted ltac:(done))).
    by rewrite ex_block_runs.
Defined.

Lemma native_coin_refines_ledger_witness :
  (∃ op, coin_call NATIVE_COIN_AUTHORITY_ADDRESS ex_mint (coin_of (view ex_journal)) op ex_true
     ∧ coin_step true (coin_of (view ex_journal)) (coin_of (view ex_minted)) op)
  ∧ (∃ op, coin_call NATIVE_COIN_CONTROL_ADDRESS ex_block (coin_of (view ex_minted)) op ex_true
     ∧ coin_step true (coin_of (view ex_minted)) (coin_of (view ex_blocked)) op).
Proof.
  split.
  - apply (proj1 (native_coin_refines_ledger ex_mint ex_flags ex_journal _ _ _ _ ltac:(done)) ex_mint_runs).
  - apply (proj2 (native_coin_refines_ledger ex_block ex_flags ex_minted _ _ _ _ ltac:(done)) ex_block_runs).
Defined.

Lemma supply_always_backed_witness :
  supply (coin_of (view ex_blocked)) = 1000 ∧ supply_backed (coin_of (view ex_blocked)).
Proof.
  split; [vm_compute; reflexivity|]. apply (supply_always_backed ex_journal ex_blocked); [|apply ex_journal_backed].
  eapply rtc_l; [eapply authority_call, ex_mint_runs; done|].
  eapply rtc_l; [eapply control_call, ex_block_runs; done|]. apply rtc_refl.
Defined.

(** A burn from the blocklisted account reverts; a mint to another one succeeds. *)
Definition ex_mint_bob : PrecompileInput :=
  ex_call ALLOWED_CALLER_ADDRESS NATIVE_COIN_AUTHORITY_ADDRESS mintCall [0xb0b; 5].
Definition ex_minted_bob : @Journal toy_revm := (run_native_coin_authority ex_mint_bob ex_flags ex_blocked).2.

Lemma blocklisted_balance_frozen_witness :
  blocked (coin_of (view ex_blocked)) 0xa11ce = true
  ∧ balance_of (view ex_minted_bob) 0xa11ce = balance_of (view ex_blocked) 0xa11ce.
Proof.
  split; [vm_compute; reflexivity|].
  apply (blocklisted_balance_frozen ex_blocked ex_minted_bob); [|vm_compute; reflexivity].
  eapply (authority_call _ _ ex_mint_bob ex_flags); [done|vm_compute; reflexivity].
Defined.

Lemma unauthorised_calls_rejected_witness :
  ∃ msg, run_native_coin_authority (ex_call 0xe7e NATIVE_COIN_AUTHORITY_ADDRESS mintCall [0xe7e; 1])
    ex_flags ex_journal = (Ok (Reverted 200 (revert_message_to_bytes msg) 7), ex_journal).
Proof.
  pose proof (unauthorised_calls_rejected
    (ex_call 0xe7e NATIVE_COIN_AUTHORITY_ADDRESS mintCall [0xe7e; 1]) ex_flags ex_journal
    ltac:(done)) as (_ & _ & H).
  destruct (H ltac:(done) ltac:(done) ltac:(vm_compute; lia) mintCall ltac:(vm_compute; reflexivity)) as [H1 _].
  apply H1, list_elem_of_here.
Defined.
