(* ===== verification/BlockEvm.v ===== *)
(** * The EVM as the block executor sees it, and the system calls

    The block executor drives alloy's [Evm] (system calls, transactions, commits to
    the database), alloy's [SystemCaller] (state hooks, EIP-2935) and the ABI codecs.
    None of that is code of the repository: [EvmOps] names the operations and
    [EvmLaws] states their documented behaviour.  The law that matters says that a
    system call to the accounting address runs the precompile of SystemAccounting.v
    on the committed state, as that address's code.

    On top of it: [retrieve_gas_values] and [store_gas_values] of
    precompiles/src/system_accounting.rs and [retrieve_fee_params] of
    execution-config/src/protocol_config.rs. *)

From S2P Require Import Prelude GasFee Hardforks Revm Precompile SystemAccounting.

(** The block environment the executor reads. *)
Record BlockEnv := mkBlockEnv {
  env_number : Z;
  env_gas_limit : Z;
  env_basefee : Z;
  env_beneficiary : Z;
}.

Record ExecutionResult := mkExecutionResult {
  is_success : bool;
  output : option bytes;
  tx_gas_used : Z;
}.

(** [StateChangeSource], as far as the executor uses it. *)
Inductive StateChangeSource := SourceTransaction (index : nat) | SourcePostBlock.

(** ** Operations *)

Class EvmOps `{RO : RevmOps} := {
  Evm : Type;
  EvmState : Type;
  EvmError : Type;
  TxEnv : Type;
  block : Evm → BlockEnv;
  transact_system_call : Evm → Z → Z → bytes → result EvmError (ExecutionResult * EvmState) * Evm;
  transact : Evm → TxEnv → result EvmError (ExecutionResult * EvmState) * Evm;
  db_commit : Evm → EvmState → Evm;
  db_storage : Evm → Z → Z → result DbErr Z * Evm;
  (* alloy_evm::block::SystemCaller *)
  SystemCaller : Type;
  Hook : Type;
  system_caller_new : SystemCaller;
  on_state : SystemCaller → StateChangeSource → EvmState → SystemCaller;
  with_state_hook : SystemCaller → option Hook → SystemCaller;
  apply_blockhashes_contract_call :
    SystemCaller → Z → Evm → result EvmError unit * (SystemCaller * Evm);
  (* ReceiptBuilder *)
  TxType : Type;
  Receipt : Type;
  build_receipt : TxType → Evm → ExecutionResult → EvmState → Z → Receipt;
  (* alloy_sol_types *)
  encode_feeParams : bytes;
  decode_feeParams_returns : bytes → option FeeParams;
  encode_getGasValues : Z → bytes;
  decode_getGasValues_returns : bytes → option GasValues;
  encode_storeGasValues : Z → GasValues → bytes;
  decode_storeGasValues_returns : bytes → option bool;
}.

(** ** Laws *)

(** The call the EVM makes to the accounting precompile for a system call. *)
Definition accounting_call `{RO : RevmOps} (data : bytes) (gas reservoir : Z) : PrecompileInput := {|
  input_data := data; input_gas := gas; input_reservoir := reservoir;
  caller := SYSTEM_ADDRESS;
  target_address := SYSTEM_ACCOUNTING_ADDRESS; bytecode_address := SYSTEM_ACCOUNTING_ADDRESS;
  is_static := false;
|}.

Class EvmLaws `{EO : EvmOps} `{RL : !RevmLaws} := {
  (* the committed state, the states committed so far *)
  evm_world : Evm → World;
  committed : Evm → list EvmState;
  (* execution reads the block environment and commits nothing *)
  system_call_frame : ∀ e c a d, let e' := (transact_system_call e c a d).2 in
    block e' = block e ∧ evm_world e' ≡ evm_world e ∧ committed e' = committed e;
  transact_frame : ∀ e t, let e' := (transact e t).2 in
    block e' = block e ∧ evm_world e' ≡ evm_world e ∧ committed e' = committed e;
  db_storage_frame : ∀ e a k, let e' := (db_storage e a k).2 in
    block e' = block e ∧ evm_world e' ≡ evm_world e ∧ committed e' = committed e;
  db_storage_value : ∀ e a k v e', db_storage e a k = (Ok v, e') → v = w_storage (evm_world e) a k;
  db_commit_frame : ∀ e st,
    block (db_commit e st) = block e ∧ committed (db_commit e st) = committed e ++ [st];
  (* a transaction reports at most its gas limit *)
  env_tx_gas_limit : TxEnv → Z;
  transact_gas : ∀ e t res st e', transact e t = (Ok (res, st), e') →
    0 ≤ tx_gas_used res ≤ env_tx_gas_limit t;
  (* a successful system call to the accounting address ran its precompile on the
     committed state; committing its state diff installs the outcome *)
  system_call_accounting : ∀ e data res st e',
    transact_system_call e SYSTEM_ADDRESS SYSTEM_ACCOUNTING_ADDRESS data = (Ok (res, st), e') →
    is_success res = true →
    ∃ gas reservoir fl j gu out r j',
      0 ≤ gas ∧ view j ≡ evm_world e
      ∧ run_system_accounting (accounting_call data gas reservoir) fl j
          = (Ok (Success gu out r), j')
      ∧ output res = Some out
      ∧ evm_world (db_commit e' st) ≡ view j';
  (* the hook, if one is installed, is shown the states given to [on_state] *)
  hooked : SystemCaller → bool;
  seen : SystemCaller → list EvmState;
  system_caller_new_law : hooked system_caller_new = false ∧ seen system_caller_new = [];
  on_state_law : ∀ c src st, hooked (on_state c src st) = hooked c
    ∧ seen (on_state c src st) = seen c ++ (if hooked c then [st] else []);
  with_state_hook_law : ∀ c h, hooked (with_state_hook c h) = bool_decide (is_Some h)
    ∧ seen (with_state_hook c h) = seen c;
  apply_blockhashes_law : ∀ c h e r c' e', apply_blockhashes_contract_call c h e = (r, (c', e')) →
    block e' = block e ∧ hooked c' = hooked c
    ∧ ∃ sts, committed e' = committed e ++ sts
        ∧ seen c' = seen c ++ (if hooked c then sts else []);
  (* receipts carry the cumulative gas they are built with *)
  cumulative_gas_used : Receipt → Z;
  build_receipt_cumulative : ∀ ty e res st g, cumulative_gas_used (build_receipt ty e res st g) = g;
  (* ABI: encoders and decoders of the same signature are inverse *)
  encode_getGasValues_spec : ∀ n, u64 n → take 4 (encode_getGasValues n) = SELECTOR getGasValuesCall
    ∧ decode_getGasValues (drop 4 (encode_getGasValues n)) = Some n;
  encode_storeGasValues_spec : ∀ n v, u64 n → GasValues_wf v →
    take 4 (encode_storeGasValues n v) = SELECTOR storeGasValuesCall
    ∧ decode_storeGasValues (drop 4 (encode_storeGasValues n v)) = Some (n, v);
  decode_getGasValues_returns_spec : ∀ v, GasValues_wf v →
    decode_getGasValues_returns (abi_encode_gas_values v) = Some v;
  decode_feeParams_wf : ∀ b fp, decode_feeParams_returns b = Some fp → FeeParams_wf fp;
}.

(** ** The system calls *)

Inductive SystemAccountingError `{EO : EvmOps} :=
| Execution (e : EvmError)
| AbiDecode (msg : string)
| SystemCallReverted
| StoreFailed.

Inductive ProtocolConfigError `{EO : EvmOps} :=
| ConfigEvmError (e : EvmError)
| SystemCallFailed (res : ExecutionResult)
| EmptyOutput
| DecodingError.

Section SystemCalls.
Context `{EO : EvmOps}.
Abbreviation Call E A := (M Evm E A).

Definition PROTOCOL_CONFIG_ADDRESS : Z := 0x3600000000000000000000000000000000000001.

Definition retrieve_gas_values (block_number : Z) : Call SystemAccountingError GasValues := λ evm,
  let call_data := encode_getGasValues block_number in
  match transact_system_call evm ARC_SYSTEM_CALLER SYSTEM_ACCOUNTING_ADDRESS call_data with
  | (Err e, evm) => (Err (Execution e), evm)
  | (Ok (result, _), evm) =>
      if negb (is_success result) then (Err SystemCallReverted, evm)
      else match output result with
           | None => (Err (AbiDecode "No values to decode"), evm)
           | Some output =>
               match decode_getGasValues_returns output with
               | None => (Err (AbiDecode "ABI decode error"), evm)
               | Some gas_values => (Ok gas_values, evm)
               end
           end
  end.

Definition store_gas_values (block_number : Z) (gas_values : GasValues)
    : Call SystemAccountingError EvmState := λ evm,
  let call_data := encode_storeGasValues block_number gas_values in
  match transact_system_call evm ARC_SYSTEM_CALLER SYSTEM_ACCOUNTING_ADDRESS call_data with
  | (Err e, evm) => (Err (Execution e), evm)
  | (Ok (result, state), evm) =>
      if negb (is_success result) then (Err SystemCallReverted, evm)
      else match output result with
           | None => (Err (AbiDecode "No values to decode"), evm)
           | Some output =>
               match decode_storeGasValues_returns output with
               | None => (Err (AbiDecode "ABI decode error"), evm)
               | Some decoded =>
                   if negb decoded then (Err StoreFailed, evm)
                   else (Ok state, db_commit evm state)
               end
           end
  end.

Definition retrieve_fee_params : Call ProtocolConfigError FeeParams := λ evm,
  match transact_system_call evm SYSTEM_ADDRESS PROTOCOL_CONFIG_ADDRESS encode_feeParams with
  | (Err e, evm) => (Err (ConfigEvmError e), evm)
  | (Ok (result, _), evm) =>
      if negb (is_success result) then (Err (SystemCallFailed result), evm)
      else match output result with
           | None => (Err EmptyOutput, evm)
           | Some output =>
               match decode_feeParams_returns output with
               | None => (Err DecodingError, evm)
               | Some fee_params => (Ok fee_params, evm)
               end
           end
  end.
End SystemCalls.

(** ** What the system calls do *)

Section SystemCallSpecs.
Context `{EL : EvmLaws} {RD : RingSlotsDistinct}.

(** Nothing observable changed between two EVM states. *)
Definition evm_same (e e' : Evm) : Prop :=
  block e' = block e ∧ evm_world e' ≡ evm_world e ∧ committed e' = committed e.

#[global] Instance evm_same_preorder : PreOrder evm_same.
Proof.
  split; [by intros e|]. intros e1 e2 e3 (B & W & C) (B' & W' & C').
  split_and!; [congruence|by rewrite W'|congruence].
Qed.

Lemma system_call_same e c a d r e' : transact_system_call e c a d = (r, e') → evm_same e e'.
Proof. intros E. pose proof (system_call_frame e c a d) as H. by rewrite E in H. Qed.

Lemma retrieve_fee_params_spec e r e' :
  retrieve_fee_params e = (r, e') →
  evm_same e e' ∧ ∀ fp, r = Ok fp → FeeParams_wf fp.
Proof.
  unfold retrieve_fee_params.
  destruct (transact_system_call _ _ _ _) as [[[res st]|err] e1] eqn:E.
  all: apply system_call_same in E; repeat case_match; intros [= <- <-]; split; try done.
  intros fp [= <-]. by eapply decode_feeParams_wf.
Qed.

Lemma retrieve_gas_values_frame n e r e' : retrieve_gas_values n e = (r, e') → evm_same e e'.
Proof.
  unfold retrieve_gas_values.
  destruct (transact_system_call _ _ _ _) as [[[res st]|err] e1] eqn:E.
  all: apply system_call_same in E; repeat case_match; by intros [= <- <-].
Qed.

Lemma ring_of_wf w n : GasValues_wf (ring_of w n).
Proof. apply unpack_wf, length_to_be_bytes. Qed.

Lemma retrieve_gas_values_spec n e v e' :
  u64 n → retrieve_gas_values n e = (Ok v, e') → v = ring_of (evm_world e) n.
Proof.
  intros Hn. unfold retrieve_gas_values.
  destruct (transact_system_call _ _ _ _) as [[[res st]|err] e1] eqn:E; [|done].
  destruct (is_success res) eqn:S; [|done]. cbn.
  apply system_call_accounting in E as (g & rv & fl & j & gu & out & r & j' & Hg & Hj & Run & -> & _); [|done].
  eapply accounting_fetch in Run as [-> _]; [|done|by apply encode_getGasValues_spec].
  rewrite decode_getGasValues_returns_spec by apply ring_of_wf.
  intros [= <- <-]. by rewrite Hj.
Qed.

Lemma store_gas_values_spec n v e st e' :
  u64 n → GasValues_wf v → store_gas_values n v e = (Ok st, e') →
  block e' = block e ∧ committed e' = committed e ++ [st]
  ∧ same_outside_ring (evm_world e) (evm_world e')
  ∧ ∀ m, ring_of (evm_world e') m =
      if decide (m `mod` GAS_VALUES_RING_BUFFER_SIZE = n `mod` GAS_VALUES_RING_BUFFER_SIZE)
      then v else ring_of (evm_world e) m.
Proof.
  intros Hn Hv. unfold store_gas_values.
  destruct (transact_system_call _ _ _ _) as [[[res st']|err] e1] eqn:E; [|done].
  pose proof (system_call_same _ _ _ _ _ _ E) as (Hb & _ & Hc).
  destruct (is_success res) eqn:S; [|done]. cbn.
  destruct (output res) eqn:O; [|done]. repeat case_match; try done. intros [= <- <-].
  destruct (db_commit_frame e1 st') as [Hb' Hc'].
  split; [congruence|]. split; [congruence|].
  apply system_call_accounting in E as (g & rv & fl & j & gu & out & r & j' & Hg & Hj & Run & _ & W); [|done].
  eapply accounting_store in Run as (Hs & _); [|done|by apply encode_storeGasValues_spec].
  rewrite Hj in Hs. split.
  - unfold same_outside_ring. split_and!; intros; rewrite W, Hs; try done.
    cbn. by rewrite decide_False by naive_solver.
  - intros m. rewrite W. by apply ring_of_stored.
Qed.

Lemma store_gas_values_err n v e err e' : store_gas_values n v e = (Err err, e') → evm_same e e'.
Proof.
  unfold store_gas_values.
  destruct (transact_system_call _ _ _ _) as [[[res st]|er] e1] eqn:E.
  all: apply system_call_same in E; repeat case_match; by intros [= <- <-].
Qed.

End SystemCallSpecs.
