(* ===== verification/ToyEvm.v ===== *)
(** * A concrete EVM

    An executable instance of [EvmOps] over the concrete revm interface that
    satisfies [EvmLaws]: a system call to the accounting address runs the precompile,
    one to the ProtocolConfig returns fixed bytes, a transaction uses the gas it names,
    and a commit installs the journal. *)

From S2P Require Import Prelude GasFee Hardforks Revm ToyRevm Precompile SystemAccounting BlockEvm.

Record ToyEvm := mkToyEvm {
  te_block : BlockEnv;
  te_journal : ToyJournal;
  te_committed : list ToyJournal;
  te_fee_params : bytes;
}.

Definition toy_words (l : list Z) : bytes := concat (to_be_bytes 32 <$> l).

Definition toy_system_call (e : ToyEvm) (c a : Z) (d : bytes)
    : result unit (ExecutionResult * ToyJournal) * ToyEvm :=
  if decide (a = SYSTEM_ACCOUNTING_ADDRESS) then
    match run_system_accounting (accounting_call d 30000000 0) flags_default (te_journal e) with
    | (Ok (Success g out _), j) => (Ok (mkExecutionResult true (Some out) g, j), e)
    | (Ok (Reverted g out _), _) => (Ok (mkExecutionResult false (Some out) g, te_journal e), e)
    | (Ok (HaltOutOfGas _), _) => (Ok (mkExecutionResult false None 0, te_journal e), e)
    | (Err _, _) => (Err (), e)
    end
  else (Ok (mkExecutionResult true (Some (te_fee_params e)) 0, te_journal e), e).

#[export] Instance toy_evm : EvmOps (RO := toy_revm) := {|
  Evm := ToyEvm;
  EvmState := ToyJournal;
  EvmError := unit;
  TxEnv := nat * nat;
  block := te_block;
  transact_system_call := toy_system_call;
  transact e '(limit, used) :=
    (Ok (mkExecutionResult true None (Z.of_nat (Nat.min used limit)), te_journal e), e);
  db_commit e st := mkToyEvm (te_block e) st (te_committed e ++ [st]) (te_fee_params e);
  db_storage e a k := (Ok (present_value (toy_slot (te_journal e) a k)), e);
  SystemCaller := bool * list ToyJournal;
  Hook := unit;
  system_caller_new := (false, []);
  on_state c _ st := (c.1, c.2 ++ if c.1 then [st] else []);
  with_state_hook c h := (bool_decide (is_Some h), c.2);
  apply_blockhashes_contract_call c _ e := (Ok (), (c, e));
  TxType := unit;
  Receipt := Z;
  build_receipt _ _ _ _ g := g;
  encode_feeParams := [];
  decode_feeParams_returns b :=
    a ← toy_u64 0 b; k ← toy_u64 1 b; i ← toy_u64 2 b;
    lo ← toy_word 3 b; hi ← toy_word 4 b; gl ← toy_word 5 b;
    Some (mkFeeParams a k i lo hi gl);
  encode_getGasValues n := toy_selector getGasValuesCall ++ toy_words [n];
  decode_getGasValues_returns b :=
    g ← toy_u64 0 b; s ← toy_u64 1 b; f ← toy_u64 2 b; Some (mkGasValues g s f);
  encode_storeGasValues n v :=
    toy_selector storeGasValuesCall ++ toy_words [n; gasUsed v; gasUsedSmoothed v; nextBaseFee v];
  decode_storeGasValues_returns b := v ← toy_word 0 b; Some (negb (bool_decide (v = 0)));
|}.

Lemma toy_words_cons v l : toy_words (v :: l) = to_be_bytes 32 v ++ toy_words l.
Proof. done. Qed.

Lemma length_toy_words l : length (toy_words l) = (32 * length l)%nat.
Proof.
  induction l as [|v l IH]; [done|].
  rewrite toy_words_cons, length_app, length_to_be_bytes, IH. cbn [length]. lia.
Qed.

Lemma toy_word_nth l n v : l !! n = Some v → u256 v → toy_word n (toy_words l) = Some v.
Proof.
  intros Hl Hv. unfold toy_word.
  assert (take 32 (drop (32 * n) (toy_words l)) = to_be_bytes 32 v) as ->.
  { pose proof (take_drop_middle l n v Hl) as Em. rewrite <- Em. clear Em.
    unfold toy_words. rewrite fmap_app, concat_app, fmap_cons. cbn [concat].
    fold (toy_words (take n l)). fold (toy_words (drop (S n) l)).
    apply lookup_lt_Some in Hl. rewrite drop_app_length'
      by (rewrite length_toy_words, length_take; lia).
    by rewrite take_app_length' by (by rewrite length_to_be_bytes). }
  rewrite decide_True by apply length_to_be_bytes. f_equal.
  rewrite from_to_be_bytes by done. by apply word_id.
Qed.

Lemma toy_u64_nth l n v : l !! n = Some v → u64 v → toy_u64 n (toy_words l) = Some v.
Proof.
  intros Hl Hv. unfold toy_u64. rewrite (toy_word_nth l n v Hl) by (unfold uint in *; lia).
  cbn. by apply try_from_Some.
Qed.

#[export] Instance toy_evm_laws : EvmLaws (EO := toy_evm) (RL := toy_laws).
Proof.
  unshelve refine (Build_EvmLaws toy_revm toy_evm toy_laws
    (λ e, toy_view (te_journal e)) te_committed _ _ _ _ _ (λ t, Z.of_nat t.1) _ _ fst snd
    _ _ _ _ (λ r, r) _ _ _ _ _).
  - intros e c a d. unfold transact_system_call, toy_evm, toy_system_call.
    case_decide; [|done]. by destruct (run_system_accounting _ _ _) as [[[]|] ?].
  - intros e [l u]. done.
  - done.
  - intros e a k v e' [= <- <-]. done.
  - done.
  - intros e [l u] res st e' [= <- <- <-]. cbn. lia.
  - intros e data res st e' H S. unfold transact_system_call, toy_evm, toy_system_call in H.
    rewrite decide_True in H by done.
    destruct (run_system_accounting _ _ _) as [[[g out r|g out r|r]|] j] eqn:E; simplify_eq/=.
    exists 30000000, 0, flags_default, (te_journal e'), g, out, r, st. split_and!; done.
  - done.
  - done.
  - done.
  - intros c h e r c' e' [= <- <- <-]. split_and!; try done. exists []. by destruct c as [[] ?]; cbn; rewrite !app_nil_r.
  - done.
  - intros n Hn. split; [done|]. cbn [decode_getGasValues toy_revm encode_getGasValues toy_evm].
    rewrite drop_app_length' by done. by apply toy_u64_nth.
  - intros n v Hn (H1 & H2 & H3). split; [done|].
    cbn [decode_storeGasValues toy_revm encode_storeGasValues toy_evm].
    rewrite drop_app_length' by done.
    rewrite (toy_u64_nth _ 0 n), (toy_u64_nth _ 1 (gasUsed v)), (toy_u64_nth _ 2 (gasUsedSmoothed v)),
      (toy_u64_nth _ 3 (nextBaseFee v)) by done. by destruct v.
  - intros v (H1 & H2 & H3). cbn [decode_getGasValues_returns toy_evm abi_encode_gas_values toy_revm].
    change (_ ++ _) with (toy_words [gasUsed v; gasUsedSmoothed v] ++ to_be_bytes 32 (nextBaseFee v)).
    change (toy_words _ ++ to_be_bytes 32 _) with (toy_words [gasUsed v; gasUsedSmoothed v; nextBaseFee v]).
    rewrite (toy_u64_nth _ 0 (gasUsed v)), (toy_u64_nth _ 1 (gasUsedSmoothed v)),
      (toy_u64_nth _ 2 (nextBaseFee v)) by done. by destruct v.
  - intros b fp. cbn [decode_feeParams_returns toy_evm].
    destruct (toy_u64 0 b) eqn:E0; cbn; [|done]. destruct (toy_u64 1 b) eqn:E1; cbn; [|done].
    destruct (toy_u64 2 b) eqn:E2; cbn; [|done]. destruct (toy_word 3 b) eqn:E3; cbn; [|done].
    destruct (toy_word 4 b) eqn:E4; cbn; [|done]. destruct (toy_word 5 b) eqn:E5; cbn; [|done].
    intros [= <-]. unfold FeeParams_wf. cbn.
    split_and?; eauto using toy_u64_range, toy_word_range.
Defined.
