(* ===== verification/Executor.v ===== *)
(** * The block executor and the block assembler

    evm/src/executor.rs: the checks before a block ([apply_pre_execution_changes]),
    the execution and the commit of a transaction, the gas accounting written at the
    end of a block ([apply_post_block_writes], called early by [set_state_hook] or
    late by [finish]); evm/src/assembler.rs: the extra data of the header.

    The executor is a record threaded through a state-and-error monad; a Rust panic
    ([expect]) is the error [Panic]. *)

From S2P Require Import Prelude GasFee Hardforks ChainSpec Revm Precompile NativeCoin.
From S2P Require Import SystemAccounting BlockEvm.

Section Executor.
Context `{EO : EvmOps}.
Context {CS : Type} `{!BlockGasLimitProvider CS, !BaseFeeConfigProvider CS}.

Inductive BlockExecutionError :=
| BlockNumberConversionFailed
| StorageReadFailed (e : DbErr)
| BlockedBeneficiary (msg : string)
| ExtraDataBaseFeeMismatch (block_number expected : Z) (actual : option Z)
| GasLimitMismatch (block_gas_limit expected : Z)
| TransactionGasLimitMoreThanAvailableBlockGas (transaction_gas_limit block_available_gas : Z)
| EvmFailed (e : EvmError)
| BlockhashesCallFailed (e : EvmError)
| AccountingFailed (e : SystemAccountingError)
| Panic (msg : string).

Record ArcBlockExecutor := mkExecutor {
  ctx_extra_data : bytes;
  ctx_parent_hash : Z;
  chain_spec : CS;
  evm : Evm;
  system_caller : SystemCaller;
  receipts : list Receipt;
  x_gas_used : Z;
  x_blob_gas_used : Z;
  state_hook_active : bool;
  post_block_applied : bool;
  post_block_error : option BlockExecutionError;
}.

(** A transaction as the executor takes it apart. *)
Record Tx := mkTx { tx_env : TxEnv; tx_gas_limit : Z; tx_blob_gas_used : option Z; tx_type : TxType }.

Record ArcTxResult := mkArcTxResult {
  result_ : ExecutionResult;
  state_ : EvmState;
  result_blob_gas_used : Z;
  result_tx_type : TxType;
}.

Record BlockExecutionResult := mkBlockExecutionResult {
  block_receipts : list Receipt;
  block_gas_used : Z;
  block_blob_gas_used : Z;
}.

Abbreviation Exec A := (M ArcBlockExecutor BlockExecutionError A).

(** Field assignments. *)
Definition set_evm (x : ArcBlockExecutor) (e : Evm) : ArcBlockExecutor :=
  mkExecutor (ctx_extra_data x) (ctx_parent_hash x) (chain_spec x) e (system_caller x) (receipts x)
    (x_gas_used x) (x_blob_gas_used x) (state_hook_active x) (post_block_applied x) (post_block_error x).
Definition set_system_caller (x : ArcBlockExecutor) (c : SystemCaller) : ArcBlockExecutor :=
  mkExecutor (ctx_extra_data x) (ctx_parent_hash x) (chain_spec x) (evm x) c (receipts x)
    (x_gas_used x) (x_blob_gas_used x) (state_hook_active x) (post_block_applied x) (post_block_error x).
Definition set_block_totals (x : ArcBlockExecutor) (rs : list Receipt) (g b : Z) : ArcBlockExecutor :=
  mkExecutor (ctx_extra_data x) (ctx_parent_hash x) (chain_spec x) (evm x) (system_caller x) rs
    g b (state_hook_active x) (post_block_applied x) (post_block_error x).
Definition set_hook_active (x : ArcBlockExecutor) (b : bool) : ArcBlockExecutor :=
  mkExecutor (ctx_extra_data x) (ctx_parent_hash x) (chain_spec x) (evm x) (system_caller x) (receipts x)
    (x_gas_used x) (x_blob_gas_used x) b (post_block_applied x) (post_block_error x).
Definition set_applied (x : ArcBlockExecutor) : ArcBlockExecutor :=
  mkExecutor (ctx_extra_data x) (ctx_parent_hash x) (chain_spec x) (evm x) (system_caller x) (receipts x)
    (x_gas_used x) (x_blob_gas_used x) (state_hook_active x) true (post_block_error x).
Definition set_post_block_error (x : ArcBlockExecutor) (e : option BlockExecutionError) : ArcBlockExecutor :=
  mkExecutor (ctx_extra_data x) (ctx_parent_hash x) (chain_spec x) (evm x) (system_caller x) (receipts x)
    (x_gas_used x) (x_blob_gas_used x) (state_hook_active x) (post_block_applied x) e.

(** Run an EVM operation on the executor's EVM, keeping its error as a value. *)
Definition on_evm {E A} (f : Evm → result E A * Evm) : Exec (result E A) := λ x,
  let '(r, e) := f (evm x) in (Ok r, set_evm x e).
(** [expr.map_err(f)?] on the executor's EVM. *)
Definition try_evm {E A} (wrap : E → BlockExecutionError) (f : Evm → result E A * Evm) : Exec A :=
  r <-- on_evm f ;; match r with Ok a => m_ret a | Err e => m_err (wrap e) end.
(** [option.expect(msg)] *)
Definition expect {A} (o : option A) (msg : string) : Exec A :=
  match o with Some a => m_ret a | None => m_err (Panic msg) end.

Definition ArcBlockExecutor_new (e : Evm) (extra_data : bytes) (parent_hash : Z) (spec : CS)
    : ArcBlockExecutor :=
  mkExecutor extra_data parent_hash spec e system_caller_new [] 0 0 false false None.

Definition block_number_u64 : Exec Z :=
  x <-- m_get ;;
  match try_from 64 (env_number (block (evm x))) with
  | Some n => m_ret n
  | None => m_err BlockNumberConversionFailed
  end.

Definition validate_beneficiary_not_blocklisted (header_beneficiary : Z) : Exec unit :=
  status <-- try_evm StorageReadFailed (λ e,
    db_storage e NATIVE_COIN_CONTROL_ADDRESS (compute_is_blocklisted_storage_slot header_beneficiary)) ;;
  if is_blocklisted_status status then m_err (BlockedBeneficiary ERR_BLOCKED_ADDRESS) else m_ret ().

Definition validate_extra_data_base_fee (block_number expected_next_base_fee : Z) : Exec unit :=
  x <-- m_get ;;
  let extra_data_base_fee := decode_base_fee_from_bytes (ctx_extra_data x) in
  if decide (extra_data_base_fee ≠ Some expected_next_base_fee)
  then m_err (ExtraDataBaseFeeMismatch block_number expected_next_base_fee extra_data_base_fee)
  else m_ret ().

Definition compute_gas_values (block_number : Z) (fee_params : option FeeParams) : Exec GasValues :=
  next <-- expect (checked_add 64 block_number 1) "block number overflow" ;;
  x <-- m_get ;;
  let base_fee_cfg := base_fee_config (chain_spec x) next in
  let calc := resolve_calc_params base_fee_cfg fee_params in
  let parent_block_number := saturating_sub block_number 1 in
  parent_gas_values <-- try_evm AccountingFailed (retrieve_gas_values parent_block_number) ;;
  x <-- m_get ;;
  let smoothed_gas_used :=
    default (x_gas_used x)
      (determine_ema_parent_gas_used (gasUsedSmoothed parent_gas_values) (x_gas_used x)
         (calc_alpha calc)) in
  let raw_next_base_fee :=
    arc_calc_next_block_base_fee smoothed_gas_used (env_gas_limit (block (evm x)))
      (env_basefee (block (evm x))) (calc_k_rate calc) (calc_inverse_elasticity_multiplier calc) in
  let clamped :=
    match fee_params with
    | Some fp => determine_bounded_base_fee fp raw_next_base_fee
    | None => raw_next_base_fee
    end in
  let next_base_fee := clamp_absolute base_fee_cfg clamped in
  m_ret (mkGasValues (x_gas_used x) smoothed_gas_used next_base_fee).

(** The body of [apply_post_block_writes] behind its guard. *)
Definition write_gas_values : Exec unit :=
  block_number <-- block_number_u64 ;;
  fee_params <-- on_evm retrieve_fee_params ;;
  gas_values <-- compute_gas_values block_number (result_ok fee_params) ;;
  x <-- m_get ;;
  (if negb (bool_decide (ctx_extra_data x = []))
   then validate_extra_data_base_fee block_number (nextBaseFee gas_values)
   else m_ret ()) ;;;
  state <-- try_evm AccountingFailed (store_gas_values block_number gas_values) ;;
  x <-- m_get ;;
  λ _, (Ok (), set_applied (set_system_caller x (on_state (system_caller x) SourcePostBlock state))).

Definition apply_post_block_writes : Exec unit :=
  x <-- m_get ;;
  if post_block_applied x then m_ret () else write_gas_values.

Definition apply_pre_execution_changes : Exec unit :=
  block_number <-- block_number_u64 ;;
  x <-- m_get ;;
  let '(r, (c, e)) := apply_blockhashes_contract_call (system_caller x) (ctx_parent_hash x) (evm x) in
  (λ x, (map_err BlockhashesCallFailed r, set_system_caller (set_evm x e) c)) ;;;
  x <-- m_get ;;
  validate_beneficiary_not_blocklisted (env_beneficiary (block (evm x))) ;;;
  x <-- m_get ;;
  let block_gas_limit := env_gas_limit (block (evm x)) in
  fee_params <-- on_evm retrieve_fee_params ;;
  let gas_limit_config := block_gas_limit_config (chain_spec x) block_number in
  let expected := expected_gas_limit (result_ok fee_params) gas_limit_config in
  if decide (block_gas_limit ≠ expected) then m_err (GasLimitMismatch block_gas_limit expected)
  else m_ret ().

Definition execute_transaction_without_commit (tx : Tx) : Exec ArcTxResult :=
  x <-- m_get ;;
  block_available_gas <--
    expect (checked_sub 64 (env_gas_limit (block (evm x))) (x_gas_used x))
      "gas_used must not exceed block gas_limit" ;;
  if decide (tx_gas_limit tx > block_available_gas)
  then m_err (TransactionGasLimitMoreThanAvailableBlockGas (tx_gas_limit tx) block_available_gas)
  else
    rs <-- try_evm EvmFailed (λ e, transact e (tx_env tx)) ;;
    let '(result, state) := rs in
    m_ret (mkArcTxResult result state (default 0 (tx_blob_gas_used tx)) (tx_type tx)).

Definition commit_transaction (output : ArcTxResult) : Exec Z :=
  x <-- m_get ;;
  let c := on_state (system_caller x) (SourceTransaction (length (receipts x))) (state_ output) in
  let gas_used := tx_gas_used (result_ output) in
  (λ x, (Ok (), set_system_caller x c)) ;;;
  total <-- expect (checked_add 64 (x_gas_used x) gas_used) "cumulative gas overflow" ;;
  let blob := saturating_add 64 (x_blob_gas_used x) (result_blob_gas_used output) in
  let receipt := build_receipt (result_tx_type output) (evm x) (result_ output) (state_ output) total in
  (λ x, (Ok (), set_evm (set_block_totals x (receipts x ++ [receipt]) total blob)
                  (db_commit (evm x) (state_ output)))) ;;;
  m_ret gas_used.

(** [finish] consumes the executor. *)
Definition finish_block : Exec (Evm * BlockExecutionResult) :=
  x <-- m_get ;;
  match post_block_error x with
  | Some err => λ x, (Err err, set_post_block_error x None)
  | None =>
      apply_post_block_writes ;;;
      x <-- m_get ;;
      m_ret (evm x, mkBlockExecutionResult (receipts x) (x_gas_used x) (x_blob_gas_used x))
  end.

Definition set_state_hook (hook : option Hook) (x : ArcBlockExecutor) : ArcBlockExecutor :=
  let clearing_active_hook := bool_decide (hook = None) && state_hook_active x in
  let x :=
    if clearing_active_hook && negb (post_block_applied x) then
      match apply_post_block_writes x with
      | (Err err, x) => set_post_block_error x (Some err)
      | (Ok _, x) => x
      end
    else x in
  let x := set_hook_active x (bool_decide (is_Some hook)) in
  set_system_caller x (with_state_hook (system_caller x) hook).

(** ** The assembler *)

(** What the assembler reads of its input: the changed storage of the accounting
    account, if it changed, and the state provider. *)
Definition assemble_block_extra_data (number : Z) (bundle_account : option (Z → option Z))
    (provider : Z → option Z) (extra_data : bytes) : bytes :=
  match try_from 64 number with
  | None => extra_data
  | Some block_number =>
      let slot := compute_gas_values_storage_slot block_number in
      let value := account ← bundle_account; account slot in
      let value := match value with None => provider slot | Some v => Some v end in
      match value with
      | None => extra_data
      | Some value =>
          let gas_values := unpack_gas_values_from_storage (to_be_bytes 32 value) in
          if decide (nextBaseFee gas_values ≠ 0)
          then encode_base_fee_to_bytes (nextBaseFee gas_values)
          else extra_data
      end
  end.

End Executor.

(** ** Reference: the gas values of a block *)

Section NextGasValues.
Context {CS : Type} `{!BaseFeeConfigProvider CS}.

(** ADR-0004 in one expression: smooth the block's gas with the parent's smoothed
    value, move the base fee, clamp by the ProtocolConfig's bounds and then by the
    network's absolute bounds. *)
Definition next_gas_values (spec : CS) (env : BlockEnv) (parent : GasValues) (gas : Z)
    (fp : option FeeParams) : GasValues :=
  let cfg := base_fee_config spec (env_number env + 1) in
  let calc := resolve_calc_params cfg fp in
  let smoothed :=
    default gas (determine_ema_parent_gas_used (gasUsedSmoothed parent) gas (calc_alpha calc)) in
  let raw := arc_calc_next_block_base_fee smoothed (env_gas_limit env) (env_basefee env)
               (calc_k_rate calc) (calc_inverse_elasticity_multiplier calc) in
  let bounded := match fp with Some f => determine_bounded_base_fee f raw | None => raw end in
  mkGasValues gas smoothed (clamp_absolute cfg bounded).

Lemma next_gas_values_wf spec env parent gas fp :
  BaseFeeConfig_wf (base_fee_config spec (env_number env + 1)) → u64 gas →
  GasValues_wf (next_gas_values spec env parent gas fp).
Proof.
  intros W Hg. split_and!; cbn; [done| |by apply clamp_absolute_u64].
  destruct (determine_ema_parent_gas_used _ _ _) as [v|] eqn:E; [|done]. cbn.
  unfold determine_ema_parent_gas_used in E. case_decide; [done|].
  repeat (apply bind_Some in E as (? & _ & E)). by apply try_from_inv in E as [-> ?].
Qed.
End NextGasValues.

(** ** Runs of the executor *)

Section ExecutorRuns.
Context `{EL : EvmLaws} {RD : RingSlotsDistinct}.
Context {CS : Type} `{!BlockGasLimitProvider CS, !BaseFeeConfigProvider CS}.
Hypothesis config_wf : ∀ (spec : CS) n, BaseFeeConfig_wf (base_fee_config spec n).
Implicit Types x : ArcBlockExecutor (CS := CS).
Abbreviation Exec A := (M (ArcBlockExecutor (CS := CS)) BlockExecutionError A).

#[local] Instance same_outside_ring_proper : Proper ((≡) ==> (≡) ==> iff) same_outside_ring.
Proof.
  intros w1 w1' (A & _ & S & L) w2 w2' (A' & _ & S' & L'). unfold same_outside_ring.
  setoid_rewrite A. setoid_rewrite A'. setoid_rewrite S. setoid_rewrite S'. by rewrite L, L'.
Qed.

(** The operation only runs uncommitted EVM code. *)
Definition quiet {A} (m : Exec A) : Prop :=
  ∀ x r x', m x = (r, x') → x' = set_evm x (evm x') ∧ evm_same (evm x) (evm x').

Lemma quiet_ret {A} (a : A) : quiet (m_ret a).
Proof. intros x r x' [= <- <-]. by destruct x. Qed.
Lemma quiet_err {A} e : quiet (A := A) (m_err e).
Proof. intros x r x' [= <- <-]. by destruct x. Qed.
Lemma quiet_get : quiet m_get.
Proof. intros x r x' [= <- <-]. by destruct x. Qed.
Lemma quiet_bind {A B} (m : Exec A) (f : A → Exec B) :
  quiet m → (∀ a, quiet (f a)) → quiet (m_bind m f).
Proof.
  intros Hm Hf x r x' [(a & x1 & E1 & E2)|(e & E & _)]%m_bind_cases; [|by eapply Hm].
  apply Hm in E1 as [E1 S1]. apply Hf in E2 as [E2 S2].
  split; [rewrite E2, E1 at 1; done|by etrans].
Qed.
(** Composition, for the failing runs of a continuation that may commit when it succeeds. *)
Lemma quiet_err_bind {A B} (m : Exec A) (f : A → Exec B) err x' :
  quiet m →
  (∀ a x, f a x = (Err err, x') → x' = set_evm x (evm x') ∧ evm_same (evm x) (evm x')) →
  ∀ x, m_bind m f x = (Err err, x') → x' = set_evm x (evm x') ∧ evm_same (evm x) (evm x').
Proof.
  intros Hm Hf x [(a & x1 & E1 & E2)|(e & E & _)]%m_bind_cases; [|by eapply Hm].
  apply Hm in E1 as [E1 S1]. apply Hf in E2 as [E2 S2].
  split; [rewrite E2, E1 at 1; done|by etrans].
Qed.
Lemma quiet_on_evm {E A} (f : Evm → result E A * Evm) :
  (∀ e, evm_same e (f e).2) → quiet (on_evm f).
Proof.
  intros Hf x r x'. unfold on_evm. specialize (Hf (evm x)). destruct (f (evm x)) as [a e].
  by intros [= <- <-].
Qed.
Lemma quiet_try_evm {E A} w (f : Evm → result E A * Evm) :
  (∀ e, evm_same e (f e).2) → quiet (try_evm w f).
Proof. intros Hf. apply quiet_bind; [by apply quiet_on_evm|]. intros []; [apply quiet_ret|apply quiet_err]. Qed.
Lemma quiet_expect {A} (o : option A) msg : quiet (expect o msg).
Proof. destruct o; [apply quiet_ret|apply quiet_err]. Qed.
Lemma quiet_block_number : quiet block_number_u64.
Proof. apply quiet_bind; [apply quiet_get|]. intros x. case_match; [apply quiet_ret|apply quiet_err]. Qed.
Lemma quiet_fee_params : quiet (on_evm retrieve_fee_params).
Proof. apply quiet_on_evm. intros e. destruct (retrieve_fee_params e) eqn:E. by apply retrieve_fee_params_spec in E as [? _]. Qed.
Lemma quiet_compute n fp : quiet (compute_gas_values n fp).
Proof.
  unfold compute_gas_values.
  apply quiet_bind; [apply quiet_expect|intros next]. apply quiet_bind; [apply quiet_get|intros x].
  apply quiet_bind; [|intros pg; apply quiet_bind; [apply quiet_get|intros y; apply quiet_ret]].
  apply quiet_try_evm. intros e. destruct (retrieve_gas_values _ e) eqn:E.
  by apply retrieve_gas_values_frame in E.
Qed.

Lemma quiet_validate n f : quiet (validate_extra_data_base_fee n f).
Proof.
  apply quiet_bind; [apply quiet_get|intros x]. cbn zeta. case_decide; [apply quiet_err|apply quiet_ret].
Qed.

(** The fee parameters and the gas values the executor arrives at. *)
Definition fee_params_of x : option FeeParams := result_ok (retrieve_fee_params (evm x)).1.
Definition gas_values_of x : GasValues :=
  let n := env_number (block (evm x)) in
  next_gas_values (chain_spec x) (block (evm x))
    (ring_of (evm_world (evm x)) (saturating_sub n 1)) (x_gas_used x) (fee_params_of x).

Lemma block_number_ok x n x' :
  block_number_u64 x = (Ok n, x') → x' = x ∧ n = env_number (block (evm x)) ∧ u64 n.
Proof.
  unfold block_number_u64, m_bind, m_get. destruct (try_from _ _) eqn:E; [|done].
  apply try_from_inv in E as [-> ?]. by intros [= <- <-].
Qed.

Lemma block_number_err x err x' : block_number_u64 x = (Err err, x') → x' = x.
Proof. unfold block_number_u64, m_bind, m_get. destruct (try_from _ _); [done|]. by intros [= _ <-]. Qed.

Lemma try_evm_ok {E A} w (f : Evm → result E A * Evm) x a x' :
  try_evm w f x = (Ok a, x') → f (evm x) = (Ok a, evm x') ∧ x' = set_evm x (evm x').
Proof.
  unfold try_evm, on_evm, m_bind. destruct (f (evm x)) as [[b|b] e]; [|done]. by intros [= <- <-].
Qed.

Lemma compute_gas_values_ok n fp x v x' :
  u64 n → n = env_number (block (evm x)) → compute_gas_values n fp x = (Ok v, x') →
  u64 (n + 1)
  ∧ v = next_gas_values (chain_spec x) (block (evm x))
          (ring_of (evm_world (evm x)) (saturating_sub n 1)) (x_gas_used x) fp.
Proof.
  intros Hn En H. apply m_bind_ok in H as (m & x1 & Hm & H).
  unfold expect in Hm. destruct (checked_add 64 n 1) eqn:C; [|done].
  apply checked_add_inv in C as [-> C]. apply m_ret_ok in Hm as [-> ->].
  split; [done|]. apply m_bind_ok in H as (y & x2 & [= <- <-] & H).
  apply m_bind_ok in H as (pg & x3 & [R X]%try_evm_ok & H).
  apply m_bind_ok in H as (y & x4 & [= <- <-] & [= <- <-]).
  assert (u64 (saturating_sub n 1)) by (unfold saturating_sub, uint in *; lia).
  pose proof (retrieve_gas_values_frame _ _ _ _ R) as (B & _ & _).
  apply retrieve_gas_values_spec in R as ->; [|done].
  unfold next_gas_values. rewrite X. cbn [chain_spec x_gas_used evm set_evm]. by rewrite B, En.
Qed.

Lemma gas_values_computed x fp x2 v x3 :
  u64 (env_number (block (evm x))) →
  on_evm retrieve_fee_params x = (Ok fp, x2) →
  compute_gas_values (env_number (block (evm x))) (result_ok fp) x2 = (Ok v, x3) →
  v = gas_values_of x.
Proof.
  intros Hn Hfp Hv. pose proof (quiet_fee_params _ _ _ Hfp) as [X2 (B2 & W2 & C2)].
  assert (result_ok fp = fee_params_of x) as Efp.
  { unfold fee_params_of. unfold on_evm in Hfp. destruct (retrieve_fee_params (evm x)). by injection Hfp as <- <-. }
  apply compute_gas_values_ok in Hv as [_ ->]; [|done|by rewrite B2].
  rewrite Efp. unfold gas_values_of. rewrite X2. cbn [chain_spec x_gas_used evm set_evm].
  by rewrite B2, W2.
Qed.

Lemma check_extra_ok n f x y x' :
  (if negb (bool_decide (ctx_extra_data x = [])) then validate_extra_data_base_fee n f else m_ret ()) x
    = (Ok y, x') →
  x' = x ∧ (ctx_extra_data x = [] ∨ decode_base_fee_from_bytes (ctx_extra_data x) = Some f).
Proof.
  case_bool_decide; [intros [= _ <-]; auto|]. cbn.
  unfold validate_extra_data_base_fee, m_bind, m_get.
  case_decide as D; [done|]. intros [= _ <-]. split; [done|right].
  by destruct (decide (decode_base_fee_from_bytes (ctx_extra_data x) = Some f)).
Qed.

Lemma apply_post_block_writes_skip x :
  post_block_applied x = true → apply_post_block_writes x = (Ok (), x).
Proof. intros H. unfold apply_post_block_writes, m_bind, m_get. by rewrite H. Qed.

Lemma post_block_number x x' :
  apply_post_block_writes x = (Ok (), x') → post_block_applied x = false →
  u64 (env_number (block (evm x))).
Proof.
  intros H Ha. apply m_bind_ok in H as (y & x1 & [= <- <-] & H). rewrite Ha in H.
  by apply m_bind_ok in H as (n & x1 & (-> & <- & Hn)%block_number_ok & _).
Qed.

(** A successful post-block write. *)
Lemma apply_post_block_writes_ok x x' :
  u64 (x_gas_used x) → post_block_applied x = false →
  apply_post_block_writes x = (Ok (), x') →
  let n := env_number (block (evm x)) in
  let v := gas_values_of x in
  u64 (n + 1)
  ∧ (ctx_extra_data x = [] ∨ decode_base_fee_from_bytes (ctx_extra_data x) = Some (nextBaseFee v))
  ∧ ∃ st, x' = set_applied (set_system_caller (set_evm x (evm x'))
                 (on_state (system_caller x) SourcePostBlock st))
     ∧ block (evm x') = block (evm x)
     ∧ committed (evm x') = committed (evm x) ++ [st]
     ∧ same_outside_ring (evm_world (evm x)) (evm_world (evm x'))
     ∧ ∀ m, ring_of (evm_world (evm x')) m =
         if decide (m `mod` GAS_VALUES_RING_BUFFER_SIZE = n `mod` GAS_VALUES_RING_BUFFER_SIZE)
         then v else ring_of (evm_world (evm x)) m.
Proof.
  intros Hg Ha H. apply m_bind_ok in H as (y & x1 & [= <- <-] & H). rewrite Ha in H.
  apply m_bind_ok in H as (n & x1 & (-> & -> & Hn)%block_number_ok & H).
  apply m_bind_ok in H as (fp & x2 & Hfp & H).
  apply m_bind_ok in H as (v & x3 & Hv & H).
  assert (v = gas_values_of x) as -> by (by eapply gas_values_computed).
  pose proof (quiet_fee_params _ _ _ Hfp) as [X2 (B2 & W2 & C2)].
  pose proof (quiet_compute _ _ _ _ _ Hv) as [X3 (B3 & W3 & C3)].
  apply compute_gas_values_ok in Hv as [Hn1 _]; [|done|by rewrite B2].
  split; [done|].
  apply m_bind_ok in H as (y & x4 & [= <- <-] & H).
  apply m_bind_ok in H as ([] & x4 & Hval & H).
  assert (ctx_extra_data x3 = ctx_extra_data x) as Hx by (by rewrite X3, X2).
  apply check_extra_ok in Hval as [-> Hextra]. rewrite Hx in Hextra.
  split; [done|]. apply m_bind_ok in H as (st & x4 & [Hst X4]%try_evm_ok & H).
  apply m_bind_ok in H as (y & x5 & [= <- <-] & H). injection H as <-. cbn [evm set_applied set_system_caller].
  apply store_gas_values_spec in Hst as (B4 & C4 & O4 & R4);
    [|done|apply next_gas_values_wf; [apply config_wf|exact Hg]].
  exists st. split_and!.
  - rewrite X4, X3, X2. done.
  - congruence.
  - congruence.
  - by rewrite <- W2, <- W3.
  - intros m. rewrite R4. case_decide; [done|]. by rewrite W3, W2.
Qed.

(** A failed post-block write leaves everything committed as it was. *)
Lemma apply_post_block_writes_err x err x' :
  apply_post_block_writes x = (Err err, x') →
  x' = set_evm x (evm x') ∧ evm_same (evm x) (evm x').
Proof.
  intros H. apply m_bind_cases in H as [(y & x1 & [= <- <-] & H)|(? & [=] & _)].
  destruct (post_block_applied x); [done|]. revert x H.
  apply quiet_err_bind; [apply quiet_block_number|intros n].
  apply quiet_err_bind; [apply quiet_fee_params|intros fp].
  apply quiet_err_bind; [apply quiet_compute|intros v].
  apply quiet_err_bind; [apply quiet_get|intros y].
  apply quiet_err_bind; [case_bool_decide; [apply quiet_ret|apply quiet_validate]|].
  intros _ z. unfold try_evm, on_evm, m_bind, m_get.
  destruct (store_gas_values n v (evm z)) as [[st|er] e] eqn:E; [done|].
  intros [= _ <-]. by apply store_gas_values_err in E.
Qed.

End ExecutorRuns.
