(* ===== verification/ExecutorProps.v ===== *)
(** * Properties of the block executor

    The gas values a block records, the equivalence of the early and the late
    post-block write, what the state hook sees, the gas accounting of the
    transactions, the agreement of proposer and verifier. *)

From S2P Require Import Prelude GasFee Hardforks ChainSpec Validation Revm Precompile NativeCoin.
From S2P Require Import ToyRevm SystemAccounting BlockEvm ToyEvm Executor.

Section ExecutorProps.
Context `{EL : EvmLaws} {RD : RingSlotsDistinct}.
Context {CS : Type} `{!BlockGasLimitProvider CS, !BaseFeeConfigProvider CS}.
Hypothesis config_wf : ∀ (spec : CS) n, BaseFeeConfig_wf (base_fee_config spec n).
Implicit Types x : ArcBlockExecutor (CS := CS).

(** What a block records: when [finish] succeeds and the post-block write had not
    run yet, the ring entry of the block holds the gas the block used, its smoothed
    value and the next base fee computed from the parent's entry (ADR-0004), the fee
    within the network's absolute bounds; the other entries, the accounts, all other
    storage and the logs are unchanged; the reported gas is the recorded one; and a
    non-empty extra data announces exactly that fee. *)
Theorem finish_records_gas_values x e res x' :
  u64 (x_gas_used x) → post_block_applied x = false →
  finish_block x = (Ok (e, res), x') →
  let n := env_number (block (evm x)) in
  let cfg := base_fee_config (chain_spec x) (n + 1) in
  let v := next_gas_values (chain_spec x) (block (evm x))
             (ring_of (evm_world (evm x)) (saturating_sub n 1)) (x_gas_used x)
             (result_ok (retrieve_fee_params (evm x)).1) in
  ring_of (evm_world e) n = v
  ∧ gasUsed v = block_gas_used res
  ∧ absolute_min_base_fee cfg ≤ nextBaseFee v ≤ absolute_max_base_fee cfg
  ∧ same_outside_ring (evm_world (evm x)) (evm_world e)
  ∧ (∀ m, m `mod` GAS_VALUES_RING_BUFFER_SIZE ≠ n `mod` GAS_VALUES_RING_BUFFER_SIZE →
       ring_of (evm_world e) m = ring_of (evm_world (evm x)) m)
  ∧ (ctx_extra_data x = [] ∨ decode_base_fee_from_bytes (ctx_extra_data x) = Some (nextBaseFee v)).
Proof.
  intros Hg Ha H. apply m_bind_ok in H as (y & x1 & [= <- <-] & H).
  destruct (post_block_error x) eqn:Ep; [done|].
  apply m_bind_ok in H as ([] & x1 & H1 & H). apply m_bind_ok in H as (y & x2 & [= <- <-] & [= <- <-]).
  apply apply_post_block_writes_ok in H1 as (_ & Hx & st & X & _ & _ & O & R); [|done..].
  intros n cfg v. split; [by rewrite R, decide_True|]. split; [cbn; by rewrite X|].
  split; [apply clamp_absolute_bounds, config_wf|]. split; [done|]. split; [|done].
  intros m Hm. by rewrite R, decide_False.
Qed.

(** ** Early flush *)

Lemma set_state_hook_flush x :
  state_hook_active x = true → post_block_applied x = false →
  set_state_hook None x =
    (let x1 := match apply_post_block_writes x with
               | (Err err, x) => set_post_block_error x (Some err)
               | (Ok _, x) => x
               end in
     let x2 := set_hook_active x1 false in
     set_system_caller x2 (with_state_hook (system_caller x2) None)).
Proof.
  intros Hh Ha. unfold set_state_hook. rewrite Hh, Ha. cbn.
  by destruct (apply_post_block_writes x) as [[]].
Qed.

(** Clearing an active state hook before [finish] (the payload builder's order)
    yields the same outcome as [finish] alone: the same EVM and the same block result,
    or the same error; the deferred error is never lost and the write is not repeated. *)
Theorem early_flush_equivalent x :
  u64 (x_gas_used x) →
  state_hook_active x = true → post_block_applied x = false → post_block_error x = None →
  (finish_block (set_state_hook None x)).1 = (finish_block x).1.
Proof.
  intros Hg Hh Ha He. rewrite set_state_hook_flush by done.
  unfold finish_block at 2. unfold m_bind, m_get. rewrite He.
  destruct (apply_post_block_writes x) as [[[]|err] x1] eqn:E.
  - apply apply_post_block_writes_ok in E as (_ & _ & st & X & _); [|done..].
    rewrite X. unfold finish_block, m_bind, m_get. cbn. by rewrite He.
  - reflexivity.
Qed.

(** ** The state hook *)

(** [x'] continues [x]: the same block, the post-block bookkeeping untouched, and an
    installed hook was shown every state committed in between. *)
Record follows x x' : Prop := mkFollows {
  follows_spec : chain_spec x' = chain_spec x ∧ ctx_extra_data x' = ctx_extra_data x;
  follows_block : block (evm x') = block (evm x);
  follows_flags : state_hook_active x' = state_hook_active x
    ∧ post_block_applied x' = post_block_applied x ∧ post_block_error x' = post_block_error x;
  follows_hooked : hooked (system_caller x') = hooked (system_caller x);
  follows_states : ∃ sts, committed (evm x') = committed (evm x) ++ sts
    ∧ seen (system_caller x') = seen (system_caller x) ++ (if hooked (system_caller x) then sts else []);
}.

#[local] Instance follows_preorder : PreOrder follows.
Proof.
  split.
  - intros x. split; try done. exists []. split; [by rewrite app_nil_r|].
    destruct (hooked _); by rewrite app_nil_r.
  - intros x y z [[? ?] B (? & ? & ?) K (s1 & C1 & S1)] [[? ?] B' (? & ? & ?) K' (s2 & C2 & S2)].
    split; [split; congruence|congruence|split_and!; congruence|congruence|].
    exists (s1 ++ s2). rewrite C2, C1, S2, S1, K. destruct (hooked (system_caller x)); by simplify_list_eq.
Qed.

Abbreviation Exec A := (M (ArcBlockExecutor (CS := CS)) BlockExecutionError A).
Definition tracked {A} (m : Exec A) : Prop := ∀ x r x', m x = (r, x') → follows x x'.

Lemma quiet_tracked {A} (m : Exec A) : quiet m → tracked m.
Proof.
  intros Hm x r x' E. apply Hm in E as [-> (B & _ & C)]. split; cbn in *; try done.
  exists []. split; [by rewrite C, app_nil_r|]. destruct (hooked _); by rewrite app_nil_r.
Qed.

Lemma tracked_bind {A B} (m : Exec A) (f : A → Exec B) :
  tracked m → (∀ a, tracked (f a)) → tracked (m_bind m f).
Proof.
  intros Hm Hf x r x' [(a & x1 & E1 & E2)|(e & E & _)]%m_bind_cases; [|by eapply Hm].
  etrans; [by eapply Hm|by eapply Hf].
Qed.

Lemma quiet_beneficiary b : quiet (validate_beneficiary_not_blocklisted (CS := CS) b).
Proof.
  apply quiet_bind; [apply quiet_try_evm|].
  - intros e. apply db_storage_frame.
  - intros s. destruct (is_blocklisted_status s); [apply quiet_err|apply quiet_ret].
Qed.

Lemma beneficiary_ok b x u x' :
  validate_beneficiary_not_blocklisted b x = (Ok u, x') →
  blocked (coin_of (evm_world (evm x))) b = false.
Proof.
  intros H. apply m_bind_ok in H as (s & x1 & [D _]%try_evm_ok & H).
  apply db_storage_value in D as ->. cbn.
  by destruct (is_blocklisted_status _).
Qed.

(** The part of the checks that follows the EIP-2935 call. *)
Lemma quiet_pre_checks n : quiet (
  x <-- m_get ;;
  validate_beneficiary_not_blocklisted (env_beneficiary (block (evm x))) ;;;
  x <-- m_get ;;
  let block_gas_limit := env_gas_limit (block (evm x)) in
  fee_params <-- on_evm retrieve_fee_params ;;
  let gas_limit_config := block_gas_limit_config (chain_spec x) n in
  let expected := expected_gas_limit (result_ok fee_params) gas_limit_config in
  if decide (block_gas_limit ≠ expected) then m_err (GasLimitMismatch block_gas_limit expected)
  else m_ret ()).
Proof.
  apply quiet_bind; [apply quiet_get|intros z]. apply quiet_bind; [apply quiet_beneficiary|intros _].
  apply quiet_bind; [apply quiet_get|intros z']. apply quiet_bind; [apply quiet_fee_params|intros fp].
  cbn zeta. case_decide; [apply quiet_err|apply quiet_ret].
Qed.

Lemma pre_execution_split x r x' :
  apply_pre_execution_changes x = (r, x') →
  x' = x ∨ ∃ rb c e, apply_blockhashes_contract_call (system_caller x) (ctx_parent_hash x) (evm x)
                       = (rb, (c, e))
    ∧ let y := set_system_caller (set_evm x e) c in x' = set_evm y (evm x') ∧ evm_same e (evm x').
Proof.
  intros H. apply m_bind_cases in H as [(n & x1 & (-> & _ & _)%block_number_ok & H)|(e & H & _)].
  2: { apply block_number_err in H as ->. by left. }
  right. apply m_bind_cases in H as [(y & x1 & [= <- <-] & H)|(? & [=] & _)].
  destruct (apply_blockhashes_contract_call _ _ _) as [rb [c e]] eqn:E. exists rb, c, e. split; [done|].
  apply m_bind_cases in H as [([] & x1 & [= _ <-] & H)|(err & [= _ <-] & _)]; [|by destruct x].
  by apply quiet_pre_checks in H.
Qed.

Lemma tracked_pre_execution : tracked apply_pre_execution_changes.
Proof.
  intros x r x' [->|(rb & c & e & E & X & B' & _ & C')]%pre_execution_split; [done|].
  apply apply_blockhashes_law in E as (B & K & sts & C & S). rewrite X.
  split; cbn; try done; [congruence|]. exists sts. by rewrite C'.
Qed.

(** The checks before a block touch neither its gas total nor its receipts. *)
Lemma pre_execution_totals x r x' :
  apply_pre_execution_changes x = (r, x') →
  x_gas_used x' = x_gas_used x ∧ receipts x' = receipts x.
Proof. intros [->|(rb & c & e & _ & X & _)]%pre_execution_split; [done|]. by rewrite X. Qed.

Lemma quiet_execute tx : quiet (execute_transaction_without_commit (CS := CS) tx).
Proof.
  apply quiet_bind; [apply quiet_get|intros x].
  apply quiet_bind; [apply quiet_expect|intros g]. case_decide; [apply quiet_err|].
  apply quiet_bind; [|intros [res st]; apply quiet_ret].
  apply quiet_try_evm. intros e. apply transact_frame.
Qed.

Lemma commit_transaction_ok out x g x' :
  commit_transaction out x = (Ok g, x') →
  follows x x' ∧ g = tx_gas_used (result_ out) ∧ u64 (x_gas_used x')
  ∧ x_gas_used x' = x_gas_used x + g
  ∧ ∃ r, receipts x' = receipts x ++ [r] ∧ cumulative_gas_used r = x_gas_used x'.
Proof.
  intros H. apply m_bind_ok in H as (y & x1 & [= <- <-] & H).
  apply m_bind_ok in H as ([] & x1 & [= <-] & H).
  apply m_bind_ok in H as (t & x2 & Ht & H).
  unfold expect in Ht. destruct (checked_add _ _ _) eqn:C; [|done].
  apply checked_add_inv in C as [-> Hr]. apply m_ret_ok in Ht as [-> ->].
  apply m_bind_ok in H as ([] & x3 & [= <-] & [= <- <-]). cbn.
  split; [|split; [done|]; split; [done|]; split; [done|]; eexists; split; [done|apply build_receipt_cumulative]].
  destruct (db_commit_frame (evm x) (state_ out)) as [B C].
  destruct (on_state_law (system_caller x) (SourceTransaction (length (receipts x))) (state_ out)) as [K S].
  split; cbn; try done. exists [state_ out]. done.
Qed.

(** The steps of a block between the installation of the hook and its end. *)
Inductive block_step x x' : Prop :=
| step_pre r : apply_pre_execution_changes x = (r, x') → block_step x x'
| step_tx tx out x1 g :
    tx_gas_limit tx = env_tx_gas_limit (tx_env tx) →
    execute_transaction_without_commit tx x = (Ok out, x1) →
    commit_transaction out x1 = (Ok g, x') → block_step x x'
| step_rejected tx err : execute_transaction_without_commit tx x = (Err err, x') → block_step x x'.

Lemma block_step_follows x x' : block_step x x' → follows x x'.
Proof.
  intros [r E|tx out x1 g _ E1 E2|tx err E].
  - by eapply tracked_pre_execution.
  - etrans; [exact (quiet_tracked _ (quiet_execute _) _ _ _ ltac:(eassumption))|]. by apply commit_transaction_ok in E2 as [? _].
  - exact (quiet_tracked _ (quiet_execute _) _ _ _ ltac:(eassumption)).
Qed.

Lemma block_steps_follow x x' : rtc block_step x x' → follows x x'.
Proof. induction 1; [done|]. etrans; [by apply block_step_follows|done]. Qed.

(** An executor as the payload builder starts it: new, with a hook installed. *)
Definition start_with_hook (e : Evm) (extra : bytes) (parent : Z) (spec : CS) (h : Hook)
    : ArcBlockExecutor :=
  set_state_hook (Some h) (ArcBlockExecutor_new e extra parent spec).

Lemma start_with_hook_state e extra parent spec h :
  let x := start_with_hook e extra parent spec h in
  state_hook_active x = true ∧ post_block_applied x = false ∧ post_block_error x = None
  ∧ evm x = e ∧ x_gas_used x = 0 ∧ receipts x = [] ∧ hooked (system_caller x) = true
  ∧ seen (system_caller x) = [].
Proof.
  destruct (with_state_hook_law system_caller_new (Some h)) as [K S].
  destruct system_caller_new_law as [_ S0].
  cbn. split_and!; try done. by rewrite S, S0.
Qed.

(** The hook sees every committed state: from a new executor with a hook
    installed, through any transactions (failed ones included), clearing the hook
    leaves the hook with exactly the states committed in this block, the post-block
    write included; [finish] then commits nothing more, and succeeds exactly when the
    early write did, otherwise it reports that write's error. *)
Theorem hook_sees_every_commit e extra parent spec h x1 :
  rtc block_step (start_with_hook e extra parent spec h) x1 →
  u64 (x_gas_used x1) →
  let x2 := set_state_hook None x1 in
  committed (evm x2) = committed e ++ seen (system_caller x2)
  ∧ (∀ e' res x3, finish_block x2 = (Ok (e', res), x3) →
       e' = evm x2 ∧ ∃ st x1', apply_post_block_writes x1 = (Ok (), x1')
         ∧ committed e' = committed (evm x1) ++ [st])
  ∧ (∀ err x3, finish_block x2 = (Err err, x3) →
       evm x3 = evm x2 ∧ committed (evm x2) = committed (evm x1)
       ∧ ∃ x1', apply_post_block_writes x1 = (Err err, x1')).
Proof.
  intros Steps%block_steps_follow Hg x2.
  destruct (start_with_hook_state e extra parent spec h) as (A0 & P0 & E0 & V0 & _ & _ & K0 & S0).
  destruct Steps as [_ _ (A & P & E) K (sts & C & S)].
  rewrite A0 in A. rewrite P0 in P. rewrite E0 in E. rewrite V0 in C. rewrite K0 in K, S. rewrite S0 in S.
  unfold x2. rewrite set_state_hook_flush by done.
  destruct (apply_post_block_writes x1) as [[[]|err] x1'] eqn:W.
  - pose proof W as (_ & _ & st & X & _ & C' & _)%apply_post_block_writes_ok; [|done..].
    destruct (on_state_law (system_caller x1) SourcePostBlock st) as [_ S1].
    assert (system_caller x1' = on_state (system_caller x1) SourcePostBlock st) as Xc by (by rewrite X).
    assert (post_block_error x1' = None) as Xe by (rewrite X; done).
    assert (post_block_applied x1' = true) as Xa by (by rewrite X).
    cbn. destruct (with_state_hook_law (system_caller x1') None) as [_ S2].
    rewrite S2, C', C, Xc, S1, K, S. split; [by rewrite app_assoc|].
    unfold finish_block, m_bind, m_get. cbn. rewrite Xe. cbn. rewrite Xa. cbn. split; [|by intros].
    intros e' res x3 [= <- <- <-]. split; [done|]. exists st, x1'. by rewrite C', C.
  - apply apply_post_block_writes_err in W as W'. destruct W' as [X (_ & _ & C')].
    assert (system_caller x1' = system_caller x1) as Xc by (by rewrite X).
    cbn. destruct (with_state_hook_law (system_caller x1') None) as [_ S2].
    rewrite S2, C', Xc, C, S. split; [done|]. split; [by intros|].
    intros err' x3 [= <- <-]. cbn. split; [done|]. split; [done|]. by exists x1'.
Qed.

(** ** Gas accounting *)

(** The block's gas bookkeeping: the total within the limit, the receipts carrying
    the running total. *)
Definition gas_sound x : Prop :=
  0 ≤ x_gas_used x ≤ env_gas_limit (block (evm x)) ∧ u64 (env_gas_limit (block (evm x)))
  ∧ (∀ i r r', receipts x !! i = Some r → receipts x !! S i = Some r' →
       cumulative_gas_used r ≤ cumulative_gas_used r')
  ∧ default 0 (cumulative_gas_used <$> last (receipts x)) = x_gas_used x.

Lemma execute_ok tx x out x1 :
  execute_transaction_without_commit tx x = (Ok out, x1) →
  0 ≤ tx_gas_used (result_ out) ≤ env_tx_gas_limit (tx_env tx)
  ∧ tx_gas_limit tx ≤ env_gas_limit (block (evm x)) - x_gas_used x.
Proof.
  intros H. apply m_bind_ok in H as (y & x2 & [= <- <-] & H).
  apply m_bind_ok in H as (av & x2 & Hav & H).
  unfold expect in Hav. destruct (checked_sub _ _ _) eqn:C; [|done].
  apply checked_sub_inv in C as [-> _]. apply m_ret_ok in Hav as [-> ->].
  case_decide; [done|]. apply m_bind_ok in H as ([res st] & x3 & [T _]%try_evm_ok & [= <- <-]).
  cbn. apply transact_gas in T. lia.
Qed.

Lemma sound_step x x' : block_step x x' → gas_sound x → gas_sound x'.
Proof.
  intros St (Hg & Hl & Hs & Hlast). pose proof (follows_block _ _ (block_step_follows _ _ St)) as B.
  destruct St as [r E|tx out x1 g Htx E1 E2|tx err E].
  - apply pre_execution_totals in E as [G R]. unfold gas_sound. by rewrite B, G, R.
  - apply execute_ok in E1 as Hb. apply quiet_execute in E1 as [X1 _].
    apply commit_transaction_ok in E2 as (_ & -> & Hu & Eg & r & Er & Ec).
    assert (x_gas_used x1 = x_gas_used x ∧ receipts x1 = receipts x) as [G1 R1] by (by rewrite X1).
    rewrite G1 in Eg. rewrite R1 in Er. unfold gas_sound. rewrite B, Er, Eg. rewrite Eg in Ec. split; [lia|]. split; [done|].
    split; [|by rewrite last_snoc; cbn; lia].
    intros i r1 r2 H1 H2. apply lookup_app_Some in H2 as [H2|[Hge H2]].
    + apply (Hs i); [|done]. by rewrite lookup_app_l in H1 by (apply lookup_lt_Some in H2; lia).
    + apply list_lookup_singleton_Some in H2 as [Hi <-].
      pose proof (lookup_lt_Some _ _ _ H1) as L. rewrite length_app in L. cbn in L.
      rewrite lookup_app_l in H1 by lia. rewrite Ec.
      assert (last (receipts x) = Some r1) as Hl1.
      { rewrite last_lookup. rewrite <- H1. f_equal. lia. }
      rewrite Hl1 in Hlast. cbn in Hlast. lia.
  - apply quiet_execute in E as [X _].
    assert (x_gas_used x' = x_gas_used x ∧ receipts x' = receipts x) as [G R] by (by rewrite X).
    unfold gas_sound. by rewrite B, G, R.
Qed.

Lemma execute_no_panic tx x msg x' :
  gas_sound x → execute_transaction_without_commit tx x ≠ (Err (Panic msg), x').
Proof.
  intros (Hg & Hl & _). unfold execute_transaction_without_commit, m_bind, m_get, expect, checked_sub.
  rewrite try_from_Some by (unfold uint in *; lia). cbn. case_decide; [done|].
  unfold try_evm, on_evm, m_bind. destruct (transact _ _) as [[[res st]|e] ev]; done.
Qed.

Lemma commit_no_panic tx x out x1 :
  gas_sound x → tx_gas_limit tx = env_tx_gas_limit (tx_env tx) →
  execute_transaction_without_commit tx x = (Ok out, x1) →
  ∃ x', commit_transaction out x1 = (Ok (tx_gas_used (result_ out)), x').
Proof.
  intros (Hg & Hl & _) Htx E. apply execute_ok in E as Hb. apply quiet_execute in E as [X1 _].
  assert (x_gas_used x1 = x_gas_used x) as G1 by (by rewrite X1).
  unfold commit_transaction, m_bind, m_get, expect, checked_add.
  rewrite try_from_Some by (rewrite G1; unfold uint in *; lia). cbn. eauto.
Qed.

(** Gas accounting: along any transactions (each given its own gas limit) after a
    new executor, the gas used never exceeds the block's gas limit, the receipts carry
    the non-decreasing running total that ends in the block's gas, and the two
    [expect]s of the transaction path never panic: execution does not, and the commit
    of an executed transaction always succeeds. *)
Theorem block_gas_sound e extra parent spec h x :
  u64 (env_gas_limit (block e)) →
  rtc block_step (start_with_hook e extra parent spec h) x →
  gas_sound x
  ∧ (∀ tx msg x', execute_transaction_without_commit tx x ≠ (Err (Panic msg), x'))
  ∧ (∀ tx out x1, tx_gas_limit tx = env_tx_gas_limit (tx_env tx) →
       execute_transaction_without_commit tx x = (Ok out, x1) →
       ∃ x', commit_transaction out x1 = (Ok (tx_gas_used (result_ out)), x')).
Proof.
  intros Hl Steps.
  assert (gas_sound x) as S.
  { assert (gas_sound (start_with_hook e extra parent spec h)) as S0.
    { destruct (start_with_hook_state e extra parent spec h) as (_ & _ & _ & V & G & R & _).
      unfold gas_sound. rewrite V, G, R. split; [unfold uint in *; lia|]. by split_and!. }
    induction Steps; [done|]. eauto using sound_step. }
  split; [done|]. split; [intros; by apply execute_no_panic|]. intros. by eapply commit_no_panic.
Qed.

(** ** The checks before a block *)

(** A block passes the checks before execution only if its beneficiary is not
    blocklisted in the state after the EIP-2935 call and its gas limit is the one the
    ProtocolConfig prescribes (the network's default when that is absent or out of
    bounds); the state those checks read is committed by the EIP-2935 call alone. *)
Theorem pre_execution_checks x x' :
  apply_pre_execution_changes x = (Ok (), x') →
  ∃ c e n, apply_blockhashes_contract_call (system_caller x) (ctx_parent_hash x) (evm x) = (Ok (), (c, e))
    ∧ n = env_number (block (evm x)) ∧ u64 n
    ∧ blocked (coin_of (evm_world e)) (env_beneficiary (block (evm x))) = false
    ∧ (∃ fp, env_gas_limit (block (evm x))
               = expected_gas_limit fp (block_gas_limit_config (chain_spec x) n)
         ∧ ∀ f, fp = Some f → FeeParams_wf f)
    ∧ evm_same e (evm x').
Proof.
  intros H. apply m_bind_ok in H as (n & x1 & (-> & En & Hn)%block_number_ok & H).
  apply m_bind_ok in H as (y & x1 & [= <- <-] & H).
  destruct (apply_blockhashes_contract_call _ _ _) as [rb [c e]] eqn:E.
  apply m_bind_ok in H as ([] & x1 & H1 & H).
  assert (rb = Ok () ∧ x1 = set_system_caller (set_evm x e) c) as [-> ->]
    by (destruct rb as [[]|]; [|done]; by injection H1 as <-).
  exists c, e, n. split; [done|]. split; [done|]. split; [done|].
  apply apply_blockhashes_law in E as (B & _ & _).
  apply m_bind_ok in H as (y & x1 & [= <- <-] & H).
  apply m_bind_ok in H as ([] & x1 & Hb & H).
  pose proof (quiet_beneficiary _ _ _ _ Hb) as [X1 S1]. apply beneficiary_ok in Hb.
  cbn in Hb, S1. rewrite B in Hb. split; [done|].
  apply m_bind_ok in H as (y & x2 & [= <- <-] & H). apply m_bind_ok in H as (fp & x2 & Hfp & H).
  pose proof (quiet_fee_params _ _ _ Hfp) as [X2 S2]. cbn zeta in H.
  case_decide as D; [done|]. injection H as <-. split; [|by etrans].
  assert (chain_spec x1 = chain_spec x) as Ec by (by rewrite X1).
  destruct S1 as (B1 & _). rewrite B1, B, Ec in D. exists (result_ok fp).
  split; [exact D|]. unfold on_evm in Hfp.
  destruct (retrieve_fee_params (evm x1)) as [r e2] eqn:R. injection Hfp as <- <-.
  apply retrieve_fee_params_spec in R as [_ W]. intros f Hf. apply W.
  destruct r; [by injection Hf as ->|done].
Qed.

(** ** Proposer and verifier *)

(** The same executor on a payload that carries extra data. *)
Definition with_extra_data x (d : bytes) : ArcBlockExecutor :=
  mkExecutor d (ctx_parent_hash x) (chain_spec x) (evm x) (system_caller x) (receipts x)
    (x_gas_used x) (x_blob_gas_used x) (state_hook_active x) (post_block_applied x) (post_block_error x).

Lemma on_evm_extra {E A} (f : Evm → result E A * Evm) x r x' d :
  on_evm f x = (r, x') → on_evm f (with_extra_data x d) = (r, with_extra_data x' d).
Proof. unfold on_evm. cbn. destruct (f (evm x)). by intros [= <- <-]. Qed.

Lemma try_evm_extra {E A} w (f : Evm → result E A * Evm) x r x' d :
  try_evm w f x = (r, x') → try_evm w f (with_extra_data x d) = (r, with_extra_data x' d).
Proof. unfold try_evm, on_evm, m_bind. cbn. destruct (f (evm x)) as [[] ?]; by intros [= <- <-]. Qed.

Lemma compute_extra n fp x r x' d :
  compute_gas_values n fp x = (r, x') →
  compute_gas_values n fp (with_extra_data x d) = (r, with_extra_data x' d).
Proof.
  unfold compute_gas_values, expect, try_evm, on_evm, m_bind, m_get. cbn.
  destruct (checked_add 64 n 1); cbn; [|by intros [= <- <-]].
  destruct (retrieve_gas_values _ (evm x)) as [[v|e] ev]; cbn; by intros [= <- <-].
Qed.

Lemma check_extra_run n f x d :
  decode_base_fee_from_bytes d = Some f →
  (if negb (bool_decide (d = [])) then validate_extra_data_base_fee n f else m_ret ())
    (with_extra_data x d) = (Ok (), with_extra_data x d).
Proof.
  intros Hd. case_bool_decide; [done|]. cbn. unfold validate_extra_data_base_fee, m_bind, m_get. cbn.
  by rewrite decide_False by (rewrite Hd; naive_solver).
Qed.

Lemma writes_with_extra_data x x' d :
  u64 (x_gas_used x) → ctx_extra_data x = [] → post_block_applied x = false →
  apply_post_block_writes x = (Ok (), x') →
  decode_base_fee_from_bytes d = Some (nextBaseFee (gas_values_of x)) →
  apply_post_block_writes (with_extra_data x d) = (Ok (), with_extra_data x' d).
Proof.
  intros Hg Hx Ha H Hd. apply m_bind_ok in H as (y & x1 & [= <- <-] & H). rewrite Ha in H.
  unfold apply_post_block_writes, m_bind at 1, m_get. cbn [post_block_applied with_extra_data]. rewrite Ha.
  apply m_bind_ok in H as (n & x1 & Hn & H). pose proof Hn as (-> & -> & Hn64)%block_number_ok.
  apply m_bind_ok in H as (fp & x2 & Hfp & H). apply m_bind_ok in H as (v & x3 & Hv & H).
  assert (v = gas_values_of x) as Ev by (by eapply gas_values_computed).
  pose proof (quiet_fee_params _ _ _ Hfp) as [X2 _]. pose proof (quiet_compute _ _ _ _ _ Hv) as [X3 _].
  apply m_bind_ok in H as (y & x4 & [= <- <-] & H). apply m_bind_ok in H as ([] & x4 & Hval & H).
  assert (ctx_extra_data x3 = []) as Hx3 by (by rewrite X3, X2).
  apply check_extra_ok in Hval as [-> _].
  apply m_bind_ok in H as (st & x4 & Hst & H). apply m_bind_ok in H as (y & x5 & [= <- <-] & H).
  injection H as <-. unfold write_gas_values. unfold m_bind at 1.
  replace (block_number_u64 (with_extra_data x d)) with
    (Ok (E := BlockExecutionError) (env_number (block (evm x))), with_extra_data x d)
    by (revert Hn; unfold block_number_u64, m_bind, m_get; cbn; destruct (try_from _ _); [|done]; by intros [= <-]).
  unfold m_bind at 1. rewrite (on_evm_extra _ _ _ _ d Hfp).
  unfold m_bind at 1. rewrite (compute_extra _ _ _ _ _ d Hv). unfold m_bind at 1, m_get at 1.
  unfold m_bind at 1. cbn [ctx_extra_data with_extra_data]. rewrite Ev.
  rewrite check_extra_run by done. unfold m_bind at 1. rewrite Ev in Hst.
  by rewrite (try_evm_extra _ _ _ _ _ d Hst).
Qed.

Lemma finish_cases x e res x' :
  finish_block x = (Ok (e, res), x') →
  post_block_error x = None ∧ apply_post_block_writes x = (Ok (), x') ∧ e = evm x'
  ∧ res = mkBlockExecutionResult (receipts x') (x_gas_used x') (x_blob_gas_used x').
Proof.
  intros H. apply m_bind_ok in H as (y & x1 & [= <- <-] & H).
  destruct (post_block_error x) eqn:Ep; [done|].
  apply m_bind_ok in H as ([] & x1 & H1 & H). by apply m_bind_ok in H as (y & x2 & [= <- <-] & [= <- <- <-]).
Qed.

Lemma finish_run x x' :
  post_block_error x = None → apply_post_block_writes x = (Ok (), x') →
  finish_block x = (Ok (evm x', mkBlockExecutionResult (receipts x') (x_gas_used x') (x_blob_gas_used x')), x').
Proof. intros He Hw. unfold finish_block, m_bind, m_get. rewrite He, Hw. done. Qed.

(** What the assembler finds in a storage slot of the accounting account. *)
Definition assembler_reads (bundle : option (Z → option Z)) (provider : Z → option Z) (k : Z) : option Z :=
  match (account ← bundle; account k) with None => provider k | Some v => Some v end.

Lemma assembled n bundle provider d w :
  u64 n → nextBaseFee (ring_of w n) ≠ 0 →
  assembler_reads bundle provider (compute_gas_values_storage_slot n)
    = Some (w_storage w SYSTEM_ACCOUNTING_ADDRESS (compute_gas_values_storage_slot n)) →
  assemble_block_extra_data n bundle provider d = encode_base_fee_to_bytes (nextBaseFee (ring_of w n)).
Proof.
  intros Hn Hf Hr. unfold assemble_block_extra_data. rewrite try_from_Some by done.
  unfold assembler_reads in Hr. cbn zeta. rewrite Hr. by rewrite decide_True.
Qed.

(** C19: Proposer and verifier agree: when the proposer's executor (no extra data yet)
    finishes a block, the assembler, reading the state it leaves, writes the block's
    next base fee into the extra data, eight bytes that decode to it, within the
    absolute bounds; the executor of a verifier on the same pre-state accepts exactly
    that extra data among all non-empty ones, and then reaches the same EVM state and
    the same block result. *)
Theorem proposer_verifier_agree x e res x' bundle provider :
  u64 (x_gas_used x) → ctx_extra_data x = [] → post_block_applied x = false →
  let n := env_number (block (evm x)) in
  let cfg := base_fee_config (chain_spec x) (n + 1) in
  0 < absolute_min_base_fee cfg →
  finish_block x = (Ok (e, res), x') →
  assembler_reads bundle provider (compute_gas_values_storage_slot n)
    = Some (w_storage (evm_world e) SYSTEM_ACCOUNTING_ADDRESS (compute_gas_values_storage_slot n)) →
  let extra := assemble_block_extra_data n bundle provider (ctx_extra_data x) in
  let fee := nextBaseFee (ring_of (evm_world e) n) in
  absolute_min_base_fee cfg ≤ fee ≤ absolute_max_base_fee cfg
  ∧ length extra = 8%nat ∧ decode_base_fee_from_bytes extra = Some fee
  ∧ (finish_block (with_extra_data x extra)).1 = Ok (e, res)
  ∧ (∀ d, d ≠ [] → is_ok (finish_block (with_extra_data x d)).1 = true → d = extra).
Proof.
  intros Hg Hx Ha n cfg Hmin F Hr extra fee.
  apply finish_cases in F as (Hp & W & -> & ->).
  pose proof W as (Hn1 & _ & st & X & _ & _ & _ & R)%apply_post_block_writes_ok; [|done..].
  assert (u64 n) as Hn by (by apply post_block_number in W).
  assert (ring_of (evm_world (evm x')) n = gas_values_of x) as Ev by (by rewrite R, decide_True).
  assert (absolute_min_base_fee cfg ≤ fee ≤ absolute_max_base_fee cfg) as Hb
    by (unfold fee; rewrite Ev; apply clamp_absolute_bounds, config_wf).
  assert (u64 fee) as Hf by apply ring_of_wf.
  assert (extra = encode_base_fee_to_bytes fee) as Ee by (apply assembled; [done|lia|done]).
  assert (decode_base_fee_from_bytes extra = Some fee) as Hd by (rewrite Ee; by apply decode_encode_base_fee).
  split; [done|]. split; [by rewrite Ee; apply length_to_be_bytes|]. split; [done|]. split.
  - rewrite (finish_run _ (with_extra_data x' extra)); [done|done|].
    apply writes_with_extra_data; try done. by rewrite <- Ev.
  - intros d Hd0 Ok. destruct (finish_block (with_extra_data x d)) as [[[e' res']|] x''] eqn:F; [|done].
    apply finish_cases in F as (_ & W' & _).
    apply apply_post_block_writes_ok in W' as (_ & [?|Hd'] & _); [done| |done..].
    change (gas_values_of (with_extra_data x d)) with (gas_values_of x) in Hd'. rewrite <- Ev in Hd'.
    apply decode_base_fee_Some in Hd' as [_ Hd']. cbn in Hd'. by rewrite <- Hd', Ee.
Qed.

End ExecutorProps.

(** ** A concrete block *)

Module ExecutorExample.
Definition spec : ArcChainSpec (list (Fork * ForkCondition)) := example_spec.
Definition env : BlockEnv := mkBlockEnv 5 30000000 1000000000 7.
Definition evm0 : @Evm toy_revm toy_evm :=
  mkToyEvm env (mkToyJournal ∅ ∅ ∅ ∅ []) [] (toy_words [20; 200; 5000; 0; 0; 30000000]).
Definition started : ArcBlockExecutor :=
  start_with_hook evm0 [] 99 spec ().
Definition tx : Tx := mkTx (300, 210)%nat 300 None ().
Definition checked : ArcBlockExecutor := (apply_pre_execution_changes started).2.
Definition executed := execute_transaction_without_commit tx checked.
Definition out : ArcTxResult :=
  ok_value (mkArcTxResult (mkExecutionResult true None 0) (mkToyJournal ∅ ∅ ∅ ∅ []) 0 ()) executed.1.
Definition after_tx : ArcBlockExecutor := (commit_transaction out executed.2).2.
Definition after_finish : ArcBlockExecutor := (finish_block after_tx).2.
Definition finished := ok_value (evm after_tx, mkBlockExecutionResult [] 0 0) (finish_block after_tx).1.

Lemma pre_runs : apply_pre_execution_changes started = (Ok (), checked).
Proof. apply (run_is_ok ()). vm_compute. reflexivity. Qed.

Lemma steps : rtc block_step started after_tx.
Proof.
  eapply rtc_l; [eapply step_pre, pre_runs|]. apply rtc_once.
  apply (step_tx _ _ tx out executed.2 (ok_value 0 (commit_transaction out executed.2).1));
    [reflexivity|apply run_is_ok; vm_compute; reflexivity|apply run_is_ok; vm_compute; reflexivity].
Qed.

Lemma no_error : post_block_error after_tx = None.
Proof.
  destruct (follows_flags _ _ (block_steps_follow _ _ steps)) as (_ & _ & ->).
  apply start_with_hook_state.
Qed.

Lemma finish_runs : finish_block after_tx = (Ok (finished.1, finished.2), after_finish).
Proof. rewrite <- surjective_pairing. apply run_is_ok. vm_compute. reflexivity. Qed.

Definition wf := base_fee_config_wf (H := list (Fork * ForkCondition)).
End ExecutorExample.

Lemma finish_records_gas_values_witness :
  gasUsed (ring_of (evm_world ExecutorExample.finished.1) 5) = block_gas_used ExecutorExample.finished.2.
Proof.
  destruct (finish_records_gas_values ExecutorExample.wf ExecutorExample.after_tx _ _ _
    ltac:(vm_compute; split; congruence) ltac:(vm_compute; reflexivity) ExecutorExample.finish_runs)
    as (R & G & _).
  etrans; [apply (f_equal gasUsed); exact R|]. exact G.
Defined.

Lemma early_flush_equivalent_witness :
  (finish_block (set_state_hook None ExecutorExample.after_tx)).1
  = Ok (ExecutorExample.finished.1, ExecutorExample.finished.2).
Proof.
  rewrite (early_flush_equivalent ExecutorExample.wf ExecutorExample.after_tx);
    [|vm_compute; split; congruence|vm_compute; reflexivity|vm_compute; reflexivity
     |apply ExecutorExample.no_error].
  by rewrite ExecutorExample.finish_runs.
Defined.

Lemma hook_sees_every_commit_witness :
  let x2 := set_state_hook None ExecutorExample.after_tx in
  committed (evm x2) = committed ExecutorExample.evm0 ++ seen (system_caller x2).
Proof.
  destruct (hook_sees_every_commit ExecutorExample.wf _ _ _ _ _ _ ExecutorExample.steps
    ltac:(vm_compute; split; congruence)) as [C _]. exact C.
Defined.

Lemma block_gas_sound_witness : gas_sound ExecutorExample.after_tx.
Proof.
  destruct (block_gas_sound ExecutorExample.evm0 [] 99 ExecutorExample.spec () ExecutorExample.after_tx
    ltac:(vm_compute; split; congruence) ExecutorExample.steps)
    as [S _]. exact S.
Defined.

Lemma pre_execution_checks_witness :
  ∃ fp, 30000000 = expected_gas_limit fp (block_gas_limit_config ExecutorExample.spec 5).
Proof.
  destruct (pre_execution_checks _ _ ExecutorExample.pre_runs)
    as (c & e & n & _ & -> & _ & _ & (fp & E & _) & _).
  exists fp. exact E.
Defined.

Lemma proposer_verifier_agree_witness :
  let slot := λ k, Some (w_storage (evm_world ExecutorExample.finished.1) SYSTEM_ACCOUNTING_ADDRESS k) in
  (finish_block (with_extra_data ExecutorExample.after_tx
     (assemble_block_extra_data 5 (Some slot) (λ _, None) []))).1
  = Ok (ExecutorExample.finished.1, ExecutorExample.finished.2).
Proof.
  intros slot.
  destruct (proposer_verifier_agree ExecutorExample.wf ExecutorExample.after_tx _ _ _ (Some slot) (λ _, None)
    ltac:(vm_compute; split; congruence) ltac:(vm_compute; reflexivity) ltac:(vm_compute; reflexivity)
    ltac:(vm_compute; reflexivity) ExecutorExample.finish_runs eq_refl) as (_ & _ & _ & A & _). exact A.
Defined.
