(* ===== verification/Frames.v ===== *)
(** * Frames of the EVM

    The frames of revm as evm/evm.rs uses them, and Arc's hooks around the initialisation of a
    frame (evm.rs, frame_result.rs, log.rs): value transfers are checked against the blocklist,
    the zero address and self-destructed targets, and logged as EIP-7708 Transfer events.

    revm's journal, frames, gas counter and call inputs are third-party code: [FrameOps] lists the
    operations, [FrameLaws] what is documented of them.  [extends_journal] stands for "reached by
    journal operations that did not go back before it". *)

From S2P Require Import Prelude Hardforks Revm Precompile NativeCoin.

(** ** Data of revm *)

(** [InstructionResult]: the results the code names, and the classes of the others. *)
Inductive InstructionResult :=
| IrStop | IrReturn | IrSelfDestruct
| IrRevert | IrRevertOther (n : nat)
| IrOutOfGas | IrPrecompileOOG | IrMemoryOOG | IrMemoryLimitOOG | IrInvalidOperandOOG | IrReentrancySentryOOG
| IrOutOfFunds | IrOpcodeNotFound | IrInvalidFEOpcode | IrStackOverflow | IrInvalidJump | IrPrecompileError
| IrFatalExternalError | IrHaltOther (n : nat).
Definition ir_is_ok (r : InstructionResult) : bool :=
  match r with IrStop | IrReturn | IrSelfDestruct => true | _ => false end.
Definition ir_is_ok_or_revert (r : InstructionResult) : bool :=
  match r with IrStop | IrReturn | IrSelfDestruct | IrRevert | IrRevertOther _ => true | _ => false end.

Inductive CallScheme := SchemeCall | SchemeCallCode | SchemeDelegateCall | SchemeStaticCall.
#[export] Instance CallScheme_eq_dec : EqDecision CallScheme.
Proof. solve_decision. Defined.
Inductive CreateScheme := SchemeCreate | SchemeCreate2 (salt : Z) | SchemeCustom (address : Z).
Inductive CallValue := ValueTransfer (v : Z) | ValueApparent (v : Z).
Inductive CallInput := InputSharedBuffer (start end_ : Z) | InputBytes (b : bytes).

(** ** Operations *)

(** The parts of a frame that do not mention the operations. *)
Section Data.
Context `{RO : RevmOps}.
Record InterpreterResult := mkInterpreterResult {
  ir_result : InstructionResult;
  ir_output : bytes;
  ir_gas : Gas;
}.
Record CallOutcome := mkCallOutcome {
  co_result : InterpreterResult;
  co_memory_offset : Z * Z;
  co_was_precompile_called : bool;
  co_precompile_call_logs : list Log;
}.
Record CreateOutcome := mkCreateOutcome {
  cro_result : InterpreterResult;
  cro_address : option Z;
}.
Inductive FrameResult := FrCall (o : CallOutcome) | FrCreate (o : CreateOutcome).
Definition fr_result (r : FrameResult) : InterpreterResult :=
  match r with FrCall o => co_result o | FrCreate o => cro_result o end.
Definition instruction_result (r : FrameResult) : InstructionResult := ir_result (fr_result r).
End Data.

Record CallInputs (Code : Type) := mkCallInputs {
  ci_scheme : CallScheme;
  ci_target_address : Z;
  ci_bytecode_address : Z;
  ci_known_bytecode : Z * Code;
  ci_value : CallValue;
  ci_input : CallInput;
  ci_gas_limit : Z;
  ci_is_static : bool;
  ci_caller : Z;
  ci_return_memory_offset : Z * Z;
  ci_reservoir : Z;
}.
Arguments mkCallInputs {Code}.
Arguments ci_scheme {Code}. Arguments ci_target_address {Code}. Arguments ci_bytecode_address {Code}.
Arguments ci_known_bytecode {Code}. Arguments ci_value {Code}. Arguments ci_input {Code}.
Arguments ci_gas_limit {Code}. Arguments ci_is_static {Code}. Arguments ci_caller {Code}.
Arguments ci_return_memory_offset {Code}. Arguments ci_reservoir {Code}.

Record CreateInputs := mkCreateInputs {
  cr_caller : Z;
  cr_scheme : CreateScheme;
  cr_value : Z;
  cr_init_code : bytes;
  cr_gas_limit : Z;
}.
Inductive FrameInput (Code : Type) := FiEmpty | FiCall (i : CallInputs Code) | FiCreate (i : CreateInputs).
Arguments FiEmpty {Code}. Arguments FiCall {Code}. Arguments FiCreate {Code}.
(** [FrameInit], without the shared memory handed to the interpreter. *)
Record FrameInit (Code : Type) := mkFrameInit { fi_depth : nat; fi_frame_input : FrameInput Code }.
Arguments mkFrameInit {Code}. Arguments fi_depth {Code}. Arguments fi_frame_input {Code}.

Inductive ItemOrResult (I R : Type) := Item (i : I) | Result_ (r : R).
Arguments Item {I R}. Arguments Result_ {I R}.

Class FrameOps `{RO : RevmOps} := {
  (* revm_interpreter::Gas *)
  total_gas_spent : Gas → Z;
  gas_limit_of : Gas → Z;
  set_spent : Gas → Z → Gas;
  refunded : Gas → Z;
  record_refund : Gas → Z → Gas;
  (* revm::bytecode *)
  Code : Type;
  default_code : Code;
  eip7702_address : Code → option Z;
  (* revm_context_interface::JournalTr *)
  Checkpoint : Type;
  checkpoint : Journal → Checkpoint * Journal;
  checkpoint_commit : Journal → Journal;
  checkpoint_revert : Journal → Checkpoint → Journal;
  journal_sload : Journal → Z → Z → result DbErr (Z * bool) * Journal;
  load_account_info_skip_cold_load :
    Journal → Z → bool → bool → result (LoadError DbErr) (bool * AccountInfo * option Code) * Journal;
  (* CallInputs, CreateInputs *)
  transfer_from : CallInputs Code → Z;
  transfer_to : CallInputs Code → Z;
  transfer_value : CallInputs Code → option Z;
  transfers_value : CallInputs Code → bool;
  created_address : CreateInputs → Z → Z;
  (* the context of a transaction beside the journal: tx, block, local memory *)
  Ctx : Type;
  ctx_tx_caller : Ctx → Z;
  ctx_tx_nonce : Ctx → Z;
  shared_buffer : Ctx → Z → Z → bytes;
  (* EthFrame and the precompiles *)
  Frame : Type;
  frame_depth : Frame → nat;
  is_finished : Frame → bool;
  init_with_context :
    Ctx → Journal → FrameInit Code → result DbErr (ItemOrResult Frame FrameResult) * (Ctx * Journal);
  frame_return : Ctx → Journal → Frame → FrameResult → result DbErr unit * (Frame * Ctx * Journal);
  precompiles_contains : Z → bool;
}.

(** ** Arc's hooks *)

Section Frames.
Context `{FO : FrameOps}.

(** frame_result.rs *)
Inductive BeforeFrameInitResult :=
| BfLog (log : Log) (sload_gas : Z)
| BfChecked (sload_gas : Z)
| BfReverted (r : FrameResult)
| BfNone.

(** [None] is the [unreachable!] of an empty frame. *)
Definition create_oog_frame_result (frame_init : FrameInit Code) : option FrameResult :=
  match fi_frame_input frame_init with
  | FiCall i =>
      let gas_counter := (record_regular_cost (gas_new (ci_gas_limit i)) (ci_gas_limit i)).2 in
      Some (FrCall (mkCallOutcome (mkInterpreterResult IrOutOfGas [] gas_counter) (ci_return_memory_offset i) false []))
  | FiCreate i =>
      let gas_counter := (record_regular_cost (gas_new (cr_gas_limit i)) (cr_gas_limit i)).2 in
      Some (FrCreate (mkCreateOutcome (mkInterpreterResult IrOutOfGas [] gas_counter) None))
  | FiEmpty => None
  end.

Definition create_frame_result (frame_init : FrameInit Code) (error_message : string) (gas_spent : Z) : option FrameResult :=
  let revert_data := revert_message_to_bytes error_message in
  match fi_frame_input frame_init with
  | FiCall i =>
      let gas_counter := set_spent (gas_new (ci_gas_limit i)) gas_spent in
      Some (FrCall (mkCallOutcome (mkInterpreterResult IrRevert revert_data gas_counter) (ci_return_memory_offset i) false []))
  | FiCreate i =>
      let gas_counter := set_spent (gas_new (cr_gas_limit i)) gas_spent in
      Some (FrCreate (mkCreateOutcome (mkInterpreterResult IrRevert revert_data gas_counter) None))
  | FiEmpty => None
  end.

(** log.rs *)
Definition create_eip7708_transfer_log (from to amount : Z) : Log :=
  mkLog SYSTEM_ADDRESS (encode_log_data (Transfer from to amount)).

Definition extract_call_transfer_params (inputs : CallInputs Code) : option (Z * Z * Z) :=
  match ci_scheme inputs with
  | SchemeDelegateCall | SchemeStaticCall | SchemeCallCode => None
  | SchemeCall => Some (transfer_from inputs, transfer_to inputs, default 0 (transfer_value inputs))
  end.

Definition frame_gas_limit (frame_input : FrameInit Code) : Z :=
  match fi_frame_input frame_input with
  | FiCall inputs => ci_gas_limit inputs
  | FiCreate inputs => cr_gas_limit inputs
  | FiEmpty => 0
  end.

Definition metered_revert (frame_input : FrameInit Code) (meter_sloads : bool) (gas_cost : Z) (reason : string)
    : option FrameResult :=
  let gas_spent := if meter_sloads then gas_cost else 0 in
  if decide (0 < gas_spent ∧ frame_gas_limit frame_input < gas_spent)
  then create_oog_frame_result frame_input
  else create_frame_result frame_input reason gas_spent.

(** Errors of the frame hooks: the database's, or a panic. *)
Inductive EvmFailure := FailDb (e : DbErr) | FailPanic (msg : string).

(** The EVM of a transaction: the context, the journal, the frame stack with its top first; the
    continuations of subcalls are those of Subcall.v. *)
Record FrameState := mkFrameState { fs_ctx : Ctx; fs_journal : Journal; fs_stack : list Frame }.
Abbreviation FOp A := (M FrameState EvmFailure A).

Definition on_j {A} (f : Journal → result DbErr A * Journal) : FOp A := λ s,
  let '(r, j) := f (fs_journal s) in (map_err FailDb r, mkFrameState (fs_ctx s) j (fs_stack s)).
Definition on_j_ {A} (f : Journal → A * Journal) : FOp A := λ s,
  let '(a, j) := f (fs_journal s) in (Ok a, mkFrameState (fs_ctx s) j (fs_stack s)).
Definition f_reverted (r : option FrameResult) : FOp BeforeFrameInitResult :=
  m_lift (BfReverted <$> ok_or r (FailPanic "unreachable")).

Definition is_address_blocklisted (address : Z) : FOp (bool * bool) :=
  state_load <-- on_j (λ j, journal_sload j NATIVE_COIN_CONTROL_ADDRESS (compute_is_blocklisted_storage_slot address)) ;;
  m_ret (is_blocklisted_status state_load.1, state_load.2).

Definition sload_cost (is_cold : bool) : Z := if is_cold then COLD_SLOAD_COST else WARM_STORAGE_READ_COST.

(** The transfer of a CREATE, and its inputs with the scheme normalised. *)
Definition extract_and_normalize_create_transfer_params (inputs : CreateInputs) (depth : nat)
    : FOp (option (Z * Z * Z) * CreateInputs) :=
  if decide (cr_value inputs = 0) then m_ret (None, inputs)
  else match cr_scheme inputs with
       | SchemeCreate =>
           nonce <-- (if decide (depth = 0%nat) then λ s, (Ok (ctx_tx_nonce (fs_ctx s)), s)
                      else acc <-- on_j (λ j, load_account j (cr_caller inputs)) ;; m_ret (nonce (info acc))) ;;
           m_ret (Some (cr_caller inputs, created_address inputs nonce, cr_value inputs), inputs)
       | SchemeCreate2 _ =>
           let created := created_address inputs 0 in
           m_ret (Some (cr_caller inputs, created, cr_value inputs),
                  mkCreateInputs (cr_caller inputs) (SchemeCustom created) (cr_value inputs) (cr_init_code inputs)
                    (cr_gas_limit inputs))
       | SchemeCustom _ => m_ret (None, inputs)
       end.

(** The probe of the target; from Zero7 inside a checkpoint that is reverted. *)
Definition target_is_selfdestructed (hardfork_flags : ArcHardforkFlags) (to : Z) : FOp bool :=
  if is_active hardfork_flags Zero7 then
    cp <-- on_j_ (λ j, checkpoint j) ;;
    res <-- on_j_ (λ j, load_account j to) ;;
    on_j_ (λ j, (tt, checkpoint_revert j cp)) ;;;
    acc <-- m_lift (map_err FailDb res) ;;
    m_ret (is_selfdestructed acc)
  else
    acc <-- on_j (λ j, load_account j to) ;;
    m_ret (is_selfdestructed acc).

Definition check_blocklist_and_create_log (hardfork_flags : ArcHardforkFlags) (from to amount : Z)
    (frame_input : FrameInit Code) : FOp BeforeFrameInitResult :=
  let meter_sloads := false in
  if decide (from = 0 ∨ to = 0) then f_reverted (create_frame_result frame_input ERR_ZERO_ADDRESS 0)
  else
  from_state <-- is_address_blocklisted from ;;
  let from_sload_cost := sload_cost from_state.2 in
  if from_state.1 : bool
  then f_reverted (metered_revert frame_input meter_sloads from_sload_cost ERR_BLOCKED_ADDRESS)
  else
  to_state <-- is_address_blocklisted to ;;
  let total_sload_cost := from_sload_cost + sload_cost to_state.2 in
  if to_state.1 : bool
  then f_reverted (metered_revert frame_input meter_sloads total_sload_cost ERR_BLOCKED_ADDRESS)
  else
  selfdestructed <-- target_is_selfdestructed hardfork_flags to ;;
  if selfdestructed : bool
  then f_reverted (metered_revert frame_input meter_sloads total_sload_cost ERR_SELFDESTRUCTED_BALANCE_INCREASED)
  else if decide (from = to) then m_ret (BfChecked total_sload_cost)
  else m_ret (BfLog (create_eip7708_transfer_log from to amount) total_sload_cost).

(** [before_frame_init]: the check, and the frame input it may have normalised. *)
Definition before_frame_init (hardfork_flags : ArcHardforkFlags) (frame_input : FrameInit Code)
    : FOp (BeforeFrameInitResult * FrameInit Code) :=
  params <-- match fi_frame_input frame_input with
             | FiEmpty => m_ret (None, frame_input)
             | FiCreate inputs =>
                 r <-- extract_and_normalize_create_transfer_params inputs (fi_depth frame_input) ;;
                 m_ret (r.1, mkFrameInit (fi_depth frame_input) (FiCreate r.2))
             | FiCall inputs => m_ret (extract_call_transfer_params inputs, frame_input)
             end ;;
  match params.1 with
  | Some (from, to, amount) =>
      if decide (amount = 0) then m_ret (BfNone, params.2)
      else r <-- check_blocklist_and_create_log hardfork_flags from to amount params.2 ;; m_ret (r, params.2)
  | None => m_ret (BfNone, params.2)
  end.

Definition should_emit_transfer_log_for_result (result : FrameResult) : bool :=
  match result with
  | FrCreate o => ir_is_ok (ir_result (cro_result o)) && bool_decide (is_Some (cro_address o))
  | FrCall o => ir_is_ok (ir_result (co_result o))
  end.
Definition should_emit_transfer_log {T} (frame_res : ItemOrResult T FrameResult) : bool :=
  match frame_res with Item _ => true | Result_ result => should_emit_transfer_log_for_result result end.

Definition is_precompile_call (frame_input : FrameInit Code) : bool :=
  match fi_frame_input frame_input with FiCall inputs => precompiles_contains (ci_bytecode_address inputs) | _ => false end.

Inductive FrameInitOutcome := Pushed | Immediate (r : FrameResult).

(** [init_frame] with [frame_init_outcome]: a new frame goes on the stack. *)
Definition init_frame (frame_input : FrameInit Code) : FOp (ItemOrResult unit FrameResult) := λ s,
  match init_with_context (fs_ctx s) (fs_journal s) frame_input with
  | (Ok (Item f), (c, j)) => (Ok (Item tt), mkFrameState c j (f :: fs_stack s))
  | (Ok (Result_ r), (c, j)) => (Ok (Result_ r), mkFrameState c j (fs_stack s))
  | (Err e, (c, j)) => (Err (FailDb e), mkFrameState c j (fs_stack s))
  end.
Definition frame_init_outcome (r : ItemOrResult unit FrameResult) : FrameInitOutcome :=
  match r with Item _ => Pushed | Result_ r => Immediate r end.

Definition init_precompile_frame_with_transfer_log (frame_input : FrameInit Code) (maybe_log : option Log)
    : FOp FrameInitOutcome :=
  match maybe_log with
  | Some log =>
      cp <-- on_j_ (λ j, checkpoint j) ;;
      on_j_ (λ j, (tt, journal_log j log)) ;;;
      res <-- init_frame frame_input ;;
      (if should_emit_transfer_log res then on_j_ (λ j, (tt, checkpoint_commit j))
       else on_j_ (λ j, (tt, checkpoint_revert j cp))) ;;;
      m_ret (frame_init_outcome res)
  | None =>
      res <-- init_frame frame_input ;;
      m_ret (frame_init_outcome res)
  end.

Definition init_deferred_frame_with_transfer_log (frame_input : FrameInit Code) (maybe_log : option Log)
    : FOp FrameInitOutcome :=
  res <-- init_frame frame_input ;;
  match maybe_log with
  | Some log => if should_emit_transfer_log res then on_j_ (λ j, (tt, journal_log j log)) else m_ret tt
  | None => m_ret tt
  end ;;;
  m_ret (frame_init_outcome res).

Definition checked_frame_init (hardfork_flags : ArcHardforkFlags) (frame_input : FrameInit Code) : FOp FrameInitOutcome :=
  before <-- before_frame_init hardfork_flags frame_input ;;
  let with_log maybe_log :=
    if is_precompile_call before.2 then init_precompile_frame_with_transfer_log before.2 maybe_log
    else init_deferred_frame_with_transfer_log before.2 maybe_log in
  match before.1 with
  | BfReverted res => m_ret (Immediate res)
  | BfLog log _ => with_log (Some log)
  | BfChecked _ | BfNone => with_log None
  end.
End Frames.

(** ** Laws *)

(** The worlds agree on balances, storage, destroyed accounts and logs; nonces may differ. *)
Definition same_value (v w : World) : Prop :=
  (∀ a, balance_of v a = balance_of w a) ∧ (∀ a k, w_storage v a k = w_storage w a k)
  ∧ (∀ a, w_selfdestructed v a = w_selfdestructed w a) ∧ w_logs v = w_logs w.

(** The balance of [a] after [amount] moved. *)
Definition moved (w : World) (from to amount a : Z) : Z :=
  balance_of w a - (if decide (a = from) then amount else 0) + (if decide (a = to) then amount else 0).

(** The value a frame moves when revm initialises it in the world [w]. *)
Definition frame_transfer `{FO : FrameOps} (w : World) (frame_input : FrameInit Code) : option (Z * Z * Z) :=
  match fi_frame_input frame_input with
  | FiEmpty => None
  | FiCall i =>
      match ci_scheme i, ci_value i with
      | SchemeCall, ValueTransfer v => Some (ci_caller i, ci_target_address i, v)
      | _, _ => None
      end
  | FiCreate i =>
      let address := match cr_scheme i with
                     | SchemeCreate => created_address i (nonce (w_account w (cr_caller i)))
                     | SchemeCreate2 _ => created_address i 0
                     | SchemeCustom a => a
                     end in
      Some (cr_caller i, address, cr_value i)
  end.

Definition is_call {C} (frame_input : FrameInit C) : bool :=
  match fi_frame_input frame_input with FiCall _ => true | _ => false end.

Class FrameLaws `{FO : FrameOps} {RL : RevmLaws} := {
  (* Gas: what is spent and what remains make up the limit *)
  spent_new : ∀ l, total_gas_spent (gas_new l) = 0;
  limit_new : ∀ l, gas_limit_of (gas_new l) = l;
  spent_remaining : ∀ g, total_gas_spent g + remaining g = gas_limit_of g;
  record_cost_limit : ∀ g c, gas_limit_of (record_regular_cost g c).2 = gas_limit_of g;
  spend_all_limit : ∀ g, gas_limit_of (spend_all g) = gas_limit_of g;
  set_spent_spent : ∀ g n, 0 ≤ n ≤ gas_limit_of g → total_gas_spent (set_spent g n) = n;
  set_spent_limit : ∀ g n, gas_limit_of (set_spent g n) = gas_limit_of g;
  record_refund_frame : ∀ g n, total_gas_spent (record_refund g n) = total_gas_spent g
    ∧ remaining (record_refund g n) = remaining g ∧ gas_limit_of (record_refund g n) = gas_limit_of g
    ∧ refunded (record_refund g n) = refunded g + n;
  refunded_new : ∀ l, refunded (gas_new l) = 0;
  record_cost_refunded : ∀ g c, refunded (record_regular_cost g c).2 = refunded g;
  spend_all_refunded : ∀ g, refunded (spend_all g) = refunded g;
  (* Journal: reverting a checkpoint restores the world it was taken in *)
  extends_journal : Journal → Journal → Prop;
  extends_preorder :: PreOrder extends_journal;
  taken_at : Checkpoint → Journal → Prop;
  checkpoint_spec : ∀ j, taken_at (checkpoint j).1 j ∧ extends_journal j (checkpoint j).2
    ∧ view (checkpoint j).2 ≡ view j;
  checkpoint_commit_spec : ∀ j, extends_journal j (checkpoint_commit j) ∧ view (checkpoint_commit j) ≡ view j;
  checkpoint_revert_spec : ∀ cp j j', taken_at cp j → extends_journal j j' →
    extends_journal j (checkpoint_revert j' cp) ∧ view (checkpoint_revert j' cp) ≡ view j;
  load_account_extends : ∀ j a, extends_journal j (load_account j a).2;
  journal_log_extends : ∀ j l, extends_journal j (journal_log j l);
  journal_sload_frame : ∀ j a k, extends_journal j (journal_sload j a k).2 ∧ view (journal_sload j a k).2 ≡ view j;
  journal_sload_value : ∀ j a k v cold j', journal_sload j a k = (Ok (v, cold), j') → v = w_storage (view j) a k;
  load_info_frame : ∀ j a code skip, let j' := (load_account_info_skip_cold_load j a code skip).2 in
    extends_journal j j' ∧ view j' ≡ view j;
  abi_encode_string_length : ∀ msg, Z.of_nat (length (abi_encode_string msg)) ≤ 96 + Z.of_nat (String.length msg);
  (* CallInputs *)
  transfer_from_spec : ∀ i, transfer_from i = ci_caller i;
  transfer_to_spec : ∀ i, transfer_to i = ci_target_address i;
  transfer_value_spec : ∀ i, transfer_value i = match ci_value i with ValueTransfer v => Some v | ValueApparent _ => None end;
  transfers_value_spec : ∀ i, transfers_value i = match ci_value i with ValueTransfer v => bool_decide (0 < v) | ValueApparent _ => false end;
  (* Frames *)
  init_frame_ctx : ∀ c j i, let c' := (init_with_context c j i).2.1 in
    ctx_tx_caller c' = ctx_tx_caller c ∧ ctx_tx_nonce c' = ctx_tx_nonce c;
  init_extends : ∀ c j i, extends_journal j (init_with_context c j i).2.2;
  init_item : ∀ c j i f c' j', init_with_context c j i = (Ok (Item f), (c', j')) →
    frame_depth f = fi_depth i ∧ is_finished f = false;
  init_logs : ∀ c j i r c' j', init_with_context c j i = (Ok r, (c', j')) →
    ∃ l, w_logs (view j') = w_logs (view j) ++ l ∧ (is_precompile_call i = false → l = []);
  init_failed : ∀ c j i r c' j', init_with_context c j i = (Ok r, (c', j')) →
    should_emit_transfer_log r = false → same_value (view j) (view j');
  init_moves : ∀ c j i r c' j' from to v, init_with_context c j i = (Ok r, (c', j')) →
    should_emit_transfer_log r = true → is_precompile_call i = false →
    frame_transfer (view j) i = Some (from, to, v) →
    ∀ a, balance_of (view j') a = moved (view j) from to v a;
  (* an immediate result is of the kind of its input, spends at most its gas, and its output fits
     in memory that 64 bits of gas can pay for *)
  init_result : ∀ c j i r c' j', init_with_context c j i = (Ok (Result_ r), (c', j')) →
    0 ≤ total_gas_spent (ir_gas (fr_result r)) ≤ frame_gas_limit i
    ∧ Z.of_nat (length (ir_output (fr_result r))) < 2 ^ 42
    ∧ (is_call i = true → ∃ o, r = FrCall o);
  frame_return_depth : ∀ c j f r, let f' := (frame_return c j f r).2.1.1 in
    frame_depth f' = frame_depth f ∧ is_finished f' = false;
  frame_return_ctx : ∀ c j f r, ctx_tx_caller (frame_return c j f r).2.1.2 = ctx_tx_caller c;
}.
