(* ===== verification/FramesProps.v ===== *)
(** * What the frame hooks guarantee

    No frame moves value from or to a blocklisted address, the zero address or a self-destructed
    target, and every frame that moves value is logged exactly once. *)

From S2P Require Import Prelude Hardforks Revm Precompile NativeCoin Frames.

Section FramesProps.
Context `{FL : FrameLaws}.

(** ** Steps that only read *)

Definition quiet (s s' : FrameState) : Prop :=
  fs_ctx s' = fs_ctx s ∧ fs_stack s' = fs_stack s
  ∧ extends_journal (fs_journal s) (fs_journal s') ∧ view (fs_journal s') ≡ view (fs_journal s).

#[local] Instance quiet_preorder : PreOrder quiet.
Proof.
  split.
  - intros s. split_and!; [done..|reflexivity|done].
  - intros a b c (A1 & A2 & A3 & A4) (B1 & B2 & B3 & B4). split_and!; [congruence..|by etrans|by rewrite B4].
Qed.

Definition db_failure (e : EvmFailure) : Prop := ∃ d, e = FailDb d.

Definition blocked_in (w : World) (a : Z) : bool :=
  is_blocklisted_status (w_storage w NATIVE_COIN_CONTROL_ADDRESS (compute_is_blocklisted_storage_slot a)).

#[local] Instance blocked_in_proper : Proper ((≡) ==> (=) ==> (=)) blocked_in.
Proof. intros v w E a b <-. unfold blocked_in. by rewrite E. Qed.

Lemma is_address_blocklisted_spec a s : let '(r, s') := is_address_blocklisted a s in
  quiet s s' ∧ match r with Ok b => b.1 = blocked_in (view (fs_journal s)) a | Err e => db_failure e end.
Proof.
  unfold is_address_blocklisted, m_bind, on_j.
  pose proof (journal_sload_frame (fs_journal s) NATIVE_COIN_CONTROL_ADDRESS (compute_is_blocklisted_storage_slot a)) as [X V].
  destruct (journal_sload _ _ _) as [[[v cold]|e] j] eqn:E; cbn in *.
  - split; [done|]. unfold blocked_in. by erewrite <- journal_sload_value.
  - split; [done|]. by eexists.
Qed.

Lemma load_account_quiet a s : quiet s (mkFrameState (fs_ctx s) (load_account (fs_journal s) a).2 (fs_stack s)).
Proof. split_and!; [done..|apply load_account_extends|apply load_account_view]. Qed.

Lemma target_is_selfdestructed_spec fl to s : let '(r, s') := target_is_selfdestructed fl to s in
  quiet s s' ∧ match r with Ok b => b = w_selfdestructed (view (fs_journal s)) to | Err e => db_failure e end.
Proof.
  unfold target_is_selfdestructed. destruct (is_active fl Zero7).
  - unfold m_bind, on_j_, m_lift. destruct (checkpoint_spec (fs_journal s)) as (T & X & V).
    destruct (checkpoint (fs_journal s)) as [cp j] eqn:C. cbn [fs_journal fs_ctx fs_stack fst snd] in *.
    pose proof (load_account_extends j to) as X2. destruct (load_account j to) as [r j2] eqn:L. cbn [fst snd] in *.
    destruct (checkpoint_revert_spec cp (fs_journal s) j2 T) as [X3 V3]; [by etrans|]. cbn [fs_journal fs_ctx fs_stack].
    destruct r as [acc|e]; cbn; (split; [by split_and!|]); [|by eexists].
    destruct (load_account_ok _ _ _ _ L) as (_ & -> & _). by rewrite V.
  - unfold m_bind, on_j. pose proof (load_account_quiet to s) as Q.
    destruct (load_account (fs_journal s) to) as [[acc|e] j] eqn:L; cbn in *; (split; [done|]); [|by eexists].
    by destruct (load_account_ok _ _ _ _ L) as (_ & -> & _).
Qed.

(** ** The check *)

(** Value may move from [from] to [to]. *)
Definition transfer_allowed (w : World) (from to : Z) : bool :=
  negb (bool_decide (from = 0 ∨ to = 0)) && negb (blocked_in w from) && negb (blocked_in w to)
  && negb (w_selfdestructed w to).

(** The frame is refused: it reverts and gives all its gas back. *)
Definition refused (i : FrameInit Code) (r : FrameResult) : Prop :=
  instruction_result r = IrRevert ∧ total_gas_spent (ir_gas (fr_result r)) = 0
  ∧ gas_limit_of (ir_gas (fr_result r)) = frame_gas_limit i
  ∧ Z.of_nat (length (ir_output (fr_result r))) < 2 ^ 42
  ∧ (is_call i = true → ∃ o, r = FrCall o).

Definition transfer_log (from to amount : Z) : list Log :=
  if decide (from = to) then [] else [create_eip7708_transfer_log from to amount].

Lemma revert_message_length msg : (String.length msg < 1000)%nat →
  Z.of_nat (length (revert_message_to_bytes msg)) < 2 ^ 42.
Proof.
  intros L. unfold revert_message_to_bytes. rewrite length_app, Nat2Z.inj_add. pose proof (abi_encode_string_length msg).
  unfold REVERT_SELECTOR. cbn [length]. lia.
Qed.

Lemma create_frame_result_refused i msg : (String.length msg < 1000)%nat → 0 ≤ frame_gas_limit i → fi_frame_input i ≠ FiEmpty →
  ∃ r, create_frame_result i msg 0 = Some r ∧ refused i r.
Proof.
  intros M%revert_message_length. unfold create_frame_result, refused, frame_gas_limit, is_call. intros L N. destruct (fi_frame_input i) as [|c|c]; [done|..];
    (eexists; split; [done|]); cbn; rewrite set_spent_limit, set_spent_spent, limit_new by (rewrite limit_new; lia); split_and!; first [done|by eexists].
Qed.

Lemma metered_revert_refused i cost msg : (String.length msg < 1000)%nat → 0 ≤ frame_gas_limit i → fi_frame_input i ≠ FiEmpty →
  ∃ r, metered_revert i false cost msg = Some r ∧ refused i r.
Proof. unfold metered_revert. rewrite decide_False by lia. apply create_frame_result_refused. Qed.

(** The outcome of the check, in the world it ran in. *)
Definition check_outcome (w : World) (from to amount : Z) (i : FrameInit Code) (b : BeforeFrameInitResult) : Prop :=
  if transfer_allowed w from to then
    match b with
    | BfLog log _ => transfer_log from to amount = [log]
    | BfChecked _ => transfer_log from to amount = []
    | _ => False
    end
  else ∃ r, b = BfReverted r ∧ refused i r.

Lemma f_reverted_spec o s : (∃ r, o = Some r) → ∃ r, o = Some r ∧ f_reverted o s = (Ok (BfReverted r), s).
Proof. intros [r ->]. by exists r. Qed.

Lemma check_blocklist_spec fl from to amount i s : 0 ≤ frame_gas_limit i → fi_frame_input i ≠ FiEmpty →
  let '(r, s') := check_blocklist_and_create_log fl from to amount i s in
  quiet s s' ∧ match r with Ok b => check_outcome (view (fs_journal s)) from to amount i b | Err e => db_failure e end.
Proof.
  intros L N. unfold check_blocklist_and_create_log, check_outcome, transfer_allowed. case_decide as Z.
  { destruct (create_frame_result_refused i ERR_ZERO_ADDRESS ltac:(cbn; lia) L N) as (r & E & R). unfold f_reverted, m_lift. rewrite E. cbn.
    split; [reflexivity|]. rewrite bool_decide_true by done. cbn. by exists r. }
  rewrite bool_decide_false by done. cbn [negb andb]. unfold m_bind at 1. pose proof (is_address_blocklisted_spec from s) as F.
  destruct (is_address_blocklisted from s) as [[[fb fc]|e] s1]; destruct F as [Q1 F]; [|by split]. cbn [fst snd] in *. subst fb.
  destruct (blocked_in _ from) eqn:BF; cbn [negb andb].
  { destruct (metered_revert_refused i (sload_cost fc) ERR_BLOCKED_ADDRESS ltac:(cbn; lia) L N) as (r & E & R). unfold f_reverted, m_lift. rewrite E.
    cbn. split; [done|]. by exists r. }
  unfold m_bind at 1. pose proof (is_address_blocklisted_spec to s1) as F.
  destruct (is_address_blocklisted to s1) as [[[tb tc]|e] s2]; destruct F as [Q2 F]; [|split; [by etrans|done]].
  cbn [fst snd] in *. subst tb. pose proof Q1 as (_ & _ & _ & V1). assert (blocked_in (view (fs_journal s1)) to = blocked_in (view (fs_journal s)) to) as -> by (by rewrite V1).
  destruct (blocked_in (view (fs_journal s)) to) eqn:BT; cbn [negb andb].
  { destruct (metered_revert_refused i (sload_cost fc + sload_cost tc) ERR_BLOCKED_ADDRESS ltac:(cbn; lia) L N) as (r & E & R).
    unfold f_reverted, m_lift. rewrite E. cbn. split; [by etrans|]. by exists r. }
  unfold m_bind at 1. pose proof (target_is_selfdestructed_spec fl to s2) as F.
  destruct (target_is_selfdestructed fl to s2) as [[sd|e] s3]; destruct F as [Q3 F]; [|split; [exact (transitivity (transitivity Q1 Q2) Q3)|done]].
  subst sd. pose proof (transitivity Q1 Q2) as Q12. pose proof Q12 as (_ & _ & _ & V2).
  assert (w_selfdestructed (view (fs_journal s2)) to = w_selfdestructed (view (fs_journal s)) to) as -> by (by rewrite V2).
  destruct (w_selfdestructed (view (fs_journal s)) to); cbn [negb].
  { destruct (metered_revert_refused i (sload_cost fc + sload_cost tc) ERR_SELFDESTRUCTED_BALANCE_INCREASED ltac:(cbn; lia) L N) as (r & E & R).
    unfold f_reverted, m_lift. rewrite E. cbn. split; [by etrans|]. by exists r. }
  unfold transfer_log. case_decide; cbn; (split; [by etrans|done]).
Qed.

(** ** The hook *)

(** Frames as the interpreter and the transaction produce them: a limit that is not negative, no
    address chosen in advance, and at the first frame the nonce of the transaction. *)
Definition wf_frame (s : FrameState) (i : FrameInit Code) : Prop :=
  0 ≤ frame_gas_limit i
  ∧ match fi_frame_input i with
    | FiCreate c => (∀ a, cr_scheme c ≠ SchemeCustom a)
        ∧ (fi_depth i = 0%nat → ctx_tx_nonce (fs_ctx s) = nonce (w_account (view (fs_journal s)) (cr_caller c)))
    | _ => True
    end.

(** What the normalised input keeps. *)
Definition same_frame (w : World) (i i' : FrameInit Code) : Prop :=
  fi_depth i' = fi_depth i ∧ frame_gas_limit i' = frame_gas_limit i
  ∧ is_precompile_call i' = is_precompile_call i ∧ frame_transfer w i' = frame_transfer w i ∧ is_call i' = is_call i.

(** The value a frame moves, if any. *)
Definition nonzero (t : option (Z * Z * Z)) : option (Z * Z * Z) :=
  match t with Some (from, to, v) => if decide (v = 0) then None else Some (from, to, v) | None => None end.
Definition frame_value (w : World) (i : FrameInit Code) : option (Z * Z * Z) := nonzero (frame_transfer w i).

Lemma create_params_spec c i s : fi_frame_input i = FiCreate c → wf_frame s i →
  let '(r, s') := extract_and_normalize_create_transfer_params c (fi_depth i) s in
  quiet s s'
  ∧ match r with
    | Ok (p, c') => same_frame (view (fs_journal s)) i (mkFrameInit (fi_depth i) (FiCreate c'))
        ∧ nonzero p = frame_value (view (fs_journal s)) i
    | Err e => db_failure e
    end.
Proof.
  intros E [L W]. rewrite E in W. destruct W as [NC Nn]. unfold extract_and_normalize_create_transfer_params, same_frame.
  assert (frame_gas_limit i = cr_gas_limit c) as G by (unfold frame_gas_limit; by rewrite E).
  unfold is_precompile_call, frame_transfer, is_call. rewrite G, E. cbn [fi_frame_input fi_depth frame_gas_limit].
  unfold frame_value, frame_transfer, nonzero. rewrite E.
  case_decide as V; [by split|]. destruct (cr_scheme c) as [|salt|a] eqn:Sc.
  - case_decide as D.
    + cbn. split; [reflexivity|]. by rewrite Sc, Nn, (decide_False (P := cr_value c = 0)) by done.
    + unfold m_bind, on_j. pose proof (load_account_quiet (cr_caller c) s) as Q.
      destruct (load_account (fs_journal s) (cr_caller c)) as [[acc|e] j] eqn:La; cbn in *; (split; [done|]); [|by eexists].
      destruct (load_account_ok _ _ _ _ La) as (-> & _ & _). by rewrite Sc, (decide_False (P := cr_value c = 0)) by done.
  - cbn. split; [reflexivity|]. by rewrite (decide_False (P := cr_value c = 0)) by done.
  - by destruct (NC a).
Qed.

Definition hook_outcome (w : World) (i : FrameInit Code) (b : BeforeFrameInitResult) : Prop :=
  match frame_value w i with
  | Some (from, to, v) => check_outcome w from to v i b
  | None => b = BfNone
  end.

Lemma check_outcome_same w from to v i i' b :
  same_frame w i i' → check_outcome w from to v i' b → check_outcome w from to v i b.
Proof. intros (_ & G & _ & _ & K). unfold check_outcome, refused. by rewrite G, K. Qed.

Lemma guard_spec fl p i i' s s1 : 0 ≤ frame_gas_limit i → quiet s s1 → same_frame (view (fs_journal s)) i i' →
  (nonzero p ≠ None → fi_frame_input i' ≠ FiEmpty) → nonzero p = frame_value (view (fs_journal s)) i →
  let '(r, s') := match p with
                  | Some (from, to, amount) =>
                      if decide (amount = 0) then m_ret (BfNone, i')
                      else r <-- check_blocklist_and_create_log fl from to amount i' ;; m_ret (r, i')
                  | None => m_ret (BfNone, i')
                  end s1 in
  quiet s s' ∧ match r with
               | Ok (b, i') => same_frame (view (fs_journal s)) i i' ∧ hook_outcome (view (fs_journal s)) i b
               | Err e => db_failure e
               end.
Proof.
  intros G Q SF NE P. unfold hook_outcome. rewrite <- P. destruct p as [[[from to] v]|]; cbn [nonzero] in *; [|done].
  case_decide as V; [done|]. pose proof SF as (_ & G' & _). unfold m_bind.
  pose proof (check_blocklist_spec fl from to v i' s1 ltac:(lia) (NE ltac:(done))) as X.
  destruct (check_blocklist_and_create_log fl from to v i' s1) as [[b|e] s2]; destruct X as [Q2 X]; (split; [by etrans|]); [|done].
  split; [done|]. eapply check_outcome_same; [done|]. destruct Q as (_ & _ & _ & Vw). unfold check_outcome, transfer_allowed in *.
  by rewrite <- (w_selfdestructed_proper _ _ Vw to to eq_refl), <- (blocked_in_proper _ _ Vw from from eq_refl), <- (blocked_in_proper _ _ Vw to to eq_refl).
Qed.

Lemma before_frame_init_spec fl i s : wf_frame s i →
  let '(r, s') := before_frame_init fl i s in
  quiet s s'
  ∧ match r with
    | Ok (b, i') => same_frame (view (fs_journal s)) i i' ∧ hook_outcome (view (fs_journal s)) i b
    | Err e => db_failure e
    end.
Proof.
  intros W. unfold before_frame_init. unfold m_bind at 1. destruct (fi_frame_input i) as [|c|c] eqn:E.
  - cbn. split; [reflexivity|]. split; [done|]. unfold hook_outcome, frame_value, frame_transfer. by rewrite E.
  - cbn [m_ret]. apply guard_spec; cbn [fst snd]; [apply W|reflexivity|done|by rewrite E|].
    unfold frame_value, extract_call_transfer_params, frame_transfer. rewrite E.
    rewrite transfer_from_spec, transfer_to_spec, transfer_value_spec. by destruct (ci_scheme c), (ci_value c).
  - unfold m_bind at 1. pose proof (create_params_spec c i s E W) as X.
    destruct (extract_and_normalize_create_transfer_params c (fi_depth i) s) as [[[p c']|e] s1]; [|done].
    destruct X as (Q & SF & P). cbn [m_ret fst snd]. apply guard_spec; [apply W|done..].
Qed.

(** ** Initialising a frame *)

Definition outcome_emits (o : FrameInitOutcome) : bool :=
  match o with Pushed => true | Immediate r => should_emit_transfer_log_for_result r end.
Definition frames_grow (o : FrameInitOutcome) (i : FrameInit Code) (s s' : FrameState) : Prop :=
  match o with
  | Pushed => ∃ f, fs_stack s' = f :: fs_stack s ∧ frame_depth f = fi_depth i ∧ is_finished f = false
  | Immediate r => fs_stack s' = fs_stack s
      ∧ 0 ≤ total_gas_spent (ir_gas (fr_result r)) ≤ frame_gas_limit i
      ∧ Z.of_nat (length (ir_output (fr_result r))) < 2 ^ 42 ∧ (is_call i = true → ∃ o, r = FrCall o)
  end.

(** What initialising the frame [i] after its check did to the world [w]. *)
Definition frame_effect (w w' : World) (i : FrameInit Code) (logs : list Log) (o : FrameInitOutcome) : Prop :=
  if outcome_emits o then
    (∃ l, w_logs w' = w_logs w ++ logs ++ l ∧ (is_precompile_call i = false → l = []))
    ∧ (is_precompile_call i = false → ∀ from to v, frame_transfer w i = Some (from, to, v) →
       ∀ a, balance_of w' a = moved w from to v a)
  else same_value w w'.

Definition steps (i : FrameInit Code) (logs : list Log) (s : FrameState) (out : result EvmFailure FrameInitOutcome * FrameState)
    : Prop :=
  extends_journal (fs_journal s) (fs_journal out.2)
  ∧ ctx_tx_caller (fs_ctx out.2) = ctx_tx_caller (fs_ctx s)
  ∧ match out.1 with
    | Ok o => frames_grow o i s out.2 ∧ frame_effect (view (fs_journal s)) (view (fs_journal out.2)) i logs o
    | Err e => db_failure e ∧ fs_stack out.2 = fs_stack s
    end.

Lemma init_frame_spec i s :
  extends_journal (fs_journal s) (fs_journal (init_frame i s).2)
  ∧ ctx_tx_caller (fs_ctx (init_frame i s).2) = ctx_tx_caller (fs_ctx s)
  ∧ match init_frame i s with
    | (Ok r, s') => frames_grow (frame_init_outcome r) i s s'
        ∧ outcome_emits (frame_init_outcome r) = should_emit_transfer_log r
        ∧ frame_effect (view (fs_journal s)) (view (fs_journal s')) i [] (frame_init_outcome r)
    | (Err e, s') => db_failure e ∧ fs_stack s' = fs_stack s
    end.
Proof.
  pose proof (init_extends (fs_ctx s) (fs_journal s) i) as X. pose proof (init_frame_ctx (fs_ctx s) (fs_journal s) i) as [C _].
  unfold init_frame. destruct (init_with_context (fs_ctx s) (fs_journal s) i) as [[[f|r]|e] [c j]] eqn:E; cbn in *.
  - destruct (init_item _ _ _ _ _ _ E) as [D F]. destruct (init_logs _ _ _ _ _ _ E) as (l & L & Lp).
    split; [done|]. split; [done|]. split; [by exists f|]. split; [done|]. unfold frame_effect. cbn. split; [by exists l|].
    intros P from to v T. exact (init_moves _ _ _ _ _ _ _ _ _ E eq_refl P T).
  - split; [done|]. split; [done|]. split; [split; [done|]; exact (init_result _ _ _ _ _ _ E)|]. split; [done|]. unfold frame_effect. cbn.
    destruct (should_emit_transfer_log_for_result r) eqn:Em; [|exact (init_failed _ _ _ _ _ _ E Em)].
    destruct (init_logs _ _ _ _ _ _ E) as (l & L & Lp). split; [by exists l|].
    intros P from to v T. exact (init_moves _ _ _ _ _ _ _ _ _ E Em P T).
  - split; [done|]. split; [done|]. split; [by eexists|done].
Qed.

Lemma deferred_spec i s maybe_log : is_precompile_call i = false →
  steps i (option_list maybe_log) s (init_deferred_frame_with_transfer_log i maybe_log s).
Proof.
  intros P. unfold init_deferred_frame_with_transfer_log, m_bind. pose proof (init_frame_spec i s) as (X & C & I).
  destruct (init_frame i s) as [[r|e] s1]; cbn [fst snd] in *; [|done]. destruct I as (G & Em & Ef).
  destruct maybe_log as [log|]; [|by repeat split].
  destruct (should_emit_transfer_log r) eqn:S.
  - unfold on_j_, steps. cbn. split; [etrans; [done|apply journal_log_extends]|]. split; [done|].
    split; [by destruct r|]. unfold frame_effect in *. rewrite Em in *. destruct Ef as [(l & L & Lp) Mv]. split.
    + exists []. split; [|done]. rewrite (w_logs_proper _ _ (journal_log_view _ _)). cbn. by rewrite L, (Lp P), app_nil_r.
    + intros _ from to v T a. rewrite (balance_of_proper _ _ (journal_log_view _ _) a a eq_refl). cbn. by apply (Mv P from to v).
  - unfold steps. cbn. split; [done|]. split; [done|]. split; [done|]. unfold frame_effect in *. by rewrite Em in *.
Qed.

Lemma same_value_equiv w w' : w' ≡ w → same_value w w'.
Proof. intros E. split_and!; intros; by rewrite E. Qed.
Lemma same_value_trans u v w : same_value u v → same_value v w → same_value u w.
Proof. intros (A & B & C & D) (A' & B' & C' & D'). split_and!; intros; congruence. Qed.

Lemma precompile_spec i s maybe_log : is_precompile_call i = true →
  steps i (option_list maybe_log) s (init_precompile_frame_with_transfer_log i maybe_log s).
Proof.
  intros P. unfold init_precompile_frame_with_transfer_log, m_bind. destruct maybe_log as [log|].
  2: { pose proof (init_frame_spec i s) as (X & C & I). destruct (init_frame i s) as [[r|e] s1]; cbn [fst snd] in *; [|done].
       destruct I as (G & Em & Ef). by repeat split. }
  unfold on_j_ at 1 2. destruct (checkpoint_spec (fs_journal s)) as (T & X1 & V1).
  destruct (checkpoint (fs_journal s)) as [cp j1]. cbn [fst snd fs_journal fs_ctx fs_stack] in *.
  set (s2 := mkFrameState (fs_ctx s) (journal_log j1 log) (fs_stack s)).
  assert (extends_journal (fs_journal s) (fs_journal s2)) as X2 by (etrans; [done|apply journal_log_extends]).
  assert (w_logs (view (fs_journal s2)) = w_logs (view (fs_journal s)) ++ [log]) as L2.
  { cbn. rewrite (w_logs_proper _ _ (journal_log_view _ _)). cbn. by rewrite V1. }
  pose proof (init_frame_spec i s2) as (X3 & C & I). pose proof (transitivity X2 X3) as X.
  destruct (init_frame i s2) as [[r|e] s3]; cbn [fst snd] in *; [|exact (conj X (conj C I))].
  destruct I as (G & Em & Ef).
  destruct (should_emit_transfer_log r) eqn:S; unfold on_j_; cbn [fst snd fs_journal fs_ctx fs_stack m_ret].
  - destruct (checkpoint_commit_spec (fs_journal s3)) as [X4 V4]. unfold steps, m_ret. cbn [fst snd fs_journal fs_ctx fs_stack].
    split; [by etrans|]. split; [done|]. split; [by destruct r|].
    unfold frame_effect in *. rewrite Em in *. destruct Ef as [(l & L & _) _]. rewrite P. split; [|done].
    exists l. split; [|done]. rewrite (w_logs_proper _ _ V4), L, L2. by rewrite <- app_assoc.
  - destruct (checkpoint_revert_spec cp (fs_journal s) (fs_journal s3) T X) as [X4 V4]. unfold steps, m_ret. cbn [fst snd fs_journal fs_ctx fs_stack].
    split; [done|]. split; [done|]. split; [by destruct r|]. unfold frame_effect. rewrite Em. by apply same_value_equiv.
Qed.

Lemma frame_transfer_proper v w i : v ≡ w → frame_transfer v i = frame_transfer w i.
Proof. intros E. unfold frame_transfer. destruct (fi_frame_input i) as [| |c]; [done..|]. by rewrite (w_account_proper _ _ E _ _ eq_refl). Qed.

Lemma frame_effect_ext v w w' i i' logs o : w ≡ v → same_frame v i i' → frame_effect w w' i' logs o → frame_effect v w' i logs o.
Proof.
  intros E (_ & _ & P & T & _). unfold frame_effect. destruct (outcome_emits o).
  - rewrite P. intros [(l & L & Lp) Mv]. split; [exists l; by rewrite <- (w_logs_proper _ _ E)|].
    intros Np from to a Tr b. rewrite (Mv Np from to a); [|by rewrite (frame_transfer_proper _ _ _ E), T].
    unfold moved. by rewrite (balance_of_proper _ _ E b b eq_refl).
  - intros S. eapply same_value_trans; [|done]. by apply same_value_equiv.
Qed.

(** The hook and the initialisation together. *)
Definition checked_outcome (i : FrameInit Code) (s s' : FrameState) (r : result EvmFailure FrameInitOutcome) : Prop :=
  let w := view (fs_journal s) in
  match r with
  | Err e => db_failure e
  | Ok o =>
      match frame_value w i with
      | Some (from, to, v) =>
          if transfer_allowed w from to
          then frames_grow o i s s' ∧ frame_effect w (view (fs_journal s')) i (transfer_log from to v) o
          else ∃ res, o = Immediate res ∧ refused i res ∧ fs_stack s' = fs_stack s ∧ view (fs_journal s') ≡ w
      | None => frames_grow o i s s' ∧ frame_effect w (view (fs_journal s')) i [] o
      end
  end.

(** From the state after the check to the state before it. *)
Lemma steps_quiet i i' logs s s1 out : quiet s s1 → same_frame (view (fs_journal s)) i i' → steps i' logs s1 out →
  steps i logs s out.
Proof.
  intros (Qc & Qs & Qx & Qv) SF (X & C & R). pose proof SF as (D & Gl & _ & _ & K). split; [by etrans|]. split; [congruence|].
  destruct out as [[o|e] s']; cbn [fst snd] in *; [|by rewrite <- Qs].
  destruct R as [G Ef]. split; [|by eapply frame_effect_ext]. destruct o; cbn in *; [|by rewrite <- Gl, <- K, <- Qs].
  destruct G as (f & -> & Df & Fin). exists f. by rewrite Qs, <- D.
Qed.

Lemma steps_checked i logs s out : steps i logs s out →
  let '(r, s') := out in
  extends_journal (fs_journal s) (fs_journal s') ∧ ctx_tx_caller (fs_ctx s') = ctx_tx_caller (fs_ctx s)
  ∧ (∀ e, r = Err e → fs_stack s' = fs_stack s)
  ∧ match r with
    | Err e => db_failure e
    | Ok o => frames_grow o i s s' ∧ frame_effect (view (fs_journal s)) (view (fs_journal s')) i logs o
    end.
Proof. destruct out as [[o|e] s']; intros (X & C & R); cbn [fst snd] in *; (split; [done|]; split; [done|]; split; [naive_solver|]); by destruct R. Qed.

Lemma checked_frame_init_spec fl i s : wf_frame s i →
  let '(r, s') := checked_frame_init fl i s in
  extends_journal (fs_journal s) (fs_journal s') ∧ ctx_tx_caller (fs_ctx s') = ctx_tx_caller (fs_ctx s)
  ∧ (∀ e, r = Err e → fs_stack s' = fs_stack s) ∧ checked_outcome i s s' r.
Proof.
  intros W. unfold checked_frame_init. unfold m_bind at 1. pose proof (before_frame_init_spec fl i s W) as X.
  destruct (before_frame_init fl i s) as [[[b i']|e] s1]; destruct X as (Q & X).
  2: { destruct Q as (-> & -> & Qx & _). done. }
  destruct X as [SF Hk]. cbn [fst snd].
  assert (∀ o, steps i (option_list o) s ((if is_precompile_call i' then init_precompile_frame_with_transfer_log i' o
                            else init_deferred_frame_with_transfer_log i' o) s1)) as St.
  { intros o. eapply steps_quiet; [done..|]. destruct (is_precompile_call i') eqn:P; [by apply precompile_spec|by apply deferred_spec]. }
  unfold checked_outcome, hook_outcome in *. destruct (frame_value (view (fs_journal s)) i) as [[[from to] v]|].
  - unfold check_outcome in Hk. destruct (transfer_allowed _ from to).
    + destruct b as [log g|g| |]; [..|done|done]; rewrite Hk.
      * exact (steps_checked _ _ _ _ (St (Some log))).
      * exact (steps_checked _ _ _ _ (St None)).
    + destruct Hk as (res & -> & Rf). cbn. destruct Q as (-> & Qs & Qx & Qv). split; [done|]. split; [done|]. split; [done|]. by exists res.
  - subst b. exact (steps_checked _ _ _ _ (St None)).
Qed.

Lemma checked_grows i s s' o : 0 ≤ frame_gas_limit i → checked_outcome i s s' (Ok o) →
  frames_grow o i s s' ∧ (outcome_emits o = false → same_value (view (fs_journal s)) (view (fs_journal s'))).
Proof.
  intros G. assert (∀ logs, frame_effect (view (fs_journal s)) (view (fs_journal s')) i logs o → outcome_emits o = false →
    same_value (view (fs_journal s)) (view (fs_journal s'))) as F by (intros logs; unfold frame_effect; by destruct (outcome_emits o)).
  unfold checked_outcome. destruct (frame_value _ i) as [[[from to] v]|]; [destruct (transfer_allowed _ _ _)|].
  - intros [A B]. split; [done|]. by eapply F.
  - intros (res & -> & (Rv & Sp & Gl & Ol & K) & St & V). split; [|intros _; by apply same_value_equiv]. cbn. split; [done|]. split; [lia|done].
  - intros [A B]. split; [done|]. by eapply F.
Qed.

(** C3: Value moves only between allowed parties, and is logged.  A frame that would move value
    from or to the zero address or a blocklisted address, or to a self-destructed account, is
    refused: it reverts with all its gas, no frame is pushed and the world is as before.  Any other
    frame is initialised by revm; when it succeeds or starts running, exactly one EIP-7708 Transfer
    log is added for its value, none for a transfer to itself or without value, and it precedes the
    logs of a precompile; outside precompiles no other log is added and the balances change by
    exactly that value.  When it fails, balances, storage and logs are as before.  The hook fails
    only when the database does. *)
Theorem transfers_checked_and_logged fl i s : wf_frame s i →
  let '(r, s') := checked_frame_init fl i s in
  let w := view (fs_journal s) in
  match r with
  | Err e => db_failure e
  | Ok o =>
      match frame_value w i with
      | Some (from, to, v) =>
          if transfer_allowed w from to
          then frames_grow o i s s' ∧ frame_effect w (view (fs_journal s')) i (transfer_log from to v) o
          else ∃ res, o = Immediate res ∧ refused i res ∧ fs_stack s' = fs_stack s ∧ view (fs_journal s') ≡ w
      | None => frames_grow o i s s' ∧ frame_effect w (view (fs_journal s')) i [] o
      end
  end.
Proof.
  intros W. pose proof (checked_frame_init_spec fl i s W) as X. destruct (checked_frame_init fl i s) as [r s']. apply X.
Qed.
End FramesProps.
