(* ===== verification/Subcall.v ===== *)
(** * Subcalls

    Precompiles that spawn a child call (precompiles/subcall.rs, call_from.rs, evm/subcall.rs) and
    the hooks of evm/evm.rs that run them: [init_subcall] dispatches the child frame and keeps a
    continuation, [frame_return_result] completes it when the child returns.

    The ABI codec of [callFrom] and the cost of copying a word are third-party ([CallFromOps]).
    The optional observer of completions, which only reports to a tracer, is left out. *)

From S2P Require Import Prelude Hardforks Revm Precompile NativeCoin Frames.

Class CallFromOps := {
  GAS_COPY : Z;
  (* [callFromCall::abi_decode_validate], with the text of its error *)
  decode_callFrom : bytes → result string (Z * Z * bytes);
  encode_callFrom_returns : bool → bytes → bytes;
}.

Section Subcall.
Context `{FO : FrameOps} {CF : CallFromOps}.
(** What a precompile keeps between its two phases ([Box<dyn Any>]). *)
Context {Any : Type}.

(** ** precompiles/subcall.rs *)

Inductive SubcallError :=
| AbiDecodeError (msg : string)
| UnexpectedFrameResult
| InsufficientGas (msg : string)
| InternalError (msg : string).
Definition subcall_error_to_string (e : SubcallError) : string :=
  match e with
  | AbiDecodeError msg => "ABI decode error: " +:+ msg
  | UnexpectedFrameResult => "unexpected frame result type (expected Call)"
  | InsufficientGas msg => "insufficient gas: " +:+ msg
  | InternalError msg => "internal error: " +:+ msg
  end.
Record SubcallInitResult := mkSubcallInitResult {
  child_inputs : CallInputs Code;
  sir_continuation_data : Any;
  sir_gas_overhead : Z;
}.
Record SubcallCompletionResult := mkSubcallCompletionResult {
  scr_output : bytes;
  scr_success : bool;
  scr_gas_overhead : Z;
}.
Record SubcallPrecompile := mkSubcallPrecompile {
  sp_init_subcall : CallInputs Code → result SubcallError SubcallInitResult;
  sp_complete_subcall : Any → FrameResult → result SubcallError SubcallCompletionResult;
}.

(** ** precompiles/call_from.rs *)

Definition CALL_FROM_ADDRESS : Z := 0x1800000000000000000000000000000000000003.
Definition ABI_DECODE_BASE_GAS : Z := 100.
Definition div_ceil (n d : Z) : Z := (n + d - 1) / d.
Definition abi_decode_gas (data_len : Z) : Z :=
  saturating_add 64 ABI_DECODE_BASE_GAS (saturating_mul 64 (div_ceil data_len 32) GAS_COPY).
Definition ABI_ENCODE_BASE_GAS : Z := 100.
Definition abi_encode_gas (data_len : Z) : Z :=
  saturating_add 64 ABI_ENCODE_BASE_GAS (saturating_mul 64 (div_ceil data_len 32) GAS_COPY).

Definition decode_child_call (inputs : CallInputs Code) : result SubcallError (CallInputs Code * Z) :=
  match ci_input inputs with
  | InputSharedBuffer _ _ => Err (AbiDecodeError "unexpected shared buffer input")
  | InputBytes input_bytes =>
      decoded ← map_err (λ e, AbiDecodeError ("callFrom: " +:+ e)) (decode_callFrom input_bytes);
      let '(sender, target, calldata) := decoded in
      let overhead := abi_decode_gas (Z.of_nat (length calldata)) in
      available ← ok_or (checked_sub 64 (ci_gas_limit inputs) overhead)
                        (InsufficientGas "gas limit below ABI decode overhead");
      let child_gas_limit := available - available / 64 in
      Ok (mkCallInputs SchemeCall target target (0, default_code) (ValueTransfer 0) (InputBytes calldata)
            child_gas_limit false sender (0, 0) (ci_reservoir inputs), overhead)
  end.

Definition CallFromPrecompile (state : Any) : SubcallPrecompile := {|
  sp_init_subcall inputs :=
    decoded ← decode_child_call inputs;
    Ok (mkSubcallInitResult decoded.1 state decoded.2);
  sp_complete_subcall _ child_result :=
    match child_result with
    | FrCreate _ => Err UnexpectedFrameResult
    | FrCall outcome =>
        let child_success := ir_is_ok (ir_result (co_result outcome)) in
        let child_output := ir_output (co_result outcome) in
        Ok (mkSubcallCompletionResult (encode_callFrom_returns child_success child_output) true
              (abi_encode_gas (Z.of_nat (length child_output))))
    end;
|}.

(** ** evm/subcall.rs *)

Record SubcallContinuation := mkSubcallContinuation {
  sc_precompile : SubcallPrecompile;
  sc_gas_limit : Z;
  sc_init_subcall_gas_overhead : Z;
  sc_return_memory_offset : Z * Z;
  sc_continuation_data : Any;
  sc_checkpoint : Checkpoint;
}.
Inductive AllowedCallers := Unrestricted | Only (set : gset Z).
Definition is_allowed (a : AllowedCallers) (caller : Z) : bool :=
  match a with Unrestricted => true | Only set => bool_decide (caller ∈ set) end.
Abbreviation SubcallRegistry := (gmap Z (SubcallPrecompile * AllowedCallers)).
Definition register (r : SubcallRegistry) (address : Z) (precompile : SubcallPrecompile) (allowed_callers : AllowedCallers)
    : SubcallRegistry := <[address := (precompile, allowed_callers)]> r.

(** execution-config/call_from.rs *)
Definition MEMO_ADDRESS : Z := 0x5294E9927c3306DcBaDb03fe70b92e01cCede505.
Definition MULTICALL3_FROM_ADDRESS : Z := 0x522fAf9A91c41c443c66765030741e4AaCe147D0.
Definition build_subcall_registry (state : Any) (hardfork_flags : ArcHardforkFlags) : SubcallRegistry :=
  let registry : SubcallRegistry := ∅ in
  if is_active hardfork_flags Zero7
  then register registry CALL_FROM_ADDRESS (CallFromPrecompile state) (Only {[MEMO_ADDRESS; MULTICALL3_FROM_ADDRESS]})
  else registry.

(** ** evm/evm.rs *)

Definition SUBCALL_DISPATCH_COST : Z := 100.

Definition subcall_outcome (result : InstructionResult) (output : bytes) (gas : Gas) (memory_offset : Z * Z) : FrameResult :=
  FrCall (mkCallOutcome (mkInterpreterResult result output gas) memory_offset true []).

Definition init_subcall_revert (message : string) (call_inputs : CallInputs Code) : FrameResult :=
  let '(ok, gas) := record_regular_cost (gas_new (ci_gas_limit call_inputs)) SUBCALL_DISPATCH_COST in
  let gas := if ok : bool then gas else spend_all gas in
  subcall_outcome IrRevert (revert_message_to_bytes message) gas (ci_return_memory_offset call_inputs).

Definition subcall_oog (gas : Gas) (return_memory_offset : Z * Z) : FrameResult :=
  subcall_outcome IrOutOfGas [] gas return_memory_offset.

Definition init_subcall_static_revert (call_inputs : CallInputs Code) : FrameResult :=
  subcall_outcome IrRevert (revert_message_to_bytes "subcall precompiles cannot be invoked in static context")
    (spend_all (gas_new (ci_gas_limit call_inputs))) (ci_return_memory_offset call_inputs).

Definition load_account_with_code_metered (journal : Journal) (address : Z) (gas : Gas)
    : result DbErr (option (AccountInfo * option Code)) * (Gas * Journal) :=
  let skip_cold_load := bool_decide (remaining gas < COLD_ACCOUNT_ACCESS_COST) in
  match load_account_info_skip_cold_load journal address true skip_cold_load with
  | (Ok (is_cold, info, code), journal) =>
      let cost := if is_cold : bool then COLD_ACCOUNT_ACCESS_COST else WARM_STORAGE_READ_COST in
      let '(ok, gas) := record_regular_cost gas cost in
      (Ok (if ok : bool then Some (info, code) else None), (gas, journal))
  | (Err ColdLoadSkipped, journal) => (Ok None, (gas, journal))
  | (Err (DBError err), journal) => (Err err, (gas, journal))
  end.

Definition resolve_shared_buffer (ctx : Ctx) (call_inputs : CallInputs Code) : CallInputs Code :=
  match ci_input call_inputs with
  | InputSharedBuffer start end_ =>
      mkCallInputs (ci_scheme call_inputs) (ci_target_address call_inputs) (ci_bytecode_address call_inputs)
        (ci_known_bytecode call_inputs) (ci_value call_inputs) (InputBytes (shared_buffer ctx start end_))
        (ci_gas_limit call_inputs) (ci_is_static call_inputs) (ci_caller call_inputs)
        (ci_return_memory_offset call_inputs) (ci_reservoir call_inputs)
  | InputBytes _ => call_inputs
  end.

Definition with_code_and_gas (i : CallInputs Code) (known_bytecode : Z * Code) (gas_limit : Z) : CallInputs Code :=
  mkCallInputs (ci_scheme i) (ci_target_address i) (ci_bytecode_address i) known_bytecode (ci_value i) (ci_input i)
    gas_limit (ci_is_static i) (ci_caller i) (ci_return_memory_offset i) (ci_reservoir i).

(** [ArcEvm]: the frames and the continuations, keyed by the depth of the precompile's call. *)
Record ArcEvm := mkArcEvm { evm_frames : FrameState; subcall_continuations : gmap nat SubcallContinuation }.
Abbreviation EOp A := (M ArcEvm EvmFailure A).
Definition on_frames {A} (m : M FrameState EvmFailure A) : EOp A := λ e,
  let '(r, s) := m (evm_frames e) in (r, mkArcEvm s (subcall_continuations e)).
Definition set_continuations (f : gmap nat SubcallContinuation → gmap nat SubcallContinuation) : EOp unit := λ e,
  (Ok tt, mkArcEvm (evm_frames e) (f (subcall_continuations e))).

Definition revert_subcall_checkpoint (saved_cp : Checkpoint) : EOp unit :=
  on_frames (on_j_ (λ j, (tt, (checkpoint j).2))) ;;;
  on_frames (on_j_ (λ j, (tt, checkpoint_revert j saved_cp))).

Definition complete_subcall (child_result : FrameResult) (continuation : SubcallContinuation) : EOp FrameResult :=
  let child_gas := ir_gas (fr_result child_result) in
  let '(child_succeeded, child_halted) :=
    match child_result with
    | FrCall outcome => (ir_is_ok (ir_result (co_result outcome)), negb (ir_is_ok_or_revert (ir_result (co_result outcome))))
    | FrCreate _ => (false, true)
    end in
  let completion_result := sp_complete_subcall (sc_precompile continuation) (sc_continuation_data continuation) child_result in
  let completion_gas := match completion_result with Ok result => scr_gas_overhead result | Err _ => 0 end in
  metered <-- m_lift (ok_or (checked_add 64 (sc_init_subcall_gas_overhead continuation) (total_gas_spent child_gas))
                            (FailPanic "gas overflow: init_subcall_overhead + child_gas.total_gas_spent()")) ;;
  metered_gas_used <-- m_lift (ok_or (checked_add 64 metered completion_gas)
                                     (FailPanic "gas overflow: metered_gas_used + completion_gas")) ;;
  let gas_used := if child_halted : bool then Z.max (sc_gas_limit continuation) metered_gas_used else metered_gas_used in
  let '(ok, gas) := record_regular_cost (gas_new (sc_gas_limit continuation)) gas_used in
  let rollback := if child_succeeded : bool then revert_subcall_checkpoint (sc_checkpoint continuation) else m_ret tt in
  if negb ok then
    rollback ;;;
    m_ret (subcall_oog (spend_all gas) (sc_return_memory_offset continuation))
  else
    match completion_result with
    | Ok result =>
        if scr_success result then
          let gas := if child_succeeded : bool then record_refund gas (refunded child_gas) else gas in
          m_ret (subcall_outcome IrReturn (scr_output result) gas (sc_return_memory_offset continuation))
        else
          rollback ;;;
          m_ret (subcall_outcome IrRevert (scr_output result) gas (sc_return_memory_offset continuation))
    | Err _ =>
        rollback ;;;
        m_ret (subcall_outcome IrRevert [] (spend_all gas) (sc_return_memory_offset continuation))
    end.

(** The accesses charged to the subcall: the target, and the code it delegates to.  [None] is out
    of gas, with what is left in the counter. *)
Definition load_child_code (child : CallInputs Code) (gas : Gas) : M FrameState EvmFailure (option (Z * Code) * Gas) := λ s,
  let put j := mkFrameState (fs_ctx s) j (fs_stack s) in
  match load_account_with_code_metered (fs_journal s) (ci_target_address child) gas with
  | (Err e, (_, j)) => (Err (FailDb e), put j)
  | (Ok None, (gas, j)) => (Ok (None, gas), put j)
  | (Ok (Some (target, code)), (gas, j)) =>
      match code ≫= eip7702_address with
      | Some delegate_address =>
          match load_account_with_code_metered j delegate_address gas with
          | (Err e, (_, j)) => (Err (FailDb e), put j)
          | (Ok None, (gas, j)) => (Ok (None, gas), put j)
          | (Ok (Some (delegate, code)), (gas, j)) =>
              (Ok (Some (default (ci_known_bytecode child) ((λ c, (code_hash delegate, c)) <$> code)), gas), put j)
          end
      | None => (Ok (Some (default (ci_known_bytecode child) ((λ c, (code_hash target, c)) <$> code)), gas), put j)
      end
  end.

(** The last part of [init_subcall]: the checkpoint, the child frame and its continuation. *)
Definition dispatch_child (hardfork_flags : ArcHardforkFlags) (precompile : SubcallPrecompile)
    (init_result : SubcallInitResult) (call_inputs : CallInputs Code) (depth : nat) (known_bytecode : Z * Code) (gas : Gas)
    : EOp FrameInitOutcome :=
  cp <-- on_frames (on_j_ (λ j, checkpoint j)) ;;
  on_frames (on_j_ (λ j, (tt, checkpoint_commit j))) ;;;
  let child := with_code_and_gas (child_inputs init_result) known_bytecode (remaining gas - remaining gas / 64) in
  let continuation := mkSubcallContinuation precompile (ci_gas_limit call_inputs) (total_gas_spent gas)
                        (ci_return_memory_offset call_inputs) (sir_continuation_data init_result) cp in
  outcome <-- on_frames (checked_frame_init hardfork_flags (mkFrameInit (S depth) (FiCall child))) ;;
  match outcome with
  | Pushed => set_continuations (λ m, <[depth := continuation]> m) ;;; m_ret Pushed
  | Immediate child_result =>
      final_result <-- complete_subcall child_result continuation ;;
      m_ret (Immediate final_result)
  end.

(** The result of [frame_init] and [init_subcall]: a frame on the stack, or a result. *)
Definition init_subcall (hardfork_flags : ArcHardforkFlags) (frame_input : FrameInit Code) (precompile : SubcallPrecompile)
    : EOp FrameInitOutcome :=
  match fi_frame_input frame_input with
  | FiCall call_inputs =>
      if decide (ci_scheme call_inputs ≠ SchemeCall)
      then m_ret (Immediate (init_subcall_revert "subcall precompiles only support CALL scheme" call_inputs))
      else if ci_is_static call_inputs then m_ret (Immediate (init_subcall_static_revert call_inputs))
      else if transfers_value call_inputs
      then m_ret (Immediate (init_subcall_revert "subcall precompiles do not support value transfers" call_inputs))
      else
      evm <-- m_get ;;
      let call_inputs := resolve_shared_buffer (fs_ctx (evm_frames evm)) call_inputs in
      match sp_init_subcall precompile call_inputs with
      | Err err => m_ret (Immediate (init_subcall_revert (subcall_error_to_string err) call_inputs))
      | Ok init_result =>
          let child := child_inputs init_result in
          if decide (ci_caller child ≠ ci_caller call_inputs ∧ ci_caller child ≠ ctx_tx_caller (fs_ctx (evm_frames evm)))
          then m_ret (Immediate (init_subcall_revert "sender spoofing requires tx.origin as sender" call_inputs))
          else
          let return_memory_offset := ci_return_memory_offset call_inputs in
          _ <-- on_frames (on_j (λ j, load_account j (ci_caller child))) ;;
          let '(ok, gas) := record_regular_cost (gas_new (ci_gas_limit call_inputs)) (sir_gas_overhead init_result) in
          if negb ok then m_ret (Immediate (subcall_oog (spend_all gas) return_memory_offset))
          else
          loaded <-- on_frames (load_child_code child gas) ;;
          match loaded with
          | (None, gas) => m_ret (Immediate (subcall_oog (spend_all gas) return_memory_offset))
          | (Some known_bytecode, gas) =>
              dispatch_child hardfork_flags precompile init_result call_inputs (fi_depth frame_input) known_bytecode gas
          end
      end
  | _ =>
      r <-- m_lift (ok_or (create_frame_result frame_input "internal error: subcall interception on non-Call frame" 0)
                          (FailPanic "unreachable")) ;;
      m_ret (Immediate r)
  end.

Definition frame_init (hardfork_flags : ArcHardforkFlags) (registry : SubcallRegistry) (frame_input : FrameInit Code)
    : EOp FrameInitOutcome :=
  match fi_frame_input frame_input with
  | FiCall call_inputs =>
      match registry !! ci_target_address call_inputs with
      | Some (precompile, allowed_callers) =>
          if negb (is_allowed allowed_callers (ci_caller call_inputs))
          then m_ret (Immediate (init_subcall_revert "unauthorized caller" call_inputs))
          else
          before <-- on_frames (before_frame_init hardfork_flags frame_input) ;;
          match before.1 with
          | BfReverted res => m_ret (Immediate res)
          | BfLog _ _ | BfChecked _ | BfNone => init_subcall hardfork_flags before.2 precompile
          end
      | None => on_frames (checked_frame_init hardfork_flags frame_input)
      end
  | _ => on_frames (checked_frame_init hardfork_flags frame_input)
  end.

(** Hands [result] to the frame on top of the stack, or returns it when there is none. *)
Definition propagate (result : FrameResult) : EOp (option FrameResult) := λ e,
  let s := evm_frames e in
  match fs_stack s with
  | [] => (Ok (Some result), e)
  | f :: stack =>
      let '(r, (f, c, j)) := frame_return (fs_ctx s) (fs_journal s) f result in
      (map_err FailDb r ≫= λ _, Ok None, mkArcEvm (mkFrameState c j (f :: stack)) (subcall_continuations e))
  end.

(** [frame_return_result]; [FailPanic] is an empty frame stack. *)
Definition frame_return_result (result : FrameResult) : EOp (option FrameResult) := λ e,
  match fs_stack (evm_frames e) with
  | [] => (Err (FailPanic "empty frame stack"), e)
  | top :: below =>
      if is_finished top then
        let e := mkArcEvm (mkFrameState (fs_ctx (evm_frames e)) (fs_journal (evm_frames e)) below) (subcall_continuations e) in
        match frame_depth top with
        | S key =>
            match subcall_continuations e !! key with
            | Some continuation =>
                (set_continuations (delete key) ;;;
                 final_result <-- complete_subcall result continuation ;;
                 propagate final_result) e
            | None => propagate result e
            end
        | O => propagate result e
        end
      else propagate result e
  end.
End Subcall.
