(* ===== verification/SubcallProps.v ===== *)
(** * What subcalls guarantee

    Completion charges what the child used and never more than the budget, and a subcall that fails
    leaves no effect; only authorised calls spawn a child, for the caller or the origin of the
    transaction; continuations and frames match along every run, so that no result is taken for a
    subcall's that is not one. *)

From S2P Require Import Prelude Hardforks Revm Precompile NativeCoin Frames FramesProps Subcall.

Section SubcallProps.
Context `{FL : FrameLaws} {CF : CallFromOps} {Any : Type}.
Abbreviation ArcEvm := (ArcEvm (Any := Any)).
Abbreviation SubcallContinuation := (SubcallContinuation (Any := Any)).
Abbreviation SubcallPrecompile := (SubcallPrecompile (Any := Any)).

Definition journal_of (e : ArcEvm) : Journal := fs_journal (evm_frames e).
Definition stack_of (e : ArcEvm) : list Frame := fs_stack (evm_frames e).
Definition with_journal (e : ArcEvm) (j : Journal) : ArcEvm :=
  mkArcEvm (mkFrameState (fs_ctx (evm_frames e)) j (stack_of e)) (subcall_continuations e).

(** ** Completion *)

Definition result_gas (r : FrameResult) : Gas := ir_gas (fr_result r).
Definition child_ok (r : FrameResult) : bool :=
  match r with FrCall o => ir_is_ok (ir_result (co_result o)) | FrCreate _ => false end.
Definition child_halts (r : FrameResult) : bool :=
  match r with FrCall o => negb (ir_is_ok_or_revert (ir_result (co_result o))) | FrCreate _ => true end.
Definition completion (r : FrameResult) (c : SubcallContinuation) :=
  sp_complete_subcall (sc_precompile c) (sc_continuation_data c) r.
Definition completion_cost (r : FrameResult) (c : SubcallContinuation) : Z :=
  match completion r c with Ok res => scr_gas_overhead res | Err _ => 0 end.

(** The budget covers what was spent so far, and no sum overflows. *)
Definition within_budget (r : FrameResult) (c : SubcallContinuation) : Prop :=
  0 ≤ sc_init_subcall_gas_overhead c ∧ 0 ≤ total_gas_spent (result_gas r)
  ∧ sc_init_subcall_gas_overhead c + total_gas_spent (result_gas r) ≤ sc_gas_limit c
  ∧ 0 ≤ completion_cost r c ∧ sc_gas_limit c + completion_cost r c < 2 ^ 64.

(** The final result: within the budget, with the costs and the refund of the child. *)
Definition charged (r : FrameResult) (c : SubcallContinuation) (final : FrameResult) : Prop :=
  let g := result_gas final in
  gas_limit_of g = sc_gas_limit c
  ∧ sc_init_subcall_gas_overhead c + total_gas_spent (result_gas r) ≤ total_gas_spent g ≤ sc_gas_limit c
  ∧ (child_halts r = true → total_gas_spent g = sc_gas_limit c)
  ∧ refunded g = (if child_ok final && child_ok r then refunded (result_gas r) else 0)
  ∧ ∃ out, final = subcall_outcome (instruction_result final) out g (sc_return_memory_offset c).

(** The effect on the journal: kept on success, otherwise rolled back to [j0]. *)
Definition settled (j0 : Journal) (e e' : ArcEvm) (r final : FrameResult) : Prop :=
  ∃ j', e' = with_journal e j' ∧ extends_journal j0 j'
    ∧ view j' ≡ (if child_ok r && negb (child_ok final) then view j0 else view (journal_of e)).

Lemma rollback_spec (b : bool) cp j0 e : taken_at cp j0 → extends_journal j0 (journal_of e) →
  ∃ j', (if b then revert_subcall_checkpoint cp else m_ret tt) e = (Ok tt, with_journal e j')
    ∧ extends_journal j0 j' ∧ view j' ≡ (if b then view j0 else view (journal_of e)).
Proof.
  intros T X. destruct b.
  - unfold revert_subcall_checkpoint, m_bind, on_frames, on_j_. cbn.
    destruct (checkpoint_spec (journal_of e)) as (_ & X1 & _). pose proof (transitivity X X1) as X2.
    destruct (checkpoint_revert_spec cp j0 _ T X2) as [X3 V]. eexists. split; [reflexivity|]. by split.
  - exists (journal_of e). split; [|by split]. unfold m_ret, with_journal, journal_of, stack_of. by destruct e as [[] ?].
Qed.

(** Gas recorded on a fresh counter. *)
Lemma recorded_gas l n : 0 ≤ l → 0 ≤ n →
  let '(ok, g) := record_regular_cost (gas_new l) n in
  gas_limit_of g = l ∧ refunded g = 0
  ∧ (if ok : bool then n ≤ l ∧ total_gas_spent g = n ∧ remaining g = l - n else l < n ∧ g = gas_new l).
Proof.
  intros L N. pose proof (record_cost_limit (gas_new l) n) as Gl. pose proof (record_cost_refunded (gas_new l) n) as Rf.
  rewrite limit_new in Gl. rewrite refunded_new in Rf. destruct (decide (n ≤ l)) as [D|D].
  - destruct (record_cost_ok (gas_new l) n) as (g & E & R & _); [rewrite gas_new_remaining; lia|]. rewrite E in *. cbn in *.
    split; [done|]. split; [done|]. split; [done|]. pose proof (spent_remaining g). rewrite gas_new_remaining in R. lia.
  - rewrite (record_cost_oog (gas_new l) n) in * by (rewrite gas_new_remaining; lia). cbn in *. repeat split; auto; lia.
Qed.
Lemma spend_all_spent g : total_gas_spent (spend_all g) = gas_limit_of g.
Proof. pose proof (spent_remaining (spend_all g)). rewrite spend_all_remaining, spend_all_limit in *. lia. Qed.

Lemma settle j0 e r c result out g (T : taken_at (sc_checkpoint c) j0) : extends_journal j0 (journal_of e) →
  ir_is_ok result = false →
  gas_limit_of g = sc_gas_limit c →
  sc_init_subcall_gas_overhead c + total_gas_spent (result_gas r) ≤ total_gas_spent g ≤ sc_gas_limit c →
  (child_halts r = true → total_gas_spent g = sc_gas_limit c) → refunded g = 0 →
  let final := subcall_outcome result out g (sc_return_memory_offset c) in
  let '(res, e') := ((if child_ok r then revert_subcall_checkpoint (sc_checkpoint c) else m_ret tt) ;;; m_ret final) e in
  res = Ok final ∧ charged r c final ∧ settled j0 e e' r final.
Proof.
  intros X NK G B H R final. unfold m_bind. destruct (rollback_spec (child_ok r) (sc_checkpoint c) j0 e T X) as (j' & -> & Xj & V).
  cbn. split; [done|]. unfold charged, settled. cbn. rewrite NK. cbn. split.
  - split_and!; try done; try lia. by eexists.
  - exists j'. rewrite andb_true_r. done.
Qed.

Lemma complete_subcall_spec j0 r c e : taken_at (sc_checkpoint c) j0 → extends_journal j0 (journal_of e) → within_budget r c →
  let '(res, e') := complete_subcall r c e in
  ∃ final, res = Ok final ∧ charged r c final ∧ settled j0 e e' r final.
Proof.
  intros T X (B1 & B2 & B3 & B4 & B5). unfold complete_subcall.
  assert (match r with FrCall outcome => (ir_is_ok (ir_result (co_result outcome)), negb (ir_is_ok_or_revert (ir_result (co_result outcome))))
          | FrCreate _ => (false, true) end = (child_ok r, child_halts r)) as -> by (by destruct r).
  fold (result_gas r) (completion r c) (completion_cost r c). unfold m_bind at 1, m_lift at 1. unfold checked_add.
  rewrite try_from_Some by (unfold uint; lia). cbn [ok_or]. unfold m_bind at 1, m_lift at 1.
  rewrite try_from_Some by (unfold uint; lia). cbn [ok_or].
  set (used := if child_halts r then _ else _).
  assert (sc_init_subcall_gas_overhead c + total_gas_spent (result_gas r) ≤ used
          ∧ (child_halts r = true → sc_gas_limit c ≤ used)) as [U1 U2] by (subst used; destruct (child_halts r); lia).
  pose proof (recorded_gas (sc_gas_limit c) used ltac:(lia) ltac:(lia)) as Rg.
  destruct (record_regular_cost (gas_new (sc_gas_limit c)) used) as [ok g]. destruct Rg as (Gl & Rf & Rg). destruct ok; cbn [negb].
  - destruct Rg as (Le & Sp & _). destruct (completion r c) as [res|err].
    + destruct (scr_success res).
      * unfold m_ret. eexists. split; [done|]. unfold charged, settled. cbn. rewrite andb_false_r. split.
        -- destruct (child_ok r); [destruct (record_refund_frame g (refunded (result_gas r))) as (E1 & _ & E3 & E4); rewrite ?E1, ?E3, ?E4|];
             (split_and!; [lia..|intros H; specialize (U2 H); lia|lia|by eexists]).
        -- exists (journal_of e). split; [|done]. unfold with_journal, journal_of, stack_of. by destruct e as [[] ?].
      * pose proof (settle j0 e r c IrRevert (scr_output res) g T X eq_refl Gl ltac:(lia) ltac:(intros H; specialize (U2 H); lia) Rf) as S.
        cbv zeta in S. destruct (m_bind _ _ e) as [x e']. destruct S as (-> & S). by eexists.
    + pose proof (settle j0 e r c IrRevert [] (spend_all g) T X eq_refl ltac:(by rewrite spend_all_limit)
        ltac:(rewrite spend_all_spent; lia) ltac:(rewrite spend_all_spent; lia) ltac:(by rewrite spend_all_refunded)) as S.
      cbv zeta in S. destruct (m_bind _ _ e) as [x e']. destruct S as (-> & S). by eexists.
  - destruct Rg as [_ ->].
    pose proof (settle j0 e r c IrOutOfGas [] (spend_all (gas_new (sc_gas_limit c))) T X eq_refl ltac:(by rewrite spend_all_limit)
      ltac:(rewrite spend_all_spent; lia) ltac:(rewrite spend_all_spent; lia) ltac:(by rewrite spend_all_refunded)) as S.
    cbv zeta in S. destruct (m_bind _ _ e) as [x e']. destruct S as (-> & S). by eexists.
Qed.

(** ** Dispatch *)

(** A counter with the same limit, no refund, and no more gas than before. *)
Definition drawn (g g' : Gas) : Prop :=
  gas_limit_of g' = gas_limit_of g ∧ 0 ≤ remaining g' ≤ remaining g.

Lemma drawn_trans a b c : drawn a b → drawn b c → drawn a c.
Proof. intros [L1 R1] [L2 R2]. split; [congruence|lia]. Qed.
Lemma record_drawn g n : 0 ≤ remaining g → 0 ≤ n → drawn g (record_regular_cost g n).2.
Proof.
  intros R N. split; [apply record_cost_limit|]. destruct (decide (n ≤ remaining g)) as [D|D].
  - destruct (record_cost_ok g n) as (g' & -> & Rg & _); cbn; lia.
  - rewrite record_cost_oog by lia. cbn. lia.
Qed.

Lemma load_metered_spec j a g : 0 ≤ remaining g →
  let '(r, (g', j')) := load_account_with_code_metered j a g in
  extends_journal j j' ∧ view j' ≡ view j ∧ drawn g g'.
Proof.
  intros R. unfold load_account_with_code_metered. set (skip := bool_decide _).
  pose proof (load_info_frame j a true skip) as [X V]. cbv zeta in X, V.
  destruct (load_account_info_skip_cold_load j a true skip) as [[[[cold info] code]|[|e]] j']; cbn [snd] in *;
    [|split_and!; [done..|split; [done|lia]]|split_and!; [done..|split; [done|lia]]].
  set (cost := if cold then _ else _). assert (0 ≤ cost) as C.
  { subst cost. rewrite COLD_ACCOUNT_ACCESS_COST_val, WARM_STORAGE_READ_COST_val. destruct cold; lia. }
  pose proof (record_drawn g cost R C) as D. destruct (record_regular_cost g cost) as [ok g']. by destruct ok.
Qed.

Lemma quiet_put s j : extends_journal (fs_journal s) j → view j ≡ view (fs_journal s) →
  quiet s (mkFrameState (fs_ctx s) j (fs_stack s)).
Proof. intros X V. by split_and!. Qed.

Lemma load_child_code_spec child g s : 0 ≤ remaining g →
  let '(r, s') := load_child_code child g s in
  quiet s s' ∧ match r with Ok (_, g') => drawn g g' | Err e => db_failure e end.
Proof.
  intros R. unfold load_child_code. pose proof (load_metered_spec (fs_journal s) (ci_target_address child) g R) as L.
  destruct (load_account_with_code_metered _ _ _) as [[[[target code]|]|e] [g1 j1]]; destruct L as (X1 & V1 & D1);
    [|split; [by apply quiet_put|done]|split; [by apply quiet_put|by eexists]].
  destruct (code ≫= eip7702_address) as [d|]; [|split; [by apply quiet_put|done]].
  pose proof (load_metered_spec j1 d g1 ltac:(apply D1)) as L.
  destruct (load_account_with_code_metered j1 d g1) as [[[[del dcode]|]|e] [g2 j2]]; destruct L as (X2 & V2 & D2);
    (assert (quiet s (mkFrameState (fs_ctx s) j2 (fs_stack s))) as Q by (apply quiet_put; [by etrans|by rewrite V2]));
    (split; [done|]); [exact (drawn_trans _ _ _ D1 D2)..|by eexists].
Qed.

Lemma before_call_input fl i s b i' s' : is_call i = true → before_frame_init fl i s = (Ok (b, i'), s') → i' = i.
Proof.
  unfold is_call, before_frame_init. destruct (fi_frame_input i) as [|c|c]; [done| |done]. intros _. cbn [m_bind m_ret].
  unfold m_bind at 1, m_ret at 1. cbn [fst snd]. destruct (extract_call_transfer_params c) as [[[f t] v]|]; [|by intros [= _ <- _]].
  case_decide; [by intros [= _ <- _]|]. unfold m_bind. destruct (check_blocklist_and_create_log _ _ _ _ _ _) as [[x|x] y]; [|done].
  by intros [= _ <- _].
Qed.

(** A subcall settles when its child returns.  The child's frame and its continuation are
    removed; the call succeeds or fails as its precompile says.  Its gas counter has the limit of the
    call; spent is at least what the dispatch and the child cost and at most the limit, all of it
    when the child halted, and the refund of the child counts only when both succeeded.  When the
    child succeeded and the call does not, what the child did is rolled back to the checkpoint.  The
    result goes to the frame that made the call, and no sum of gas overflows. *)
Theorem subcall_completion_settles j0 r c e top below key :
  stack_of e = top :: below → is_finished top = true → frame_depth top = S key → subcall_continuations e !! key = Some c →
  taken_at (sc_checkpoint c) j0 → extends_journal j0 (journal_of e) → within_budget r c →
  let popped := mkArcEvm (mkFrameState (fs_ctx (evm_frames e)) (journal_of e) below) (delete key (subcall_continuations e)) in
  ∃ final e', frame_return_result r e = propagate final e' ∧ charged r c final ∧ settled j0 popped e' r final.
Proof.
  intros St Fin D Lk T X B popped. unfold frame_return_result. fold (stack_of e). rewrite St, Fin, D. cbn [subcall_continuations]. rewrite Lk.
  unfold m_bind, set_continuations. cbn [evm_frames subcall_continuations]. fold (journal_of e) popped.
  pose proof (complete_subcall_spec j0 r c popped T X B) as S. destruct (complete_subcall r c popped) as [res e'].
  destruct S as (final & -> & S). by exists final, e'.
Qed.

(** The call may spawn [child]. *)
Definition authorised (allowed : AllowedCallers) (origin : Z) (ci child : CallInputs Code) : Prop :=
  is_allowed allowed (ci_caller ci) = true ∧ ci_scheme ci = SchemeCall ∧ ci_is_static ci = false
  ∧ transfers_value ci = false ∧ (ci_caller child = ci_caller ci ∨ ci_caller child = origin).

(** The costs a precompile reports are not negative, and adding them to the budget does not overflow
    as long as the output of the child is one that memory can hold. *)
Definition costs_fit (p : SubcallPrecompile) (gas_limit : Z) : Prop :=
  0 ≤ gas_limit < 2 ^ 64
  ∧ (∀ i res, sp_init_subcall p i = Ok res → 0 ≤ sir_gas_overhead res)
  ∧ (∀ d r res, Z.of_nat (length (ir_output (fr_result r))) < 2 ^ 42 → sp_complete_subcall p d r = Ok res →
     0 ≤ scr_gas_overhead res ∧ gas_limit + scr_gas_overhead res < 2 ^ 64).

(** [child] is what the precompile asked for, with the code that was loaded and the gas, and
    [checked_frame_init] was run on it with the frames and the world of the call, with the outcome
    [o] and the frames [s']. *)
Definition spawned (fl : ArcHardforkFlags) (p : SubcallPrecompile) (depth : nat) (ci child : CallInputs Code) (e : ArcEvm)
    (o : FrameInitOutcome) (s' : FrameState) : Prop :=
  ∃ init kb gas s, sp_init_subcall p (resolve_shared_buffer (fs_ctx (evm_frames e)) ci) = Ok init
    ∧ child = with_code_and_gas (child_inputs init) kb gas
    ∧ fs_stack s = stack_of e ∧ view (fs_journal s) ≡ view (journal_of e)
    ∧ checked_frame_init fl (mkFrameInit (S depth) (FiCall child)) s = (Ok o, s').

(** When the child's frame has returned [r], which cost at most its gas, the call is settled: charged
    within its limit, the child rolled back to [j0] if it succeeded and the call does not. *)
Definition settles_later (depth : nat) (child : CallInputs Code) (c : SubcallContinuation) (j0 : Journal) : Prop :=
  ∀ r e2 top below, stack_of e2 = top :: below → is_finished top = true → frame_depth top = S depth →
    subcall_continuations e2 !! depth = Some c → extends_journal j0 (journal_of e2) →
    0 ≤ total_gas_spent (result_gas r) ≤ ci_gas_limit child → Z.of_nat (length (ir_output (fr_result r))) < 2 ^ 42 →
    let popped := mkArcEvm (mkFrameState (fs_ctx (evm_frames e2)) (journal_of e2) below) (delete depth (subcall_continuations e2)) in
    ∃ final e3, frame_return_result r e2 = propagate final e3 ∧ charged r c final ∧ settled j0 popped e3 r final.

(** The continuation kept for the child: a checkpoint of the world before it, to which it settles,
    and a budget that covers the overhead and the 63/64 of the rest that the child got. *)
Definition ready (depth : nat) (e e' : ArcEvm) (ci child : CallInputs Code) (c : SubcallContinuation) : Prop :=
  (∃ j0, taken_at (sc_checkpoint c) j0 ∧ extends_journal j0 (journal_of e') ∧ view j0 ≡ view (journal_of e)
         ∧ settles_later depth child c j0)
  ∧ sc_gas_limit c = ci_gas_limit ci
  ∧ ∃ rest, 0 ≤ rest ∧ 0 ≤ sc_init_subcall_gas_overhead c ∧ sc_init_subcall_gas_overhead c + rest = ci_gas_limit ci
            ∧ ci_gas_limit child = rest - rest / 64.

Definition subcall_result (fl : ArcHardforkFlags) (p : SubcallPrecompile) (allowed : AllowedCallers) (depth : nat)
    (ci : CallInputs Code) (e e' : ArcEvm) (r : result EvmFailure FrameInitOutcome) : Prop :=
  match r with
  | Err err => db_failure err
  | Ok Pushed => ∃ f c child,
      authorised allowed (ctx_tx_caller (fs_ctx (evm_frames e))) ci child
      ∧ spawned fl p depth ci child e Pushed (evm_frames e')
      ∧ stack_of e' = f :: stack_of e ∧ frame_depth f = S depth ∧ is_finished f = false
      ∧ subcall_continuations e' = <[depth := c]> (subcall_continuations e) ∧ ready depth e e' ci child c
  | Ok (Immediate res) =>
      stack_of e' = stack_of e ∧ subcall_continuations e' = subcall_continuations e
      ∧ gas_limit_of (result_gas res) = ci_gas_limit ci ∧ 0 ≤ total_gas_spent (result_gas res) ≤ ci_gas_limit ci
      ∧ if ir_is_ok (instruction_result res)
        then ∃ child r s, authorised allowed (ctx_tx_caller (fs_ctx (evm_frames e))) ci child
               ∧ spawned fl p depth ci child e (Immediate r) s ∧ view (journal_of e') ≡ view (fs_journal s)
        else same_value (view (journal_of e)) (view (journal_of e'))
  end.

(** A refusal before the child is dispatched. *)
Lemma refusal fl p allowed depth ci e e' res : quiet (evm_frames e) (evm_frames e') →
  subcall_continuations e' = subcall_continuations e →
  gas_limit_of (result_gas res) = ci_gas_limit ci → 0 ≤ total_gas_spent (result_gas res) ≤ ci_gas_limit ci →
  ir_is_ok (instruction_result res) = false → subcall_result fl p allowed depth ci e e' (Ok (Immediate res)).
Proof. intros (_ & Q & _ & V) C G S R. cbn. rewrite R. split_and!; [done..|lia|lia|]. by apply same_value_equiv. Qed.

Lemma init_subcall_revert_gas msg ci : 0 ≤ ci_gas_limit ci →
  let g := result_gas (init_subcall_revert msg ci) in
  gas_limit_of g = ci_gas_limit ci ∧ 0 ≤ total_gas_spent g ≤ ci_gas_limit ci.
Proof.
  intros L. unfold init_subcall_revert. pose proof (recorded_gas (ci_gas_limit ci) SUBCALL_DISPATCH_COST L ltac:(by vm_compute)) as R.
  destruct (record_regular_cost _ _) as [ok g]. destruct R as (G & _ & R). cbn. destruct ok.
  - destruct R as (A & -> & _). unfold SUBCALL_DISPATCH_COST in *. lia.
  - rewrite spend_all_limit, spend_all_spent. lia.
Qed.

(** Within the budget a child returns to, the completion settles. *)
Lemma settles_from p limit depth child c j0 : taken_at (sc_checkpoint c) j0 → sc_precompile c = p → sc_gas_limit c = limit →
  (∀ d r res, Z.of_nat (length (ir_output (fr_result r))) < 2 ^ 42 → sp_complete_subcall p d r = Ok res →
     0 ≤ scr_gas_overhead res ∧ limit + scr_gas_overhead res < 2 ^ 64) →
  0 ≤ sc_init_subcall_gas_overhead c ∧ sc_init_subcall_gas_overhead c + ci_gas_limit child ≤ limit < 2 ^ 64 →
  settles_later depth child c j0.
Proof.
  intros T <- <- Cc B r e2 top below S F D Lk X Sp Ol.
  apply (subcall_completion_settles j0 r c e2 top below depth); try done.
  assert (0 ≤ completion_cost r c ∧ sc_gas_limit c + completion_cost r c < 2 ^ 64) as [Cb1 Cb2].
  { unfold completion_cost, completion. destruct (sp_complete_subcall _ _ _) as [res|] eqn:Co; [exact (Cc _ _ _ Ol Co)|lia]. }
  unfold within_budget. lia.
Qed.

Lemma dispatch_child_spec fl p init allowed ci depth kb g e e1 : costs_fit p (ci_gas_limit ci) →
  sp_init_subcall p (resolve_shared_buffer (fs_ctx (evm_frames e)) ci) = Ok init →
  quiet (evm_frames e) (evm_frames e1) → subcall_continuations e1 = subcall_continuations e →
  authorised allowed (ctx_tx_caller (fs_ctx (evm_frames e))) ci (child_inputs init) →
  gas_limit_of g = ci_gas_limit ci → 0 ≤ remaining g ≤ ci_gas_limit ci →
  let '(r, e') := dispatch_child fl p init ci depth kb g e1 in
  subcall_result fl p allowed depth ci e e' r.
Proof.
  intros (L & _ & Cc) In Q Ce Au Gl Rm. unfold dispatch_child. unfold m_bind at 1, on_frames at 1, on_j_ at 1.
  destruct (checkpoint_spec (fs_journal (evm_frames e1))) as (T & X1 & V1).
  destruct (checkpoint (fs_journal (evm_frames e1))) as [cp j1]. cbn [fst snd] in *.
  unfold m_bind at 1, on_frames at 1, on_j_ at 1. cbn [fs_ctx fs_stack fs_journal evm_frames subcall_continuations].
  destruct (checkpoint_commit_spec j1) as [X2 V2].
  set (child := with_code_and_gas _ _ _). set (cont := mkSubcallContinuation _ _ _ _ _ _).
  set (s2 := mkFrameState _ _ _). set (i := mkFrameInit (S depth) (FiCall child)).
  assert (extends_journal (fs_journal (evm_frames e1)) (fs_journal s2)) as X12 by (by etrans).
  assert (view (fs_journal s2) ≡ view (fs_journal (evm_frames e))) as Vs.
  { cbn. rewrite V2, V1. apply Q. }
  pose proof (spent_remaining g) as Sr. assert (0 ≤ frame_gas_limit i) as Gi.
  { cbn. assert (remaining g / 64 ≤ remaining g) by (apply Z.div_le_upper_bound; lia). lia. }
  unfold m_bind at 1, on_frames at 1. cbn [evm_frames subcall_continuations].
  pose proof (checked_frame_init_spec fl i s2 ltac:(by split)) as Ck.
  destruct (checked_frame_init fl i s2) as [[o|err] s3] eqn:Cf; destruct Ck as (X3 & _ & _ & Ck); [|exact Ck].
  destruct (checked_grows i s2 s3 o Gi Ck) as [Gr Ef].
  assert (authorised allowed (ctx_tx_caller (fs_ctx (evm_frames e))) ci child) as Ac by exact Au. pose proof Q as (_ & Qs & _ & Qv).
  assert (spawned fl p depth ci child e o s3) as Sw by (by exists init, kb, (remaining g - remaining g / 64), s2).
  destruct o as [|r]; cbn in Gr.
  - destruct Gr as (f & Sf & Df & Ff). cbn. exists f, cont, child. split; [done|]. split; [done|].
    split; [unfold stack_of; cbn; by rewrite Sf, <- Qs|]. split; [done|]. split; [done|]. split; [by rewrite <- Ce|]. split.
    + exists (fs_journal (evm_frames e1)). split; [done|]. split; [by etrans|]. split; [done|].
      assert (0 ≤ remaining g / 64) by (apply Z.div_pos; lia).
      apply (settles_from p (ci_gas_limit ci)); [done..| |cbn; lia]. intros d r res. apply Cc.
    + split; [done|]. exists (remaining g). cbn. lia.
  - destruct Gr as (Sf & Sp & Ol & K). destruct (K eq_refl) as [oc ->].
    pose proof (complete_subcall_spec (fs_journal (evm_frames e1)) (FrCall oc) cont (mkArcEvm s3 (subcall_continuations e1)) T
      ltac:(cbn; by etrans)) as Cs.
    unfold m_bind. destruct (complete_subcall _ _ _) as [x e']. destruct Cs as (final & -> & Ch & (j' & -> & Xj & Vj)).
    { assert (0 ≤ remaining g / 64) by (apply Z.div_pos; lia).
      assert (0 ≤ completion_cost (FrCall oc) cont ∧ ci_gas_limit ci + completion_cost (FrCall oc) cont < 2 ^ 64) as [Cb1 Cb2].
      { unfold completion_cost. destruct (completion (FrCall oc) cont) as [res|] eqn:Co; [exact (Cc _ _ _ Ol Co)|lia]. }
      unfold within_budget, result_gas. change (sc_gas_limit cont) with (ci_gas_limit ci).
      change (sc_init_subcall_gas_overhead cont) with (total_gas_spent g). change (frame_gas_limit i) with (remaining g - remaining g / 64) in Sp.
      lia. }
    cbn [m_ret]. destruct Ch as (C1 & C2 & _ & _ & out & Fo). cbn [subcall_result].
    assert (child_ok final = ir_is_ok (instruction_result final)) as Ck' by (by rewrite Fo). rewrite <- Ck'.
    split; [change (fs_stack s3 = fs_stack (evm_frames e)); rewrite Sf; exact Qs|]. split; [done|]. split; [done|].
    change (sc_gas_limit cont) with (ci_gas_limit ci) in *. change (sc_init_subcall_gas_overhead cont) with (total_gas_spent g) in *.
    unfold result_gas in *. split; [lia|].
    destruct (child_ok final) eqn:Cfn; [exists child, (FrCall oc), s3; rewrite andb_false_r in Vj; by split_and!|]. rewrite andb_true_r in Vj. cbn [journal_of with_journal evm_frames fs_journal].
    destruct (child_ok (FrCall oc)) eqn:Co.
    + apply same_value_equiv. by rewrite Vj.
    + eapply same_value_trans; [apply same_value_equiv; exact Vs|]. eapply same_value_trans; [exact (Ef Co)|].
      by apply same_value_equiv.
Qed.

Lemma resolve_same ctx ci : let ci' := resolve_shared_buffer ctx ci in
  ci_gas_limit ci' = ci_gas_limit ci ∧ ci_caller ci' = ci_caller ci
  ∧ ∀ allowed origin child, authorised allowed origin ci' child ↔ authorised allowed origin ci child.
Proof.
  unfold resolve_shared_buffer. destruct (ci_input ci); [|done]. split; [done|]. split; [done|]. intros. unfold authorised.
  rewrite !transfers_value_spec. done.
Qed.

Lemma resolve_twice ctx ci : resolve_shared_buffer ctx (resolve_shared_buffer ctx ci) = resolve_shared_buffer ctx ci.
Proof. unfold resolve_shared_buffer. by destruct (ci_input ci) eqn:E; rewrite ?E. Qed.

Lemma subcall_result_same fl p allowed depth ci ci' e e' r : ci_gas_limit ci' = ci_gas_limit ci →
  (∀ allowed origin child, authorised allowed origin ci' child ↔ authorised allowed origin ci child) →
  resolve_shared_buffer (fs_ctx (evm_frames e)) ci' = resolve_shared_buffer (fs_ctx (evm_frames e)) ci →
  subcall_result fl p allowed depth ci' e e' r → subcall_result fl p allowed depth ci e e' r.
Proof.
  intros G A Rs. unfold subcall_result, spawned. rewrite Rs. destruct r as [[|res]|err]; [..|done].
  - intros (f & c & child & Au & Sw & S & D & F & C & R). exists f, c, child. split; [by apply A|]. split_and!; try done.
    unfold ready in *. by rewrite <- G.
  - rewrite G. intros (S & C & Gl & Sp & O). split_and!; try done; try lia. destruct (ir_is_ok _); [|done].
    destruct O as (child & r & s & Au & O). exists child, r, s. split; [by apply A|done].
Qed.

Lemma quiet_frames_trans (e e1 : ArcEvm) s : quiet (evm_frames e) (evm_frames e1) → quiet (evm_frames e1) s → quiet (evm_frames e) s.
Proof. intros (A1 & A2 & A3 & A4) (B1 & B2 & B3 & B4). split_and!; [congruence..|by etrans|by rewrite B4]. Qed.

(** The part of [init_subcall] after the checks on the call. *)
Lemma init_subcall_spec fl i p allowed ci e e1 : fi_frame_input i = FiCall ci → is_allowed allowed (ci_caller ci) = true →
  costs_fit p (ci_gas_limit ci) → quiet (evm_frames e) (evm_frames e1) → subcall_continuations e1 = subcall_continuations e →
  let '(r, e') := init_subcall fl i p e1 in subcall_result fl p allowed (fi_depth i) ci e e' r.
Proof.
  intros Fi Al Co Q Ce. unfold init_subcall. rewrite Fi. pose proof Co as (L & Ci & _).
  assert (∀ msg c, ci_gas_limit c = ci_gas_limit ci → subcall_result fl p allowed (fi_depth i) ci e e1 (Ok (Immediate (init_subcall_revert msg c)))) as Rv.
  { intros msg c E. destruct (init_subcall_revert_gas msg c ltac:(lia)) as [G S]. rewrite E in *. apply refusal; try done.
    unfold init_subcall_revert. by destruct (record_regular_cost _ _). }
  assert (∀ e2 g mo, quiet (evm_frames e) (evm_frames e2) → subcall_continuations e2 = subcall_continuations e →
    gas_limit_of g = ci_gas_limit ci → subcall_result fl p allowed (fi_depth i) ci e e2 (Ok (Immediate (subcall_oog (spend_all g) mo)))) as Og.
  { intros e2 g mo Q2 C2 G. apply refusal; try done; unfold result_gas; cbn; rewrite ?spend_all_limit, ?spend_all_spent; lia || done. }
  case_decide as Sc; [by apply Rv|]. destruct (ci_is_static ci) eqn:St.
  { apply refusal; try done; unfold result_gas; cbn; rewrite ?spend_all_limit, ?spend_all_spent, limit_new; lia || done. }
  destruct (transfers_value ci) eqn:Tv; [by apply Rv|]. unfold m_bind at 1, m_get at 1.
  destruct (resolve_same (fs_ctx (evm_frames e1)) ci) as (Rg & Rc & Ra). set (ci' := resolve_shared_buffer _ ci) in *.
  assert (resolve_shared_buffer (fs_ctx (evm_frames e)) ci' = ci') as Rt by (unfold ci'; destruct Q as (-> & _); apply resolve_twice).
  destruct (sp_init_subcall p ci') as [init|err] eqn:In; [|by apply Rv]. case_decide as Sp; [by apply Rv|].
  assert (authorised allowed (ctx_tx_caller (fs_ctx (evm_frames e))) ci' (child_inputs init)) as Au.
  { apply Ra. split_and!; try done. destruct Q as (<- & _). rewrite <- Rc. 
    destruct (decide (ci_caller (child_inputs init) = ci_caller ci')); [by left|].
    destruct (decide (ci_caller (child_inputs init) = ctx_tx_caller (fs_ctx (evm_frames e1)))); [by right|]. by destruct Sp. }
  unfold m_bind at 1, on_frames at 1, on_j at 1.
  pose proof (load_account_quiet (ci_caller (child_inputs init)) (evm_frames e1)) as Q1.
  destruct (load_account _ (ci_caller (child_inputs init))) as [[acc|er] j1]; cbn [map_err snd] in *; [|by eexists].
  set (e2 := mkArcEvm _ _). pose proof (quiet_frames_trans e e1 (evm_frames e2) Q Q1) as Q2.
  pose proof (recorded_gas (ci_gas_limit ci') (sir_gas_overhead init) ltac:(lia) (Ci _ _ In)) as Rc'.
  destruct (record_regular_cost (gas_new (ci_gas_limit ci')) (sir_gas_overhead init)) as [ok g]. destruct Rc' as (Gl & _ & Rc').
  destruct ok; cbn [negb]; [|apply Og; [done..|congruence]].
  destruct Rc' as (Le & _ & Rm). assert (0 ≤ sir_gas_overhead init) as Ov by exact (Ci _ _ In).
  unfold m_bind at 1, on_frames at 1. pose proof (load_child_code_spec (child_inputs init) g (evm_frames e2) ltac:(lia)) as Lc.
  destruct (load_child_code (child_inputs init) g (evm_frames e2)) as [[[[kb|] g2]|er] s3]; destruct Lc as [Q3 Lc]; [..|done].
  - pose proof (dispatch_child_spec fl p init allowed ci' (fi_depth i) kb g2 e (mkArcEvm s3 (subcall_continuations e2))
      ltac:(by rewrite Rg) ltac:(by rewrite Rt) ltac:(by eapply quiet_frames_trans) Ce Au ltac:(destruct Lc; congruence) ltac:(destruct Lc; lia)) as D.
    destruct (dispatch_child _ _ _ _ _ _ _ _) as [r e']. apply (subcall_result_same fl p allowed (fi_depth i) ci ci'); [done..| |done].
    rewrite Rt. unfold ci'. by destruct Q as (-> & _).
  - apply Og; [by eapply quiet_frames_trans|done|]. destruct Lc. congruence.
Qed.
(** The costs of [callFrom]. *)
Lemma abi_gas_bound base n : 0 ≤ base ≤ 100 → 0 ≤ n < 2 ^ 42 → 0 ≤ GAS_COPY ≤ 100 →
  0 ≤ saturating_add 64 base (saturating_mul 64 (div_ceil n 32) GAS_COPY) < 2 ^ 60.
Proof.
  intros B N G. unfold saturating_add, saturating_mul, div_ceil, uint_max.
  assert (0 ≤ (n + 32 - 1) / 32 < 2 ^ 42) as D by (split; [apply Z.div_pos; lia|apply Z.div_lt_upper_bound; lia]).
  assert (0 ≤ (n + 32 - 1) / 32 * GAS_COPY ≤ 2 ^ 42 * 100) as X by nia. lia.
Qed.

Lemma call_from_costs_fit state gas_limit : 0 ≤ GAS_COPY ≤ 100 → 0 ≤ gas_limit < 2 ^ 63 → costs_fit (CallFromPrecompile state) gas_limit.
Proof.
  intros G L. split_and!; [lia|lia|..].
  - intros i res. cbn. unfold decode_child_call. destruct (ci_input i) as [|b]; [done|]. destruct (decode_callFrom b) as [[[sd t] cd]|]; cbn; [|done].
    destruct (checked_sub _ _ _); cbn; [|done]. intros [= <-]. cbn. unfold abi_decode_gas, ABI_DECODE_BASE_GAS, saturating_add, saturating_mul, uint_max, div_ceil.
    assert (0 ≤ (Z.of_nat (length cd) + 32 - 1) / 32) by (apply Z.div_pos; lia). nia.
  - intros d r res Ol. cbn. destruct r as [o|o]; [|done]. intros [= <-]. cbn in *.
    pose proof (abi_gas_bound ABI_ENCODE_BASE_GAS (Z.of_nat (length (ir_output (co_result o)))) ltac:(by vm_compute) ltac:(lia) G).
    unfold abi_encode_gas. lia.
Qed.

(** C7: Subcalls are authorised, paid for and atomic.  A call of a registered precompile spawns a
    child only when its caller is allowed, it is a plain CALL without value outside a static
    context, and the child runs for that caller or the origin of the transaction.  The child gets
    63/64 of the budget left after the overhead.  The child is the one the precompile asked for, and
    its frame is the one pushed; the continuation kept at the depth of the call
    has a checkpoint of the world before it.  When the child's frame returns, the call is charged
    between what was spent and its limit, and if the child succeeded and the call does not, the
    world is back at that checkpoint.  A call that ends at once spends at most its own limit,
    keeps frames and continuations, and when it fails leaves balances, storage and logs as they
    were.  It fails otherwise only when the database does: no sum of gas overflows. *)
Theorem subcalls_authorised_and_atomic fl reg i ci p allowed e : fi_frame_input i = FiCall ci →
  reg !! ci_target_address ci = Some (p, allowed) → costs_fit p (ci_gas_limit ci) →
  let '(r, e') := frame_init fl reg i e in subcall_result fl p allowed (fi_depth i) ci e e' r.
Proof.
  intros Fi Rg Co. unfold frame_init. rewrite Fi, Rg. pose proof Co as (L & _).
  destruct (is_allowed allowed (ci_caller ci)) eqn:Al; cbn [negb].
  2: { destruct (init_subcall_revert_gas "unauthorized caller" ci ltac:(lia)) as [G S]. apply refusal; try done.
       unfold init_subcall_revert. by destruct (record_regular_cost _ _). }
  assert (is_call i = true) as Ic by (unfold is_call; by rewrite Fi).
  assert (frame_gas_limit i = ci_gas_limit ci) as Gi by (unfold frame_gas_limit; by rewrite Fi).
  pose proof (before_frame_init_spec fl i (evm_frames e) ltac:(split; [lia|by rewrite Fi])) as B.
  unfold m_bind at 1, on_frames at 1. destruct (before_frame_init fl i (evm_frames e)) as [[[b i']|er] s1] eqn:Eb;
    destruct B as [Q B]; [|exact B].
  pose proof (before_call_input _ _ _ _ _ _ Ic Eb) as ->. cbn [fst snd]. destruct B as [_ Hk].
  pose proof (init_subcall_spec fl i p allowed ci e (mkArcEvm s1 (subcall_continuations e)) Fi Al Co Q eq_refl) as In.
  destruct b as [log g|g|res|]; try exact In. assert (refused i res) as (Rv & Sp & Gl & _).
  { unfold hook_outcome, check_outcome in Hk. destruct (frame_value _ i) as [[[f t] v]|]; [|done].
    destruct (transfer_allowed _ f t); [done|]. by destruct Hk as (r & [= <-] & R). }
  apply refusal; try done; unfold result_gas; [congruence|lia|by rewrite Rv].
Qed.
End SubcallProps.
