(* ===== verification/SubcallRuns.v ===== *)
(** * Runs of the frame loop

    The loop of revm that drives [frame_init] and [frame_return_result] (run_exec_loop), as a
    relation: which frames are children of subcalls, and which continuation belongs to which. *)

From S2P Require Import Prelude Hardforks Revm Precompile NativeCoin Frames FramesProps Subcall SubcallProps.

Section SubcallRuns.
Context `{FL : FrameLaws} {CF : CallFromOps} {Any : Type}.
Abbreviation ArcEvm := (ArcEvm (Any := Any)).
Abbreviation SubcallContinuation := (SubcallContinuation (Any := Any)).
Abbreviation SubcallPrecompile := (SubcallPrecompile (Any := Any)).
Abbreviation Registry := (gmap Z (SubcallPrecompile * AllowedCallers)).

(** ** Steps that keep the stack *)

Definition still {A} (P : A → Prop) (m : M FrameState EvmFailure A) : Prop := ∀ s,
  fs_stack (m s).2 = fs_stack s ∧ match (m s).1 with Ok a => P a | Err _ => True end.

Lemma still_ret {A} (P : A → Prop) a : P a → still P (m_ret a).
Proof. by intros H s. Qed.
Lemma still_lift {A} (r : result EvmFailure A) : still (λ _, True) (m_lift r).
Proof. intros s. by destruct r. Qed.
Lemma still_on_j {A} f : still (λ _ : A, True) (on_j f).
Proof. intros s. unfold on_j. destruct (f _) as [[] ?]; done. Qed.
Lemma still_on_j_ {A} f : still (λ _ : A, True) (on_j_ f).
Proof. intros s. unfold on_j_. destruct (f _); done. Qed.
Lemma still_get {A} (f : FrameState → A) : still (λ _, True) (λ s, (Ok (f s), s)).
Proof. by intros s. Qed.
Lemma still_bind {A B} (P : A → Prop) (Q : B → Prop) m k : still P m → (∀ a, P a → still Q (k a)) → still Q (m_bind m k).
Proof.
  intros H K s. unfold m_bind. destruct (H s) as [S R]. destruct (m s) as [[a|e] s1]; cbn in *; [|done].
  destruct (K a R s1) as [S2 R2]. split; [congruence|done].
Qed.
Lemma still_weaken {A} (P Q : A → Prop) m : (∀ a, P a → Q a) → still P m → still Q m.
Proof. intros W H s. destruct (H s) as [S R]. split; [done|]. destruct ((m s).1); auto. Qed.

Create HintDb still.
#[local] Hint Resolve still_ret still_lift still_on_j still_on_j_ still_get : still.
Ltac still :=
  lazymatch goal with
  | |- still _ (if ?b then _ else _) => destruct b; still
  | |- still _ (match ?x with _ => _ end) => destruct x; still
  | |- still _ (m_bind _ _) => eapply still_bind; [|intros ? ?; cbv beta]; still
  | |- _ => eauto with still
  end.

Lemma still_blocklisted a : still (λ _, True) (is_address_blocklisted a).
Proof. unfold is_address_blocklisted. still. Qed.
#[local] Hint Resolve still_blocklisted : still.
Lemma still_selfdestructed fl to : still (λ _, True) (target_is_selfdestructed fl to).
Proof. unfold target_is_selfdestructed. still. Qed.
#[local] Hint Resolve still_selfdestructed : still.
Lemma still_reverted o : still (λ _, True) (f_reverted o).
Proof. unfold f_reverted. still. Qed.
#[local] Hint Resolve still_reverted : still.
Lemma still_check fl from to amount i : still (λ _, True) (check_blocklist_and_create_log fl from to amount i).
Proof. unfold check_blocklist_and_create_log. still. Qed.
#[local] Hint Resolve still_check : still.
Lemma still_create c d : still (λ _, True) (extract_and_normalize_create_transfer_params c d).
Proof. unfold extract_and_normalize_create_transfer_params. still. Qed.
#[local] Hint Resolve still_create : still.

Lemma still_before fl i : still (λ r, fi_depth r.2 = fi_depth i) (before_frame_init fl i).
Proof.
  unfold before_frame_init. apply (still_bind (λ r, fi_depth r.2 = fi_depth i)).
  - still.
  - intros [p i'] D. cbn in *. still.
Qed.
(** ** Steps that may push a frame *)

Definition grows (depth : nat) (m : M FrameState EvmFailure FrameInitOutcome) : Prop := ∀ s,
  match m s with
  | (Ok Pushed, s') => ∃ f, fs_stack s' = f :: fs_stack s ∧ frame_depth f = depth ∧ is_finished f = false
  | (Ok (Immediate _), s') => fs_stack s' = fs_stack s
  | (Err _, _) => True
  end.

Lemma grows_bind {A} (P : A → Prop) d m k : still P m → (∀ a, P a → grows d (k a)) → grows d (m_bind m k).
Proof.
  intros H K s. unfold m_bind. destruct (H s) as [S R]. destruct (m s) as [[a|e] s1]; cbn in *; [|done].
  specialize (K a R s1). rewrite S in K. done.
Qed.
Lemma grows_init i k : (∀ r, still (λ o, o = frame_init_outcome r) (k r)) → grows (fi_depth i) (m_bind (init_frame i) k).
Proof.
  intros K s. unfold m_bind, init_frame. destruct (init_with_context _ _ i) as [[[f|r]|e] [c j]] eqn:E; [..|done].
  - destruct (init_item _ _ _ _ _ _ E) as [D F]. destruct (K (Item tt) (mkFrameState c j (f :: fs_stack s))) as [S R].
    destruct (k (Item tt) _) as [[o|e] s']; cbn in *; [|done]. subst o. by exists f.
  - destruct (K (Result_ r) (mkFrameState c j (fs_stack s))) as [S R].
    destruct (k (Result_ r) _) as [[o|e] s']; cbn in *; [|done]. by subst o.
Qed.

Lemma grows_deferred i o : grows (fi_depth i) (init_deferred_frame_with_transfer_log i o).
Proof. apply grows_init. intros r. still. Qed.
Lemma grows_precompile i o : grows (fi_depth i) (init_precompile_frame_with_transfer_log i o).
Proof.
  unfold init_precompile_frame_with_transfer_log. destruct o as [log|]; [|apply grows_init; intros r; still].
  apply (grows_bind (λ _, True)); [still|intros cp _]. apply (grows_bind (λ _, True)); [still|intros _ _].
  apply grows_init. intros r. still.
Qed.
Lemma grows_checked fl i : grows (fi_depth i) (checked_frame_init fl i).
Proof.
  unfold checked_frame_init. apply (grows_bind _ _ _ _ (still_before fl i)). intros [b i'] D. cbn [fst snd] in *. rewrite <- D.
  destruct b; try by intros s; cbn.
  all: destruct (is_precompile_call i'); [apply grows_precompile|apply grows_deferred].
Qed.

(** ** Subcalls *)

Definition kept (e e' : ArcEvm) : Prop := stack_of e' = stack_of e ∧ subcall_continuations e' = subcall_continuations e.

Lemma kept_frames {A} (P : A → Prop) m e : still P m → kept e (on_frames m e).2.
Proof. intros H. unfold on_frames, kept, stack_of. destruct (H (evm_frames e)) as [S _]. by destruct (m (evm_frames e)) as [r s']. Qed.

Lemma complete_kept r c e : kept e (complete_subcall r c e).2.
Proof.
  assert (∀ (b : bool) (x : FrameResult) (e : ArcEvm), kept e (((if b then revert_subcall_checkpoint (sc_checkpoint c) else m_ret tt) ;;; m_ret x) e).2) as Rb.
  { intros b x e0. destruct b; [|by split]. unfold revert_subcall_checkpoint, m_bind, on_frames, on_j_. by split. }
  unfold complete_subcall. destruct (match r with FrCall _ => _ | FrCreate _ => _ end) as [ok halted].
  unfold m_bind at 1, m_lift at 1. destruct (ok_or (checked_add _ _ _) _) as [m|]; [|done].
  unfold m_bind at 1, m_lift at 1. destruct (ok_or (checked_add _ _ _) _) as [u|]; [|done].
  destruct (record_regular_cost _ _) as [paid g]. destruct paid; cbn [negb]; [|apply Rb].
  destruct (sp_complete_subcall _ _ _) as [res|]; [destruct (scr_success res); [done|]|]; apply Rb.
Qed.

(** What [frame_init] of a call at [depth] did, [sub] when it spawned a subcall. *)
Definition started (sub : bool) (depth : nat) (e e' : ArcEvm) (r : result EvmFailure FrameInitOutcome) : Prop :=
  match r with
  | Ok Pushed => ∃ f, stack_of e' = f :: stack_of e ∧ frame_depth f = (depth + Nat.b2n sub)%nat ∧ is_finished f = false
      ∧ if sub then ∃ c, subcall_continuations e' = <[depth := c]> (subcall_continuations e)
        else subcall_continuations e' = subcall_continuations e
  | Ok (Immediate _) => kept e e'
  | Err _ => True
  end.

Lemma started_bind {A} (P : A → Prop) sub d m k e : still P m →
  (∀ a e1, P a → kept e e1 → let '(r, e') := k a e1 in started sub d e1 e' r) →
  let '(r, e') := m_bind (on_frames m) k e in started sub d e e' r.
Proof.
  intros H K. pose proof (kept_frames P m e H) as Kp. destruct (H (evm_frames e)) as [_ R].
  unfold m_bind, on_frames in *. destruct (m (evm_frames e)) as [[a|x] s1]; cbn in *; [|done].
  specialize (K a _ R Kp). destruct (k a _) as [r e']. destruct Kp as [K1 K2]. unfold started, kept in *. by rewrite K1, K2 in K.
Qed.

Lemma dispatch_started fl p init ci d kb g e : let '(r, e') := dispatch_child fl p init ci d kb g e in started true d e e' r.
Proof.
  unfold dispatch_child. apply (started_bind (λ _, True)); [apply still_on_j_|intros cp e1 _ _].
  apply (started_bind (λ _, True)); [apply still_on_j_|intros _ e2 _ _].
  set (child := with_code_and_gas _ _ _). set (cont := mkSubcallContinuation _ _ _ _ _ _).
  pose proof (grows_checked fl (mkFrameInit (S d) (FiCall child)) (evm_frames e2)) as G. unfold m_bind at 1, on_frames at 1.
  destruct (checked_frame_init _ _ _) as [[[|r]|x] s3]; [..|done].
  - destruct G as (f & S & D & F). cbn. exists f. split; [done|]. split; [rewrite D; cbn; lia|]. split; [done|]. by exists cont.
  - pose proof (complete_kept r cont (mkArcEvm s3 (subcall_continuations e2))) as [K1 K2]. unfold m_bind.
    destruct (complete_subcall _ _ _) as [[fin|x] e3]; [|done]. cbn in *. unfold kept. rewrite K1, K2. done.
Qed.

Lemma load_child_still child g : still (λ _, True) (load_child_code child g).
Proof.
  intros s. unfold load_child_code.
  destruct (load_account_with_code_metered (fs_journal s) _ g) as [[[[t code]|]|x] [g1 j1]]; [|done..].
  destruct (code ≫= eip7702_address) as [d|]; [|done].
  destruct (load_account_with_code_metered j1 d g1) as [[[[t2 code2]|]|x] [g2 j2]]; done.
Qed.

Lemma init_subcall_started fl i p e : let '(r, e') := init_subcall fl i p e in started true (fi_depth i) e e' r.
Proof.
  unfold init_subcall. destruct (fi_frame_input i) as [|ci|c];
    [unfold m_bind, m_lift; destruct (ok_or _ _); done| |unfold m_bind, m_lift; destruct (ok_or _ _); done].
  case_decide; [done|]. destruct (ci_is_static ci); [done|]. destruct (transfers_value ci); [done|]. unfold m_bind at 1, m_get at 1.
  destruct (sp_init_subcall _ _) as [init|]; [|done]. case_decide; [done|].
  apply (started_bind (λ _, True)); [apply still_on_j|intros acc e1 _ _].
  destruct (record_regular_cost _ _) as [ok g]. destruct ok; cbn [negb]; [|done].
  apply (started_bind (λ _, True)); [apply load_child_still|intros [[kb|] g2] e2 _ _]; [|done]. apply dispatch_started.
Qed.

(** The call is one of a registered precompile. *)
Definition spawns (reg : Registry) (i : FrameInit Code) : bool :=
  match fi_frame_input i with FiCall ci => bool_decide (is_Some (reg !! ci_target_address ci)) | _ => false end.

Lemma frame_init_started fl reg i e : let '(r, e') := frame_init fl reg i e in started (spawns reg i) (fi_depth i) e e' r.
Proof.
  assert (let '(r, e') := on_frames (checked_frame_init fl i) e in started false (fi_depth i) e e' r) as C.
  { unfold on_frames. pose proof (grows_checked fl i (evm_frames e)) as G. destruct (checked_frame_init fl i (evm_frames e)) as [[[|r]|x] s]; [..|done].
    - destruct G as (f & S & D & F). exists f. cbn. by rewrite Nat.add_0_r.
    - by split. }
  unfold frame_init, spawns. destruct (fi_frame_input i) as [|ci|c]; [done| |done].
  destruct (reg !! ci_target_address ci) as [[p allowed]|]; [|done]. rewrite bool_decide_true by done.
  destruct (is_allowed allowed _); cbn [negb]; [|done].
  apply (started_bind _ _ _ _ _ _ (still_before fl i)). intros [b i'] e1 D _. cbn [fst snd] in *. rewrite <- D.
  destruct b; try done; apply init_subcall_started.
Qed.
(** ** The loop *)

(** The frame on top has run: it and the context changed, not its place. *)
Definition ran (e e1 : ArcEvm) : Prop := ∃ f f' below,
  stack_of e = f :: below ∧ stack_of e1 = f' :: below ∧ frame_depth f' = frame_depth f
  ∧ subcall_continuations e1 = subcall_continuations e.
Definition top_finished (e : ArcEvm) (b : bool) : Prop := ∃ f below, stack_of e = f :: below ∧ is_finished f = b.
(** The depth of a call that the frame on top makes. *)
Definition call_depth (e : ArcEvm) : nat := match stack_of e with f :: _ => S (frame_depth f) | [] => 0 end.
(** The continuation of the frame that a call pushed, if it is the child of a subcall. *)
Definition tag_of (reg : Registry) (i : FrameInit Code) (e' : ArcEvm) : option SubcallContinuation :=
  if spawns reg i then subcall_continuations e' !! fi_depth i else None.

Inductive driven (fl : ArcHardforkFlags) (reg : Registry) : list (option SubcallContinuation) → ArcEvm → Prop :=
| driven_start i e e' : stack_of e = [] → subcall_continuations e = ∅ → fi_depth i = 0%nat →
    frame_init fl reg i e = (Ok Pushed, e') → driven fl reg [tag_of reg i e'] e'
| driven_run tags e e' : driven fl reg tags e → ran e e' → driven fl reg tags e'
| driven_call tags i e e' : driven fl reg tags e → top_finished e false → fi_depth i = call_depth e →
    frame_init fl reg i e = (Ok Pushed, e') → driven fl reg (tag_of reg i e' :: tags) e'
| driven_immediate tags i r e e1 e' : driven fl reg tags e → top_finished e false → fi_depth i = call_depth e →
    frame_init fl reg i e = (Ok (Immediate r), e1) → frame_return_result r e1 = (Ok None, e') → driven fl reg tags e'
| driven_return tag tags r e e' : driven fl reg (tag :: tags) e → top_finished e true →
    frame_return_result r e = (Ok None, e') → driven fl reg tags e'.

(** Depths and continuations as the tags give them. *)
Fixpoint next_depth (tags : list (option SubcallContinuation)) : nat :=
  match tags with [] => 0 | t :: ts => S (next_depth ts + Nat.b2n (bool_decide (is_Some t))) end.
Fixpoint continuations_of (tags : list (option SubcallContinuation)) : gmap nat SubcallContinuation :=
  match tags with
  | [] => ∅
  | Some c :: ts => <[next_depth ts := c]> (continuations_of ts)
  | None :: ts => continuations_of ts
  end.
Fixpoint placed (tags : list (option SubcallContinuation)) (stack : list Frame) : Prop :=
  match tags, stack with
  | [], [] => True
  | t :: ts, f :: fs => frame_depth f = (next_depth ts + Nat.b2n (bool_decide (is_Some t)))%nat ∧ placed ts fs
  | _, _ => False
  end.
Definition run_inv (tags : list (option SubcallContinuation)) (e : ArcEvm) : Prop :=
  placed tags (stack_of e) ∧ subcall_continuations e = continuations_of tags.

Lemma continuations_lt tags k c : continuations_of tags !! k = Some c → (k < next_depth tags)%nat.
Proof.
  revert k. induction tags as [|[d|] ts IH]; intros k; cbn; [done|..].
  - rewrite lookup_insert. case_decide as E; [intros _; lia|]. intros L%IH. lia.
  - intros L%IH. lia.
Qed.
Lemma continuations_fresh tags : continuations_of tags !! next_depth tags = None.
Proof. destruct (continuations_of tags !! next_depth tags) eqn:E; [|done]. apply continuations_lt in E. lia. Qed.

(** The key under which [frame_return_result] looks for the continuation of [top]. *)
Definition continuation_for (e : ArcEvm) (top : Frame) : option SubcallContinuation :=
  match frame_depth top with S key => subcall_continuations e !! key | O => None end.

Lemma continuation_own t ts e top below : run_inv (t :: ts) e → stack_of e = top :: below → continuation_for e top = t.
Proof.
  intros [P C] S. rewrite S in P. destruct P as [D P]. unfold continuation_for. rewrite D, C. destruct t as [c|]; cbn.
  - rewrite Nat.add_1_r. apply lookup_insert_eq.
  - rewrite Nat.add_0_r. destruct ts as [|[d|] ts]; cbn; [done|..].
    + rewrite lookup_insert_ne by lia. destruct (continuations_of ts !! _) eqn:L; [|done]. apply continuations_lt in L. lia.
    + rewrite Nat.add_0_r. apply continuations_fresh.
Qed.

Lemma propagate_placed tags (e e' : ArcEvm) r o : run_inv tags e → propagate r e = (Ok o, e') →
  run_inv tags e' ∧ (is_Some o ↔ stack_of e' = []).
Proof.
  unfold propagate, run_inv. intros [P C]. fold (stack_of e). destruct (stack_of e) as [|f fs] eqn:S.
  - intros [= <- <-]. rewrite S. done.
  - pose proof (frame_return_depth (fs_ctx (evm_frames e)) (fs_journal (evm_frames e)) f r) as [D _].
    destruct (frame_return _ _ f r) as [[x|x] [[f' c] j]]; cbn; [|done]. intros [= <- <-]. unfold stack_of. cbn [fst snd] in D.
    destruct tags as [|t ts]; [done|]. cbn in *. rewrite D. split; [done|]. split; [by intros []|done].
Qed.

Lemma return_placed t ts e e' r o : run_inv (t :: ts) e → top_finished e true → frame_return_result r e = (Ok o, e') →
  run_inv ts e' ∧ (is_Some o ↔ stack_of e' = []).
Proof.
  intros I (f & below & S & F). pose proof (continuation_own _ _ _ _ _ I S) as Own. destruct I as [P C]. rewrite S in P. destruct P as [D P].
  unfold frame_return_result, continuation_for in *. fold (stack_of e). rewrite S, F. cbn [subcall_continuations].
  set (popped := mkArcEvm _ _).
  assert (∀ r0, t = None → propagate r0 popped = (Ok o, e') → run_inv ts e' ∧ (is_Some o ↔ stack_of e' = [])) as Pl.
  { intros r0 -> H. eapply propagate_placed; [|exact H]. by split. }
  destruct (frame_depth f) as [|key]; [by apply Pl|]. rewrite Own. destruct t as [c|]; [|by apply Pl]. cbn in D.
  assert (key = next_depth ts) as -> by lia. unfold m_bind, set_continuations. cbn [evm_frames subcall_continuations].
  set (e1 := mkArcEvm (evm_frames popped) _). pose proof (complete_kept r c e1) as [K1 K2].
  destruct (complete_subcall r c e1) as [[fin|x] e2]; cbn in K1, K2; [|done]. intros H. eapply propagate_placed; [|exact H].
  split; [by rewrite K1|]. rewrite K2, C. cbn. apply delete_insert_id, continuations_fresh.
Qed.

Lemma pushed_placed fl reg tags i e e' : run_inv tags e → fi_depth i = next_depth tags →
  frame_init fl reg i e = (Ok Pushed, e') → run_inv (tag_of reg i e' :: tags) e'.
Proof.
  intros [P C] D E. pose proof (frame_init_started fl reg i e) as St. rewrite E in St. destruct St as (f & S & Df & _ & K).
  unfold tag_of, run_inv. rewrite S. destruct (spawns reg i).
  - destruct K as [c K]. rewrite K, lookup_insert_eq. cbn. rewrite C, <- D. by split.
  - cbn. by rewrite Df, K, D.
Qed.

Lemma call_depth_placed tags e b : run_inv tags e → top_finished e b → call_depth e = next_depth tags.
Proof. intros [P _] (f & fs & S & _). unfold call_depth. rewrite S in *. destruct tags as [|t ts]; [done|]. cbn in *. by destruct P as [-> _]. Qed.

Lemma driven_inv fl reg tags e : driven fl reg tags e → run_inv tags e.
Proof.
  induction 1 as [i e e' S C D E|tags e e' _ IH R|tags i e e' _ IH F D E|tags i r e e1 e' _ IH F D E R|t ts r e e' _ IH F R].
  - eapply pushed_placed; [|done..]. unfold run_inv. by rewrite S, C.
  - destruct R as (f & f' & below & S & S' & D & C), IH as [P Co]. unfold run_inv. rewrite S in P. rewrite S', C.
    destruct tags; [done|]. cbn in *. by rewrite D.
  - eapply pushed_placed; [done| |done]. rewrite D. by eapply call_depth_placed.
  - pose proof (frame_init_started fl reg i e) as St. rewrite E in St. destruct St as [K1 K2].
    destruct F as (f & fs & S & F). unfold frame_return_result in R. fold (stack_of e1) in R. rewrite K1, S, F in R.
    eapply propagate_placed; [|exact R]. unfold run_inv. by rewrite K1, K2.
  - by eapply return_placed.
Qed.

(** C13: Results reach the right frame.  Along every run of the frame loop, when the frame on top
    has finished, the continuation taken for it is the one its own subcall left, and none is taken
    for a frame that is not the child of a subcall; and once a result leaves the loop no frame and
    no continuation is left behind. *)
Theorem continuations_match_frames fl reg t ts e : driven fl reg (t :: ts) e → top_finished e true →
  length (stack_of e) = S (length ts)
  ∧ (∀ top below, stack_of e = top :: below → continuation_for e top = t)
  ∧ ∀ r o e', frame_return_result r e = (Ok o, e') →
      (is_Some o ↔ stack_of e' = []) ∧ (is_Some o → ts = [] ∧ subcall_continuations e' = ∅)
      ∧ length (stack_of e') = length ts.
Proof.
  intros D F. pose proof (driven_inv _ _ _ _ D) as I.
  assert (∀ tags e, run_inv tags e → length (stack_of e) = length tags) as Len.
  { intros tags e0 [P _]. revert P. generalize (stack_of e0). induction tags as [|x xs IH]; intros [|f fs]; cbn; try done. intros [_ P]. by rewrite (IH fs P). }
  split; [exact (Len _ _ I)|]. split; [intros top below S; by eapply continuation_own|].
  intros r o e' R. destruct (return_placed _ _ _ _ _ _ I F R) as [I' O]. split; [done|]. split; [|exact (Len _ _ I')].
  intros S%O. pose proof (Len _ _ I') as L. rewrite S in L. destruct ts; [|done]. split; [done|]. apply I'.
Qed.
End SubcallRuns.
