(* ===== verification/Selfdestruct.v ===== *)
(** * SELFDESTRUCT

    Arc's SELFDESTRUCT instruction (evm/opcode.rs, and its installation in evm/evm.rs): a contract
    with a balance may only destroy itself into an account that may receive it.

    The host and the gas schedule are third-party ([HostOps], [HostLaws]).  An instruction ends by
    one call on the interpreter, an [Action]; what the interpreter does with it, such as rolling the
    frame back when it is out of gas, is revm's. *)

From S2P Require Import Prelude Hardforks Revm Precompile NativeCoin Frames FramesProps.

Record SelfDestructResult := mkSelfDestructResult {
  had_value : bool;
  target_exists : bool;
  previously_destroyed : bool;
}.

Class HostOps `{FO : FrameOps} := {
  (* GasParams *)
  selfdestruct_cold_cost : Z;
  selfdestruct_cost : bool → bool → Z;
  selfdestruct_refund : Z;
  (* Host *)
  host_balance : Journal → Z → option Z * Journal;
  host_sload : Journal → Z → Z → option Z * Journal;
  host_sload_skip_cold_load : Journal → Z → Z → bool → result (LoadError unit) Z * Journal;
  host_load_account_info_skip_cold_load : Journal → Z → bool → bool → result (LoadError unit) bool * Journal;
  host_selfdestruct : Journal → Z → Z → bool → result (LoadError unit) (SelfDestructResult * bool) * Journal;
  (* JournalTr *)
  load_account_mut_skip_cold_load : Journal → Z → bool → result (LoadError DbErr) LoadedAccount * Journal;
  warm_addresses_check_is_cold : Journal → Z → bool → option bool;
}.

Section Selfdestruct.
Context `{HO : HostOps}.

Inductive BlocklistReadPolicy := FailOpen | FailClosed.
Inductive TargetWarmthPolicy := AccessListOnly | Transaction.

(** How the instruction ended. *)
Inductive Action :=
| ActHalt (r : InstructionResult)
| ActHaltOog
| ActHaltFatal
| ActHaltUnderflow
| ActHaltStaticCall
| ActReturn (r : InstructionResult) (output : bytes) (gas : Gas).

Record SdState := mkSdState { sd_gas : Gas; sd_journal : Journal }.
Abbreviation SOp A := (M SdState Action A).
Definition on_host {A} (f : Journal → A * Journal) : SOp A := λ s,
  let '(a, j) := f (sd_journal s) in (Ok a, mkSdState (sd_gas s) j).
Definition revert_with {A} (message : string) : SOp A := λ s,
  (Err (ActReturn IrRevert (revert_message_to_bytes message) (sd_gas s)), s).

Definition is_blocklisted (account : Z) (blocklist_read_policy : BlocklistReadPolicy) : SOp (result (LoadError unit) bool) :=
  let slot := compute_is_blocklisted_storage_slot account in
  match blocklist_read_policy with
  | FailOpen =>
      state_load <-- on_host (λ j, host_sload j NATIVE_COIN_CONTROL_ADDRESS slot) ;;
      m_ret (Ok (match state_load with Some data => is_blocklisted_status data | None => false end))
  | FailClosed =>
      state_load <-- on_host (λ j, host_sload_skip_cold_load j NATIVE_COIN_CONTROL_ADDRESS slot false) ;;
      match state_load with
      | Ok data => m_ret (Ok (is_blocklisted_status data))
      | Err ColdLoadSkipped =>
          load <-- on_host (λ j, host_load_account_info_skip_cold_load j NATIVE_COIN_CONTROL_ADDRESS false false) ;;
          match load with
          | Err e => m_ret (Err e)
          | Ok _ =>
              state_load <-- on_host (λ j, host_sload_skip_cold_load j NATIVE_COIN_CONTROL_ADDRESS slot false) ;;
              m_ret (is_blocklisted_status <$> state_load)
          end
      | Err (DBError e) => m_ret (Err (DBError e))
      end
  end.

(** One of the two checks of [check_selfdestruct_accounts]. *)
Definition require_unblocked (account : Z) (blocklist_read_policy : BlocklistReadPolicy) : SOp unit :=
  blocklisted <-- is_blocklisted account blocklist_read_policy ;;
  match blocklisted with
  | Err _ => m_err ActHaltFatal
  | Ok true => revert_with ERR_BLOCKED_ADDRESS
  | Ok false => m_ret tt
  end.

Definition check_selfdestruct_accounts (source target : Z) (skip_cold_load : bool)
    (blocklist_read_policy : BlocklistReadPolicy) (target_warmth_policy : TargetWarmthPolicy) : SOp (option bool) :=
  if decide (source = target) then m_err (ActHalt IrRevert)
  else
  require_unblocked target blocklist_read_policy ;;;
  require_unblocked source blocklist_read_policy ;;;
  match target_warmth_policy with
  | Transaction =>
      acc <-- on_host (λ j, load_account_mut_skip_cold_load j target skip_cold_load) ;;
      match acc with
      | Ok acc => if is_selfdestructed acc then revert_with ERR_SELFDESTRUCTED_BALANCE_INCREASED else m_ret (Some (is_cold acc))
      | Err ColdLoadSkipped => m_err ActHaltOog
      | Err (DBError _) => m_err ActHaltFatal
      end
  | AccessListOnly =>
      s <-- m_get ;;
      match warm_addresses_check_is_cold (sd_journal s) target skip_cold_load with
      | None => m_err ActHaltOog
      | Some _ =>
          acc <-- on_host (λ j, load_account j target) ;;
          match acc with
          | Ok acc => if is_selfdestructed acc then revert_with ERR_SELFDESTRUCTED_BALANCE_INCREASED else m_ret (Some (is_cold acc))
          | Err _ => m_err ActHaltFatal
          end
      end
  end.

(** The interpreter as the instruction sees it: the static flag, the stack, the running contract and
    whether the spec has SPURIOUS_DRAGON. *)
Record Interpreter := mkInterpreter {
  in_is_static : bool;
  in_stack : list Z;
  in_target_address : Z;
  in_spurious_dragon : bool;
}.
Definition into_address (word : Z) : Z := word `mod` 2 ^ 160.

Definition arc_network_selfdestruct_impl (blocklist_read_policy : BlocklistReadPolicy)
    (target_warmth_policy : TargetWarmthPolicy) (interpreter : Interpreter) : SOp Action :=
  if in_is_static interpreter then m_err ActHaltStaticCall else
  match in_stack interpreter with
  | [] => m_err ActHaltUnderflow
  | word :: _ =>
      let target := into_address word in
      s <-- m_get ;;
      let skip_cold_load := bool_decide (remaining (sd_gas s) < selfdestruct_cold_cost) in
      let addr := in_target_address interpreter in
      addr_balance <-- on_host (λ j, host_balance j addr) ;;
      is_cold <-- match addr_balance with
                  | None => m_err (ActHalt IrFatalExternalError)
                  | Some balance =>
                      if decide (balance = 0) then m_ret None
                      else if decide (target = 0) then revert_with ERR_ZERO_ADDRESS
                      else check_selfdestruct_accounts addr target skip_cold_load blocklist_read_policy target_warmth_policy
                  end ;;
      res <-- on_host (λ j, host_selfdestruct j addr target skip_cold_load) ;;
      match res with
      | Err ColdLoadSkipped => m_err ActHaltOog
      | Err (DBError _) => m_err ActHaltFatal
      | Ok (res, res_is_cold) =>
          match addr_balance with
          | Some balance =>
              if decide (balance = 0) then m_ret tt
              else on_host (λ j, (tt, journal_log j (create_eip7708_transfer_log addr target balance)))
          | None => m_ret tt
          end ;;;
          let should_charge_topup :=
            if in_spurious_dragon interpreter then had_value res && negb (target_exists res) else negb (target_exists res) in
          s <-- m_get ;;
          let '(paid, gas) := record_regular_cost (sd_gas s) (selfdestruct_cost should_charge_topup (default res_is_cold is_cold)) in
          if negb paid then m_err ActHaltOog
          else
          let gas := if previously_destroyed res then gas else record_refund gas selfdestruct_refund in
          λ s, (Ok (ActHalt IrSelfDestruct), mkSdState gas (sd_journal s))
      end
  end.

Definition arc_network_selfdestruct := arc_network_selfdestruct_impl FailOpen AccessListOnly.
Definition arc_network_selfdestruct_zero7 := arc_network_selfdestruct_impl FailClosed AccessListOnly.
Definition arc_network_selfdestruct_zero8 := arc_network_selfdestruct_impl FailClosed Transaction.

(** The instruction of the hard fork and its static gas. *)
Definition insert_arc_selfdestruct_instruction (hardfork_flags : ArcHardforkFlags) : (Interpreter → SOp Action) * Z :=
  if is_active hardfork_flags Zero8 then (arc_network_selfdestruct_zero8, 5000)
  else if is_active hardfork_flags Zero7 then (arc_network_selfdestruct_zero7, 5000)
  else (arc_network_selfdestruct, 5000).

(** The action of the instruction, whether it ended early or not. *)
Definition run_instruction (instruction : SOp Action) (s : SdState) : Action * SdState :=
  match instruction s with (Ok a, s') | (Err a, s') => (a, s') end.
End Selfdestruct.

(** ** Laws *)

Class HostLaws `{HO : HostOps} {RL : RevmLaws} := {
  selfdestruct_cost_nonneg : ∀ topup cold, 0 ≤ selfdestruct_cost topup cold;
  (* loads only warm what they read *)
  host_balance_view : ∀ j a, view (host_balance j a).2 ≡ view j;
  host_balance_value : ∀ j a b, (host_balance j a).1 = Some b → b = balance_of (view j) a;
  host_sload_view : ∀ j a k, view (host_sload j a k).2 ≡ view j;
  host_sload_value : ∀ j a k v, (host_sload j a k).1 = Some v → v = w_storage (view j) a k;
  host_sload_skip_view : ∀ j a k skip, view (host_sload_skip_cold_load j a k skip).2 ≡ view j;
  host_sload_skip_value : ∀ j a k skip v, (host_sload_skip_cold_load j a k skip).1 = Ok v → v = w_storage (view j) a k;
  host_load_info_view : ∀ j a code skip, view (host_load_account_info_skip_cold_load j a code skip).2 ≡ view j;
  load_mut_skip_view : ∀ j a skip, view (load_account_mut_skip_cold_load j a skip).2 ≡ view j;
  load_mut_skip_value : ∀ j a skip acc, (load_account_mut_skip_cold_load j a skip).1 = Ok acc →
    is_selfdestructed acc = w_selfdestructed (view j) a;
  (* a destroyed contract's balance goes to another account; nothing else of value changes *)
  host_selfdestruct_ok : ∀ j addr target skip r j', host_selfdestruct j addr target skip = (Ok r, j') →
    u256 (balance_of (view j) addr + balance_of (view j) target) → addr ≠ target ∨ balance_of (view j) addr = 0 →
    (∀ a, balance_of (view j') a = moved (view j) addr target (balance_of (view j) addr) a)
    ∧ (∀ a k, w_storage (view j') a k = w_storage (view j) a k)
    ∧ (∀ a, a ≠ addr → w_selfdestructed (view j') a = w_selfdestructed (view j) a);
  host_selfdestruct_logs : ∀ j addr target skip r j', host_selfdestruct j addr target skip = (Ok r, j') →
    w_logs (view j') = w_logs (view j);
  host_selfdestruct_err : ∀ j addr target skip e j', host_selfdestruct j addr target skip = (Err e, j') → view j' ≡ view j;
}.

Section SelfdestructProps.
Context `{HL : HostLaws} {FL : FrameLaws}.

(** ** Steps that only read *)

Definition reads (s s' : SdState) : Prop := sd_gas s' = sd_gas s ∧ view (sd_journal s') ≡ view (sd_journal s).
#[local] Instance reads_preorder : PreOrder reads.
Proof. split; [by intros s|]. intros a b c [A1 A2] [B1 B2]. split; [congruence|by rewrite B2]. Qed.

(** From the world [w], [m] only reads; its result satisfies [P], and it ends early only with an
    action that is not a success. *)
Definition reading {A} (w : World) (P : A → Prop) (m : M SdState Action A) : Prop := ∀ s, view (sd_journal s) ≡ w →
  let '(r, s') := m s in
  reads s s' ∧ match r with Ok a => P a | Err a => a ≠ ActHalt IrSelfDestruct end.

Lemma reading_ret {A} w (P : A → Prop) a : P a → reading w P (m_ret a).
Proof. by intros H s _. Qed.
Lemma reading_err {A} w (P : A → Prop) a : a ≠ ActHalt IrSelfDestruct → reading w P (m_err a).
Proof. by intros H s _. Qed.
Lemma reading_revert {A} w (P : A → Prop) msg : reading w P (revert_with msg).
Proof. by intros s _. Qed.
Lemma reading_get w : reading w (λ s, view (sd_journal s) ≡ w) m_get.
Proof. by intros s V. Qed.
Lemma reading_host {A} w (P : A → Prop) f : (∀ j, view j ≡ w → view (f j).2 ≡ view j ∧ P (f j).1) → reading w P (on_host f).
Proof. intros H s V. unfold on_host. destruct (H (sd_journal s) V) as [V' Pa]. by destruct (f (sd_journal s)). Qed.
Lemma reading_bind {A B} w (P : A → Prop) (Q : B → Prop) m k :
  reading w P m → (∀ a, P a → reading w Q (k a)) → reading w Q (m_bind m k).
Proof.
  intros M K s V. unfold m_bind. specialize (M s V). destruct (m s) as [[a|e] s1]; destruct M as [R M]; [|done].
  pose proof R as [_ V1]. specialize (K a M s1 ltac:(by rewrite V1)). destruct (k a s1) as [r s2]. destruct K as [R2 K]. split; [by etrans|done].
Qed.
#[local] Hint Resolve reading_ret reading_err reading_revert : reading.

(** A blocklist read that tells the truth: it fails closed, or reads do not fail. *)
Definition reliable (policy : BlocklistReadPolicy) : Prop := policy = FailClosed ∨ ∀ j a k, (host_sload j a k).1 ≠ None.

Lemma is_blocklisted_reading w a policy :
  reading w (λ r, match r with Ok b => reliable policy → b = blocked_in w a | Err _ => True end) (is_blocklisted a policy).
Proof.
  assert (reading w (λ r, ∀ v, r = Ok v → v = w_storage w NATIVE_COIN_CONTROL_ADDRESS (compute_is_blocklisted_storage_slot a))
    (on_host (λ j, host_sload_skip_cold_load j NATIVE_COIN_CONTROL_ADDRESS (compute_is_blocklisted_storage_slot a) false))) as Sl.
  { apply reading_host. intros j V. split; [apply host_sload_skip_view|]. intros v E. rewrite (host_sload_skip_value _ _ _ _ _ E). by rewrite V. }
  unfold is_blocklisted. destruct policy.
  - eapply (reading_bind _ (λ o, match o with
        | Some v => v = w_storage w NATIVE_COIN_CONTROL_ADDRESS (compute_is_blocklisted_storage_slot a)
        | None => ¬ reliable FailOpen end)).
    + apply reading_host. intros j V. split; [apply host_sload_view|].
      destruct (host_sload j _ _).1 as [v|] eqn:E; [rewrite (host_sload_value _ _ _ _ E); by rewrite V|]. intros [?|R]; [done|]. by eapply R.
    + intros [v|] E; apply reading_ret; [by subst v|done].
  - eapply reading_bind; [exact Sl|]. intros [v|[|e]] E; [apply reading_ret; intros _; by rewrite (E v eq_refl)| |by apply reading_ret].
    eapply (reading_bind _ (λ _, True)); [apply reading_host; intros j _; split; [apply host_load_info_view|done]|].
    intros [c|e] _; [|by apply reading_ret]. eapply reading_bind; [exact Sl|]. intros [v|e] E2; apply reading_ret; [|done].
    intros _. by rewrite (E2 v eq_refl).
Qed.

Lemma require_unblocked_reading w a policy : reading w (λ _, reliable policy → blocked_in w a = false) (require_unblocked a policy).
Proof.
  eapply reading_bind; [apply is_blocklisted_reading|]. intros [[|]|e] H; [apply reading_revert|apply reading_ret; intros R; by rewrite <- H|by apply reading_err].
Qed.

(** What the check of the accounts ensures. *)
Definition destroyable (policy : BlocklistReadPolicy) (w : World) (source target : Z) : Prop :=
  source ≠ target ∧ (reliable policy → blocked_in w target = false ∧ blocked_in w source = false)
  ∧ w_selfdestructed w target = false.

Lemma check_accounts_reading w source target skip policy warmth :
  reading w (λ _, destroyable policy w source target) (check_selfdestruct_accounts source target skip policy warmth).
Proof.
  unfold check_selfdestruct_accounts. case_decide as E; [by apply reading_err|].
  eapply reading_bind; [apply require_unblocked_reading|]. intros ? T. cbv beta in T. eapply reading_bind; [apply require_unblocked_reading|]. intros ? S. cbv beta in S.
  assert (∀ acc, is_selfdestructed acc = w_selfdestructed w target → reading w (λ _, destroyable policy w source target)
    (if is_selfdestructed acc then revert_with ERR_SELFDESTRUCTED_BALANCE_INCREASED else m_ret (Some (is_cold acc)))) as Ck.
  { intros acc Sd. destruct (is_selfdestructed acc) eqn:A; [auto with reading|]. apply reading_ret. by repeat split; auto. }
  destruct warmth.
  - eapply reading_bind; [apply reading_get|]. intros s0 _. destruct (warm_addresses_check_is_cold _ _ _); [|by apply reading_err].
    eapply (reading_bind _ (λ r, ∀ acc, r = Ok acc → is_selfdestructed acc = w_selfdestructed w target)).
    + apply reading_host. intros j V. split; [apply load_account_view|]. intros acc L. destruct (load_account j target) as [r j'] eqn:La. cbn in L. subst r.
      destruct (load_account_info _ _ _ _ La) as [_ ->]. by rewrite V.
    + intros [acc|e] L; [by apply Ck, L|by apply reading_err].
  - eapply (reading_bind _ (λ r, ∀ acc, r = Ok acc → is_selfdestructed acc = w_selfdestructed w target)).
    + apply reading_host. intros j V. split; [apply load_mut_skip_view|]. intros acc L. rewrite (load_mut_skip_value _ _ _ _ L). by rewrite V.
    + intros [acc|[|e]] L; [by apply Ck, L|by apply reading_err..].
Qed.

(** A contract that holds coins is destroyed only into an account that may receive them. *)
Definition guarded (trusted : Prop) (w : World) (addr target : Z) : Prop :=
  balance_of w addr ≠ 0 → target ≠ 0 ∧ addr ≠ target ∧ w_selfdestructed w target = false
    ∧ (trusted → blocked_in w target = false ∧ blocked_in w addr = false).

(** The contract was destroyed, for [cost] gas: the target is the top of the stack and was allowed, the whole
    balance has moved to it, with one Transfer log if there was any, and the cost has the top-up
    for an account that comes into being if the host says so. *)
Definition destruction (trusted : Prop) (interpreter : Interpreter) (s s' : SdState) (cost : Z) : Prop :=
  let w := view (sd_journal s) in let w' := view (sd_journal s') in
  let addr := in_target_address interpreter in let b := balance_of w addr in
  in_is_static interpreter = false
  ∧ ∃ word stack, in_stack interpreter = word :: stack ∧ let target := into_address word in
    guarded trusted w addr target
    ∧ w_logs w' = w_logs w ++ (if decide (b = 0) then [] else [create_eip7708_transfer_log addr target b])
    ∧ (u256 (b + balance_of w target) →
       (∀ a, balance_of w' a = moved w addr target b a) ∧ ∀ a k, w_storage w' a k = w_storage w a k)
    ∧ ∃ j skip res res_is_cold j' cold, view j ≡ w ∧ host_selfdestruct j addr target skip = (Ok (res, res_is_cold), j')
        ∧ cost = selfdestruct_cost ((negb (in_spurious_dragon interpreter) || had_value res) && negb (target_exists res)) cold.

(** How the instruction ended, in terms of the world and the gas before it. *)
Definition ended (trusted : Prop) (interpreter : Interpreter) (s s' : SdState) (action : Action) : Prop :=
  let same := view (sd_journal s') ≡ view (sd_journal s) ∧ sd_gas s' = sd_gas s in
  match action with
  | ActHalt IrSelfDestruct => ∃ cost, destruction trusted interpreter s s' cost ∧ remaining (sd_gas s') = remaining (sd_gas s) - cost
  | ActHaltOog => same ∨ ∃ cost, destruction trusted interpreter s s' cost ∧ remaining (sd_gas s) < cost ∧ sd_gas s' = sd_gas s
  | _ => same
  end.

Lemma ended_early trusted interpreter s s' a : reads s s' → a ≠ ActHalt IrSelfDestruct → ended trusted interpreter s s' a.
Proof. intros [G V] N. unfold ended. destruct a as [[]| | | | |]; try done. by left. Qed.
Lemma destruction_trust (P Q : Prop) interpreter s s' cost : (Q → P) → destruction P interpreter s s' cost → destruction Q interpreter s s' cost.
Proof.
  intros I (St & word & stack & Sk & G & Rest). split; [done|]. exists word, stack. split; [done|]. split; [|exact Rest].
  intros B. destruct (G B) as (T & N & Sd & Bl). split_and!; auto.
Qed.

Lemma moved_proper v w f t a : v ≡ w → ∀ x, moved v f t a x = moved w f t a x.
Proof. intros E x. unfold moved. by rewrite (balance_of_proper _ _ E x x eq_refl). Qed.

Lemma charge_spec g c : 0 ≤ c → let '(paid, g') := record_regular_cost g c in
  if paid : bool then remaining g' = remaining g - c else remaining g < c.
Proof.
  intros C. destruct (decide (c ≤ remaining g)) as [L|L].
  - destruct (record_cost_ok g c ltac:(lia)) as (g' & -> & R & _). done.
  - rewrite record_cost_oog by lia. lia.
Qed.

(** The world after a successful destruction and its log. *)
Lemma destroyed_world j addr target skip r j' b : host_selfdestruct j addr target skip = (Ok r, j') →
  b = balance_of (view j) addr → (b ≠ 0 → addr ≠ target) →
  let w' := view (if decide (b = 0) then j' else journal_log j' (create_eip7708_transfer_log addr target b)) in
  w_logs w' = w_logs (view j) ++ (if decide (b = 0) then [] else [create_eip7708_transfer_log addr target b])
  ∧ (u256 (b + balance_of (view j) target) → (∀ a, balance_of w' a = moved (view j) addr target b a)
     ∧ ∀ a k, w_storage w' a k = w_storage (view j) a k).
Proof.
  intros E -> N. pose proof (host_selfdestruct_logs _ _ _ _ _ _ E) as L.
  pose proof (host_selfdestruct_ok _ _ _ _ _ _ E) as O. cbv zeta. case_decide as Z.
  - rewrite app_nil_r, L. split; [done|]. intros U. destruct (O U) as (B & S & _); [by right|]. by split.
  - pose proof (journal_log_view j' (create_eip7708_transfer_log addr target (balance_of (view j) addr))) as V.
    rewrite (w_logs_proper _ _ V). cbn. rewrite L. split; [done|]. intros U. destruct (O U) as (B & S & _); [left; auto|]. split.
    + intros a. rewrite (balance_of_proper _ _ V a a eq_refl). exact (B a).
    + intros a k. rewrite (w_storage_proper _ _ V a a eq_refl k k eq_refl). exact (S a k).
Qed.

Lemma selfdestruct_impl_spec policy warmth interpreter s :
  let '(action, s') := run_instruction (arc_network_selfdestruct_impl policy warmth interpreter) s in
  ended (reliable policy) interpreter s s' action.
Proof.
  unfold run_instruction, arc_network_selfdestruct_impl. destruct (in_is_static interpreter) eqn:St; [by apply ended_early|].
  destruct (in_stack interpreter) as [|word stack] eqn:Sk; [by apply ended_early|].
  set (target := into_address word). set (addr := in_target_address interpreter).
  unfold m_bind at 1, m_get at 1. unfold m_bind at 1, on_host at 1.
  pose proof (host_balance_view (sd_journal s) addr) as V1. pose proof (host_balance_value (sd_journal s) addr) as B.
  destruct (host_balance (sd_journal s) addr) as [[b|] j1]; cbn [fst snd] in *; [|by apply ended_early].
  specialize (B b eq_refl). set (s1 := mkSdState (sd_gas s) j1). assert (reads s s1) as R1 by done.
  set (guard := if decide (b = 0) then _ else _).
  assert (reading (view (sd_journal s)) (λ _, guarded (reliable policy) (view (sd_journal s)) addr target) guard) as Gd.
  { subst guard. case_decide as Z; [apply reading_ret; unfold guarded; congruence|]. case_decide as T; [apply reading_revert|].
    intros s0 V0. pose proof (check_accounts_reading _ addr target (bool_decide (remaining (sd_gas s) < selfdestruct_cold_cost)) policy warmth s0 V0) as C.
    destruct (check_selfdestruct_accounts _ _ _ _ _ s0) as [[o|a] s0']; [|done]. destruct C as [C1 (C2 & C3 & C4)]. split; [done|]. by intros _. }
  unfold m_bind at 1. specialize (Gd s1 V1). destruct (guard s1) as [[cold|a] s2]; destruct Gd as [R2 Gd];
    [|apply ended_early; [by etrans|done]].
  pose proof (transitivity R1 R2) as R. pose proof R as [Gs Vs]. unfold m_bind at 1, on_host at 1.
  destruct (host_selfdestruct (sd_journal s2) addr target _) as [[[res rc]|e] j3] eqn:Hs.
  2: { assert (reads s (mkSdState (sd_gas s2) j3)) by (split; [done|]; cbn; by rewrite (host_selfdestruct_err _ _ _ _ _ _ Hs)).
       destruct e; by apply ended_early. }
  set (s3 := mkSdState (sd_gas s2) j3).
  assert (∀ s0, (if decide (b = 0) then m_ret tt else on_host (λ j, (tt, journal_log j (create_eip7708_transfer_log addr target b)))) s0
    = (Ok tt : result Action unit, mkSdState (sd_gas s0) (if decide (b = 0) then sd_journal s0 else journal_log (sd_journal s0) (create_eip7708_transfer_log addr target b)))) as Lg
    by (intros []; by destruct (decide (b = 0))).
  unfold m_bind at 1. rewrite Lg. cbn [sd_gas sd_journal s3]. unfold m_bind, m_get. cbn [sd_gas sd_journal].
  replace (if in_spurious_dragon interpreter then had_value res && negb (target_exists res) else negb (target_exists res))
    with ((negb (in_spurious_dragon interpreter) || had_value res) && negb (target_exists res)) by (by destruct (in_spurious_dragon interpreter)).
  set (cost := selfdestruct_cost _ _).
  set (j4 := if decide (b = 0) then j3 else _).
  assert (∀ g, destruction (reliable policy) interpreter s (mkSdState g j4) cost) as De.
  { assert (balance_of (view (sd_journal s2)) addr = b) as B2 by (by rewrite (balance_of_proper _ _ Vs addr addr eq_refl)).
    destruct (destroyed_world _ _ _ _ _ _ b Hs (eq_sym B2)) as [Wl Wb]; [intros Nz; rewrite B in Nz; by apply Gd|].
    intros g. unfold destruction. cbn [sd_journal]. fold addr. rewrite <- B. split; [done|]. exists word, stack. fold target.
    split; [done|]. split; [done|]. split; [rewrite <- (w_logs_proper _ _ Vs); exact Wl|].
    split; [|by eexists _, _, res, rc, _, _].
    rewrite <- (balance_of_proper _ _ Vs target target eq_refl). intros U. destruct (Wb U) as [W1 W2]. split.
    - intros a. rewrite W1. by apply moved_proper.
    - intros a k. rewrite W2. apply (w_storage_proper _ _ Vs); done. }
  pose proof (charge_spec (sd_gas s2) cost (selfdestruct_cost_nonneg _ _)) as Ch.
  destruct (record_regular_cost _ _) as [[|] g]; cbn [negb].
  - exists cost. split; [apply De|]. cbn [sd_gas]. rewrite <- Gs, <- Ch. destruct (previously_destroyed res); [done|].
    by destruct (record_refund_frame g selfdestruct_refund) as (_ & -> & _).
  - right. exists cost. split; [apply De|]. rewrite <- Gs. done.
Qed.

(** C15: Self-destruction is guarded.  With the instruction of any hard fork, a contract that holds
    coins is destroyed only into another account that is not the zero address and not destroyed
    itself, and from Zero7 neither of the two is blocklisted (before Zero7, only as long as the reads of
    the blocklist do not fail); then its whole balance has moved, storage is as it was, exactly one EIP-7708
    Transfer log of that balance was added, none for an empty balance, and the gas is what the schedule
    says.  Any other end leaves the world and the gas as they were, except that the gas may only turn out
    to be too little after such a destruction: then the instruction ends out of gas, with the destruction
    in the journal for the interpreter to roll back. *)
Theorem selfdestructs_guarded fl interpreter s :
  let '(action, s') := run_instruction ((insert_arc_selfdestruct_instruction fl).1 interpreter) s in
  let trusted := is_active fl Zero7 || is_active fl Zero8 = true ∨ ∀ j a k, (host_sload j a k).1 ≠ None in
  let same := view (sd_journal s') ≡ view (sd_journal s) ∧ sd_gas s' = sd_gas s in
  match action with
  | ActHalt IrSelfDestruct => ∃ cost, destruction trusted interpreter s s' cost ∧ remaining (sd_gas s') = remaining (sd_gas s) - cost
  | ActHaltOog => same ∨ ∃ cost, destruction trusted interpreter s s' cost ∧ remaining (sd_gas s) < cost ∧ sd_gas s' = sd_gas s
  | _ => same
  end.
Proof.
  assert (∃ policy warmth, (insert_arc_selfdestruct_instruction fl).1 = arc_network_selfdestruct_impl policy warmth
    ∧ (is_active fl Zero7 || is_active fl Zero8 = true → policy = FailClosed)) as (policy & warmth & -> & Po).
  { unfold insert_arc_selfdestruct_instruction. destruct (is_active fl Zero8), (is_active fl Zero7); eexists _, _; split; done. }
  pose proof (selfdestruct_impl_spec policy warmth interpreter s) as E. destruct (run_instruction _ s) as [action s']. cbv zeta.
  set (trusted := _ ∨ _). assert (trusted → reliable policy) as T by (intros [R|R]; [left; by apply Po|by right]).
  assert (∀ cost, destruction (reliable policy) interpreter s s' cost → destruction trusted interpreter s s' cost) as D
    by (intros cost; by apply destruction_trust).
  unfold ended in E. destruct action as [[]| | | | |]; try exact E.
  - destruct E as (cost & De & R). exists cost. auto.
  - destruct E as [E|(cost & De & R)]; [by left|]. right. exists cost. auto.
Qed.
End SelfdestructProps.
