(* ===== verification/Handler.v ===== *)
(** * The transaction handler

    Arc's changes to revm's transaction handler (evm/handler.rs): the blocklist check before a
    transaction runs, and the fee paid to the beneficiary after it.  The rest of the handler is
    revm's; its own [pre_execution] is an argument. *)

From S2P Require Import Prelude Hardforks Revm Precompile NativeCoin Frames FramesProps.

Section Handler.
Context `{FO : FrameOps}.

Inductive TxKind := TxCreate | TxCall (to : Z).
Inductive HandlerError := HandlerDb (e : DbErr) | InvalidTransactionStr (msg : string).

(** The transaction and the block as the handler reads them; the price is the transaction's own
    function of the base fee. *)
Record HandlerCtx := mkHandlerCtx {
  hc_tx_caller : Z;
  hc_tx_kind : TxKind;
  hc_tx_value : Z;
  hc_effective_gas_price : Z → Z;
  hc_beneficiary : Z;
  hc_basefee : Z;
}.

Abbreviation HOp A := (M Journal HandlerError A).
Definition on_journal {A} (f : Journal → result DbErr A * Journal) : HOp A := λ j,
  let '(r, j) := f j in (map_err HandlerDb r, j).

Definition is_address_blocklisted (address : Z) : HOp bool :=
  state_load <-- on_journal (λ j, journal_sload j NATIVE_COIN_CONTROL_ADDRESS (compute_is_blocklisted_storage_slot address)) ;;
  m_ret (is_blocklisted_status state_load.1).

Definition check_blocklist (caller : Z) (tx_kind : TxKind) (tx_value : Z) : HOp unit :=
  caller_blocked <-- is_address_blocklisted caller ;;
  if caller_blocked : bool then m_err (InvalidTransactionStr ERR_BLOCKED_ADDRESS)
  else match tx_kind with
       | TxCall to_address =>
           to_blocked <-- (if decide (tx_value = 0) then m_ret false else is_address_blocklisted to_address) ;;
           if to_blocked : bool then m_err (InvalidTransactionStr ERR_BLOCKED_ADDRESS) else m_ret tt
       | TxCreate => m_ret tt
       end.

Definition pre_execution (mainnet_pre_execution : HOp Z) (ctx : HandlerCtx) : HOp Z :=
  on_journal (λ j, load_account j NATIVE_COIN_CONTROL_ADDRESS) ;;;
  check_blocklist (hc_tx_caller ctx) (hc_tx_kind ctx) (hc_tx_value ctx) ;;;
  mainnet_pre_execution.

Definition total_fee_amount (ctx : HandlerCtx) (gas_used : Z) : Z :=
  (hc_effective_gas_price ctx (hc_basefee ctx) * gas_used) `mod` 2 ^ 256.

Definition reward_beneficiary (hardfork_flags : ArcHardforkFlags) (ctx : HandlerCtx) (gas_used : Z) : HOp unit :=
  let beneficiary := hc_beneficiary ctx in
  let total_fee_amount := total_fee_amount ctx gas_used in
  (if is_active hardfork_flags Zero8 then
     account <-- on_journal (λ j, load_account j beneficiary) ;;
     if is_selfdestructed account then m_err (InvalidTransactionStr ERR_SELFDESTRUCTED_BALANCE_INCREASED) else m_ret tt
   else m_ret tt) ;;;
  on_journal (λ j, journal_balance_incr j beneficiary total_fee_amount).
End Handler.

Section HandlerProps.
Context `{FL : FrameLaws}.

(** The transaction may start in the world [w]. *)
Definition admissible (w : World) (caller : Z) (kind : TxKind) (value : Z) : bool :=
  negb (blocked_in w caller)
  && match kind with TxCall to => bool_decide (value = 0) || negb (blocked_in w to) | TxCreate => true end.

Lemma blocklisted_spec a j : let '(r, j') := is_address_blocklisted a j in
  view j' ≡ view j ∧ match r with Ok b => b = blocked_in (view j) a | Err e => ∃ d, e = HandlerDb d end.
Proof.
  unfold is_address_blocklisted, m_bind, on_journal.
  pose proof (journal_sload_frame j NATIVE_COIN_CONTROL_ADDRESS (compute_is_blocklisted_storage_slot a)) as [_ V].
  destruct (journal_sload _ _ _) as [[[v c]|e] j'] eqn:E; cbn in *; (split; [done|]); [|by eexists].
  unfold blocked_in. by erewrite <- journal_sload_value.
Qed.

Lemma gate_spec caller kind value j : let '(r, j') := check_blocklist caller kind value j in
  view j' ≡ view j
  ∧ match r with
    | Ok _ => admissible (view j) caller kind value = true
    | Err (InvalidTransactionStr msg) => msg = ERR_BLOCKED_ADDRESS ∧ admissible (view j) caller kind value = false
    | Err (HandlerDb _) => True
    end.
Proof.
  unfold check_blocklist, admissible, m_bind at 1. pose proof (blocklisted_spec caller j) as C.
  destruct (is_address_blocklisted caller j) as [[b|e] j1]; destruct C as [V C]; [|split; [done|]; by destruct C as [? ->]].
  subst b. destruct (blocked_in (view j) caller) eqn:B; cbn [negb andb]; [by split|]. destruct kind as [|to]; [by split|].
  case_decide as Z; [rewrite bool_decide_true by done; by split|]. rewrite bool_decide_false by done. cbn [orb]. unfold m_bind.
  pose proof (blocklisted_spec to j1) as T. destruct (is_address_blocklisted to j1) as [[b|e] j2]; destruct T as [V2 T].
  - subst b. assert (blocked_in (view j1) to = blocked_in (view j) to) as -> by exact (blocked_in_proper _ _ V to to eq_refl).
    destruct (blocked_in (view j) to) eqn:Bt; (split; [by rewrite V2|done]).
  - split; [by rewrite V2|]. by destruct T as [? ->].
Qed.

Lemma pre_execution_spec mainnet ctx j : let w := view j in ∃ j1, view j1 ≡ w
  ∧ (admissible w (hc_tx_caller ctx) (hc_tx_kind ctx) (hc_tx_value ctx) = true ∧ pre_execution mainnet ctx j = mainnet j1
     ∨ admissible w (hc_tx_caller ctx) (hc_tx_kind ctx) (hc_tx_value ctx) = false
       ∧ pre_execution mainnet ctx j = (Err (InvalidTransactionStr ERR_BLOCKED_ADDRESS), j1)
     ∨ ∃ e, pre_execution mainnet ctx j = (Err (HandlerDb e), j1)).
Proof.
  unfold pre_execution, m_bind, on_journal. pose proof (load_account_view j NATIVE_COIN_CONTROL_ADDRESS) as V.
  destruct (load_account j _) as [[acc|e] j1]; cbn in *; [|exists j1; eauto].
  pose proof (gate_spec (hc_tx_caller ctx) (hc_tx_kind ctx) (hc_tx_value ctx) j1) as C.
  assert (admissible (view j1) (hc_tx_caller ctx) (hc_tx_kind ctx) (hc_tx_value ctx) = admissible (view j) (hc_tx_caller ctx) (hc_tx_kind ctx) (hc_tx_value ctx)) as E.
  { unfold admissible. rewrite (blocked_in_proper _ _ V _ _ eq_refl). destruct (hc_tx_kind ctx) as [|to]; [done|].
    by rewrite (blocked_in_proper _ _ V to to eq_refl). }
  destruct (check_blocklist _ _ _ j1) as [[[]|[e|m]] j2]; destruct C as [V2 C]; exists j2; (split; [by rewrite V2|]); rewrite <- ?E; [auto|eauto|].
  destruct C as [-> C]. auto.
Qed.

Lemma reward_spec fl ctx gas_used fee j : total_fee_amount ctx gas_used = fee → u256 (balance_of (view j) (hc_beneficiary ctx) + fee) →
  let w := view j in
  match reward_beneficiary fl ctx gas_used j with
  | (Ok _, j') => view j' ≡ set_balance w (hc_beneficiary ctx) (balance_of w (hc_beneficiary ctx) + fee)
      ∧ (is_active fl Zero8 = true → w_selfdestructed w (hc_beneficiary ctx) = false)
  | (Err (InvalidTransactionStr _), j') => is_active fl Zero8 = true
      ∧ w_selfdestructed w (hc_beneficiary ctx) = true ∧ view j' ≡ w
  | (Err (HandlerDb _), _) => True
  end.
Proof.
  intros F U w. assert (0 ≤ fee) as Nn by (subst fee; unfold total_fee_amount; apply Z.mod_pos_bound; lia).
  assert (∀ j1, view j1 ≡ w → match on_journal (λ j, journal_balance_incr j (hc_beneficiary ctx) fee) j1 with
    | (Ok _, j') => view j' ≡ set_balance w (hc_beneficiary ctx) (balance_of w (hc_beneficiary ctx) + fee)
    | (Err (HandlerDb _), _) => True | (Err (InvalidTransactionStr _), _) => False end) as Incr.
  { intros j1 V. unfold on_journal. pose proof (balance_of_proper _ _ V (hc_beneficiary ctx) _ eq_refl) as B.
    destruct (journal_balance_incr j1 _ fee) as [[x|e] j2] eqn:E; cbn; [|done].
    rewrite (balance_incr_ok _ _ _ _ _ Nn ltac:(by rewrite B) E). by rewrite V. }
  unfold reward_beneficiary. rewrite F. unfold m_bind at 1. destruct (is_active fl Zero8).
  - unfold m_bind at 1, on_journal at 1. pose proof (load_account_view j (hc_beneficiary ctx)) as V.
    destruct (load_account j (hc_beneficiary ctx)) as [[acc|e] j1] eqn:L; cbn in *; [|done].
    destruct (load_account_info _ _ _ _ L) as [_ Sd]. rewrite Sd. fold w. destruct (w_selfdestructed w _) eqn:D; [done|].
    specialize (Incr j1 V). cbn in *. destruct (on_journal _ j1) as [[x|[e|m]] j2]; done.
  - specialize (Incr j ltac:(done)). cbn in *. destruct (on_journal _ j) as [[x|[e|m]] j2]; done.
Qed.

(** C35: The handler's own guarantees.  A transaction reaches revm's pre-execution, in the world it
    came with, exactly when neither its sender nor, when it carries value, its recipient is
    blocklisted; otherwise it is rejected as blocked, without effect, unless
    the database fails.  After it ran, the whole price
    of the gas it used, base fee included, is added to the beneficiary's balance and nothing else
    changes; from Zero8 a destroyed beneficiary is rejected instead, and nothing is credited. *)
Theorem transactions_gated_and_paid fl mainnet ctx gas_used j :
  u128 (hc_effective_gas_price ctx (hc_basefee ctx)) → u64 gas_used →
  let w := view j in let fee := hc_effective_gas_price ctx (hc_basefee ctx) * gas_used in
  u256 (balance_of w (hc_beneficiary ctx) + fee) →
  (∃ j1, view j1 ≡ w
     ∧ (admissible w (hc_tx_caller ctx) (hc_tx_kind ctx) (hc_tx_value ctx) = true ∧ pre_execution mainnet ctx j = mainnet j1
        ∨ admissible w (hc_tx_caller ctx) (hc_tx_kind ctx) (hc_tx_value ctx) = false
          ∧ pre_execution mainnet ctx j = (Err (InvalidTransactionStr ERR_BLOCKED_ADDRESS), j1)
        ∨ ∃ e, pre_execution mainnet ctx j = (Err (HandlerDb e), j1)))
  ∧ match reward_beneficiary fl ctx gas_used j with
    | (Ok _, j') => view j' ≡ set_balance w (hc_beneficiary ctx) (balance_of w (hc_beneficiary ctx) + fee)
        ∧ (is_active fl Zero8 = true → w_selfdestructed w (hc_beneficiary ctx) = false)
    | (Err (InvalidTransactionStr _), j') => is_active fl Zero8 = true
        ∧ w_selfdestructed w (hc_beneficiary ctx) = true ∧ view j' ≡ w
    | (Err (HandlerDb _), _) => True
    end.
Proof.
  intros P U w fee B. split; [apply pre_execution_spec|]. apply reward_spec; [|done]. unfold total_fee_amount, uint in *. apply Z.mod_small. nia.
Qed.
End HandlerProps.
