(* ===== verification/TxPool.v ===== *)
(** * The transaction pool

    The denylist (execution-config/addresses_denylist.rs, execution-validation/denylist.rs), the list
    of invalid transactions and the pool's transaction validator (execution-txpool/validator.rs,
    error.rs).

    The LRU map, the pool's Ethereum validator, the state provider and the recovery of an
    authority from its signature are third-party ([PoolOps], [LruLaws]). *)

From S2P Require Import Prelude Hardforks Revm Precompile NativeCoin Frames FramesProps Handler.

(** ** Denylist *)

Section Denylist.
Context `{RO : RevmOps}.

Definition DEFAULT_DENYLIST_ERC7201_BASE_SLOT : Z := 0x1d7e1388d3ae56f3d9c18b1ce8d2b3b1a238a0edf682d2053af5d8a1d2f12f00.
Definition compute_denylist_storage_slot (address base_slot : Z) : Z :=
  keccak256 (to_be_bytes 32 address ++ to_be_bytes 32 base_slot).

Record AddressesDenylistConfig := mkDenylistConfig {
  contract_address : Z;
  storage_slot : Z;
  addresses_exclusions : list Z;
}.
(** [unique] of itertools: the first occurrence of each. *)
Fixpoint unique (seen l : list Z) : list Z :=
  match l with
  | [] => []
  | a :: l => if decide (a ∈ seen) then unique seen l else a :: unique (a :: seen) l
  end.
Definition denylist_config_new (contract_address storage_slot : Z) (addresses_exclusions : list Z) : AddressesDenylistConfig :=
  mkDenylistConfig contract_address storage_slot (unique [] addresses_exclusions).
Definition is_address_excluded (config : AddressesDenylistConfig) (addr : Z) : bool :=
  existsb (λ a, bool_decide (a = addr)) (addresses_exclusions config).

(** [StateProvider::storage] *)
Definition StateProvider (E : Type) : Type := Z → Z → result E (option Z).
Inductive DenylistError (E : Type) := StorageReadFailed (e : E).
Arguments StorageReadFailed {E}.
Definition read_storage {E} (provider : StateProvider E) (address slot : Z) : result (DenylistError E) (option Z) :=
  map_err StorageReadFailed (provider address slot).

Definition is_denylisted {E} (provider : StateProvider E) (config : AddressesDenylistConfig) (address : Z)
    : result (DenylistError E) bool :=
  if is_address_excluded config address then Ok false
  else
  value ← read_storage provider (contract_address config) (compute_denylist_storage_slot address (storage_slot config));
  Ok (negb (bool_decide (default 0 value = 0))).
End Denylist.

(** ** The pool *)

Class PoolOps := {
  (* schnellru::LruMap<TxHash, ()> *)
  LruMap : Type;
  lru_new : nat → LruMap;
  lru_peek : LruMap → Z → bool;
  lru_insert : LruMap → Z → bool * LruMap;
  lru_len : LruMap → nat;
  (* the pool's transactions *)
  Authorization : Type;
  recover_authority : Authorization → option Z;
  (* EthTransactionValidator *)
  ProviderError : Type;
  InvalidPoolTransactionError : Type;
  StatefulOutcome : Type;
}.

Section TxPool.
Context `{RO : RevmOps} {PO : PoolOps}.

Definition ARC_INVALID_TX_LIST_DEFAULT_CAP : nat := 100 * 1000.
Definition MAX_AUTHORIZATIONS_PER_TX : nat := 100.

Inductive ArcTransactionValidatorError :=
| BlocklistedError
| InvalidTxError
| DenylistedAddressError (a : Z)
| TooManyAuthorizations (count limit : nat).
Definition is_bad_transaction (e : ArcTransactionValidatorError) : bool :=
  match e with BlocklistedError | InvalidTxError => true | DenylistedAddressError _ | TooManyAuthorizations _ _ => false end.

(** [InvalidTxList]: its map; the metrics are left out. *)
Definition InvalidTxList_contains (self : LruMap) (hash : Z) : bool := lru_peek self hash.
Fixpoint insert_many (self : LruMap) (hashes : list Z) : LruMap :=
  match hashes with [] => self | hash :: hashes => insert_many (lru_insert self hash).2 hashes end.

Record PoolTx := mkPoolTx {
  tx_hash : Z;
  tx_sender : Z;
  tx_to : option Z;
  tx_value : Z;
  authorization_list : option (list Authorization);
}.

Inductive TransactionValidationOutcome :=
| OutcomeInvalid (e : InvalidPoolTransactionError)
| OutcomeInvalidArc (e : ArcTransactionValidatorError)
| OutcomeError (hash : Z) (e : ProviderError)
| OutcomeStateful (o : StatefulOutcome).

Record ArcTransactionValidator := mkArcTransactionValidator {
  inner_validate_stateless : PoolTx → option InvalidPoolTransactionError;
  inner_latest : result ProviderError (StateProvider ProviderError);
  inner_validate_stateful : PoolTx → StateProvider ProviderError → StatefulOutcome;
  invalid_tx_list : option LruMap;
  addresses_denylist_config : AddressesDenylistConfig;
}.

Definition is_address_blocklisted (address : Z) (storage : StateProvider ProviderError) : result ProviderError bool :=
  let storage_slot := compute_is_blocklisted_storage_slot address in
  value ← storage NATIVE_COIN_CONTROL_ADDRESS storage_slot;
  Ok (match value with Some v => negb (bool_decide (v = UNBLOCKLISTED_STATUS)) | None => false end).

(** The first address for which the check holds. *)
Fixpoint find_address (check : Z → result ProviderError bool) (addresses : list Z) : result ProviderError (option Z) :=
  match addresses with
  | [] => Ok None
  | address :: addresses => found ← check address; if found : bool then Ok (Some address) else find_address check addresses
  end.

Definition check_for_blocklisted_addresses (transaction : PoolTx) (state_provider : StateProvider ProviderError)
    : result ProviderError (option Z) :=
  let has_value := negb (bool_decide (tx_value transaction = 0)) in
  let addresses := tx_sender transaction :: (if has_value then option_list (tx_to transaction) else []) in
  find_address (λ address, is_address_blocklisted address state_provider) addresses.

Definition denylist_addresses (transaction : PoolTx) : list Z :=
  let auth_authorities := omap recover_authority (default [] (authorization_list transaction)) in
  tx_sender transaction :: option_list (tx_to transaction) ++ auth_authorities.
Definition check_for_denylisted_addresses (config : AddressesDenylistConfig) (transaction : PoolTx)
    (state_provider : StateProvider ProviderError) : result ProviderError (option Z) :=
  find_address (λ address, map_err (λ e, match e with StorageReadFailed _ e => e end)
                             (is_denylisted state_provider config address)) (denylist_addresses transaction).

(** The outcome, and the provider kept for the next validations. *)
Definition validate_one_with_state (self : ArcTransactionValidator) (transaction : PoolTx)
    (state : option (StateProvider ProviderError))
    : TransactionValidationOutcome * option (StateProvider ProviderError) :=
  if match invalid_tx_list self with Some l => InvalidTxList_contains l (tx_hash transaction) | None => false end
  then (OutcomeInvalidArc InvalidTxError, state)
  else match inner_validate_stateless self transaction with
  | Some err => (OutcomeInvalid err, state)
  | None =>
      let auth_count := default 0%nat (length <$> authorization_list transaction) in
      if decide (MAX_AUTHORIZATIONS_PER_TX < auth_count)%nat
      then (OutcomeInvalidArc (TooManyAuthorizations auth_count MAX_AUTHORIZATIONS_PER_TX), state)
      else match inner_latest self with
      | Err err => (OutcomeError (tx_hash transaction) err, state)
      | Ok state_provider =>
          match check_for_blocklisted_addresses transaction state_provider with
          | Ok (Some address) => (OutcomeInvalidArc BlocklistedError, state)
          | Err err => (OutcomeError (tx_hash transaction) err, state)
          | Ok None =>
              match check_for_denylisted_addresses (addresses_denylist_config self) transaction state_provider with
              | Ok (Some address) => (OutcomeInvalidArc (DenylistedAddressError address), state)
              | Err err => (OutcomeError (tx_hash transaction) err, state)
              | Ok None => (OutcomeStateful (inner_validate_stateful self transaction state_provider), Some state_provider)
              end
          end
      end
  end.
Definition validate_one (self : ArcTransactionValidator) (transaction : PoolTx) : TransactionValidationOutcome :=
  (validate_one_with_state self transaction None).1.
End TxPool.

(** ** The list of invalid transactions *)

(** An LRU map of bounded length, most recently used first. *)
Class LruLaws `{PO : PoolOps} := {
  lru_recent : LruMap → list Z;
  lru_cap : LruMap → nat;
  lru_new_spec : ∀ cap, lru_recent (lru_new cap) = [] ∧ lru_cap (lru_new cap) = cap;
  lru_peek_spec : ∀ m h, lru_peek m h = bool_decide (h ∈ lru_recent m);
  lru_insert_spec : ∀ m h, let m' := (lru_insert m h).2 in
    lru_recent m' = take (lru_cap m) (h :: filter (λ h', h' ≠ h) (lru_recent m)) ∧ lru_cap m' = lru_cap m;
}.

Section InvalidTxList.
Context `{LL : LruLaws}.

(** [h] is among the first [S k] of the list. *)
Definition recent_at (m : LruMap) (k : nat) (h : Z) : Prop := ∃ l1 l2, lru_recent m = l1 ++ h :: l2 ∧ (length l1 ≤ k)%nat.

Lemma insert_recent m h : (0 < lru_cap m)%nat → recent_at (lru_insert m h).2 0 h.
Proof.
  intros C. destruct (lru_insert_spec m h) as [E _]. destruct (lru_cap m) as [|c]; [lia|]. cbn in E. exists []. by eexists.
Qed.
Lemma insert_keeps m h h' k : (S k < lru_cap m)%nat → recent_at m k h → recent_at (lru_insert m h').2 (S k) h.
Proof.
  intros C (l1 & l2 & E & L). destruct (decide (h = h')) as [->|N].
  { destruct (insert_recent m h' ltac:(lia)) as (a & b & Ea & La). exists a, b. split; [done|lia]. }
  destruct (lru_insert_spec m h') as [R _]. unfold recent_at. rewrite R, E, filter_app, filter_cons_True by done.
  pose proof (length_filter (λ x, x ≠ h') l1) as F. rewrite app_comm_cons, take_app.
  exists (h' :: filter (λ x, x ≠ h') l1). rewrite take_ge by (cbn; lia). cbn [length].
  destruct (lru_cap m - S (length (filter (λ x, x ≠ h') l1)))%nat as [|n] eqn:D; [lia|]. cbn [take]. eexists. split; [done|]. cbn. lia.
Qed.

Lemma insert_many_keeps hashes m k h : (k + length hashes < lru_cap m)%nat → recent_at m k h →
  recent_at (insert_many m hashes) (k + length hashes) h.
Proof.
  revert m k. induction hashes as [|h' hashes IH]; intros m k C R; cbn in *; [by rewrite Nat.add_0_r|].
  destruct (lru_insert_spec m h') as [_ Cp]. rewrite <- Nat.add_succ_comm. apply IH; [rewrite Cp; lia|]. apply insert_keeps; [lia|done].
Qed.

(** A quarantined batch is refused.  After [insert_many] of at most as many hashes as the list
    holds, the validator rejects each of them as an invalid transaction, before any other check, and
    keeps the state provider it had. *)
Lemma quarantine_refuses `{RO : RevmOps} v l hashes tx st :
  (length hashes ≤ lru_cap l)%nat → invalid_tx_list v = Some (insert_many l hashes) → tx_hash tx ∈ hashes →
  validate_one_with_state v tx st = (OutcomeInvalidArc InvalidTxError, st).
Proof.
  intros C Li I. unfold validate_one_with_state, InvalidTxList_contains. rewrite Li, lru_peek_spec.
  assert (tx_hash tx ∈ lru_recent (insert_many l hashes)) as R; [|by rewrite bool_decide_true].
  clear Li. revert l C. induction hashes as [|h hashes IH]; intros l C; cbn in *; [by apply not_elem_of_nil in I|].
  destruct (lru_insert_spec l h) as [_ Cp]. apply elem_of_cons in I as [->|I].
  - destruct (insert_many_keeps hashes (lru_insert l h).2 0 h) as (a & b & -> & _); [rewrite Cp; lia|by apply insert_recent; lia|]. set_solver.
  - apply IH; [done|]. rewrite Cp. lia.
Qed.
End InvalidTxList.

(** ** The pool and execution *)

Section TxPoolProps.
Context `{FL : FrameLaws} {PO : PoolOps}.

(** The provider reads the world [w]; a slot that is not set reads as zero. *)
Definition provides (sp : StateProvider ProviderError) (w : World) : Prop := ∀ a k, ∃ o, sp a k = Ok o ∧ default 0 o = w_storage w a k.
Definition denylisted (w : World) (config : AddressesDenylistConfig) (a : Z) : bool :=
  negb (is_address_excluded config a)
  && negb (bool_decide (w_storage w (contract_address config) (compute_denylist_storage_slot a (storage_slot config)) = 0)).

Lemma find_address_spec check (P : Z → bool) l : (∀ a, check a = Ok (P a)) →
  match find_address check l with
  | Ok (Some a) => a ∈ l ∧ P a = true
  | Ok None => Forall (λ a, P a = false) l
  | Err _ => False
  end.
Proof.
  intros C. induction l as [|a l IH]; cbn; [done|]. rewrite C. cbn. destruct (P a) eqn:E; [split; [by left|done]|].
  destruct (find_address check l) as [[b|]|]; [|by constructor|done]. destruct IH. split; [by right|done].
Qed.

Lemma is_address_blocklisted_provides sp w a : provides sp w → is_address_blocklisted a sp = Ok (blocked_in w a).
Proof.
  intros Pv. unfold is_address_blocklisted, blocked_in, is_blocklisted_status.
  destruct (Pv NATIVE_COIN_CONTROL_ADDRESS (compute_is_blocklisted_storage_slot a)) as (o & -> & <-). cbn. by destruct o.
Qed.
Lemma is_denylisted_provides sp w config a : provides sp w → is_denylisted sp config a = Ok (denylisted w config a).
Proof.
  intros Pv. unfold is_denylisted, denylisted, read_storage. destruct (is_address_excluded config a); [done|].
  destruct (Pv (contract_address config) (compute_denylist_storage_slot a (storage_slot config))) as (o & -> & <-). done.
Qed.

Definition kind_of (tx : PoolTx) : TxKind := match tx_to tx with Some to => TxCall to | None => TxCreate end.
Definition admissible_tx (w : World) (tx : PoolTx) : bool := admissible w (tx_sender tx) (kind_of tx) (tx_value tx).

Lemma blocklist_check_spec tx sp w : provides sp w →
  match check_for_blocklisted_addresses tx sp with
  | Ok (Some _) => admissible_tx w tx = false
  | Ok None => admissible_tx w tx = true
  | Err _ => False
  end.
Proof.
  intros Pv. unfold check_for_blocklisted_addresses. set (l := tx_sender tx :: _).
  pose proof (find_address_spec _ (blocked_in w) l (λ a, is_address_blocklisted_provides sp w a Pv)) as F.
  assert (admissible_tx w tx = forallb (λ a, negb (blocked_in w a)) l) as E.
  { unfold admissible_tx, admissible, kind_of, l. cbn. f_equal. destruct (tx_to tx) as [to|]; destruct (bool_decide_reflect (tx_value tx = 0)); cbn; try done.
    by rewrite andb_true_r. }
  rewrite E. destruct (find_address _ l) as [[a|]|]; [..|done].
  - destruct F as [I B]. apply not_true_is_false. rewrite forallb_forall. intros A. specialize (A a (proj1 (list_elem_of_In _ _) I)). by rewrite B in A.
  - apply forallb_forall. intros a I%list_elem_of_In. rewrite Forall_forall in F. by rewrite (F a I).
Qed.

Lemma pool_admission_spec v tx st sp w : inner_latest v = Ok sp → provides sp w →
  match (validate_one_with_state v tx st).1 with
  | OutcomeStateful o => o = inner_validate_stateful v tx sp ∧ admissible_tx w tx = true
      ∧ (∀ l, invalid_tx_list v = Some l → InvalidTxList_contains l (tx_hash tx) = false)
      ∧ inner_validate_stateless v tx = None ∧ (default 0 (length <$> authorization_list tx) ≤ MAX_AUTHORIZATIONS_PER_TX)%nat
      ∧ Forall (λ a, denylisted w (addresses_denylist_config v) a = false) (denylist_addresses tx)
  | OutcomeInvalidArc BlocklistedError => admissible_tx w tx = false
  | OutcomeInvalidArc (DenylistedAddressError a) => a ∈ denylist_addresses tx ∧ denylisted w (addresses_denylist_config v) a = true
  | OutcomeInvalidArc InvalidTxError => ∃ l, invalid_tx_list v = Some l ∧ InvalidTxList_contains l (tx_hash tx) = true
  | OutcomeInvalidArc (TooManyAuthorizations n m) => default 0%nat (length <$> authorization_list tx) = n ∧ m = MAX_AUTHORIZATIONS_PER_TX ∧ (m < n)%nat
  | OutcomeInvalid e => inner_validate_stateless v tx = Some e
  | OutcomeError _ _ => False
  end.
Proof.
  intros La Pv. unfold validate_one_with_state.
  destruct (invalid_tx_list v) as [l|] eqn:Li; [destruct (InvalidTxList_contains l _) eqn:Ct; [by exists l|]|];
    (destruct (inner_validate_stateless v tx) eqn:Sl; [done|]; case_decide as Au; [cbn; done|]; rewrite La;
     pose proof (blocklist_check_spec tx sp w Pv) as B; destruct (check_for_blocklisted_addresses tx sp) as [[a|]|e]; [done| |done];
     unfold check_for_denylisted_addresses;
     pose proof (find_address_spec (λ a, map_err (λ e, match e with StorageReadFailed _ e => e end) (is_denylisted sp (addresses_denylist_config v) a))
       (denylisted w (addresses_denylist_config v)) (denylist_addresses tx)
       (λ a, f_equal (map_err _) (is_denylisted_provides sp w _ a Pv))) as D;
     destruct (find_address _ _) as [[a|]|e]; [done| |done]; cbn; split_and!; try done; first [by intros ? [= <-]|lia]).
Qed.

(** C16: The pool and execution agree.  When the latest state can be read, a transaction reaches
    the pool's stateful validation only if it is not quarantined, has at most the allowed number of
    authorizations, no address of it is denylisted, and neither its sender nor, when it carries
    value, its recipient is blocklisted; execution in that state does not reject it as blocked
    then.  What the pool rejects as blocked, execution rejects too, and each other rejection has
    the cause it names. *)
Theorem pool_agrees_with_execution v tx st sp j : inner_latest v = Ok sp → provides sp (view j) →
  let execution := check_blocklist (tx_sender tx) (kind_of tx) (tx_value tx) j in
  match (validate_one_with_state v tx st).1 with
  | OutcomeStateful o => o = inner_validate_stateful v tx sp
      ∧ (∀ l, invalid_tx_list v = Some l → InvalidTxList_contains l (tx_hash tx) = false)
      ∧ inner_validate_stateless v tx = None ∧ admissible_tx (view j) tx = true
      ∧ (default 0 (length <$> authorization_list tx) ≤ 100)%nat
      ∧ Forall (λ a, denylisted (view j) (addresses_denylist_config v) a = false) (denylist_addresses tx)
      ∧ (∀ msg, execution.1 ≠ Err (InvalidTransactionStr msg))
  | OutcomeInvalidArc BlocklistedError => admissible_tx (view j) tx = false ∧ execution.1 ≠ Ok tt
  | OutcomeInvalidArc (DenylistedAddressError a) => a ∈ denylist_addresses tx ∧ denylisted (view j) (addresses_denylist_config v) a = true
  | OutcomeInvalidArc InvalidTxError => ∃ l, invalid_tx_list v = Some l ∧ InvalidTxList_contains l (tx_hash tx) = true
  | OutcomeInvalidArc (TooManyAuthorizations n m) => default 0%nat (length <$> authorization_list tx) = n ∧ (100 < n)%nat
  | OutcomeInvalid e => inner_validate_stateless v tx = Some e
  | OutcomeError _ _ => False
  end.
Proof.
  intros La Pv. pose proof (pool_admission_spec v tx st sp (view j) La Pv) as A. cbv zeta.
  pose proof (gate_spec (tx_sender tx) (kind_of tx) (tx_value tx) j) as C.
  destruct (check_blocklist _ _ _ j) as [r j']. destruct C as [_ C]. cbn [fst]. unfold admissible_tx in *.
  destruct (validate_one_with_state v tx st).1 as [e|[| |a|n m]|h e|o]; try done.
  - split; [done|]. destruct r as [[]|]; [|done]. intros _. congruence.
  - destruct A as (A & -> & L). by split.
  - destruct A as (-> & Ad & Nq & Sl & Au & D). split_and!; try done. intros msg ->. destruct C. congruence.
Qed.
End TxPoolProps.
