(* ===== verification/PayloadBuilder.v ===== *)
(** * The payload builder

    execution-payload/payload.rs: selection of transactions for a block within its gas and size and a
    time budget, the fee the proposer earns, the eviction of transactions that can never be included,
    and the quarantine of those that make the builder fail.

    The pool, its iterator of best transactions, the block builder and the state-root task are
    third-party ([BuilderOps]); the clock and the cancellation flag are functions of the iteration.
    Metrics and logs are left out. *)

From S2P Require Import Prelude Hardforks Revm Precompile TxPool.

(** The results of a transaction the builder distinguishes ([BlockExecutionError]), and a panic. *)
Inductive InvalidTransaction := NonceTooLow | InvalidStr (msg : string) | InvalidOther (n : nat).
Inductive ExecError (E : Type) :=
| InvalidTx (nonce_too_low : bool) (as_invalid_tx_err : option InvalidTransaction)
| TransactionGasLimitMoreThanAvailableBlockGas (transaction_gas_limit block_available_gas : Z)
| ExecOther (e : E).
Arguments InvalidTx {E}. Arguments TransactionGasLimitMoreThanAvailableBlockGas {E}. Arguments ExecOther {E}.
(** [catch_unwind] *)
Inductive caught (A : Type) := Returned (a : A) | Panicked.
Arguments Returned {A}. Arguments Panicked {A}.

Inductive PayloadBuilderError (E : Type) :=
| UnprocessableTransaction (tx_hash : Z)
| PbEvm (e : E)
| PbInternal (e : E)
| PbOther (e : E)
| PbFinish (e : E)
| PbBlockTooLarge (rlp_length max_rlp_length : Z)
| MissingPayload.
Arguments UnprocessableTransaction {E}. Arguments PbEvm {E}. Arguments PbInternal {E}. Arguments PbOther {E}. Arguments PbFinish {E}.
Arguments PbBlockTooLarge {E}. Arguments MissingPayload {E}.

(** Why the iterator drops a transaction and its descendants. *)
Inductive MarkReason :=
| ExceedsGasLimit (tx_gas_limit limit : Z)
| OversizedData (size limit : Z)
| TxTypeNotSupported.

Class BuilderOps := {
  (* ValidPoolTransaction *)
  PoolItem : Type;
  item_hash : PoolItem → Z;
  item_gas_limit : PoolItem → Z;
  item_rlp_length : PoolItem → Z;
  item_effective_gas_price : PoolItem → Z → Z;
  (* BestTransactions *)
  BestTxs : Type;
  best_next : BestTxs → option (PoolItem * BestTxs);
  best_mark_invalid : BestTxs → PoolItem → MarkReason → BestTxs;
  (* TransactionPool *)
  Pool : Type;
  pending_hashes : Pool → list Z;
  remove_transactions_and_descendants : Pool → list Z → Pool;
  (* BlockBuilder *)
  Builder : Type;
  BuildErr : Type;
  Block : Type;
  block_gas_limit_of : Builder → Z;
  basefee_of : Builder → Z;
  set_state_hook : Builder → bool → Builder;
  apply_pre_execution_changes : Builder → result BuildErr unit * Builder;
  execute_transaction : Builder → PoolItem → caught (result (ExecError BuildErr) Z) * Builder;
  finish : Builder → option Z → result BuildErr Block;
  block_rlp_length : Block → Z;
  MAX_RLP_BLOCK_SIZE : Z;
  (* reth_basic_payload_builder: the fees of the best payload so far, and the new ones *)
  is_better_payload : option Z → Z → bool;
}.

Section PayloadBuilder.
Context {PO : PoolOps} {BO : BuilderOps}.
Abbreviation PBE := (PayloadBuilderError BuildErr).

(** ** Eviction *)

(** The pool and the list of invalid transactions. *)
Record PoolState := mkPoolState { ps_pool : Pool; ps_invalid : option LruMap }.

Definition evict_unincludable_txs (s : PoolState) (quarantine : bool) (hashes : list Z) : PoolState :=
  let invalid_tx_list := if quarantine then (λ l, insert_many l hashes) <$> ps_invalid s else ps_invalid s in
  mkPoolState (remove_transactions_and_descendants (ps_pool s) hashes) invalid_tx_list.

Definition exceeds_block_gas_limit_permanently (tx_gas_limit block_gas_limit : Z) : bool :=
  bool_decide (block_gas_limit < tx_gas_limit).
Definition is_blocked_address_error (err : option InvalidTransaction) : bool :=
  match err with Some (InvalidStr msg) => bool_decide (msg = ERR_BLOCKED_ADDRESS) | _ => false end.

(** ** Failed builds *)

Definition extract_unprocessable_tx_hash (err : PBE) : option Z :=
  match err with UnprocessableTransaction tx_hash => Some tx_hash | _ => None end.
Definition purge_unprocessable_tx (e : PBE) (s : PoolState) : PoolState :=
  match extract_unprocessable_tx_hash e with
  | Some tx_hash => evict_unincludable_txs s true [tx_hash]
  | None => s
  end.
Definition purge_pending (s : PoolState) : PoolState := evict_unincludable_txs s true (pending_hashes (ps_pool s)).

(** [Panicked] is the panic resumed. *)
Definition handle_build_res {T} (res : caught (result PBE T)) (s : PoolState) : caught (result PBE T) * PoolState :=
  match res with
  | Returned (Ok outcome) => (Returned (Ok outcome), s)
  | Returned (Err e) => (Returned (Err e), purge_unprocessable_tx e s)
  | Panicked => (Panicked, purge_pending s)
  end.

(** ** The loop *)

Definition proposer_revenue (tx : PoolItem) (gas_used base_fee : Z) : Z :=
  (item_effective_gas_price tx base_fee * gas_used) `mod` 2 ^ 256.

Inductive TxOutcome :=
| Included (gas_used : Z)
| Skip
| SkipAndMarkInvalid
| SkipMarkInvalidAndEvictBlocked
| SkipExceedsGasLimit (transaction_gas_limit block_available_gas : Z)
| Fatal (e : PBE).

Definition classify_tx_outcome (result : caught (result (ExecError BuildErr) Z)) (tx_hash : Z) : TxOutcome :=
  match result with
  | Returned (Ok gas_used) => Included gas_used
  | Returned (Err (InvalidTx nonce_too_low err)) =>
      if nonce_too_low then Skip
      else if is_blocked_address_error err then SkipMarkInvalidAndEvictBlocked
      else SkipAndMarkInvalid
  | Returned (Err (TransactionGasLimitMoreThanAvailableBlockGas l a)) => SkipExceedsGasLimit l a
  | Returned (Err (ExecOther e)) => Fatal (PbEvm e)
  | Panicked => Fatal (UnprocessableTransaction tx_hash)
  end.

Definition time_budget_exhausted (elapsed : Z) (limit : option Z) : bool :=
  match limit with Some l => bool_decide (l ≤ elapsed) | None => false end.
Definition osaka_size_exceeded (is_osaka : bool) (size : Z) : bool := is_osaka && bool_decide (MAX_RLP_BLOCK_SIZE < size).

(** What does not change during a build. *)
Record BuildEnv := mkBuildEnv {
  loop_time_limit : option Z;
  elapsed_at : nat → Z;
  is_cancelled : nat → bool;
  is_osaka : bool;
  withdrawals_rlp_length : Z;
  block_gas_limit : Z;
  base_fee : Z;
}.
Record LoopState := mkLoopState {
  ls_best : BestTxs;
  ls_pool : PoolState;
  ls_builder : Builder;
  cumulative_gas_used : Z;
  total_fees : Z;
  block_transactions_rlp_length : Z;
}.
Inductive LoopEnd :=
| LoopDone (s : LoopState)
| LoopCancelled (s : LoopState)
| LoopFailed (e : PBE) (s : LoopState)
| LoopPanicked (s : LoopState).

Definition with_best (s : LoopState) (b : BestTxs) : LoopState :=
  mkLoopState b (ls_pool s) (ls_builder s) (cumulative_gas_used s) (total_fees s) (block_transactions_rlp_length s).
Definition mark (s : LoopState) (tx : PoolItem) (r : MarkReason) : LoopState := with_best s (best_mark_invalid (ls_best s) tx r).
Definition evict_tx (s : LoopState) (tx : PoolItem) : LoopState :=
  mkLoopState (ls_best s) (evict_unincludable_txs (ls_pool s) false [item_hash tx]) (ls_builder s)
    (cumulative_gas_used s) (total_fees s) (block_transactions_rlp_length s).
Definition with_builder (s : LoopState) (b : Builder) : LoopState :=
  mkLoopState (ls_best s) (ls_pool s) b (cumulative_gas_used s) (total_fees s) (block_transactions_rlp_length s).

Definition estimated_block_size (env : BuildEnv) (s : LoopState) (tx : PoolItem) : Z :=
  saturating_add 64 (saturating_add 64 (saturating_add 64 (block_transactions_rlp_length s) (item_rlp_length tx))
    (withdrawals_rlp_length env)) 1024.

(** The transaction ran: [inl] continues the loop. *)
Definition after_execution (env : BuildEnv) (tx : PoolItem) (outcome : TxOutcome) (s : LoopState) : LoopState + LoopEnd :=
  match outcome with
  | Skip => inl s
  | SkipAndMarkInvalid => inl (mark s tx TxTypeNotSupported)
  | SkipMarkInvalidAndEvictBlocked => inl (evict_tx (mark s tx TxTypeNotSupported) tx)
  | SkipExceedsGasLimit l a => inl (mark s tx (ExceedsGasLimit l a))
  | Fatal e => inr (LoopFailed e s)
  | Included gas_used =>
      match checked_add 64 (cumulative_gas_used s) gas_used with
      | None => inr (LoopPanicked s)
      | Some cumulative =>
          inl (mkLoopState (ls_best s) (ls_pool s) (ls_builder s) cumulative
                 ((total_fees s + proposer_revenue tx gas_used (base_fee env)) `mod` 2 ^ 256)
                 (saturating_add 64 (block_transactions_rlp_length s) (item_rlp_length tx)))
      end
  end.

(** One iteration, the [n]-th, with the transaction [tx]. *)
Definition loop_body (env : BuildEnv) (n : nat) (tx : PoolItem) (s : LoopState) : LoopState + LoopEnd :=
  if time_budget_exhausted (elapsed_at env n) (loop_time_limit env) then inr (LoopDone s)
  else match checked_add 64 (cumulative_gas_used s) (item_gas_limit tx) with
  | None => inr (LoopPanicked s)
  | Some needed =>
      if decide (block_gas_limit env < needed) then
        let s := mark s tx (ExceedsGasLimit (item_gas_limit tx) (block_gas_limit env)) in
        inl (if exceeds_block_gas_limit_permanently (item_gas_limit tx) (block_gas_limit env) then evict_tx s tx else s)
      else if is_cancelled env n then inr (LoopCancelled s)
      else
      let estimated_block_size_with_tx := estimated_block_size env s tx in
      if osaka_size_exceeded (is_osaka env) estimated_block_size_with_tx
      then inl (mark s tx (OversizedData estimated_block_size_with_tx MAX_RLP_BLOCK_SIZE))
      else
      let '(raw_result, builder) := execute_transaction (ls_builder s) tx in
      after_execution env tx (classify_tx_outcome raw_result (item_hash tx)) (with_builder s builder)
  end.

(** [fuel] bounds the iterations; [None] is running out of it. *)
Fixpoint tx_loop (fuel : nat) (env : BuildEnv) (n : nat) (s : LoopState) : option LoopEnd :=
  match fuel with
  | O => None
  | S fuel =>
      match best_next (ls_best s) with
      | None => Some (LoopDone s)
      | Some (tx, best) =>
          match loop_body env n tx (with_best s best) with
          | inl s => tx_loop fuel env (S n) s
          | inr e => Some e
          end
      end
  end.

(** ** The build *)

Inductive BuildOutcome :=
| Better (block : Block) (fees : Z)
| Aborted (fees : Z)
| Cancelled.

(** The state-root task of the build, when there is one: its root, or [None] when it fails. *)
Definition try_precomputed_state_root (trie_handle : option (option Z)) : option Z :=
  match trie_handle with Some (Some state_root) => Some state_root | _ => None end.

Record BuildArguments := mkBuildArguments {
  arg_state : result PBE unit;
  arg_builder : result BuildErr Builder;
  arg_best_txs : Z → BestTxs;
  arg_trie_handle : option (option Z);
  arg_best_payload : option Z;
  arg_loop_time_limit : option Z;
  arg_elapsed_at : nat → Z;
  arg_is_cancelled : nat → bool;
  arg_is_osaka : bool;
  arg_withdrawals_rlp_length : option Z;
}.

Definition build_env (args : BuildArguments) (builder : Builder) : BuildEnv :=
  mkBuildEnv (arg_loop_time_limit args) (arg_elapsed_at args) (arg_is_cancelled args) (arg_is_osaka args)
    (default 0 (arg_withdrawals_rlp_length args)) (block_gas_limit_of builder) (basefee_of builder).

(** The end of the build, after the loop. *)
Definition seal_payload (args : BuildArguments) (s : LoopState) : result PBE BuildOutcome :=
  if negb (is_better_payload (arg_best_payload args) (total_fees s)) then Ok (Aborted (total_fees s))
  else
  let builder := set_state_hook (ls_builder s) false in
  let precomputed := try_precomputed_state_root (arg_trie_handle args) in
  block ← map_err PbFinish (finish builder precomputed);
  if osaka_size_exceeded (arg_is_osaka args) (block_rlp_length block)
  then Err (PbBlockTooLarge (block_rlp_length block) MAX_RLP_BLOCK_SIZE)
  else Ok (Better block (total_fees s)).

(** [arc_ethereum_payload], with the pool after it; [None] is running out of fuel. *)
Definition arc_ethereum_payload (fuel : nat) (args : BuildArguments) (pool : PoolState)
    : option (caught (result PBE BuildOutcome) * PoolState) :=
  match arg_state args, arg_builder args with
  | Err e, _ => Some (Returned (Err e), pool)
  | Ok _, Err e => Some (Returned (Err (PbOther e)), pool)
  | Ok _, Ok builder =>
      let env := build_env args builder in
      let best_txs := arg_best_txs args (base_fee env) in
      let builder := if arg_trie_handle args then set_state_hook builder true else builder in
      match apply_pre_execution_changes builder with
      | (Err err, _) => Some (Returned (Err (PbInternal err)), pool)
      | (Ok _, builder) =>
          loop_end ← tx_loop fuel env 0 (mkLoopState best_txs pool builder 0 0 0);
          Some match loop_end with
               | LoopDone s => (Returned (seal_payload args s), ls_pool s)
               | LoopCancelled s => (Returned (Ok Cancelled), ls_pool s)
               | LoopFailed e s => (Returned (Err e), ls_pool s)
               | LoopPanicked s => (Panicked, ls_pool s)
               end
      end
  end.


(** The arguments of an empty build: no best payload, no state-root task, never cancelled. *)
Definition empty_arguments (args : BuildArguments) : BuildArguments :=
  mkBuildArguments (arg_state args) (arg_builder args) (arg_best_txs args) None None (arg_loop_time_limit args)
    (arg_elapsed_at args) (λ _, false) (arg_is_osaka args) (arg_withdrawals_rlp_length args).
Definition into_payload (outcome : BuildOutcome) : result PBE (Block * Z) :=
  match outcome with Better block fees => Ok (block, fees) | Aborted _ | Cancelled => Err MissingPayload end.
Definition build_empty_payload (fuel : nat) (args : BuildArguments) (pool : PoolState)
    : option (caught (result PBE (Block * Z)) * PoolState) :=
  r ← arc_ethereum_payload fuel (empty_arguments args) pool;
  Some (handle_build_res match r.1 with Returned res => Returned (res ≫= into_payload) | Panicked => Panicked end r.2).
End PayloadBuilder.

(** ** What a build guarantees *)

Class BuilderLaws `{BO : BuilderOps} := {
  item_gas_limit_range : ∀ tx, u64 (item_gas_limit tx);
  item_rlp_length_nonneg : ∀ tx, 0 ≤ item_rlp_length tx;
  item_price_range : ∀ tx base_fee, u128 (item_effective_gas_price tx base_fee);
  block_gas_limit_range : ∀ b, u64 (block_gas_limit_of b);
  MAX_RLP_BLOCK_SIZE_small : MAX_RLP_BLOCK_SIZE < 2 ^ 63;
  (* a transaction uses at most its gas limit *)
  execute_gas : ∀ b tx g b', execute_transaction b tx = (Returned (Ok g), b') → 0 ≤ g ≤ item_gas_limit tx;
}.

Section PayloadProps.
Context `{PO : PoolOps} `{BL : BuilderLaws}.

(** The transactions that ran on the builder, with the gas of those that were included. *)
Inductive executed : Builder → list (PoolItem * Z) → Builder → Prop :=
| executed_nil b : executed b [] b
| executed_included b inc b1 tx g b2 : executed b inc b1 → execute_transaction b1 tx = (Returned (Ok g), b2) →
    executed b (inc ++ [(tx, g)]) b2
| executed_skipped b inc b1 tx e b2 : executed b inc b1 → execute_transaction b1 tx = (Returned (Err e), b2) →
    executed b inc b2.

Definition sum (l : list Z) : Z := foldr Z.add 0 l.
Definition gas_of (inc : list (PoolItem * Z)) : Z := sum (snd <$> inc).
Definition size_of (inc : list (PoolItem * Z)) : Z := sum ((λ x, item_rlp_length x.1) <$> inc).
Definition fees_of (base_fee : Z) (inc : list (PoolItem * Z)) : Z := sum ((λ x, item_effective_gas_price x.1 base_fee * x.2) <$> inc).

(** The transaction can never be included: its gas limit is above the block's, or it was blocked. *)
Definition unincludable (block_gas_limit : Z) (tx : PoolItem) : Prop :=
  block_gas_limit < item_gas_limit tx
  ∨ ∃ b b', execute_transaction b tx = (Returned (Err (InvalidTx false (Some (InvalidStr ERR_BLOCKED_ADDRESS)))), b').
Definition evicted (pool : PoolState) (txs : list PoolItem) : PoolState :=
  foldl (λ s tx, evict_unincludable_txs s false [item_hash tx]) pool txs.

(** The loop so far: what was included and evicted. *)
Definition loop_inv (env : BuildEnv) (b0 : Builder) (pool : PoolState) (inc : list (PoolItem * Z)) (ev : list PoolItem) (s : LoopState) : Prop :=
  executed b0 inc (ls_builder s)
  ∧ cumulative_gas_used s = gas_of inc ∧ 0 ≤ gas_of inc ≤ block_gas_limit env
  ∧ total_fees s = fees_of (base_fee env) inc ∧ 0 ≤ fees_of (base_fee env) inc ≤ (2 ^ 128 - 1) * gas_of inc
  ∧ block_transactions_rlp_length s = Z.min (size_of inc) (uint_max 64) ∧ 0 ≤ size_of inc
  ∧ (is_osaka env = true → inc ≠ [] → size_of inc + withdrawals_rlp_length env + 1024 ≤ MAX_RLP_BLOCK_SIZE)
  ∧ ls_pool s = evicted pool ev ∧ Forall (unincludable (block_gas_limit env)) ev.

Lemma sum_snoc l x : sum (l ++ [x]) = sum l + x.
Proof. unfold sum. induction l as [|y l IH]; cbn in *; lia. Qed.
Lemma inv_same env b0 pool inc ev s b : loop_inv env b0 pool inc ev s → loop_inv env b0 pool inc ev (with_best s b).
Proof. done. Qed.
Lemma inv_evict env b0 pool inc ev s tx : unincludable (block_gas_limit env) tx → loop_inv env b0 pool inc ev s →
  loop_inv env b0 pool inc (ev ++ [tx]) (evict_tx s tx).
Proof.
  intros U (E & G & Gb & F & Fb & R & Rp & O & P & Ev). unfold loop_inv. cbn. split_and!; try done; try lia.
  - unfold evicted. rewrite foldl_snoc. by rewrite P.
  - apply Forall_app. split; [done|]. by apply Forall_singleton.
Qed.
Lemma inv_skip env b0 pool inc ev s tx e b : execute_transaction (ls_builder s) tx = (Returned (Err e), b) →
  loop_inv env b0 pool inc ev s → loop_inv env b0 pool inc ev (with_builder s b).
Proof. intros X (E & Rest). split; [by eapply executed_skipped|done]. Qed.

(** A transaction that fits was included. *)
Lemma inv_include env b0 pool inc ev s tx g b :
  execute_transaction (ls_builder s) tx = (Returned (Ok g), b) → u64 (block_gas_limit env) → 0 ≤ withdrawals_rlp_length env →
  gas_of inc + item_gas_limit tx ≤ block_gas_limit env → osaka_size_exceeded (is_osaka env) (estimated_block_size env s tx) = false →
  loop_inv env b0 pool inc ev s →
  ∃ s', after_execution env tx (Included g) (with_builder s b) = inl s' ∧ ls_best s' = ls_best s
    ∧ loop_inv env b0 pool (inc ++ [(tx, g)]) ev s'.
Proof.
  intros X Bl W Fit Os (E & G & Gb & F & Fb & R & Rp & O & P & Ev). pose proof (execute_gas _ _ _ _ X) as Eg. unfold uint in *.
  pose proof (item_price_range tx (base_fee env)) as Pr. pose proof (item_rlp_length_nonneg tx) as Rl.
  pose proof MAX_RLP_BLOCK_SIZE_small as Mx. unfold uint in *.
  unfold after_execution. cbn. unfold checked_add. rewrite try_from_Some by (unfold uint; lia). eexists. split; [done|]. split; [done|].
  unfold loop_inv. cbn. rewrite G, F, R. unfold gas_of, fees_of, size_of, saturating_add, uint_max in *. rewrite !fmap_app. cbn. rewrite !sum_snoc. cbn.
  unfold proposer_revenue. set (price := item_effective_gas_price tx (base_fee env)) in *.
  assert (0 ≤ price * g ≤ (2 ^ 128 - 1) * g) as Pg by nia. rewrite (Z.mod_small (price * g)) by lia. rewrite Z.mod_small by lia.
  split; [by eapply executed_included|]. split_and!; try done; try lia.
  intros Ok _. unfold osaka_size_exceeded, estimated_block_size, saturating_add, uint_max in Os. rewrite Ok in Os. apply bool_decide_eq_false in Os. lia.
Qed.

(** How an iteration may go on or end. *)
Definition pool_ok (env : BuildEnv) (pool : PoolState) (s : LoopState) : Prop :=
  ∃ ev, ls_pool s = evicted pool ev ∧ Forall (unincludable (block_gas_limit env)) ev.
Definition end_ok (env : BuildEnv) (b0 : Builder) (pool : PoolState) (e : LoopEnd) : Prop :=
  match e with
  | LoopDone s => ∃ inc ev, loop_inv env b0 pool inc ev s
  | LoopCancelled s => pool_ok env pool s ∧ ∃ n, is_cancelled env n = true
  | LoopFailed e s => pool_ok env pool s ∧ ∃ tx b b',
      (∃ x, e = PbEvm x ∧ execute_transaction b tx = (Returned (Err (ExecOther x)), b'))
      ∨ e = UnprocessableTransaction (item_hash tx) ∧ execute_transaction b tx = (Panicked, b')
  | LoopPanicked s => pool_ok env pool s ∧ ∃ tx, cumulative_gas_used s ≤ block_gas_limit env ∧ 2 ^ 64 ≤ cumulative_gas_used s + item_gas_limit tx
  end.

Lemma inv_pool env b0 pool inc ev s : loop_inv env b0 pool inc ev s → pool_ok env pool s.
Proof. intros (_ & _ & _ & _ & _ & _ & _ & _ & P & Ev). by exists ev. Qed.

Lemma loop_body_spec env b0 pool inc ev n tx s : u64 (block_gas_limit env) → 0 ≤ withdrawals_rlp_length env →
  loop_inv env b0 pool inc ev s →
  match loop_body env n tx s with
  | inl s' => ∃ inc ev, loop_inv env b0 pool inc ev s'
  | inr e => end_ok env b0 pool e
  end.
Proof.
  intros Bl W I. pose proof (inv_pool _ _ _ _ _ _ I) as Pk. pose proof I as (_ & G & Gb & _). unfold loop_body.
  destruct (time_budget_exhausted _ _); [by exists inc, ev|]. pose proof (item_gas_limit_range tx) as Gl. unfold uint in *.
  destruct (checked_add 64 (cumulative_gas_used s) (item_gas_limit tx)) as [needed|] eqn:N.
  2: { split; [done|]. exists tx. unfold checked_add, try_from in N. case_decide as U; [done|]. unfold uint in U. lia. }
  apply checked_add_inv in N as [-> _]. case_decide as D.
  { destruct (exceeds_block_gas_limit_permanently _ _) eqn:X; exists inc; [|by exists ev].
    exists (ev ++ [tx]). apply inv_evict; [|done]. left. by apply bool_decide_eq_true in X. }
  destruct (is_cancelled env n) eqn:Cn; [split; [done|by exists n]|].
  destruct (osaka_size_exceeded _ _) eqn:Os; [by exists inc, ev|].
  destruct (execute_transaction (ls_builder s) tx) as [[[g|err]|] b] eqn:X.
  - cbn [classify_tx_outcome]. destruct (inv_include env b0 pool inc ev s tx g b X Bl W ltac:(lia) Os I) as (s' & -> & _ & I'). by eexists _, _.
  - pose proof (inv_skip _ _ _ _ _ _ _ _ _ X I) as Is. destruct err as [low inv|l a|x]; cbn [classify_tx_outcome].
    + destruct low; [by eexists _, _|]. destruct (is_blocked_address_error inv) eqn:Bk; exists inc; [|by exists ev].
      exists (ev ++ [tx]). apply inv_evict; [|done]. right. exists (ls_builder s), b. destruct inv as [[| |]|]; try done.
      cbn in Bk. apply bool_decide_eq_true in Bk. by subst msg.
    + by exists inc, ev.
    + split; [exact Pk|]. exists tx, (ls_builder s), b. left. by exists x.
  - split; [exact Pk|]. exists tx, (ls_builder s), b. by right.
Qed.

Lemma tx_loop_spec env b0 pool : u64 (block_gas_limit env) → 0 ≤ withdrawals_rlp_length env → ∀ fuel n inc ev s e,
  loop_inv env b0 pool inc ev s → tx_loop fuel env n s = Some e → end_ok env b0 pool e.
Proof.
  intros Bl W. induction fuel as [|fuel IH]; intros n inc ev s e I; [done|]. cbn.
  destruct (best_next (ls_best s)) as [[tx best]|] eqn:N; [|intros [= <-]; by exists inc, ev].
  pose proof (loop_body_spec env b0 pool inc ev n tx (with_best s best) Bl W I) as B.
  destruct (loop_body env n tx (with_best s best)) as [s'|x]; [|by intros [= <-]]. destruct B as (inc' & ev' & I'). by eapply IH.
Qed.

(** The iterator yields at most [k] more transactions, whatever is marked invalid of them. *)
Fixpoint yields_at_most (k : nat) (b : BestTxs) : Prop :=
  ∀ tx b', best_next b = Some (tx, b') →
  match k with O => False | S k => yields_at_most k b' ∧ ∀ r, yields_at_most k (best_mark_invalid b' tx r) end.
(** A build is over after [fuel] iterations: the iterator has run dry, or the time is up by then. *)
Definition over_within (fuel : nat) (env : BuildEnv) (n : nat) (b : BestTxs) : Prop :=
  (∃ k, (k < fuel)%nat ∧ yields_at_most k b)
  ∨ ∃ m, (n ≤ m < n + fuel)%nat ∧ time_budget_exhausted (elapsed_at env m) (loop_time_limit env) = true.

(** An iteration leaves the iterator as it is, or marks its transaction. *)
Lemma loop_body_best env n tx s s' : loop_body env n tx s = inl s' →
  time_budget_exhausted (elapsed_at env n) (loop_time_limit env) = false
  ∧ (ls_best s' = ls_best s ∨ ∃ r, ls_best s' = best_mark_invalid (ls_best s) tx r).
Proof.
  unfold loop_body. destruct (time_budget_exhausted _ _); [done|]. destruct (checked_add _ _ _); [|done].
  case_decide; [destruct (exceeds_block_gas_limit_permanently _ _); intros [= <-]; cbn; eauto|].
  destruct (is_cancelled env n); [done|]. destruct (osaka_size_exceeded _ _); [intros [= <-]; cbn; eauto|].
  destruct (execute_transaction _ _) as [r b]. unfold after_execution. repeat case_match; intros [= <-]; cbn; eauto.
Qed.
Lemma tx_loop_ends env fuel : ∀ n s, over_within fuel env n (ls_best s) → is_Some (tx_loop fuel env n s).
Proof.
  induction fuel as [|fuel IH]; intros n s O; [destruct O as [(k & ? & _)|(m & ? & _)]; lia|]. cbn.
  destruct (best_next (ls_best s)) as [[tx best]|] eqn:N; [|done].
  destruct (loop_body env n tx (with_best s best)) as [s'|e] eqn:B; [|done]. apply loop_body_best in B as [T M]. cbn in M.
  apply IH. destruct O as [(k & L & Y)|(m & L & Ex)].
  - left. destruct k as [|k]; cbn in Y; specialize (Y _ _ N); [done|]. exists k. split; [lia|].
    destruct M as [->|[r ->]]; [apply Y|apply (proj2 Y)].
  - right. exists m. split; [|done]. destruct (decide (m = n)) as [->|]; [congruence|lia].
Qed.

Lemma inv_start env b pool best : 0 ≤ block_gas_limit env → loop_inv env b pool [] [] (mkLoopState best pool b 0 0 0).
Proof. intros L. unfold loop_inv, gas_of, fees_of, size_of. cbn. split_and!; try done. constructor. Qed.

Lemma seal_spec args builder b0 pool inc ev s : loop_inv (build_env args builder) b0 pool inc ev s →
  match seal_payload args s with
  | Ok (Better block fees) => fees = fees_of (basefee_of builder) inc ∧ gas_of inc ≤ block_gas_limit_of builder
      ∧ is_better_payload (arg_best_payload args) fees = true ∧ (arg_is_osaka args = true → block_rlp_length block ≤ MAX_RLP_BLOCK_SIZE)
      ∧ ∃ b1, executed b0 inc b1 ∧ finish (set_state_hook b1 false) (try_precomputed_state_root (arg_trie_handle args)) = Ok block
  | Ok (Aborted fees) => fees = fees_of (basefee_of builder) inc ∧ is_better_payload (arg_best_payload args) fees = false
  | Ok Cancelled => False
  | Err e => (∃ x, e = PbFinish x) ∨ ∃ n, e = PbBlockTooLarge n MAX_RLP_BLOCK_SIZE ∧ arg_is_osaka args = true ∧ MAX_RLP_BLOCK_SIZE < n
  end.
Proof.
  intros (E & G & Gb & F & Fb & R & Rp & O & P & Ev). unfold seal_payload. rewrite F.
  destruct (is_better_payload _ _) eqn:Bt; cbn [negb]; [|done].
  destruct (finish _ _) as [block|x] eqn:Fi; cbn; [|left; by exists x].
  destruct (osaka_size_exceeded _ _) eqn:Os.
  - unfold osaka_size_exceeded in Os. apply andb_prop in Os as [Oa Ob%bool_decide_eq_true].
    right. by eexists.
  - split_and!; try done; [exact (proj2 Gb)| |by eexists]. intros Oa. unfold osaka_size_exceeded in Os. rewrite Oa in Os. apply bool_decide_eq_false in Os. lia.
Qed.
Lemma evicted_invalid pool ev : ps_invalid (evicted pool ev) = ps_invalid pool.
Proof. unfold evicted. revert pool. induction ev as [|tx ev IH]; intros pool; [done|]. cbn. by rewrite IH. Qed.

(** How a build may end. *)
Definition payload_ok (args : BuildArguments) (builder : Builder) (pool pool' : PoolState) (out : caught (result (PayloadBuilderError BuildErr) BuildOutcome)) : Prop :=
  (∃ ev, pool' = evicted pool ev ∧ Forall (unincludable (block_gas_limit_of builder)) ev ∧ ps_invalid pool' = ps_invalid pool)
  ∧ let b0 := (apply_pre_execution_changes (if arg_trie_handle args then set_state_hook builder true else builder)).2 in
    match out with
    | Returned (Ok (Better block fees)) => ∃ inc b1, executed b0 inc b1
        ∧ finish (set_state_hook b1 false) (try_precomputed_state_root (arg_trie_handle args)) = Ok block
        ∧ gas_of inc ≤ block_gas_limit_of builder ∧ fees = fees_of (basefee_of builder) inc
        ∧ is_better_payload (arg_best_payload args) fees = true
        ∧ (arg_is_osaka args = true → block_rlp_length block ≤ MAX_RLP_BLOCK_SIZE)
    | Returned (Ok (Aborted fees)) => ∃ inc b1, executed b0 inc b1
        ∧ fees = fees_of (basefee_of builder) inc ∧ is_better_payload (arg_best_payload args) fees = false
    | Returned (Ok Cancelled) => ∃ n, arg_is_cancelled args n = true
    | Returned (Err (UnprocessableTransaction h)) => ∃ tx b b', h = item_hash tx ∧ execute_transaction b tx = (Panicked, b')
    | Returned (Err _) => True
    | Panicked => ∃ tx used, used ≤ block_gas_limit_of builder ∧ 2 ^ 64 ≤ used + item_gas_limit tx
    end.

Lemma payload_spec fuel args builder pool out pool' :
  arg_state args = Ok tt → arg_builder args = Ok builder → 0 ≤ default 0 (arg_withdrawals_rlp_length args) →
  arc_ethereum_payload fuel args pool = Some (out, pool') → payload_ok args builder pool pool' out.
Proof.
  intros As Ab W. unfold arc_ethereum_payload, payload_ok. rewrite As, Ab. set (env := build_env args builder).
  set (b00 := if arg_trie_handle args then _ else _).
  assert (∀ s, pool_ok env pool s → ∃ ev, ls_pool s = evicted pool ev ∧ Forall (unincludable (block_gas_limit_of builder)) ev ∧ ps_invalid (ls_pool s) = ps_invalid pool) as Pk.
  { intros s (ev & E & F). exists ev. rewrite E. split; [done|]. split; [done|]. apply evicted_invalid. }
  destruct (apply_pre_execution_changes b00) as [[[]|err] b0].
  2: { intros [= <- <-]. split; [exists []; by split_and!|done]. }
  pose proof (block_gas_limit_range builder) as Bl.
  destruct (tx_loop fuel env 0 _) as [e|] eqn:El; [|done]. apply (tx_loop_spec env b0 pool Bl W _ _ [] []) in El as Eo;
    [|apply inv_start; unfold uint in Bl; cbn; lia].
  cbn [mbind option_bind]. destruct e as [s|s|e s|s]; intros [= <- <-]; cbn in Eo.
  - destruct Eo as (inc & ev & I). split; [apply Pk; by eapply inv_pool|]. pose proof (seal_spec args builder b0 pool inc ev s I) as S.
    pose proof I as (X & _). cbn [snd]. destruct (seal_payload args s) as [[block fees|fees|]|x]; [..|].
    + destruct S as (F & G & B & O & b1 & E1 & E2). exists inc, b1. by split_and!.
    + destruct S. by exists inc, (ls_builder s).
    + done.
    + destruct S as [(y & ->)|(n & -> & _)]; done.
  - destruct Eo as [Po [n Cn]]. split; [by apply Pk|by exists n].
  - destruct Eo as (Po & tx & b & b' & [(x & -> & _)|[-> X]]); (split; [by apply Pk|]); [done|]. by exists tx, b, b'.
  - destruct Eo as (Po & tx & C & Ov). split; [by apply Pk|]. by eexists _, _.
Qed.

(** C14: Blocks are built within their limits.  A block a build returns holds the transactions that were
    executed, one after the other,
    after the pre-execution changes; their gas fits in the block's gas limit, the fees are exactly
    the sum of what each of them pays, and from Osaka the block fits in the size limit.  The build
    evicts only transactions that can never be included: above the block's gas limit, or rejected as
    blocked by execution; and the list of invalid transactions is as it was.  It panics only when a
    transaction's gas limit overflows 64 bits with the gas used so far.  It does return: at the latest
    at the first iteration past the time limit, if there is one, even when the pool never runs dry, and
    otherwise when the pool has no more transactions to offer. *)
Theorem payload_within_limits fuel args builder pool :
  arg_state args = Ok tt → arg_builder args = Ok builder → 0 ≤ default 0 (arg_withdrawals_rlp_length args) →
  (∀ out pool', arc_ethereum_payload fuel args pool = Some (out, pool') → payload_ok args builder pool pool' out)
  ∧ (over_within fuel (build_env args builder) 0 (arg_best_txs args (basefee_of builder)) →
     is_Some (arc_ethereum_payload fuel args pool)).
Proof.
  intros As Ab W. split; [intros out pool'; by apply payload_spec|]. intros O. unfold arc_ethereum_payload. rewrite As, Ab.
  destruct (apply_pre_execution_changes _) as [[[]|err] b0]; [|done].
  destruct (tx_loop_ends (build_env args builder) fuel 0 (mkLoopState (arg_best_txs args (basefee_of builder)) pool b0 0 0 0) O) as [e E].
  cbn in *. by rewrite E.
Qed.
End PayloadProps.

Section Quarantine.
Context `{LL : LruLaws} `{BL : BuilderLaws} `{RO : RevmOps}.











End Quarantine.
