(* ===== verification/ToyFrames.v ===== *)
(** * Concrete frames

    An executable instance of [FrameOps] and [CallFromOps] over the concrete revm interface that
    satisfies [FrameLaws]: a checkpoint is a copy of the journal, a call runs when its target has
    code and succeeds at once otherwise, its value moves first.  The witnesses of the theorems on
    frames and subcalls are evaluated on it. *)

From S2P Require Import Prelude Hardforks Revm ToyRevm Precompile NativeCoin Frames FramesProps Subcall SubcallProps SubcallRuns.

Record ToyFrame := mkToyFrame { tf_depth : nat; tf_finished : bool }.

(** The value of the frame, with the address a CREATE computes from its nonce. *)
Definition toy_created (c : CreateInputs) (n : Z) : Z := 1000 * cr_caller c + n.
Definition toy_transfer_of (w : World) (i : FrameInit bytes) : option (Z * Z * Z) :=
  match fi_frame_input i with
  | FiEmpty => None
  | FiCall i =>
      match ci_scheme i, ci_value i with
      | SchemeCall, ValueTransfer v => Some (ci_caller i, ci_target_address i, v)
      | _, _ => None
      end
  | FiCreate i =>
      let address := match cr_scheme i with
                     | SchemeCreate => toy_created i (nonce (w_account w (cr_caller i)))
                     | SchemeCreate2 _ => toy_created i 0
                     | SchemeCustom a => a
                     end in
      Some (cr_caller i, address, cr_value i)
  end.
Definition toy_result (i : FrameInit bytes) (r : InstructionResult) : FrameResult :=
  match fi_frame_input i with
  | FiCreate c => FrCreate (mkCreateOutcome (mkInterpreterResult r [] (mkToyGas 0 (cr_gas_limit c) 0)) (Some 1))
  | FiCall c => FrCall (mkCallOutcome (mkInterpreterResult r [] (mkToyGas 0 (ci_gas_limit c) 0)) (0, 0) false [])
  | FiEmpty => FrCall (mkCallOutcome (mkInterpreterResult r [] (mkToyGas 0 0 0)) (0, 0) false [])
  end.
Definition toy_limit (i : FrameInit bytes) : Z :=
  match fi_frame_input i with FiCall c => ci_gas_limit c | FiCreate c => cr_gas_limit c | FiEmpty => 0 end.
Definition toy_runs (i : FrameInit bytes) : bool :=
  match fi_frame_input i with FiCall c => bool_decide (ci_known_bytecode c ≠ (0, [])) | _ => true end.
Definition toy_started (i : FrameInit bytes) : ItemOrResult ToyFrame FrameResult :=
  if toy_runs i then Item (mkToyFrame (fi_depth i) false) else Result_ (toy_result i IrStop).

Definition toy_init (c : Z * Z) (j : ToyJournal) (i : FrameInit bytes)
    : result unit (ItemOrResult ToyFrame FrameResult) * ((Z * Z) * ToyJournal) :=
  if decide (toy_limit i < 0) then (Err (), (c, j))
  else match toy_transfer_of (toy_view j) i with
       | None => (Ok (toy_started i), (c, j))
       | Some (from, to, v) =>
           if decide (v < 0) then (Ok (Result_ (toy_result i IrRevert)), (c, j))
           else match journal_transfer j from to v with
                | (Ok None, j') => (Ok (toy_started i), (c, j'))
                | _ => (Ok (Result_ (toy_result i IrRevert)), (c, j))
                end
       end.

#[export] Instance toy_frames : FrameOps (RO := toy_revm) := {|
  total_gas_spent := tg_used;
  gas_limit_of g := tg_used g + tg_remaining g;
  set_spent g n := mkToyGas n (tg_used g + tg_remaining g - n) (tg_refunded g);
  refunded := tg_refunded;
  record_refund g n := mkToyGas (tg_used g) (tg_remaining g) (tg_refunded g + n);
  Code := bytes;
  default_code := [];
  eip7702_address _ := None;
  Checkpoint := ToyJournal;
  checkpoint j := (j, j);
  checkpoint_commit j := j;
  checkpoint_revert _ cp := cp;
  journal_sload j a k := (Ok (present_value (toy_slot j a k), true), toy_warm j a k);
  load_account_info_skip_cold_load j a _ _ :=
    let i := toy_account j a in
    (Ok (true, i, if decide (code_hash i = 0) then None else Some (to_be_bytes 32 (code_hash i))), j);
  transfer_from := ci_caller;
  transfer_to := ci_target_address;
  transfer_value i := match ci_value i with ValueTransfer v => Some v | ValueApparent _ => None end;
  transfers_value i := match ci_value i with ValueTransfer v => bool_decide (0 < v) | ValueApparent _ => false end;
  created_address := toy_created;
  Ctx := Z * Z;
  ctx_tx_caller := fst;
  ctx_tx_nonce := snd;
  shared_buffer _ _ _ := [];
  Frame := ToyFrame;
  frame_depth := tf_depth;
  is_finished := tf_finished;
  init_with_context := toy_init;
  frame_return c j f _ := (Ok (), (mkToyFrame (tf_depth f) false, c, j));
  precompiles_contains _ := false;
|}.

#[export] Instance toy_call_from : CallFromOps := {|
  GAS_COPY := 3;
  decode_callFrom b :=
    match toy_addr 0 b, toy_addr 1 b with
    | Some sender, Some target => Ok (sender, target, drop 64 b)
    | _, _ => Err "invalid words"
    end;
  encode_callFrom_returns ok out := to_be_bytes 32 (if ok then 1 else 0) ++ out;
|}.

(** The possible outcomes of [toy_init]. *)
Lemma toy_init_cases c j i : let '(r, (c', j')) := toy_init c j i in c' = c
  ∧ match r with
    | Err _ => j' = j
    | Ok r => 0 ≤ toy_limit i
        ∧ ((r = Result_ (toy_result i IrRevert) ∧ j' = j)
           ∨ (r = toy_started i ∧ toy_transfer_of (toy_view j) i = None ∧ j' = j)
           ∨ (r = toy_started i ∧ ∃ from to v, toy_transfer_of (toy_view j) i = Some (from, to, v)
                ∧ 0 ≤ v ∧ journal_transfer (RevmOps := toy_revm) j from to v = (Ok None, j')))
    end.
Proof.
  unfold toy_init. case_decide as L; [done|]. destruct (toy_transfer_of _ i) as [[[f t] v]|] eqn:T.
  - case_decide as V; [naive_solver lia|]. destruct (journal_transfer (RevmOps := toy_revm) j f t v) as [[[|]|] j'] eqn:J; (split; [done|]; split; [lia|]);
      [by left| |by left]. right. right. split; [done|]. exists f, t, v. split; [done|]. split; [lia|done].
  - split; [done|]. split; [lia|]. right. by left.
Qed.

Lemma toy_transfer_moves j from to v j' : 0 ≤ v → journal_transfer (RevmOps := toy_revm) j from to v = (Ok None, j') →
  (∀ a, balance_of (toy_view j') a = moved (toy_view j) from to v a) ∧ tj_logs j' = tj_logs j.
Proof.
  intros V J. pose proof (toy_transfer_view j from to v j' V J) as T. split.
  - intros a. unfold moved. case_decide as E.
    + subst to. rewrite (balance_of_proper _ _ T a a eq_refl). case_decide; lia.
    + destruct T as (_ & _ & W). rewrite (balance_of_proper _ _ W a a eq_refl). unfold balance_of, set_balance. cbn.
      repeat case_decide; subst; cbn; congruence || lia.
  - cbn in J. case_decide; [by injection J as <-|]. case_decide; [done|]. case_decide; [done|]. by injection J as <-.
Qed.

(** The laws on [init_with_context]. *)
Lemma toy_init_ok c j i r c' j' : toy_init c j i = (Ok r, (c', j')) →
  0 ≤ toy_limit i ∧ tj_logs j' = tj_logs j
  ∧ (r = Result_ (toy_result i IrRevert) ∧ j' = j
     ∨ r = toy_started i ∧ match toy_transfer_of (toy_view j) i with
                          | Some (from, to, v) => ∀ a, balance_of (toy_view j') a = moved (toy_view j) from to v a
                          | None => j' = j
                          end).
Proof.
  intros E. pose proof (toy_init_cases c j i) as X. rewrite E in X.
  destruct X as (_ & L & [[-> ->]|[(-> & T & ->)|(-> & f & t & v & T & V & J)]]); (split; [done|]).
  - split; [done|]. by left.
  - split; [done|]. right. by rewrite T.
  - destruct (toy_transfer_moves _ _ _ _ _ V J) as [M Lg]. split; [done|]. right. by rewrite T.
Qed.
Lemma toy_emits i r : r = Result_ (toy_result i IrRevert) → should_emit_transfer_log (T := ToyFrame) r = false.
Proof. intros ->. unfold toy_result. by destruct (fi_frame_input i). Qed.
Lemma toy_started_emits i : should_emit_transfer_log (toy_started i) = true.
Proof. unfold toy_started, toy_runs, toy_result. destruct (fi_frame_input i); cbn; [done|destruct (bool_decide _)|]; done. Qed.
Lemma toy_result_fits i k : 0 ≤ toy_limit i → let r := toy_result i k in
  0 ≤ tg_used (ir_gas (fr_result r)) ≤ toy_limit i ∧ Z.of_nat (length (ir_output (fr_result r))) < 2 ^ 42
  ∧ (is_call i = true → ∃ o, r = FrCall o).
Proof. unfold toy_limit, toy_result, is_call. intros L. destruct (fi_frame_input i); cbn; (split; [lia|]; split; [lia|]); eauto; done. Qed.

#[export] Instance toy_frame_laws : FrameLaws (FO := toy_frames) (RL := toy_laws).
Proof.
  unshelve refine (Build_FrameLaws toy_revm toy_frames toy_laws _ _ _ _ _ _ _ _ _ _ _ (λ _ _, True) _ (λ cp j, cp = j)
    _ _ _ _ _ _ _ _ _ _ _ _ _ _ _ _ _ _ _ _ _ _); cbn; try done; try (intros; lia).
  - intros g c. case_decide; cbn; lia.
  - intros g c. by case_decide.
  - intros cp j _ -> _. done.
  - intros j a k v cold j' [= <- _ _]. done.
  - intros c j i. pose proof (toy_init_cases c j i) as X. destruct (toy_init c j i) as [r [c' j']]. by destruct X as [-> _].
  - intros c j i f c' j' E. destruct (toy_init_ok _ _ _ _ _ _ E) as (_ & _ & [[? _]|[S _]]); [done|].
    unfold toy_started in S. destruct (toy_runs i); [|done]. by injection S as ->.
  - intros c j i r c' j' E. destruct (toy_init_ok _ _ _ _ _ _ E) as (_ & L & _). exists []. by rewrite app_nil_r.
  - intros c j i r c' j' E Em. destruct (toy_init_ok _ _ _ _ _ _ E) as (_ & _ & [[_ ->]|[-> _]]); [done|]. by rewrite toy_started_emits in Em.
  - intros c j i r c' j' from to v E Em _ T. destruct (toy_init_ok _ _ _ _ _ _ E) as (_ & _ & [[R _]|[_ M]]).
    + by rewrite (toy_emits i r R) in Em.
    + change (toy_transfer_of (toy_view j) i = Some (from, to, v)) in T. by rewrite T in M.
  - intros c j i r c' j' E. destruct (toy_init_ok _ _ _ _ _ _ E) as (L & _ & [[[= ->] _]|[S _]]); [by apply toy_result_fits|].
    unfold toy_started in S. destruct (toy_runs i); [done|]. injection S as ->. by apply toy_result_fits.
Defined.

(** ** Witnesses *)

Definition fw_flags : ArcHardforkFlags := mkFlags true true true true true false.
(** Account 1 has 100 coins, account 2 has code. *)
Definition fw_journal : ToyJournal := mkToyJournal (<[1 := (100, 0, 0)]> {[2 := (0, 1, 7)]}) ∅ ∅ ∅ [].
Definition fw_state : FrameState (FO := toy_frames) := mkFrameState (1, 0) fw_journal [].
Definition fw_call (caller target : Z) (code : bytes) (value : Z) (data : bytes) (limit : Z) : CallInputs (Code (FrameOps := toy_frames)) :=
  mkCallInputs SchemeCall target target (7, code) (ValueTransfer value) (InputBytes data) limit false caller (0, 0) 0.
Definition fw_frame : FrameInit (Code (FrameOps := toy_frames)) := mkFrameInit 0 (FiCall (fw_call 1 2 [Byte.x01] 5 [] 50000)).

Definition is_pushed (r : result EvmFailure FrameInitOutcome) : bool := match r with Ok Pushed => true | _ => false end.
Lemma is_pushed_inv r : is_pushed r = true → r = Ok Pushed.
Proof. by destruct r as [[]|]. Qed.

(** [transfers_checked_and_logged] at a call that sends 5 coins to a contract: its frame starts, the
    coins moved, and one log was added. *)
Lemma transfers_checked_and_logged_witness : wf_frame fw_state fw_frame
  ∧ ∃ s', checked_frame_init fw_flags fw_frame fw_state = (Ok Pushed, s')
    ∧ w_logs (view (fs_journal s')) = [create_eip7708_transfer_log 1 2 5]
    ∧ balance_of (view (fs_journal s')) 1 = 95 ∧ balance_of (view (fs_journal s')) 2 = 5.
Proof.
  assert (wf_frame fw_state fw_frame) as W by (split; [by vm_compute|done]). split; [done|].
  pose proof (transfers_checked_and_logged fw_flags fw_frame fw_state W) as T.
  assert (is_pushed (checked_frame_init fw_flags fw_frame fw_state).1 = true) as E by (vm_compute; reflexivity).
  destruct (checked_frame_init fw_flags fw_frame fw_state) as [r s']. apply is_pushed_inv in E. cbn [fst] in E. subst r.
  assert (frame_value (view (fs_journal fw_state)) fw_frame = Some (1, 2, 5)) as V by (vm_compute; reflexivity).
  assert (transfer_allowed (view (fs_journal fw_state)) 1 2 = true) as A by (vm_compute; reflexivity).
  cbv zeta in T. rewrite V, A in T. destruct T as [_ [(l & L & Ln) M]]. exists s'. split; [done|].
  specialize (M eq_refl 1 2 5 eq_refl). rewrite (M 1), (M 2), L, (Ln eq_refl). split; [reflexivity|]. by split; vm_compute.
Defined.

(** A [callFrom] of an allowed caller, for the origin of the transaction, into account 2. *)
Definition fw_registry : gmap Z (SubcallPrecompile (Any := unit) * AllowedCallers) := build_subcall_registry () fw_flags.
Definition fw_subcall : CallInputs (Code (FrameOps := toy_frames)) := fw_call MEMO_ADDRESS CALL_FROM_ADDRESS [] 0 (to_be_bytes 32 1 ++ to_be_bytes 32 2) 50000.
Definition fw_evm : ArcEvm (Any := unit) := mkArcEvm fw_state ∅.

(** [subcalls_authorised_and_atomic] there: the child's frame is pushed at depth 1 with its continuation. *)
Lemma subcalls_authorised_and_atomic_witness :
  costs_fit (CallFromPrecompile ()) (ci_gas_limit fw_subcall)
  ∧ ∃ e' f c child, frame_init fw_flags fw_registry (mkFrameInit 0 (FiCall fw_subcall)) fw_evm = (Ok Pushed, e')
    ∧ authorised (Only {[MEMO_ADDRESS; MULTICALL3_FROM_ADDRESS]}) 1 fw_subcall child
    ∧ stack_of e' = [f] ∧ frame_depth f = 1%nat ∧ subcall_continuations e' = {[0%nat := c]} ∧ sc_gas_limit c = 50000.
Proof.
  assert (costs_fit (CallFromPrecompile ()) (ci_gas_limit fw_subcall)) as Co by (apply call_from_costs_fit; cbn; lia). split; [done|].
  pose proof (subcalls_authorised_and_atomic fw_flags fw_registry (mkFrameInit 0 (FiCall fw_subcall)) fw_subcall
    (CallFromPrecompile ()) (Only {[MEMO_ADDRESS; MULTICALL3_FROM_ADDRESS]}) fw_evm eq_refl eq_refl Co) as T.
  assert (is_pushed (frame_init fw_flags fw_registry (mkFrameInit 0 (FiCall fw_subcall)) fw_evm).1 = true) as E by (vm_compute; reflexivity).
  destruct (frame_init _ _ _ _) as [r e']. apply is_pushed_inv in E. cbn [fst] in E. subst r. destruct T as (f & c & child & Au & _ & S & D & _ & Ct & _ & G & _).
  exists e', f, c, child. split; [done|]. split; [done|]. split; [done|]. split; [done|]. split; [|done]. rewrite Ct. done.
Defined.

(** The child has returned after spending 100 of its gas. *)
Definition fw_continuation : SubcallContinuation (Any := unit) :=
  mkSubcallContinuation (CallFromPrecompile ()) 50000 2800 (0, 0) () fw_journal.
Definition fw_result : FrameResult := FrCall (mkCallOutcome (mkInterpreterResult IrReturn [] (mkToyGas 100 46000 0)) (0, 0) false []).
Definition fw_returning : ArcEvm (Any := unit) :=
  mkArcEvm (mkFrameState (FO := toy_frames) (1, 0) fw_journal [mkToyFrame 1 true]) {[0%nat := fw_continuation]}.

Lemma subcall_completion_settles_witness : ∃ final e',
  frame_return_result fw_result fw_returning = propagate final e'
  ∧ subcall_continuations e' = ∅ ∧ stack_of e' = [] ∧ 2900 ≤ total_gas_spent (result_gas final) ≤ 50000.
Proof.
  assert (within_budget fw_result fw_continuation) as B by (unfold within_budget; vm_compute; repeat split; discriminate).
  destruct (subcall_completion_settles (FL := toy_frame_laws) fw_journal fw_result fw_continuation fw_returning (mkToyFrame 1 true) [] 0
    eq_refl eq_refl eq_refl eq_refl eq_refl I B) as (final & e' & E & (_ & S & _) & (j' & -> & _)).
  exists final. eexists. split; [done|]. split; [done|]. split; [done|]. exact S.
Defined.

(** [continuations_match_frames] after the child of that [callFrom] ran to its end. *)
Lemma continuations_match_frames_witness : ∃ e c, driven fw_flags fw_registry [Some c] e
  ∧ continuation_for e (mkToyFrame 1 true) = Some c ∧ stack_of e = [mkToyFrame 1 true].
Proof.
  set (i := mkFrameInit 0 (FiCall fw_subcall) : FrameInit (Code (FrameOps := toy_frames))). set (e1 := (frame_init fw_flags fw_registry i fw_evm).2).
  set (e := mkArcEvm (mkFrameState (FO := toy_frames) (1, 0) fw_journal [mkToyFrame 1 true]) (subcall_continuations e1)).
  assert (driven fw_flags fw_registry [tag_of fw_registry i e1] e) as D.
  { eapply driven_run.
    - eapply (driven_start _ _ i fw_evm); [done..|]. rewrite (surjective_pairing (frame_init _ _ _ _)). f_equal.
    - exists (mkToyFrame 1 false), (mkToyFrame 1 true), []. split; [vm_compute; reflexivity|]. done. }
  assert (top_finished e true) as F by (by exists (mkToyFrame 1 true), []).
  destruct (continuations_match_frames _ _ _ _ _ D F) as (_ & Own & _).
  assert (match tag_of fw_registry i e1 with Some _ => true | None => false end = true) as Sm by (vm_compute; reflexivity).
  destruct (tag_of fw_registry i e1) as [c|]; [|done].
  exists e, c. split; [done|]. split; [by eapply Own|done].
Defined.
