(* ===== verification/ToyPool.v ===== *)
(** * A concrete host, pool and payload builder

    Executable instances of [HostOps], [PoolOps] and [BuilderOps] that satisfy their laws, and the
    witnesses of the theorems on self-destruction, the handler, the pool and the payload builder. *)

From S2P Require Import Prelude Hardforks Revm ToyRevm Precompile NativeCoin Frames FramesProps Selfdestruct Handler TxPool PayloadBuilder ToyFrames.

(** ** Host *)

Definition toy_destroy (j : ToyJournal) (addr target : Z) : result (LoadError unit) (SelfDestructResult * bool) * ToyJournal :=
  let b := balance (toy_account j addr) in
  let res := (mkSelfDestructResult (bool_decide (b ≠ 0)) true false, false) in
  if decide (addr = target) then (Ok res, j)
  else match journal_transfer (RevmOps := toy_revm) j addr target b with
       | (Ok None, j') => (Ok res, j')
       | _ => (Err (DBError tt), j)
       end.

#[export] Instance toy_host : HostOps (FO := toy_frames) := {|
  selfdestruct_cold_cost := 2600;
  selfdestruct_cost topup cold := (if topup then 25000 else 0) + (if cold then 2600 else 0);
  selfdestruct_refund := 0;
  host_balance j a := (Some (balance (toy_account j a)), j);
  host_sload j a k := (Some (present_value (toy_slot j a k)), j);
  host_sload_skip_cold_load j a k _ := (Ok (present_value (toy_slot j a k)), j);
  host_load_account_info_skip_cold_load j a _ _ := (Ok false, j);
  host_selfdestruct j addr target _ := toy_destroy j addr target;
  load_account_mut_skip_cold_load j a _ := (Ok (mkLoadedAccount true (toy_account j a) (default false (tj_destroyed j !! a))), j);
  warm_addresses_check_is_cold _ _ _ := Some true;
|}.

Lemma toy_destroy_ok j addr target r j' : toy_destroy j addr target = (Ok r, j') →
  let b := balance_of (toy_view j) addr in
  if decide (addr = target) then j' = j
  else toy_view j' ≡ set_balance (set_balance (toy_view j) addr (b - b)) target (balance_of (toy_view j) target + b)
       ∧ (∀ a, balance_of (toy_view j') a = moved (toy_view j) addr target b a) ∧ tj_logs j' = tj_logs j.
Proof.
  unfold toy_destroy. case_decide as E; [by intros [= _ <-]|].
  destruct (journal_transfer (RevmOps := toy_revm) j addr target (balance (toy_account j addr))) as [[[]|] j1] eqn:T; try done. intros [= _ <-].
  assert (0 ≤ balance (toy_account j addr)) as N by (pose proof (toy_balance_range j addr) as U; unfold uint in U; lia).
  pose proof (toy_transfer_view _ _ _ _ _ N T) as V. rewrite decide_False in V by done. destruct V as (_ & _ & V).
  split; [exact V|]. exact (toy_transfer_moves _ _ _ _ _ N T).
Qed.

#[export] Instance toy_host_laws : HostLaws (HO := toy_host) (RL := toy_laws).
Proof.
  constructor; cbn; try done.
  - intros topup cold. destruct topup, cold; lia.
  - intros j a b [= <-]. done.
  - intros j a k v [= <-]. done.
  - intros j a k _ v [= <-]. done.
  - intros j a _ acc [= <-]. done.
  - intros j addr target _ r j' E _ D. pose proof (toy_destroy_ok _ _ _ _ _ E) as X. cbv zeta in X. case_decide as Q.
    + subst. destruct D as [D|D]; [done|]. rewrite D. split_and!; try done. intros a. unfold moved. case_decide; lia.
    + destruct X as (V & M & _). split_and!; [exact M|..].
      * intros a k. exact (w_storage_proper _ _ V a a eq_refl k k eq_refl).
      * intros a _. exact (w_selfdestructed_proper _ _ V a a eq_refl).
  - intros j addr target _ r j' E. pose proof (toy_destroy_ok _ _ _ _ _ E) as X. cbv zeta in X. case_decide; [by subst j'|apply X].
  - intros j addr target _ e j'. unfold toy_destroy. case_decide; [done|]. destruct (journal_transfer _ _ _ _) as [[[]|] ?]; by intros [= _ <-].
Qed.

(** ** Pool *)

#[export] Instance toy_pool : PoolOps := {|
  LruMap := nat * list Z;
  lru_new cap := (cap, []);
  lru_peek m h := bool_decide (h ∈ m.2);
  lru_insert m h := (negb (bool_decide (m.1 = 0%nat)), (m.1, take m.1 (h :: filter (λ h', h' ≠ h) m.2)));
  lru_len m := length m.2;
  Authorization := Z;
  recover_authority a := Some a;
  ProviderError := unit;
  InvalidPoolTransactionError := unit;
  StatefulOutcome := bool;
|}.
#[export] Instance toy_lru_laws : LruLaws (PO := toy_pool).
Proof. by refine (Build_LruLaws toy_pool snd fst _ _ _). Defined.

(** ** Builder *)

(** A transaction: its hash, its gas limit, and what executing it does, that is its gas, a blocklist
    rejection or a panic.  The builder keeps the hashes of those it included. *)
Inductive ToyRun := TrOk (gas : nat) | TrBlocked | TrPanic.
Record ToyItem := mkToyItem { ti_hash : Z; ti_gas_limit : nat; ti_run : ToyRun }.

#[export] Instance toy_builder : BuilderOps := {|
  PoolItem := ToyItem;
  item_hash := ti_hash;
  item_gas_limit tx := Z.min (Z.of_nat (ti_gas_limit tx)) (2 ^ 64 - 1);
  item_rlp_length _ := 100;
  item_effective_gas_price _ base_fee := Z.min (Z.max base_fee 0) (2 ^ 128 - 1);
  BestTxs := list ToyItem;
  best_next b := match b with tx :: b => Some (tx, b) | [] => None end;
  best_mark_invalid b _ _ := b;
  Pool := list Z;
  pending_hashes p := p;
  remove_transactions_and_descendants p hs := filter (λ h, h ∉ hs) p;
  Builder := list Z;
  BuildErr := unit;
  Block := list Z;
  block_gas_limit_of _ := 1000;
  basefee_of _ := 7;
  set_state_hook b _ := b;
  apply_pre_execution_changes b := (Ok tt, b);
  execute_transaction b tx :=
    match ti_run tx with
    | TrOk g => if decide (g ≤ ti_gas_limit tx)%nat then (Returned (Ok (Z.min (Z.of_nat g) (2 ^ 64 - 1))), b ++ [ti_hash tx])
                else (Returned (Err (ExecOther tt)), b)
    | TrBlocked => (Returned (Err (InvalidTx false (Some (InvalidStr ERR_BLOCKED_ADDRESS)))), b)
    | TrPanic => (Panicked, b)
    end;
  finish b _ := Ok b;
  block_rlp_length b := 100 * Z.of_nat (length b);
  MAX_RLP_BLOCK_SIZE := 8388608;
  is_better_payload best fees := match best with Some f => bool_decide (f < fees) | None => true end;
|}.
#[export] Instance toy_builder_laws : BuilderLaws (BO := toy_builder).
Proof.
  constructor; cbn; try done.
  - intros tx. unfold uint. lia.
  - intros tx b. unfold uint. lia.
  - intros b tx g b'. destruct (ti_run tx); [|done..]. case_decide; [|done]. intros [= <- <-]. lia.
Defined.

(** ** Witnesses *)

Definition pw_journal : Journal (RevmOps := toy_revm) := fw_journal.
Definition pw_sd_state : SdState (RO := toy_revm) := mkSdState (mkToyGas 0 50000 0) pw_journal.
Definition pw_interpreter : Interpreter := mkInterpreter false [2] 1 true.
Definition is_destroyed (a : Action (RO := toy_revm)) : bool := match a with ActHalt IrSelfDestruct => true | _ => false end.

(** [selfdestructs_guarded] at a contract with 100 coins that destroys itself into account 2. *)
Lemma selfdestructs_guarded_witness : ∃ s',
  run_instruction ((insert_arc_selfdestruct_instruction fw_flags).1 pw_interpreter) pw_sd_state = (ActHalt IrSelfDestruct, s')
  ∧ w_logs (view (sd_journal s')) = [create_eip7708_transfer_log 1 2 100]
  ∧ balance_of (view (sd_journal s')) 1 = 0 ∧ balance_of (view (sd_journal s')) 2 = 100.
Proof.
  pose proof (selfdestructs_guarded (HL := toy_host_laws) (FL := toy_frame_laws) fw_flags pw_interpreter pw_sd_state) as T.
  assert (is_destroyed (run_instruction ((insert_arc_selfdestruct_instruction fw_flags).1 pw_interpreter) pw_sd_state).1 = true) as E by (vm_compute; reflexivity).
  destruct (run_instruction _ pw_sd_state) as [a s']. cbn [fst] in E. destruct a as [[]| | | | |]; try discriminate E.
  destruct T as (_ & (_ & word & stack & [= <- <-] & _ & L & B & _) & _). exists s'. split; [done|]. split; [exact L|].
  destruct B as [B _]; [vm_compute; split; [discriminate|reflexivity]|]. rewrite (B 1), (B 2). split; vm_compute; reflexivity.
Defined.

Definition pw_ctx : HandlerCtx := mkHandlerCtx 1 (TxCall 2) 5 (λ base_fee, base_fee + 3) 9 7.

(** [transactions_gated_and_paid] at a call with value between accounts that are not blocklisted. *)
Lemma transactions_gated_and_paid_witness :
  (∃ j1, pre_execution (m_ret 0) pw_ctx pw_journal = (Ok 0, j1))
  ∧ ∃ j', reward_beneficiary fw_flags pw_ctx 21000 pw_journal = (Ok tt, j') ∧ balance_of (view j') 9 = 210000.
Proof.
  destruct (transactions_gated_and_paid (FL := toy_frame_laws) fw_flags (m_ret 0) pw_ctx 21000 pw_journal) as [(j1 & _ & P) R];
    [vm_compute; split; [discriminate|reflexivity]..|]. split.
  - exists j1. destruct P as [[_ P]|[[A _]|[e P]]]; [exact P|discriminate A|]. exfalso.
    assert (result_ok (pre_execution (m_ret 0) pw_ctx pw_journal).1 ≠ None) as N by (vm_compute; discriminate). by rewrite P in N.
  - assert (is_ok (reward_beneficiary fw_flags pw_ctx 21000 pw_journal).1 = true) as E by (vm_compute; reflexivity).
    destruct (reward_beneficiary fw_flags pw_ctx 21000 pw_journal) as [[[]|e] j']; [|discriminate E]. exists j'. split; [done|].
    destruct R as [V _]. rewrite (balance_of_proper _ _ V 9 9 eq_refl). vm_compute. reflexivity.
Defined.

(** The provider of the same journal, and a transaction of account 1 into account 2. *)
Definition pw_provider : StateProvider unit := λ a k, Ok (Some (present_value (toy_slot pw_journal a k))).
Definition pw_validator : ArcTransactionValidator := mkArcTransactionValidator (λ _, None) (Ok pw_provider) (λ _ _, true)
  (Some (insert_many (lru_new 4) [77])) (denylist_config_new 0x36059b615370eB999e8eC0c9401835B407834221 DEFAULT_DENYLIST_ERC7201_BASE_SLOT [3; 3]).
Definition pw_tx : PoolTx := mkPoolTx 5 1 (Some 2) 5 None.

Lemma pool_agrees_with_execution_witness :
  validate_one pw_validator pw_tx = OutcomeStateful true
  ∧ ∀ msg, (check_blocklist 1 (TxCall 2) 5 pw_journal).1 ≠ Err (InvalidTransactionStr msg).
Proof.
  pose proof (pool_agrees_with_execution (FL := toy_frame_laws) pw_validator pw_tx None pw_provider pw_journal eq_refl) as T.
  specialize (T (λ a k, ex_intro _ _ (conj eq_refl eq_refl))).
  assert (validate_one pw_validator pw_tx = OutcomeStateful true) as E by (vm_compute; reflexivity). split; [done|].
  unfold validate_one in E. cbv zeta in T. rewrite E in T. by destruct T as (_ & _ & _ & _ & _ & _ & T).
Defined.

(** Four transactions: one is included, one exceeds the block's gas, one is blocked, one is included. *)
Definition pw_args (txs : list ToyItem) : BuildArguments :=
  mkBuildArguments (Ok tt) (Ok []) (λ _, txs) None (Some 3) (Some 1000) (λ _, 0) (λ _, false) true None.
Definition pw_txs : list ToyItem :=
  [mkToyItem 11 100 (TrOk 60); mkToyItem 12 2000 (TrOk 5); mkToyItem 13 50 TrBlocked; mkToyItem 14 100 (TrOk 40)].
Definition pw_pool : PoolState := mkPoolState [11; 12; 13; 14; 15] (Some (lru_new 8)).

Abbreviation ToyOut := (option (caught (result (PayloadBuilderError unit) BuildOutcome) * PoolState)).
Definition built_of (r : ToyOut) : option (list Z * Z * list Z) :=
  match r with Some (Returned (Ok (Better block fees)), p) => Some (block, fees, ps_pool p) | _ => None end.

Lemma toy_yields txs : yields_at_most (length txs) (txs : BestTxs (BuilderOps := toy_builder)).
Proof. induction txs as [|tx txs IH]; cbn; [done|]. intros ? ? [= <- <-]. by split. Qed.

Lemma payload_within_limits_witness : ∃ block fees pool' inc b1,
  arc_ethereum_payload 5 (pw_args pw_txs) pw_pool = Some (Returned (Ok (Better block fees)), pool')
  ∧ executed [] inc b1 ∧ gas_of inc ≤ 1000 ∧ fees = fees_of 7 inc ∧ block = [11; 14] ∧ fees = 700 ∧ ps_pool pool' = [11; 14; 15].
Proof.
  destruct (payload_within_limits 5 (pw_args pw_txs) [] pw_pool eq_refl eq_refl ltac:(by vm_compute)) as [Ok Ends].
  destruct Ends as [[out pool'] E]; [left; exists 4%nat; split; [lia|exact (toy_yields pw_txs)]|].
  destruct (Ok _ _ E) as [_ O].
  assert (built_of (arc_ethereum_payload 5 (pw_args pw_txs) pw_pool) = Some ([11; 14], 700, [11; 14; 15])) as C by (vm_compute; reflexivity).
  rewrite E in C. destruct out as [[[block fees|fees|]|e]|]; try discriminate C. cbn in C. injection C as -> -> Pl.
  destruct O as (inc & b1 & X & _ & G & F & _). exists [11; 14], 700, pool', inc, b1. split_and!; try done.
Defined.


