(* ===== verification/PersistenceMeter.v ===== *)
(** * The persistence meter

    eth-engine/src/persistence_meter.rs: a background task counts the blocks the execution layer
    has persisted, and callers wait until the gap to their block is below a threshold.

    The task, the callers of [seed] and the callers of [wait_for_persisted_block] run
    concurrently on the shared atomics; a step of the model is one operation of one of them on
    the shared state, in any order ([perform]).  [Notify::notify_waiters] wakes every
    [notified()] created before it: [epoch] counts these calls.  Time is in milliseconds and
    passes between steps.  The connection itself is not modelled: an attempt succeeds or fails,
    and a subscription yields blocks, an error or its end. *)

From S2P Require Import Prelude.

(** ** Constants *)

Definition RECONNECT_BACKOFF : Z := 1000.
Definition MAX_RECONNECT_BACKOFF : Z := 60000.

(** [SUBSCRIPTION_STATUS_ACTIVE], [.._RECONNECTING] and [.._CONNECTED]. *)
Inductive SubscriptionStatus := ACTIVE | RECONNECTING | CONNECTED.
#[export] Instance subscription_status_eq_decision : EqDecision SubscriptionStatus.
Proof. solve_decision. Defined.

(** ** State *)

Record SharedState := mkSharedState {
  last_persisted_block : Z;
  epoch : nat;
  subscription_status : SubscriptionStatus;
}.

(** Where the background task is: it awaits the subscription; it has a block and has set the
    status; it is about to notify of an advance, or of a lost subscription; it is in [reconnect]. *)
Inductive Background :=
| BgNext
| BgFetchMax (block : Z)
| BgNotify
| BgNotifyLost
| BgReconnect (backoff : Z).

(** A call of [seed], after its first, second and third operation. *)
Inductive Seeder := SeedExchange | SeedNotify | SeedDone.

(** A call of [wait_for_persisted_block]: at the top of the loop, then with its [notified()]
    created at an epoch, before the status, before the counter, asleep; and its result. *)
Inductive WaitPc :=
| WaitTop
| WaitStatus (registered : nat)
| WaitGap (registered : nat)
| WaitNotified (registered : nat)
| WaitReturned (ok : bool).
Record Waiter := mkWaiter {
  w_block_number : Z;
  w_timeout : Z;
  w_started_at : Z;
  w_pc : WaitPc;
}.

Record Meter := mkMeter {
  shared : SharedState;
  persistence_backpressure_threshold : Z;
  background : Background;
  seeders : gmap nat Seeder;
  waiters : gmap nat Waiter;
  now : Z;
}.

Definition with_shared (f : SharedState → SharedState) (m : Meter) : Meter :=
  mkMeter (f (shared m)) (persistence_backpressure_threshold m) (background m) (seeders m) (waiters m) (now m).
Definition with_background (b : Background) (m : Meter) : Meter :=
  mkMeter (shared m) (persistence_backpressure_threshold m) b (seeders m) (waiters m) (now m).
Definition with_seeder (i : nat) (p : Seeder) (m : Meter) : Meter :=
  mkMeter (shared m) (persistence_backpressure_threshold m) (background m) (<[i := p]> (seeders m)) (waiters m) (now m).
Definition with_waiter (i : nat) (w : Waiter) (m : Meter) : Meter :=
  mkMeter (shared m) (persistence_backpressure_threshold m) (background m) (seeders m) (<[i := w]> (waiters m)) (now m).

(** Operations on the shared state. *)
Definition fetch_max (n : Z) (s : SharedState) : SharedState :=
  mkSharedState (Z.max (last_persisted_block s) n) (epoch s) (subscription_status s).
Definition notify_waiters (s : SharedState) : SharedState :=
  mkSharedState (last_persisted_block s) (S (epoch s)) (subscription_status s).
Definition store_status (x : SubscriptionStatus) (s : SharedState) : SharedState :=
  mkSharedState (last_persisted_block s) (epoch s) x.
Definition activate_if_connected (s : SharedState) : SharedState :=
  if decide (subscription_status s = CONNECTED) then store_status ACTIVE s else s.

(** [PersistedBlockMeter::new] *)
Definition PersistedBlockMeter_new (connected : bool) (threshold : Z) : Meter :=
  mkMeter (mkSharedState 0 0 (if connected then CONNECTED else RECONNECTING)) threshold
    (if connected then BgNext else BgReconnect RECONNECT_BACKOFF) ∅ ∅ 0.

(** ** The background task *)

(** [background_reader]: the subscription yields a block, or an error or its end. *)
Definition subscription_next (item : option Z) (m : Meter) : option Meter :=
  match background m with
  | BgNext =>
      Some match item with
           | Some block => with_background (BgFetchMax block) (with_shared (store_status ACTIVE) m)
           | None => with_background BgNotifyLost (with_shared (store_status RECONNECTING) m)
           end
  | _ => None
  end.
Definition background_reader (m : Meter) : option Meter :=
  match background m with
  | BgFetchMax block =>
      let prev := last_persisted_block (shared m) in
      Some (with_background (if decide (prev < block) then BgNotify else BgNext) (with_shared (fetch_max block) m))
  | BgNotify => Some (with_background BgNext (with_shared notify_waiters m))
  | BgNotifyLost => Some (with_background (BgReconnect RECONNECT_BACKOFF) (with_shared notify_waiters m))
  | _ => None
  end.
(** One attempt of [reconnect]. *)
Definition reconnect (connected : bool) (m : Meter) : option Meter :=
  match background m with
  | BgReconnect backoff =>
      Some (with_background (if connected then BgNext else BgReconnect (Z.min (backoff * 2) MAX_RECONNECT_BACKOFF)) m)
  | _ => None
  end.

(** ** Callers *)

Definition seed (i : nat) (block_number : Z) (m : Meter) : option Meter :=
  match seeders m !! i with
  | None => Some (with_seeder i SeedExchange (with_shared (fetch_max block_number) m))
  | Some _ => None
  end.
Definition seed_continue (i : nat) (m : Meter) : option Meter :=
  match seeders m !! i with
  | Some SeedExchange => Some (with_seeder i SeedNotify (with_shared activate_if_connected m))
  | Some SeedNotify => Some (with_seeder i SeedDone (with_shared notify_waiters m))
  | _ => None
  end.

Definition wait_for_persisted_block (i : nat) (block_number timeout : Z) (m : Meter) : option Meter :=
  match waiters m !! i with
  | None => Some (with_waiter i (mkWaiter block_number timeout (now m) WaitTop) m)
  | Some _ => None
  end.
(** The next operation of a caller that waits, unless it is asleep and has not been notified. *)
Definition wait_step (m : Meter) (w : Waiter) : option WaitPc :=
  let s := shared m in
  match w_pc w with
  | WaitTop => Some (WaitStatus (epoch s))
  | WaitStatus registered =>
      Some (if decide (subscription_status s ≠ ACTIVE) then WaitReturned true else WaitGap registered)
  | WaitGap registered =>
      let gap := saturating_sub (w_block_number w) (last_persisted_block s) in
      Some (if decide (gap < persistence_backpressure_threshold m) then WaitReturned true
            else
              let remaining := saturating_sub (w_timeout w) (now m - w_started_at w) in
              if decide (remaining = 0) then WaitReturned false else WaitNotified registered)
  | WaitNotified registered => if decide (registered < epoch s)%nat then Some WaitTop else None
  | WaitReturned _ => None
  end.
(** [tokio::time::timeout] elapses while a caller is asleep. *)
Definition wait_elapsed (m : Meter) (w : Waiter) : option WaitPc :=
  match w_pc w with
  | WaitNotified _ => if decide (w_timeout w ≤ now m - w_started_at w) then Some (WaitReturned false) else None
  | _ => None
  end.
Definition set_pc (w : Waiter) (pc : WaitPc) : Waiter := mkWaiter (w_block_number w) (w_timeout w) (w_started_at w) pc.
Definition waiter_continue (step : Meter → Waiter → option WaitPc) (i : nat) (m : Meter) : option Meter :=
  w ← waiters m !! i; pc ← step m w; Some (with_waiter i (set_pc w pc) m).

(** ** Runs *)

Inductive Action :=
| SubscriptionNext (item : option Z)
| BackgroundContinue
| ReconnectAttempt (connected : bool)
| SeedCall (i : nat) (block_number : Z)
| SeedContinue (i : nat)
| WaitCall (i : nat) (block_number timeout : Z)
| WaitContinue (i : nat)
| WaitElapsed (i : nat)
| Tick (d : N).
Definition perform (a : Action) (m : Meter) : option Meter :=
  match a with
  | SubscriptionNext item => subscription_next item m
  | BackgroundContinue => background_reader m
  | ReconnectAttempt connected => reconnect connected m
  | SeedCall i block_number => seed i block_number m
  | SeedContinue i => seed_continue i m
  | WaitCall i block_number timeout => wait_for_persisted_block i block_number timeout m
  | WaitContinue i => waiter_continue wait_step i m
  | WaitElapsed i => waiter_continue wait_elapsed i m
  | Tick d => Some (mkMeter (shared m) (persistence_backpressure_threshold m) (background m) (seeders m) (waiters m)
                      (now m + Z.of_N d))
  end.
Fixpoint run (acts : list Action) (m : Meter) : option Meter :=
  match acts with
  | [] => Some m
  | a :: acts => m' ← perform a m; run acts m'
  end.

(** [create_with_fallback]: without an endpoint, or when disabled, there is no meter, and
    [NoopPersistenceMeter] lets every caller pass. *)
Definition create_with_fallback (enabled : bool) (endpoint_connects : option bool) (threshold : Z) : option Meter :=
  if enabled then (λ connects : bool, PersistedBlockMeter_new connects threshold) <$> endpoint_connects else None.
(** [seed_from_latest_block]: the block the execution layer reports, if it does. *)
Definition seed_from_latest_block (latest : option Z) : list Action :=
  match latest with Some n => [SeedCall 0 n; SeedContinue 0; SeedContinue 0] | None => [] end.

(** ** Invariants *)

(** Some thread is going to call [notify_waiters] next. *)
Definition notification_pending (m : Meter) : Prop :=
  background m = BgNotify ∨ background m = BgNotifyLost
  ∨ ∃ i, seeders m !! i = Some SeedExchange ∨ seeders m !! i = Some SeedNotify.
(** The caller has to wait: the meter is active and too far behind. *)
Definition held_back (m : Meter) (w : Waiter) : Prop :=
  subscription_status (shared m) = ACTIVE
  ∧ persistence_backpressure_threshold m ≤ saturating_sub (w_block_number w) (last_persisted_block (shared m)).
(** The background task holds a live subscription. *)
Definition live (b : Background) : Prop := b = BgNext ∨ (∃ n, b = BgFetchMax n) ∨ b = BgNotify.
Definition reconnecting (b : Background) : Prop :=
  b = BgNotifyLost ∨ ∃ backoff, b = BgReconnect backoff ∧ RECONNECT_BACKOFF ≤ backoff ≤ MAX_RECONNECT_BACKOFF.

(** What is known of a caller at each of its operations. *)
Definition waiter_ok (m : Meter) (w : Waiter) : Prop :=
  match w_pc w with
  | WaitTop | WaitReturned true => True
  | WaitStatus e => (e ≤ epoch (shared m))%nat
  | WaitGap e =>
      (e ≤ epoch (shared m))%nat
      ∧ (e = epoch (shared m) → subscription_status (shared m) = ACTIVE ∨ notification_pending m)
  | WaitNotified e => (e ≤ epoch (shared m))%nat ∧ (e = epoch (shared m) → held_back m w ∨ notification_pending m)
  | WaitReturned false => w_timeout w ≤ now m - w_started_at w
  end.

Record meter_ok (m : Meter) : Prop := {
  ok_background : live (background m) ∨ reconnecting (background m);
  ok_status : subscription_status (shared m) ≠ RECONNECTING → live (background m);
  ok_connected : subscription_status (shared m) = CONNECTED → background m = BgNext;
  ok_waiters : ∀ i w, waiters m !! i = Some w → waiter_ok m w;
}.

(** ** Every step keeps the invariant *)

(** A step that does not touch the callers and takes from them nothing they rely on. *)
Record covers (m m' : Meter) : Prop := {
  cov_epoch : (epoch (shared m) ≤ epoch (shared m'))%nat;
  cov_now : now m ≤ now m';
  cov_pending : epoch (shared m) = epoch (shared m') → notification_pending m → notification_pending m';
  cov_status : epoch (shared m) = epoch (shared m') →
    subscription_status (shared m) = ACTIVE → subscription_status (shared m') = ACTIVE ∨ notification_pending m';
  cov_held : ∀ w, epoch (shared m) = epoch (shared m') → held_back m w → held_back m' w ∨ notification_pending m';
}.
Lemma waiter_ok_covers m m' w : covers m m' → waiter_ok m w → waiter_ok m' w.
Proof.
  intros [E N P S H]. unfold waiter_ok. destruct (w_pc w) as [|e|e|e|[]]; [done|lia| | |done|lia].
  - intros [L K]. split; [lia|]. intros ->. assert (epoch (shared m) = epoch (shared m')) as Q by lia.
    destruct (K ltac:(lia)); [by apply S|right; by apply P].
  - intros [L K]. split; [lia|]. intros ->. assert (epoch (shared m) = epoch (shared m')) as Q by lia.
    destruct (K ltac:(lia)); [by apply H|right; by apply P].
Qed.

(** A step after which a notification is pending, and one that is a notification. *)
Lemma covers_pending m m' : (epoch (shared m) ≤ epoch (shared m'))%nat → now m ≤ now m' → notification_pending m' → covers m m'.
Proof. intros E N P. split; auto. Qed.
Lemma covers_notify m m' : epoch (shared m') = S (epoch (shared m)) → now m ≤ now m' → covers m m'.
Proof. intros E N. split; [lia|done|lia..]. Qed.
(** The seeders are the same and the background task was not about to notify. *)
Lemma pending_seeders m m' : background m ≠ BgNotify → background m ≠ BgNotifyLost → seeders m' = seeders m →
  notification_pending m → notification_pending m'.
Proof. intros N1 N2 E [?|[?|(i & H)]]; [done..|]. right. right. exists i. by rewrite E. Qed.

Lemma meter_ok_shared m m' : covers m m' → waiters m' = waiters m → (live (background m') ∨ reconnecting (background m')) →
  (subscription_status (shared m') ≠ RECONNECTING → live (background m')) →
  (subscription_status (shared m') = CONNECTED → background m' = BgNext) → meter_ok m → meter_ok m'.
Proof.
  intros C W B S K [_ _ _ O]. split; [done..|]. rewrite W. intros i w L. eapply waiter_ok_covers; [exact C|by eapply O].
Qed.

Lemma backoff_doubles backoff : RECONNECT_BACKOFF ≤ backoff ≤ MAX_RECONNECT_BACKOFF →
  RECONNECT_BACKOFF ≤ Z.min (backoff * 2) MAX_RECONNECT_BACKOFF ≤ MAX_RECONNECT_BACKOFF.
Proof. unfold RECONNECT_BACKOFF, MAX_RECONNECT_BACKOFF. lia. Qed.

Lemma subscription_next_ok item m m' : meter_ok m → subscription_next item m = Some m' → meter_ok m'.
Proof.
  intros O H. unfold subscription_next in H. destruct (background m) eqn:B; try done. injection H as <-. destruct item as [n|].
  - apply (meter_ok_shared m); [|done|left; right; left; by eexists|intros _; right; left; by eexists|done|done].
    split; [done|done| |by left|].
    + intros _. by apply pending_seeders; rewrite ?B.
    + intros w _ [S G]. left. by split.
  - apply (meter_ok_shared m); [|done|right; by left|done|done|done]. apply covers_pending; [done|done|right; by left].
Qed.
Lemma background_reader_ok m m' : meter_ok m → background_reader m = Some m' → meter_ok m'.
Proof.
  intros O H. pose proof (ok_status _ O) as Os. pose proof (ok_connected _ O) as Oc.
  unfold background_reader in H. destruct (background m) as [|n| | |] eqn:B; try done; injection H as <-.
  - assert (subscription_status (shared m) ≠ CONNECTED) as Nc by (intros S; by apply Oc in S).
    case_decide as D; cbn [background with_background with_shared].
    + apply (meter_ok_shared m); [|done|left; right; by right|intros _; right; by right|done|done].
      apply covers_pending; [done|done|by left].
    + apply (meter_ok_shared m); [|done|left; by left|intros _; by left|done|done].
      split; [done|done| |by left|].
      * intros _. by apply pending_seeders; rewrite ?B.
      * intros w _ [S G]. left. split; [done|]. cbn. by rewrite Z.max_l by lia.
  - apply (meter_ok_shared m); [by apply covers_notify|done|left; by left|intros _; by left|done|done].
  - apply (meter_ok_shared m); [by apply covers_notify|done| | | |done].
    + right. right. eexists. split; [done|]. unfold RECONNECT_BACKOFF, MAX_RECONNECT_BACKOFF. lia.
    + cbn. intros S%Os. by destruct S as [?|[(? & ?)|?]].
    + cbn. by intros S%Oc.
Qed.
Lemma reconnect_ok connected m m' : meter_ok m → reconnect connected m = Some m' → meter_ok m'.
Proof.
  intros O H. pose proof (ok_status _ O) as Os. pose proof (ok_connected _ O) as Oc. pose proof (ok_background _ O) as Ob.
  unfold reconnect in H. destruct (background m) as [| | | |backoff] eqn:B; try done. injection H as <-.
  assert (RECONNECT_BACKOFF ≤ backoff ≤ MAX_RECONNECT_BACKOFF) as Bb.
  { destruct Ob as [[?|[(? & ?)|?]]|[?|(b & [= <-] & ?)]]; done. }
  assert (subscription_status (shared m) = RECONNECTING) as S.
  { destruct (decide (subscription_status (shared m) = RECONNECTING)) as [?|N]; [done|].
    apply Os in N. by destruct N as [?|[(? & ?)|?]]. }
  apply (meter_ok_shared m); [|done| |cbn; by rewrite S|cbn; by rewrite S|done].
  - split; [done|done| |by left|].
    + intros _. by apply pending_seeders; rewrite ?B.
    + intros w _ Hb. left. exact Hb.
  - destruct connected; [left; by left|]. right. right. eexists. split; [done|]. by apply backoff_doubles.
Qed.

Lemma seeders_ok m m' : meter_ok m → covers m m' → waiters m' = waiters m → background m' = background m →
  (subscription_status (shared m') = subscription_status (shared m)
   ∨ subscription_status (shared m) = CONNECTED ∧ subscription_status (shared m') = ACTIVE) → meter_ok m'.
Proof.
  intros O C W B S. pose proof (ok_status _ O) as Os. pose proof (ok_connected _ O) as Oc. pose proof (ok_background _ O) as Ob.
  apply (meter_ok_shared m); [done|done|by rewrite B| | |done]; rewrite B; destruct S as [->|[S ->]]; try done.
  intros _. apply Os. by rewrite S.
Qed.
Lemma seed_ok i n m m' : meter_ok m → seed i n m = Some m' → meter_ok m'.
Proof.
  intros O H. unfold seed in H. destruct (seeders m !! i); [done|]. injection H as <-.
  apply (seeders_ok m); [done| |done|done|by left]. apply covers_pending; [done|done|].
  right. right. exists i. left. cbn. by rewrite lookup_insert_eq.
Qed.
Lemma seed_continue_ok i m m' : meter_ok m → seed_continue i m = Some m' → meter_ok m'.
Proof.
  intros O H. unfold seed_continue in H. destruct (seeders m !! i) as [[]|]; try done; injection H as <-.
  - apply (seeders_ok m); [done| |done|done|].
    + apply covers_pending; [|done|].
      * cbn. unfold activate_if_connected. by case_decide.
      * right. right. exists i. right. cbn. by rewrite lookup_insert_eq.
    + cbn. unfold activate_if_connected. case_decide; [by right|by left].
  - apply (seeders_ok m); [done| |done|done|by left]. by apply covers_notify.
Qed.

Lemma with_waiter_ok i w m : meter_ok m → waiter_ok m w → meter_ok (with_waiter i w m).
Proof.
  intros [B S K O] W. split; [done..|]. intros j w' L. cbn in L. apply lookup_insert_Some in L as [[_ <-]|[_ L]]; [exact W|by eapply O].
Qed.
Lemma wait_step_ok m w pc : waiter_ok m w → wait_step m w = Some pc → waiter_ok m (set_pc w pc).
Proof.
  unfold wait_step, waiter_ok. intros O H. destruct (w_pc w) as [|e|e|e|ok]; cbn [w_pc set_pc] in *.
  - injection H as <-. lia.
  - injection H as <-. destruct (decide (subscription_status (shared m) ≠ ACTIVE)) as [|D]; [done|]. apply dec_stable in D.
    split; [done|]. by left.
  - injection H as <-. case_decide as G; [done|]. case_decide as R; cbn; [unfold saturating_sub in R; lia|].
    split; [apply O|]. intros E. destruct O as [_ O]. destruct (O E); [left|by right]. split; [done|]. cbn in *. lia.
  - case_decide; [|done]. by injection H as <-.
  - done.
Qed.
Lemma wait_elapsed_ok m w pc : waiter_ok m w → wait_elapsed m w = Some pc → waiter_ok m (set_pc w pc).
Proof.
  unfold wait_elapsed. intros _ H. destruct (w_pc w); try done. case_decide; [|done]. by injection H as <-.
Qed.
Lemma waiter_continue_ok step i m m' : (∀ w pc, waiter_ok m w → step m w = Some pc → waiter_ok m (set_pc w pc)) →
  meter_ok m → waiter_continue step i m = Some m' → meter_ok m'.
Proof.
  intros St O H. unfold waiter_continue in H. destruct (waiters m !! i) as [w|] eqn:L; [|done]. cbn in H.
  destruct (step m w) as [pc|] eqn:E; [|done]. injection H as <-. apply with_waiter_ok; [done|].
  apply St; [by eapply ok_waiters|done].
Qed.

Lemma perform_ok a m m' : meter_ok m → perform a m = Some m' → meter_ok m'.
Proof.
  intros O H. destruct a; cbn [perform] in H.
  - by eapply subscription_next_ok.
  - by eapply background_reader_ok.
  - by eapply reconnect_ok.
  - by eapply seed_ok.
  - by eapply seed_continue_ok.
  - unfold wait_for_persisted_block in H. destruct (waiters m !! i); [done|]. injection H as <-. by apply with_waiter_ok.
  - eapply waiter_continue_ok; [|done..]. apply wait_step_ok.
  - eapply waiter_continue_ok; [|done..]. apply wait_elapsed_ok.
  - injection H as <-. apply (seeders_ok m); [done| |done|done|by left].
    split; [done|cbn; lia|by intros ? ?|by left|by left].
Qed.
Lemma new_ok connected threshold : meter_ok (PersistedBlockMeter_new connected threshold).
Proof.
  split.
  - destruct connected; [left; by left|]. right. right. eexists. split; [done|]. unfold RECONNECT_BACKOFF, MAX_RECONNECT_BACKOFF. lia.
  - destruct connected; [intros _; by left|]. by intros [].
  - by destruct connected.
  - intros i w. cbn. by rewrite lookup_empty.
Qed.
Lemma run_ok acts : ∀ m m', meter_ok m → run acts m = Some m' → meter_ok m'.
Proof.
  induction acts as [|a acts IH]; intros m m' O H; cbn in H; [by injection H as <-|].
  destruct (perform a m) as [m1|] eqn:E; [|done]. eapply IH; [|exact H]. by eapply perform_ok.
Qed.

(** ** What callers get *)

(** A caller that is not, or no longer, asleep. *)
Definition awake (m : Meter) (w : Waiter) : Prop :=
  w_pc w = WaitTop ∨ ∃ e, w_pc w = WaitNotified e ∧ (e < epoch (shared m))%nat.

Lemma waiter_continue_step step i m w pc : waiters m !! i = Some w → step m w = Some pc →
  waiter_continue step i m = Some (with_waiter i (set_pc w pc) m).
Proof. intros L S. unfold waiter_continue. rewrite L. cbn. by rewrite S. Qed.
Lemma with_waiter_lookup i w m : waiters (with_waiter i w m) !! i = Some w.
Proof. cbn. apply lookup_insert_eq. Qed.
(** The steps of one caller alone. *)
Lemma caller_steps i m w pc k m' : waiters m !! i = Some w → wait_step m w = Some pc →
  run (replicate k (WaitContinue i)) (with_waiter i (set_pc w pc) m) = Some m' →
  run (replicate (S k) (WaitContinue i)) m = Some m'.
Proof. intros L S H. cbn [replicate run perform]. by rewrite (waiter_continue_step _ _ _ _ _ L S). Qed.

Lemma released_from_top i m w : waiters m !! i = Some w → w_pc w = WaitTop → ¬ held_back m w →
  ∃ k m', (k ≤ 3)%nat ∧ run (replicate k (WaitContinue i)) m = Some m' ∧ w_pc <$> waiters m' !! i = Some (WaitReturned true).
Proof.
  intros L P N.
  set (w1 := set_pc w (WaitStatus (epoch (shared m)))). set (m1 := with_waiter i w1 m).
  assert (wait_step m w = Some (WaitStatus (epoch (shared m)))) as S1 by (unfold wait_step; by rewrite P).
  destruct (decide (subscription_status (shared m) = ACTIVE)) as [A|A].
  - set (w2 := set_pc w1 (WaitGap (epoch (shared m)))). set (m2 := with_waiter i w2 m1).
    exists 3%nat, (with_waiter i (set_pc w2 (WaitReturned true)) m2). split; [lia|]. split; [|by rewrite with_waiter_lookup].
    apply (caller_steps i m w _ _ _ L S1), (caller_steps i m1 w1 (WaitGap (epoch (shared m))) _ _ (with_waiter_lookup i w1 m)).
    { cbn. by rewrite A. }
    apply (caller_steps i m2 w2 (WaitReturned true) _ _ (with_waiter_lookup i w2 m1)); [|done].
    cbn. rewrite decide_True; [done|]. apply Z.nle_gt. intros G. apply N. by split.
  - exists 2%nat, (with_waiter i (set_pc w1 (WaitReturned true)) m1). split; [lia|]. split; [|by rewrite with_waiter_lookup].
    apply (caller_steps i m w _ _ _ L S1), (caller_steps i m1 w1 (WaitReturned true) _ _ (with_waiter_lookup i w1 m)); [|done].
    cbn. by rewrite decide_True.
Qed.
Lemma released_finishes i m w : waiters m !! i = Some w → awake m w → ¬ held_back m w →
  ∃ k m', (k ≤ 4)%nat ∧ run (replicate k (WaitContinue i)) m = Some m' ∧ w_pc <$> waiters m' !! i = Some (WaitReturned true).
Proof.
  intros L [P|(e & P & E)] N.
  - destruct (released_from_top i m w L P N) as (k & m' & K & R & D). exists k, m'. by split_and!; [lia|..].
  - destruct (released_from_top i (with_waiter i (set_pc w WaitTop) m) (set_pc w WaitTop) (with_waiter_lookup _ _ _) eq_refl)
      as (k & m' & K & R & D); [by intros [S G]; apply N|].
    exists (S k), m'. split; [lia|]. split; [|exact D]. eapply caller_steps; [exact L| |exact R].
    unfold wait_step. rewrite P. by rewrite decide_True.
Qed.
Lemma pending_notifies m : notification_pending m → ∃ acts m', run acts m = Some m' ∧ (epoch (shared m) < epoch (shared m'))%nat.
Proof.
  intros [B|[B|(i & [S|S])]].
  - exists [BackgroundContinue]. eexists. split; [cbn; unfold background_reader; by rewrite B|]. cbn. lia.
  - exists [BackgroundContinue]. eexists. split; [cbn; unfold background_reader; by rewrite B|]. cbn. lia.
  - assert (seed_continue i m = Some (with_seeder i SeedNotify (with_shared activate_if_connected m))) as E
      by (unfold seed_continue; by rewrite S).
    exists [SeedContinue i; SeedContinue i]. eexists. split.
    + cbn [run perform]. rewrite E. cbn [mbind option_bind]. unfold seed_continue. cbn [seeders with_seeder].
      by rewrite lookup_insert_eq.
    + cbn. unfold activate_if_connected. case_decide; cbn; lia.
  - exists [SeedContinue i]. eexists. split; [cbn; unfold seed_continue; by rewrite S|]. cbn. lia.
Qed.
Lemma counter_grows a m m' : perform a m = Some m' → last_persisted_block (shared m) ≤ last_persisted_block (shared m').
Proof.
  intros H. destruct a; cbn [perform] in H.
  - unfold subscription_next in H. destruct (background m), item; simplify_eq/=; lia.
  - unfold background_reader in H. destruct (background m); simplify_eq/=; lia.
  - unfold reconnect in H. destruct (background m); simplify_eq/=; lia.
  - unfold seed in H. destruct (seeders m !! i); simplify_eq/=; lia.
  - unfold seed_continue, activate_if_connected in H. destruct (seeders m !! i) as [[]|]; simplify_eq/=; [|lia]. case_decide; cbn; lia.
  - unfold wait_for_persisted_block in H. destruct (waiters m !! i); simplify_eq/=; lia.
  - unfold waiter_continue in H. destruct (waiters m !! i); [|done]. cbn in H. destruct (wait_step m w); simplify_eq/=; lia.
  - unfold waiter_continue in H. destruct (waiters m !! i); [|done]. cbn in H. destruct (wait_elapsed m w); simplify_eq/=; lia.
  - simplify_eq/=. lia.
Qed.
(** The blocks the execution layer reported as persisted: those the subscription yielded and those
    the meter was seeded with. *)
Definition reported (a : Action) : list Z :=
  match a with SubscriptionNext (Some block) => [block] | SeedCall _ block_number => [block_number] | _ => [] end.
(** The counter is the highest of the blocks [l], but for one the background task still has in its hands. *)
Definition counts (l : list Z) (m : Meter) : Prop :=
  (last_persisted_block (shared m) = 0 ∨ last_persisted_block (shared m) ∈ l)
  ∧ (∀ n, n ∈ l → n ≤ last_persisted_block (shared m) ∨ background m = BgFetchMax n)
  ∧ ∀ n, background m = BgFetchMax n → n ∈ l.
Lemma counts_same l m m' : counts l m → last_persisted_block (shared m') = last_persisted_block (shared m) →
  (background m' = background m ∨ (∀ n, background m ≠ BgFetchMax n) ∧ ∀ n, background m' ≠ BgFetchMax n) → counts (l ++ []) m'.
Proof.
  rewrite app_nil_r. intros (A & B & C) E [E'|[N N']]; unfold counts; rewrite E; [by rewrite E'|].
  split; [done|]. split; [|naive_solver]. intros n Hn. left. destruct (B n Hn); naive_solver.
Qed.
(** The counter takes in a block. *)
Lemma counts_max l m m' n extra : counts l m → n ∈ l ++ extra → (∀ k, k ∈ extra → k ≤ n) →
  last_persisted_block (shared m') = Z.max (last_persisted_block (shared m)) n →
  (background m' = background m ∨ background m = BgFetchMax n ∧ ∀ k, background m' ≠ BgFetchMax k) → counts (l ++ extra) m'.
Proof.
  intros (A & B & C) Hn Ex E Bg. unfold counts. rewrite E. split_and!.
  - destruct (Z.max_spec (last_persisted_block (shared m)) n) as [[_ ->]|[_ ->]]; [by right|]. destruct A; [by left|right; set_solver].
  - intros k [Hk|Hk]%elem_of_app; [|left; specialize (Ex k Hk); lia].
    destruct (B k Hk) as [?|F]; [left; lia|]. destruct Bg as [->|[Bg _]]; [by right|]. rewrite F in Bg. injection Bg as ->. left. lia.
  - intros k F. destruct Bg as [Bg|[_ Bg]]; [|by apply Bg in F]. apply elem_of_app. left. apply C. by rewrite <- Bg.
Qed.
Lemma perform_counts a l m m' : counts l m → perform a m = Some m' → counts (l ++ reported a) m'.
Proof.
  intros K H. destruct a as [item| |c|i n|i|i n t|i|i|d]; cbn [perform reported] in *.
  - unfold subscription_next in H. destruct (background m) eqn:B; try done. destruct item as [n|]; injection H as <-.
    + destruct K as (K1 & K2 & K3). split_and!; cbn.
      * destruct K1; [by left|right; set_solver].
      * intros k [Hk|Hk]%elem_of_app; [|apply list_elem_of_singleton in Hk as ->; by right]. destruct (K2 k Hk); [by left|congruence].
      * intros k [= ->]. set_solver.
    + apply (counts_same l m); [done..|]. right. by rewrite B.
  - unfold background_reader in H. destruct (background m) as [|n| | |] eqn:B; try done; injection H as <-.
    + apply (counts_max l m _ n []); [done|rewrite app_nil_r; by apply K|by intros k ?%elem_of_nil|done|]. right. split; [done|]. intros k.
      cbn. by case_decide.
    + apply (counts_same l m); [done..|]. right. by rewrite B.
    + apply (counts_same l m); [done..|]. right. by rewrite B.
  - unfold reconnect in H. destruct (background m) eqn:B; try done. injection H as <-.
    apply (counts_same l m); [done..|]. right. rewrite B. split; [done|]. by destruct c.
  - unfold seed in H. destruct (seeders m !! i); [done|]. injection H as <-.
    apply (counts_max l m _ n [n]); [done|set_solver|by intros k ->%list_elem_of_singleton|done|by left].
  - unfold seed_continue in H. destruct (seeders m !! i) as [[]|]; try done; injection H as <-; apply (counts_same l m); try done; try (by left).
    cbn. unfold activate_if_connected. by case_decide.
  - unfold wait_for_persisted_block in H. destruct (waiters m !! i); [done|]. injection H as <-. apply (counts_same l m); [done..|by left].
  - unfold waiter_continue in H. destruct (waiters m !! i); [|done]. cbn in H. destruct (wait_step m w); [|done]. injection H as <-.
    apply (counts_same l m); [done..|by left].
  - unfold waiter_continue in H. destruct (waiters m !! i); [|done]. cbn in H. destruct (wait_elapsed m w); [|done]. injection H as <-.
    apply (counts_same l m); [done..|by left].
  - injection H as <-. apply (counts_same l m); [done..|by left].
Qed.
Lemma run_counts acts : ∀ l m m', counts l m → run acts m = Some m' → counts (l ++ (acts ≫= reported)) m'.
Proof.
  induction acts as [|a acts IH]; intros l m m' K H; cbn in H; [injection H as <-; cbn; by rewrite app_nil_r|].
  destruct (perform a m) as [m1|] eqn:E; [|done]. cbn [mbind list_bind]. rewrite app_assoc. eapply IH; [|exact H]. by eapply perform_counts.
Qed.
Lemma new_counts connected threshold : counts [] (PersistedBlockMeter_new connected threshold).
Proof. split_and!; [by left|by intros n ?%elem_of_nil|]. cbn. by destruct connected. Qed.

Lemma returns_when_free m w : wait_step m w = Some (WaitReturned true) → ¬ held_back m w.
Proof.
  unfold wait_step, held_back. destruct (w_pc w); try done.
  - destruct (decide (subscription_status (shared m) ≠ ACTIVE)); [naive_solver|done].
  - case_decide; [intros _ []; lia|by case_decide].
  - by case_decide.
Qed.

(** C23: Callers of the meter wait exactly as long as they should, in every interleaving of the
    background task, the callers and [seed].  A caller asleep is either woken, or really held
    back, or some thread is about to notify, and that notification wakes it: no wakeup is lost.
    A caller that is awake and not held back gets its answer within four steps of its own; it
    is let go only when it is not held back, and fails only after its timeout.  A caller is
    held back only while the subscription is live, and the delay between reconnection attempts
    stays between one and sixty seconds.  The counter is the highest block that the execution layer's
    subscription yielded or the meter was seeded with, but for one the background task is about to
    count, and never decreases. *)
Theorem callers_held_back_rightly connected threshold acts m :
  run acts (PersistedBlockMeter_new connected threshold) = Some m →
  (∀ i w, waiters m !! i = Some w →
     (∀ e, w_pc w = WaitNotified e → awake m w ∨ held_back m w ∨ notification_pending m)
     ∧ (awake m w → ¬ held_back m w → ∃ k m', (k ≤ 4)%nat ∧ run (replicate k (WaitContinue i)) m = Some m'
          ∧ w_pc <$> waiters m' !! i = Some (WaitReturned true))
     ∧ (wait_step m w = Some (WaitReturned true) → ¬ held_back m w)
     ∧ (w_pc w = WaitReturned false → w_timeout w ≤ now m - w_started_at w))
  ∧ (notification_pending m → ∃ acts' m', run acts' m = Some m' ∧ (epoch (shared m) < epoch (shared m'))%nat)
  ∧ (∀ w, held_back m w → live (background m))
  ∧ (∀ backoff, background m = BgReconnect backoff → RECONNECT_BACKOFF ≤ backoff ≤ MAX_RECONNECT_BACKOFF)
  ∧ (last_persisted_block (shared m) = 0 ∨ last_persisted_block (shared m) ∈ acts ≫= reported)
  ∧ (∀ block, block ∈ acts ≫= reported → block ≤ last_persisted_block (shared m) ∨ background m = BgFetchMax block)
  ∧ (∀ a m', perform a m = Some m' → last_persisted_block (shared m) ≤ last_persisted_block (shared m')).
Proof.
  intros H. destruct (run_counts _ _ _ _ (new_counts connected threshold) H) as (K1 & K2 & _). apply run_ok in H; [|apply new_ok]. destruct H as [B S _ O]. split_and!.
  - intros i w L. pose proof (O i w L) as W. split_and!.
    + intros e P. unfold waiter_ok in W. rewrite P in W. destruct W as [Le W].
      destruct (decide (e = epoch (shared m))) as [E|E]; [right; by apply W|]. left. right. exists e. split; [done|lia].
    + by apply released_finishes.
    + apply returns_when_free.
    + intros P. unfold waiter_ok in W. by rewrite P in W.
  - apply pending_notifies.
  - intros w [A _]. apply S. by rewrite A.
  - intros backoff E. rewrite E in B. by destruct B as [[?|[(? & ?)|?]]|[?|(b & [= <-] & ?)]].
  - exact K1.
  - exact K2.
  - intros a m'. apply counter_grows.
Qed.

(** A caller asleep at block 20 when block 18 arrives, before the background task has told it. *)
Definition toy_meter_run : list Action :=
  [SubscriptionNext (Some 3); BackgroundContinue; BackgroundContinue; WaitCall 7 20 5000; WaitContinue 7; WaitContinue 7; WaitContinue 7;
   Tick 100; SubscriptionNext (Some 18); BackgroundContinue].
Lemma callers_held_back_rightly_witness : ∃ m w,
  run toy_meter_run (PersistedBlockMeter_new true 5) = Some m ∧ waiters m !! 7%nat = Some w
  ∧ w_pc w = WaitNotified 1 ∧ (awake m w ∨ held_back m w ∨ notification_pending m).
Proof.
  destruct (run toy_meter_run (PersistedBlockMeter_new true 5)) as [m|] eqn:E; [|by vm_compute in E].
  pose proof (callers_held_back_rightly true 5 toy_meter_run m E) as (X & _).
  assert (∃ w, waiters m !! 7%nat = Some w ∧ w_pc w = WaitNotified 1) as (w & L & P).
  { vm_compute in E. injection E as <-. eexists. split; [by vm_compute|done]. }
  exists m, w. split; [done|]. split; [exact L|]. split; [exact P|]. by apply (proj1 (X 7%nat w L) 1%nat).
Defined.
