(* ===== verification/RpcMiddleware.v ===== *)
(** * The RPC middleware of the execution node

    evm-node/src/rpc_middleware.rs: the layers in front of the JSON-RPC handlers.  Batches are
    capped, raw transactions without replay protection are refused, methods that would expose
    pending transactions are answered without the node, and raw transactions are relayed to
    upstream nodes with failover.

    The parameters of a request are modelled as parsed JSON (an object has each key once);
    decoding a JSON value into a Rust type, transaction decoding, the size limit of a batch
    response and its final encoding belong to serde, alloy and jsonrpsee ([RpcLibs]).  What the
    node's handlers and the upstream nodes answer is [World].  The state carries the sticky
    upstream and a log of what reached the handlers and the upstreams. *)

From S2P Require Import Prelude.

(** ** Requests and responses *)

Inductive Json :=
| JNull
| JBool (b : bool)
| JNumber (z : Z)
| JString (s : string)
| JArray (l : list Json)
| JObject (o : list (string * Json)).

Inductive Params := NoParams | Positional (l : list Json) | Named (o : list (string * Json)).
Inductive Id := IdNull | IdNumber (z : Z) | IdString (s : string).
Record Request := mkRequest { req_method : string; req_params : Params; req_id : Id }.

(** [ErrorObject] of jsonrpsee *)
Record ErrorObject := mkErrorObject { err_code : Z; err_message : string; err_data : option Json }.
Inductive Response :=
| RespError (id : Id) (error : ErrorObject)
| RespSuccess (id : Id) (value : Json)
| RespBatch (l : list Response)
| RespNotification.

(** An entry of a batch; one that could not be parsed carries its error. *)
Inductive BatchEntry := EntryCall (r : Request) | EntryNotification (r : Request) | EntryInvalid (id : Id) (error : ErrorObject).

(** ** Libraries *)

Inductive SubscriptionKind := NewHeads | Logs | NewPendingTransactions | Syncing | TransactionReceipts.
#[export] Instance subscription_kind_eq_decision : EqDecision SubscriptionKind.
Proof. solve_decision. Defined.

Class RpcLibs := {
  de_bytes : Json → option bytes;
  ser_bytes : bytes → Json;
  de_subscription_kind : Json → option SubscriptionKind;
  (** whether the decoded block id, or block number or tag, is the pending one *)
  de_block_id_pending : Json → option bool;
  de_block_number_pending : Json → option bool;
  (** [decode_2718_exact] and [is_replay_protected] *)
  decode_2718_protected : bytes → option bool;
  (** [BatchResponseBuilder::append] within the limit, the response when it does not fit, and
      [finish] *)
  batch_fits : Z → list Response → Response → bool;
  batch_too_large : Z → Response;
  batch_finish : list Response → Response;
  (** [MethodResponse::response] with a limit on its size *)
  limit_response : Z → Response → Response;
}.
Class RpcLaws `{RpcLibs} := {
  de_ser_bytes b : de_bytes (ser_bytes b) = Some b;
}.

(** The answer of an upstream to a relayed transaction: no answer in time, a result, a JSON-RPC
    error, an HTTP error status, another transport error, or any other error of the client. *)
Inductive RelayAnswer :=
| RelayTimeout
| RelayResult (v : Json)
| RelayErrorResp (code : Z) (message : string) (data : option Json)
| RelayHttpError (status : Z)
| RelayTransport
| RelayOther.

(** What reached the handlers and the upstreams, in order. *)
Inductive Event :=
| Called (r : Request)
| Notified (r : Request)
| Relayed (upstream : nat) (method : string) (b : bytes).
Record RpcState := mkRpcState { sticky : nat; log : list Event }.

(** Handlers and upstreams may answer differently each time. *)
Record World := mkWorld {
  handler : list Event → Request → Response;
  upstream : list Event → nat → string → bytes → RelayAnswer;
}.

(** ** Methods *)

Definition ETH_SUBSCRIBE_METHOD : string := "eth_subscribe".
Definition ETH_NEW_PENDING_TX_FILTER_METHOD : string := "eth_newPendingTransactionFilter".
Definition ETH_GET_BLOCK_BY_NUMBER_METHOD : string := "eth_getBlockByNumber".
Definition BLOCK_NUMBER_OBJECT_KEY : string := "number".
Definition BLOCK_ID_OBJECT_KEY_SNAKE : string := "block_id".
Definition BLOCK_ID_OBJECT_KEY_CAMEL : string := "blockId".
Definition ETH_GET_TX_BY_SENDER_AND_NONCE_METHOD : string := "eth_getTransactionBySenderAndNonce".
Definition ETH_GET_BLOCK_RECEIPTS_METHOD : string := "eth_getBlockReceipts".
Definition ETH_GET_BLOCK_TX_COUNT_BY_NUMBER_METHOD : string := "eth_getBlockTransactionCountByNumber".
Definition ETH_GET_TX_BY_BLOCK_NUMBER_AND_INDEX_METHOD : string := "eth_getTransactionByBlockNumberAndIndex".
Definition ETH_GET_RAW_TX_BY_BLOCK_NUMBER_AND_INDEX_METHOD : string := "eth_getRawTransactionByBlockNumberAndIndex".
Definition ETH_GET_UNCLE_COUNT_BY_BLOCK_NUMBER_METHOD : string := "eth_getUncleCountByBlockNumber".
Definition ETH_GET_HEADER_BY_NUMBER_METHOD : string := "eth_getHeaderByNumber".
Definition BLOCK_HEADER_NUMBER_OBJECT_KEY : string := "hash".
Definition SUBSCRIPTION_KIND_OBJECT_KEY : string := "kind".
Definition ETH_SEND_RAW_TRANSACTION_METHOD : string := "eth_sendRawTransaction".
Definition ETH_SEND_RAW_TRANSACTION_SYNC_METHOD : string := "eth_sendRawTransactionSync".
Definition PENDING_TX_SUBSCRIPTION_ERROR_CODE : Z := -32001.
Definition BATCH_TOO_LARGE_ERROR_CODE : Z := -32600.
Definition UNPROTECTED_TX_ERROR_CODE : Z := -32000.
Definition UNPROTECTED_TX_ERROR_MSG : string := "only replay-protected (EIP-155) transactions allowed over RPC".
Definition RELAY_UNAVAILABLE_ERROR_CODE : Z := -32010.
Definition RELAY_UNAVAILABLE_ERROR_MSG : string := "all transaction relay upstreams are unreachable".
Definition INTERNAL_ERROR_CODE : Z := -32603.

Definition is_raw_transaction_submission (method : string) : bool :=
  bool_decide (method = ETH_SEND_RAW_TRANSACTION_METHOD) || bool_decide (method = ETH_SEND_RAW_TRANSACTION_SYNC_METHOD).
Definition is_pending_block_method (method : string) : bool :=
  bool_decide (method ∈ [ETH_GET_BLOCK_BY_NUMBER_METHOD; ETH_GET_BLOCK_RECEIPTS_METHOD;
    ETH_GET_BLOCK_TX_COUNT_BY_NUMBER_METHOD; ETH_GET_TX_BY_BLOCK_NUMBER_AND_INDEX_METHOD;
    ETH_GET_RAW_TX_BY_BLOCK_NUMBER_AND_INDEX_METHOD; ETH_GET_UNCLE_COUNT_BY_BLOCK_NUMBER_METHOD;
    ETH_GET_HEADER_BY_NUMBER_METHOD]).

Definition field (key : string) (o : list (string * Json)) : option Json :=
  snd <$> (snd <$> list_find (λ kv, kv.1 = key) o).

(** ** Configuration *)

(** [TxRelays], without the sticky index: how many upstreams there are, and the limit. *)
Record TxRelays := mkTxRelays { relay_clients : nat; relay_max_response_body_size : Z }.
Record ArcRpcLayer := mkArcRpcLayer {
  filter_pending_txs : bool;
  allow_unprotected_txs : bool;
  max_response_body_size : Z;
  max_batch_entries : nat;
  tx_relays : option TxRelays;
}.
(** [ArcRpcLayer::default] *)
Definition default_layer : ArcRpcLayer := mkArcRpcLayer true false (uint_max 64) 100 None.
(** [TxRelays::new]: the upstreams whose URL parses, if there is any. *)
Definition TxRelays_new (parses : list bool) (max_response_body_size : Z) : option TxRelays :=
  let clients := length (filter (λ b, b = true) parses) in
  if decide (clients = 0)%nat then None else Some (mkTxRelays clients max_response_body_size).

(** A service: what it does with a call, a batch and a notification. *)
Record Service := mkService {
  call : Request → RpcState → Response * RpcState;
  batch : list BatchEntry → RpcState → Response * RpcState;
  notification : Request → RpcState → Response * RpcState;
}.

Section Middleware.
Context `{RL : RpcLibs} (world : World).

Definition record (e : Event) (s : RpcState) : RpcState := mkRpcState (sticky s) (log s ++ [e]).

(** ** Parameters *)

(** The first positional parameter, a [null] or missing one counting as absent, or the first of
    the keys that is present. *)
Definition extract_param {T} (de : Json → option T) (params : Params) (keys : list string) : option T :=
  match params with
  | Named o => (head (omap (λ k, field k o) keys)) ≫= de
  | Positional (JNull :: _) | Positional [] | NoParams => None
  | Positional (v :: _) => de v
  end.
Definition extract_raw_tx_bytes (r : Request) : option bytes :=
  match req_params r with
  | Named o => field "bytes" o ≫= de_bytes
  | Positional [v] => de_bytes v
  | _ => None
  end.

(** ** Checks *)

Definition error_if_unprotected_send_raw_tx (r : Request) : result ErrorObject unit :=
  if negb (is_raw_transaction_submission (req_method r)) then Ok tt
  else match extract_raw_tx_bytes r ≫= decode_2718_protected with
       | Some false => Err (mkErrorObject UNPROTECTED_TX_ERROR_CODE UNPROTECTED_TX_ERROR_MSG None)
       | _ => Ok tt
       end.
Definition error_if_pending_tx_rpc (r : Request) : result ErrorObject unit :=
  if decide (req_method r = ETH_NEW_PENDING_TX_FILTER_METHOD)
  then Err (mkErrorObject PENDING_TX_SUBSCRIPTION_ERROR_CODE "Pending transaction filters are not allowed" None)
  else if decide (req_method r = ETH_SUBSCRIBE_METHOD
                  ∧ extract_param de_subscription_kind (req_params r) [SUBSCRIPTION_KIND_OBJECT_KEY] = Some NewPendingTransactions)
  then Err (mkErrorObject PENDING_TX_SUBSCRIPTION_ERROR_CODE "Subscriptions to pending transactions are not allowed" None)
  else Ok tt.
Definition is_pool_pending_tx_lookup (r : Request) : bool :=
  bool_decide (req_method r = ETH_GET_TX_BY_SENDER_AND_NONCE_METHOD).
Definition is_pending_block_query (r : Request) : bool :=
  if negb (is_pending_block_method (req_method r)) then false
  else if decide (req_method r = ETH_GET_BLOCK_RECEIPTS_METHOD)
  then default false (extract_param de_block_id_pending (req_params r) [BLOCK_ID_OBJECT_KEY_SNAKE; BLOCK_ID_OBJECT_KEY_CAMEL])
  else
    let key := if decide (req_method r = ETH_GET_HEADER_BY_NUMBER_METHOD) then BLOCK_HEADER_NUMBER_OBJECT_KEY
               else BLOCK_NUMBER_OBJECT_KEY in
    default false (extract_param de_block_number_pending (req_params r) [key]).
Definition null_response (r : Request) : Response := RespSuccess (req_id r) JNull.

(** ** Batches *)

(** The loop of the layers that take a batch apart: calls go to [on_call], notifications to the
    inner service; the first response that does not fit ends it. *)
Fixpoint batch_loop (limit : Z) (on_call on_notification : Request → RpcState → Response * RpcState) (entries : list BatchEntry)
    (acc : list Response) (got_notif : bool) (s : RpcState) : Response * RpcState :=
  match entries with
  | [] => (match acc with
           | [] => if got_notif then RespNotification else batch_finish []
           | _ => batch_finish acc
           end, s)
  | EntryCall r :: entries =>
      let '(response, s) := on_call r s in
      if batch_fits limit acc response
      then batch_loop limit on_call on_notification entries (acc ++ [response]) got_notif s
      else (batch_too_large limit, s)
  | EntryNotification r :: entries =>
      batch_loop limit on_call on_notification entries acc true (on_notification r s).2
  | EntryInvalid id error :: entries =>
      let response := RespError id error in
      if batch_fits limit acc response
      then batch_loop limit on_call on_notification entries (acc ++ [response]) got_notif s
      else (batch_too_large limit, s)
  end.

(** ** The handlers *)

(** The node itself; a batch that reaches it is taken apart in the same way. *)
Definition inner_call (r : Request) (s : RpcState) : Response * RpcState :=
  (handler world (log s) r, record (Called r) s).
Definition inner_notification (r : Request) (s : RpcState) : Response * RpcState :=
  (RespNotification, record (Notified r) s).
Definition inner (limit : Z) : Service :=
  mkService inner_call (λ entries s, batch_loop limit inner_call inner_notification entries [] false s) inner_notification.

(** ** Relaying *)

Inductive RelayOutcome :=
| OutcomeOk (v : Json)
| OutcomeUpstreamError (error : ErrorObject)
| OutcomeAllUnreachable.

Definition should_failover (a : RelayAnswer) : bool :=
  match a with
  | RelayHttpError status => bool_decide (status = 429 ∨ 500 ≤ status)
  | RelayErrorResp _ _ _ | RelayResult _ => false
  | _ => true
  end.

(** The order of attempts: every upstream once, from the sticky one on. *)
Definition attempts (n start : nat) : list nat := drop start (seq 0 n) ++ take start (seq 0 n).
Fixpoint try_upstreams (method : string) (b : bytes) (order : list nat) (s : RpcState) : RelayOutcome * RpcState :=
  match order with
  | [] => (OutcomeAllUnreachable, s)
  | idx :: order =>
      let answer := upstream world (log s) idx method b in
      let s := record (Relayed idx method b) s in
      let stuck := mkRpcState idx (log s) in
      match answer with
      | RelayTimeout => try_upstreams method b order s
      | RelayResult v => (OutcomeOk v, stuck)
      | RelayErrorResp code message data =>
          let code := if decide (- 2 ^ 31 ≤ code < 2 ^ 31) then code else INTERNAL_ERROR_CODE in
          (OutcomeUpstreamError (mkErrorObject code message data), stuck)
      | _ =>
          if should_failover answer then try_upstreams method b order s
          else (OutcomeUpstreamError (mkErrorObject INTERNAL_ERROR_CODE "transaction relay upstream error" None), stuck)
      end
  end.
Definition forward (relays : TxRelays) (method : string) (b : bytes) (s : RpcState) : RelayOutcome * RpcState :=
  let n := relay_clients relays in
  try_upstreams method b (attempts n (sticky s `min` (n - 1))) s.

Definition local_add (service : Service) (b : bytes) (s : RpcState) : RpcState :=
  (call service (mkRequest ETH_SEND_RAW_TRANSACTION_METHOD (Positional [ser_bytes b]) IdNull) s).2.
Definition relay (relays : TxRelays) (service : Service) (r : Request) (s : RpcState) : Response * RpcState :=
  match extract_raw_tx_bytes r with
  | None => call service r s
  | Some b =>
      let '(outcome, s) := forward relays (req_method r) b s in
      match outcome with
      | OutcomeOk v => (limit_response (relay_max_response_body_size relays) (RespSuccess (req_id r) v), local_add service b s)
      | OutcomeUpstreamError error => (RespError (req_id r) error, s)
      | OutcomeAllUnreachable => (RespError (req_id r) (mkErrorObject RELAY_UNAVAILABLE_ERROR_CODE RELAY_UNAVAILABLE_ERROR_MSG None), s)
      end
  end.

(** ** The layers *)

Definition TxRelayMiddleware (relays : TxRelays) (service : Service) : Service :=
  let on_call r s := if is_raw_transaction_submission (req_method r) then relay relays service r s else call service r s in
  mkService on_call
    (λ entries s, batch_loop (relay_max_response_body_size relays) on_call (notification service) entries [] false s)
    (notification service).

Definition intercept_or_forward (service : Service) (r : Request) (s : RpcState) : Response * RpcState :=
  match error_if_pending_tx_rpc r with
  | Err error => (RespError (req_id r) error, s)
  | Ok _ =>
      if is_pool_pending_tx_lookup r || is_pending_block_query r then (null_response r, s) else call service r s
  end.
Definition NoPendingTransactionsRpcMiddleware (limit : Z) (service : Service) : Service :=
  mkService (intercept_or_forward service)
    (λ entries s, batch_loop limit (intercept_or_forward service) (notification service) entries [] false s)
    (notification service).

Definition reject_or_forward (allow_unprotected : bool) (service : Service) (r : Request) (s : RpcState) : Response * RpcState :=
  if allow_unprotected then call service r s
  else match error_if_unprotected_send_raw_tx r with
       | Err error => (RespError (req_id r) error, s)
       | Ok _ => call service r s
       end.
Definition RejectUnprotectedTxsMiddleware (allow_unprotected : bool) (limit : Z) (service : Service) : Service :=
  mkService (reject_or_forward allow_unprotected service)
    (λ entries s, batch_loop limit (reject_or_forward allow_unprotected service) (notification service) entries [] false s)
    (notification service).

Definition BatchSizeLimitMiddleware (max_entries : nat) (service : Service) : Service :=
  mkService (call service)
    (λ entries s,
      if decide (max_entries < length entries)%nat
      then (RespError IdNull (mkErrorObject BATCH_TOO_LARGE_ERROR_CODE "batch size exceeds limit" None), s)
      else batch service entries s)
    (notification service).

(** [ArcRpcLayer::layer] *)
Definition layer (config : ArcRpcLayer) (inner : Service) : Service :=
  let relayed := match tx_relays config with
                 | Some relays => TxRelayMiddleware relays inner
                 | None => inner
                 end in
  let pending_layer := if filter_pending_txs config
                       then NoPendingTransactionsRpcMiddleware (max_response_body_size config) relayed
                       else relayed in
  let service := RejectUnprotectedTxsMiddleware (allow_unprotected_txs config) (max_response_body_size config) pending_layer in
  BatchSizeLimitMiddleware (max_batch_entries config) service.

End Middleware.
