(* ===== verification/RpcMiddlewareProps.v ===== *)
(** * Properties of the RPC middleware

    What reaches the handlers and the upstream nodes, what is answered in front of them, that a
    batch is its calls one by one, and how a raw transaction is relayed. *)

From S2P Require Import Prelude RpcMiddleware.

(** A method name that is not in the list. *)
Ltac not_in M := repeat (apply elem_of_cons in M as [M|M]; [done|]); by apply elem_of_nil in M.

Section RpcProps.
Context `{RL : RpcLibs} {RLL : RpcLaws} (world : World).

(** ** What is filtered *)

(** The parameters give the value [x]: as the first position, if that is not [null], or by the first of
    the names that is there. *)
Inductive given {T} (de : Json → option T) (params : Params) (names : list string) (x : T) : Prop :=
| given_first v l : params = Positional (v :: l) → v ≠ JNull → de v = Some x → given de params names x
| given_named o before name after v : params = Named o → names = before ++ name :: after →
    Forall (λ n, field n o = None) before → field name o = Some v → de v = Some x → given de params names x.

(** A request that would be answered from pending state. *)
Inductive exposes_pending (r : Request) : Prop :=
| exposes_filter : req_method r = ETH_NEW_PENDING_TX_FILTER_METHOD → exposes_pending r
| exposes_subscription : req_method r = ETH_SUBSCRIBE_METHOD →
    given de_subscription_kind (req_params r) [SUBSCRIPTION_KIND_OBJECT_KEY] NewPendingTransactions → exposes_pending r
| exposes_lookup : req_method r = ETH_GET_TX_BY_SENDER_AND_NONCE_METHOD → exposes_pending r
| exposes_receipts : req_method r = ETH_GET_BLOCK_RECEIPTS_METHOD →
    given de_block_id_pending (req_params r) [BLOCK_ID_OBJECT_KEY_SNAKE; BLOCK_ID_OBJECT_KEY_CAMEL] true → exposes_pending r
| exposes_header : req_method r = ETH_GET_HEADER_BY_NUMBER_METHOD →
    given de_block_number_pending (req_params r) [BLOCK_HEADER_NUMBER_OBJECT_KEY] true → exposes_pending r
| exposes_block : req_method r ∈ [ETH_GET_BLOCK_BY_NUMBER_METHOD; ETH_GET_BLOCK_TX_COUNT_BY_NUMBER_METHOD;
      ETH_GET_TX_BY_BLOCK_NUMBER_AND_INDEX_METHOD; ETH_GET_RAW_TX_BY_BLOCK_NUMBER_AND_INDEX_METHOD;
      ETH_GET_UNCLE_COUNT_BY_BLOCK_NUMBER_METHOD] →
    given de_block_number_pending (req_params r) [BLOCK_NUMBER_OBJECT_KEY] true → exposes_pending r.

(** The transaction of a submission: its only position, or by name. *)
Inductive carries (r : Request) (b : bytes) : Prop :=
| carries_only v : req_params r = Positional [v] → de_bytes v = Some b → carries r b
| carries_named o v : req_params r = Named o → field "bytes" o = Some v → de_bytes v = Some b → carries r b.
(** A raw transaction that can be replayed on another chain. *)
Definition unprotected_submission (r : Request) : Prop :=
  is_raw_transaction_submission (req_method r) = true ∧ ∃ b, carries r b ∧ decode_2718_protected b = Some false.

Lemma named_first o keys v : head (omap (λ k, field k o) keys) = Some v ↔
  ∃ before name after, keys = before ++ name :: after ∧ Forall (λ n, field n o = None) before ∧ field name o = Some v.
Proof.
  split.
  - induction keys as [|k keys IH]; cbn; [done|]. destruct (field k o) as [w|] eqn:F; cbn.
    + intros [= ->]. by exists [], k, keys.
    + intros (before & name & after & -> & N & E)%IH. exists (k :: before), name, after. split; [done|]. split; [by constructor|done].
  - intros (before & name & after & -> & N & E). induction N as [|k before K N IH]; cbn; [by rewrite E|]. by rewrite K.
Qed.
Lemma given_iff {T} (de : Json → option T) params names x : extract_param de params names = Some x ↔ given de params names x.
Proof.
  unfold extract_param. split.
  - destruct params as [|[|[] l]|o]; try done; try (intros D; by eapply given_first).
    intros (v & (before & name & after & -> & N & E)%named_first & D)%bind_Some. by eapply given_named.
  - intros [v l -> N D|o before name after v -> -> N E D]; [by destruct v|].
    rewrite (proj2 (named_first o (before ++ name :: after) v)); [done|]. by exists before, name, after.
Qed.
Lemma carries_iff r b : extract_raw_tx_bytes r = Some b ↔ carries r b.
Proof.
  unfold extract_raw_tx_bytes. split.
  - destruct (req_params r) as [|[|v []]|o] eqn:P; try done; [intros D; by eapply carries_only|].
    intros (v & E & D)%bind_Some. by eapply carries_named.
  - intros [v -> D|o v -> E D]; [done|]. by rewrite E.
Qed.

Lemma default_true (o : option bool) : default false o = true ↔ o = Some true.
Proof. destruct o as [[]|]; naive_solver. Qed.

Lemma pending_block_exposes r : is_pending_block_query r = true → exposes_pending r.
Proof.
  unfold is_pending_block_query. destruct (is_pending_block_method (req_method r)) eqn:M; [|done]. cbn [negb].
  apply bool_decide_eq_true in M. case_decide as R; [intros H%default_true%given_iff; by apply exposes_receipts|].
  case_decide as Hd; intros H%default_true%given_iff; [by apply exposes_header|]. apply exposes_block; [|done]. set_solver.
Qed.
Lemma intercepted_iff r :
  (error_if_pending_tx_rpc r ≠ Ok tt ∨ is_pool_pending_tx_lookup r || is_pending_block_query r = true) ↔ exposes_pending r.
Proof.
  split.
  - intros [H|H].
    + unfold error_if_pending_tx_rpc in H. case_decide; [by apply exposes_filter|].
      case_decide as D; [|done]. destruct D as [? D%given_iff]. by apply exposes_subscription.
    + apply orb_true_iff in H as [H|H]; [|by apply pending_block_exposes].
      apply bool_decide_eq_true in H. by apply exposes_lookup.
  - intros [M|M K%given_iff|M|M K%given_iff|M K%given_iff|M K%given_iff]; [left|left|right..].
    + unfold error_if_pending_tx_rpc. by rewrite decide_True.
    + unfold error_if_pending_tx_rpc. case_decide; [done|]. by rewrite decide_True.
    + unfold is_pool_pending_tx_lookup. by rewrite bool_decide_eq_true_2.
    + apply orb_true_iff. right. unfold is_pending_block_query. rewrite M, decide_True by done. cbn. by rewrite K.
    + apply orb_true_iff. right. unfold is_pending_block_query. rewrite M.
      rewrite (decide_False (P := _ = ETH_GET_BLOCK_RECEIPTS_METHOD)) by done. rewrite decide_True by done. by rewrite K.
    + apply orb_true_iff. right. unfold is_pending_block_query.
      assert (is_pending_block_method (req_method r) = true) as -> by (apply bool_decide_eq_true; set_solver).
      cbn [negb]. rewrite (decide_False (P := _ = ETH_GET_BLOCK_RECEIPTS_METHOD)) by (intros E; rewrite E in M; not_in M).
      rewrite decide_False by (intros E; rewrite E in M; not_in M). by rewrite K.
Qed.
Lemma unprotected_iff r : error_if_unprotected_send_raw_tx r ≠ Ok tt ↔ unprotected_submission r.
Proof.
  unfold error_if_unprotected_send_raw_tx, unprotected_submission.
  destruct (is_raw_transaction_submission (req_method r)); cbn [negb]; [|naive_solver].
  setoid_rewrite <- carries_iff.
  destruct (extract_raw_tx_bytes r) as [b|]; cbn; [|naive_solver]. destruct (decode_2718_protected b) as [[]|] eqn:D; naive_solver.
Qed.

(** ** What gets through *)

(** An event that may follow from calls, and from the notifications [notes]. *)
Definition admitted (config : ArcRpcLayer) (notes : list Request) (e : Event) : Prop :=
  match e with
  | Called r => (filter_pending_txs config = true → ¬ exposes_pending r)
                ∧ (allow_unprotected_txs config = false → ¬ unprotected_submission r)
  | Relayed _ _ b => allow_unprotected_txs config = false → decode_2718_protected b ≠ Some false
  | Notified r => r ∈ notes
  end.
(** A step that only adds admitted events. *)
Definition adds {A} (P : Event → Prop) (s : RpcState) (x : A * RpcState) : Prop :=
  ∃ evs, log x.2 = log s ++ evs ∧ Forall P evs.
Lemma adds_none {A} P s (a : A) k : adds P s (a, mkRpcState k (log s)).
Proof. exists []. by rewrite app_nil_r. Qed.
Lemma adds_same {A} P s (a : A) : adds P s (a, s).
Proof. destruct s as [k l]. apply (adds_none P (mkRpcState k l)). Qed.
Lemma adds_trans {A B} P s (x : A * RpcState) (y : B * RpcState) : adds P s x → adds P x.2 y → adds P s y.
Proof.
  intros (e1 & L1 & F1) (e2 & L2 & F2). exists (e1 ++ e2). rewrite L2, L1, app_assoc. split; [done|by apply Forall_app].
Qed.
Lemma adds_record {A} (P : Event → Prop) s (a : A) e : P e → adds P s (a, record e s).
Proof. intros H. exists [e]. split; [done|by constructor]. Qed.

(** The notifications of a batch. *)
Definition notes_of (entries : list BatchEntry) : list Request :=
  omap (λ e, match e with EntryNotification r => Some r | _ => None end) entries.

Lemma batch_loop_adds P limit on_call on_notification entries :
  (∀ r s, adds P s (on_call r s)) → (∀ r s, r ∈ notes_of entries → adds P s (on_notification r s)) →
  ∀ acc got_notif s, adds P s (batch_loop limit on_call on_notification entries acc got_notif s).
Proof.
  intros C. induction entries as [|[r|r|id error] entries IH]; intros N acc g s; cbn [batch_loop].
  - apply adds_same.
  - pose proof (C r s) as A. destruct (on_call r s) as [response s1].
    destruct (batch_fits limit acc response); [|exact A]. eapply adds_trans; [exact A|by apply IH].
  - pose proof (N r s (list_elem_of_here _ _)) as A. destruct (on_notification r s) as [x s1]. cbn [snd].
    eapply adds_trans; [exact A|]. apply IH. intros r' s' Hin. apply N. by right.
  - destruct (batch_fits _ _ _); [by apply IH|apply adds_same].
Qed.

Lemma try_upstreams_adds (P : Event → Prop) method b order : (∀ i, P (Relayed i method b)) →
  ∀ s, adds P s (try_upstreams world method b order s).
Proof.
  intros H. induction order as [|i order IH]; intros s; cbn [try_upstreams]; [apply adds_same|].
  assert (∀ (o : RelayOutcome) k, adds P s (o, mkRpcState k (log (record (Relayed i method b) s)))) as A
    by (intros o k; exists [Relayed i method b]; split; [done|by repeat constructor]).
  pose proof (adds_trans P s _ _ (adds_record P s tt _ (H i)) (IH (record (Relayed i method b) s))) as R.
  destruct (upstream world (log s) i method b); try done; cbn [should_failover]; try done. by case_bool_decide.
Qed.

Section Layers.
Context (config : ArcRpcLayer) (limit : Z) (notes : list Request).
Notation P := (admitted config notes).

(** The requests a layer may pass on to the ones below it. *)
Definition passes (r : Request) : Prop := P (Called r).
Definition sound (service : Service) (ok : Request → Prop) : Prop :=
  (∀ r s, ok r → adds P s (call service r s)) ∧ (∀ r s, r ∈ notes → adds P s (notification service r s)).

Lemma inner_sound : sound (inner world limit) passes.
Proof. split; intros; by apply adds_record. Qed.

Lemma local_request_passes b : (allow_unprotected_txs config = false → decode_2718_protected b ≠ Some false) →
  passes (mkRequest ETH_SEND_RAW_TRANSACTION_METHOD (Positional [ser_bytes b]) IdNull).
Proof.
  intros H. split.
  - intros _ [M|M|M|M|M|M]; cbn in M; try done.
    not_in M.
  - intros A (_ & b' & E%carries_iff & D). cbn in E. rewrite de_ser_bytes in E. injection E as <-. by apply H.
Qed.
Lemma relay_sound relays : sound (TxRelayMiddleware world relays (inner world limit)) passes.
Proof.
  split; [|intros; by apply adds_record]. intros r s H. cbn [call TxRelayMiddleware].
  destruct (is_raw_transaction_submission (req_method r)) eqn:M; [|by apply inner_sound].
  unfold relay. destruct (extract_raw_tx_bytes r) as [b|] eqn:E; [|by apply inner_sound].
  assert (allow_unprotected_txs config = false → decode_2718_protected b ≠ Some false) as Pb.
  { intros A D. destruct H as [_ H]. apply (H A). split; [done|]. exists b. by rewrite <- carries_iff. }
  pose proof (try_upstreams_adds P (req_method r) b (attempts (relay_clients relays) (sticky s `min` (relay_clients relays - 1)))
    (λ i, Pb) s) as A. unfold forward. destruct (try_upstreams _ _ _ _ _) as [[v|error|] s1].
  - eapply (adds_trans P s (OutcomeOk v, s1)); [exact A|].
    destruct (proj1 inner_sound _ s1 (local_request_passes b Pb)) as (evs & L & F). by exists evs.
  - exact A.
  - exact A.
Qed.

Definition relayed_service : Service :=
  match tx_relays config with Some relays => TxRelayMiddleware world relays (inner world limit) | None => inner world limit end.
Definition pending_service : Service :=
  if filter_pending_txs config then NoPendingTransactionsRpcMiddleware (max_response_body_size config) relayed_service else relayed_service.

Lemma relayed_sound : sound relayed_service passes.
Proof. unfold relayed_service. destruct (tx_relays config); [apply relay_sound|apply inner_sound]. Qed.
Lemma pending_sound :
  sound pending_service (λ r, allow_unprotected_txs config = false → ¬ unprotected_submission r).
Proof.
  destruct relayed_sound as [C N]. unfold pending_service. destruct (filter_pending_txs config) eqn:F.
  - split; [|exact N]. intros r s H. cbn [call NoPendingTransactionsRpcMiddleware]. unfold intercept_or_forward.
    pose proof (intercepted_iff r) as I. destruct (error_if_pending_tx_rpc r) as [[]|error]; [|apply adds_same].
    destruct (is_pool_pending_tx_lookup r || is_pending_block_query r); [apply adds_same|]. apply C. split; [|exact H].
    intros _ X. apply I in X. naive_solver.
  - split; [|exact N]. intros r s H. apply C. split; [by rewrite F|exact H].
Qed.
Lemma reject_sound : sound (RejectUnprotectedTxsMiddleware (allow_unprotected_txs config) (max_response_body_size config) pending_service) (λ _, True).
Proof.
  destruct pending_sound as [C N]. split; [|exact N]. intros r s _. cbn [call RejectUnprotectedTxsMiddleware]. unfold reject_or_forward.
  destruct (allow_unprotected_txs config) eqn:A; [by apply C|].
  pose proof (unprotected_iff r) as I. destruct (error_if_unprotected_send_raw_tx r) as [[]|error]; [|apply adds_same].
  apply C. intros _ X. apply I in X. done.
Qed.
End Layers.

(** ** A batch is its calls *)

(** The responses to the entries, called one by one. *)
Fixpoint answers (on_call on_notification : Request → RpcState → Response * RpcState) (entries : list BatchEntry) (s : RpcState)
    : list Response * RpcState :=
  match entries with
  | [] => ([], s)
  | EntryCall r :: entries =>
      let '(x, s1) := on_call r s in
      let '(xs, s2) := answers on_call on_notification entries s1 in (x :: xs, s2)
  | EntryNotification r :: entries => answers on_call on_notification entries (on_notification r s).2
  | EntryInvalid id error :: entries =>
      let '(xs, s') := answers on_call on_notification entries s in (RespError id error :: xs, s')
  end.
Fixpoint all_fit (limit : Z) (acc xs : list Response) : bool :=
  match xs with
  | [] => true
  | x :: xs => batch_fits limit acc x && all_fit limit (acc ++ [x]) xs
  end.
Definition has_notification (entries : list BatchEntry) : bool :=
  existsb (λ e, match e with EntryNotification _ => true | _ => false end) entries.
Definition batch_response (xs : list Response) (got_notif : bool) : Response :=
  match xs with [] => if got_notif then RespNotification else batch_finish [] | _ => batch_finish xs end.

Lemma batch_loop_answers limit on_call on_notification entries : ∀ acc got_notif s,
  let '(xs, s') := answers on_call on_notification entries s in
  all_fit limit acc xs = true →
  batch_loop limit on_call on_notification entries acc got_notif s
  = (batch_response (acc ++ xs) (got_notif || has_notification entries), s').
Proof.
  induction entries as [|[r|r|id error] entries IH]; intros acc g s; cbn [answers batch_loop].
  - intros _. rewrite app_nil_r. cbn. by rewrite orb_false_r.
  - destruct (on_call r s) as [x s1]. specialize (IH (acc ++ [x]) g s1). destruct (answers _ _ entries s1) as [xs s2].
    cbn [all_fit]. intros [F1 F2]%andb_true_iff. rewrite F1, IH by done. cbn. by rewrite <- app_assoc.
  - specialize (IH acc true (on_notification r s).2). destruct (answers _ _ entries _) as [xs s2]. intros F. rewrite IH by done.
    cbn. by rewrite orb_true_r.
  - specialize (IH (acc ++ [RespError id error]) g s). destruct (answers _ _ entries s) as [xs s2].
    cbn [all_fit]. intros [F1 F2]%andb_true_iff. rewrite F1, IH by done. cbn. by rewrite <- app_assoc.
Qed.

Lemma raw_not_pending r : is_raw_transaction_submission (req_method r) = true → ¬ exposes_pending r.
Proof.
  intros [M%bool_decide_eq_true|M%bool_decide_eq_true]%orb_true_iff; intros [H|H|H|H|H|H]; rewrite M in H; try done; not_in H.
Qed.
(** What is neither filtered nor relayed goes through as it is. *)
Lemma layer_passes config limit r s :
  (filter_pending_txs config = true → ¬ exposes_pending r) → (allow_unprotected_txs config = false → ¬ unprotected_submission r) →
  (is_raw_transaction_submission (req_method r) = false ∨ extract_raw_tx_bytes r = None ∨ tx_relays config = None) →
  call (layer world config (inner world limit)) r s = inner_call world r s.
Proof.
  intros Np Nu Nr. cbn [call layer BatchSizeLimitMiddleware RejectUnprotectedTxsMiddleware]. unfold reject_or_forward.
  fold (relayed_service config limit). fold (pending_service config limit).
  assert (call (relayed_service config limit) r s = inner_call world r s) as E1.
  { unfold relayed_service. destruct (tx_relays config); [|done]. cbn. destruct (is_raw_transaction_submission _); [|done].
    destruct Nr as [?|[E|?]]; [done| |done]. unfold relay. by rewrite E. }
  assert (call (pending_service config limit) r s = inner_call world r s) as E2.
  { unfold pending_service. destruct (filter_pending_txs config); [|done]. cbn. unfold intercept_or_forward.
    pose proof (intercepted_iff r) as I. destruct (error_if_pending_tx_rpc r) as [[]|x]; [|naive_solver].
    destruct (_ || _); [naive_solver|done]. }
  destruct (allow_unprotected_txs config); [done|]. pose proof (unprotected_iff r) as I.
  destruct (error_if_unprotected_send_raw_tx r) as [[]|x]; [done|naive_solver].
Qed.

(** C22: No call gets past the filters of the RPC layer, alone or in a batch.  No call that would
    expose pending transactions reaches the handlers while the filter is
    on, and no replayable transaction that is the only positional parameter of its submission, or its
    parameter by name, reaches the
    handlers or an upstream node unless they are allowed; this includes the copy of a relayed
    transaction for the local pool.  The check does not extend to a submission with more than one
    positional parameter: it reaches the handlers as it is, whatever transaction comes first.  A batch with
    too many entries reaches nothing.  Notifications, which have no answer, are passed on as they are, and
    none is made up. *)
Theorem rpc_filters_enforced config limit :
  let service := layer world config (inner world limit) in
  (∀ r s, adds (admitted config []) s (call service r s))
  ∧ (∀ entries s, adds (admitted config (notes_of entries)) s (batch service entries s))
  ∧ (∀ entries s, (max_batch_entries config < length entries)%nat →
       batch service entries s
       = (RespError IdNull (mkErrorObject BATCH_TOO_LARGE_ERROR_CODE "batch size exceeds limit" None), s))
  ∧ (∀ r s, notification service r s = inner_notification r s)
  ∧ ∀ r v w l s, is_raw_transaction_submission (req_method r) = true → req_params r = Positional (v :: w :: l) →
      call service r s = inner_call world r s.
Proof.
  intros service. split_and!.
  - intros r s. by apply (reject_sound config limit []).
  - intros entries s. destruct (reject_sound config limit (notes_of entries)) as [C N].
    cbn [batch service layer BatchSizeLimitMiddleware]. case_decide; [apply adds_same|].
    apply batch_loop_adds; [|exact N]. intros r s'. by apply C.
  - intros entries s L. cbn [batch service layer BatchSizeLimitMiddleware]. by rewrite decide_True.
  - intros r s. cbn. by destruct (filter_pending_txs config), (tx_relays config).
  - intros r v w l s M Pa. assert (extract_raw_tx_bytes r = None) as E by (unfold extract_raw_tx_bytes; by rewrite Pa).
    apply layer_passes; [intros _; by apply raw_not_pending| |by right; left].
    intros _ (_ & b & C%carries_iff & _). congruence.
Qed.

(** What a call that would expose pending transactions is answered. *)
Definition pending_answer (r : Request) : Response :=
  if decide (req_method r = ETH_NEW_PENDING_TX_FILTER_METHOD)
  then RespError (req_id r) (mkErrorObject PENDING_TX_SUBSCRIPTION_ERROR_CODE "Pending transaction filters are not allowed" None)
  else if decide (req_method r = ETH_SUBSCRIBE_METHOD)
  then RespError (req_id r) (mkErrorObject PENDING_TX_SUBSCRIPTION_ERROR_CODE "Subscriptions to pending transactions are not allowed" None)
  else RespSuccess (req_id r) JNull.
Lemma intercept_pending service r s : exposes_pending r → intercept_or_forward service r s = (pending_answer r, s).
Proof.
  intros X. unfold intercept_or_forward, pending_answer, error_if_pending_tx_rpc.
  case_decide as D1; [done|]. case_decide as D2.
  - destruct D2 as [D2 _]. by rewrite decide_True.
  - assert (is_pool_pending_tx_lookup r || is_pending_block_query r = true) as ->.
    { apply intercepted_iff in X as [X|X]; [|done]. unfold error_if_pending_tx_rpc in X. by rewrite !decide_False in X. }
    rewrite decide_False; [done|]. intros M. destruct X as [H|_ K%given_iff|H|H|H|H]; rewrite ?M in *; try done; [by apply D2|not_in H].
Qed.

(** C39: The RPC layer changes nothing else.  A request that is neither filtered nor relayed
    reaches the handlers unchanged and its response comes back unchanged.  A filtered one reaches nothing
    and is answered with its own id: a replayable transaction with the error for it, a filter or
    subscription for pending transactions with the error for it, and any other query of pending state with
    [null].  A batch within the limits is exactly its
    entries called one by one in order. *)
Theorem rpc_layer_transparent config limit :
  let service := layer world config (inner world limit) in
  (∀ r s, (filter_pending_txs config = true → ¬ exposes_pending r) →
     (allow_unprotected_txs config = false → ¬ unprotected_submission r) →
     (is_raw_transaction_submission (req_method r) = false ∨ tx_relays config = None) →
     call service r s = inner_call world r s)
  ∧ (∀ r s, filter_pending_txs config = true → exposes_pending r → call service r s = (pending_answer r, s))
  ∧ (∀ r s, allow_unprotected_txs config = false → unprotected_submission r →
       call service r s = (RespError (req_id r) (mkErrorObject UNPROTECTED_TX_ERROR_CODE UNPROTECTED_TX_ERROR_MSG None), s))
  ∧ (∀ entries s, (length entries ≤ max_batch_entries config)%nat →
       let '(xs, s') := answers (call service) (notification service) entries s in
       all_fit (max_response_body_size config) [] xs = true →
       batch service entries s = (batch_response xs (has_notification entries), s')).
Proof.
  intros service. split_and!.
  - intros r s Np Nu Nr. apply layer_passes; [done..|tauto].
  - intros r s Fp X. cbn [call service layer BatchSizeLimitMiddleware RejectUnprotectedTxsMiddleware]. rewrite Fp.
    unfold reject_or_forward. cbn [call NoPendingTransactionsRpcMiddleware]. rewrite intercept_pending by done.
    destruct (allow_unprotected_txs config); [done|]. pose proof (unprotected_iff r) as I.
    destruct (error_if_unprotected_send_raw_tx r) as [[]|error]; [done|]. destruct I as [I _].
    destruct (I ltac:(done)) as [M _]. by apply raw_not_pending in M.
  - intros r s Al (M & b & C%carries_iff & D). cbn [call service layer BatchSizeLimitMiddleware RejectUnprotectedTxsMiddleware].
    unfold reject_or_forward, error_if_unprotected_send_raw_tx. by rewrite Al, M, C; cbn; rewrite D.
  - intros entries s L.
    pose proof (batch_loop_answers (max_response_body_size config) (call service) (notification service) entries [] false s) as B.
    destruct (answers _ _ entries s) as [xs s']. intros F. specialize (B F). cbn [batch service layer BatchSizeLimitMiddleware].
    rewrite decide_False by lia. exact B.
Qed.

(** ** Relaying *)

Lemma attempts_all n start : (start < n)%nat →
  NoDup (attempts n start) ∧ length (attempts n start) = n ∧ head (attempts n start) = Some start
  ∧ ∀ i, i ∈ attempts n start ↔ (i < n)%nat.
Proof.
  intros L. unfold attempts. assert (attempts n start ≡ₚ seq 0 n) as P.
  { unfold attempts. rewrite (Permutation_app_comm (drop _ _)). by rewrite take_drop. }
  unfold attempts in P. split_and!.
  - rewrite P. apply NoDup_seq.
  - rewrite P. apply length_seq.
  - rewrite drop_seq. replace (n - start)%nat with (S (n - start - 1)) by lia. done.
  - intros i. rewrite P, elem_of_seq. lia.
Qed.

(** The first answer that ends the attempts, and what comes of it. *)
Definition settled (a : RelayAnswer) : RelayOutcome :=
  match a with
  | RelayResult v => OutcomeOk v
  | RelayErrorResp code message data =>
      OutcomeUpstreamError (mkErrorObject (if decide (- 2 ^ 31 ≤ code < 2 ^ 31) then code else INTERNAL_ERROR_CODE) message data)
  | _ => OutcomeUpstreamError (mkErrorObject INTERNAL_ERROR_CODE "transaction relay upstream error" None)
  end.
Definition relay_events (method : string) (b : bytes) (l : list nat) : list Event := (λ i, Relayed i method b) <$> l.

Lemma try_upstreams_spec method b order : ∀ s,
  let '(outcome, s') := try_upstreams world method b order s in
  ∃ failed rest, order = failed ++ rest
  ∧ (∀ k i, failed !! k = Some i → should_failover (upstream world (log s ++ relay_events method b (take k failed)) i method b) = true)
  ∧ match rest with
    | [] => outcome = OutcomeAllUnreachable ∧ s' = mkRpcState (sticky s) (log s ++ relay_events method b failed)
    | i :: _ =>
        let answer := upstream world (log s ++ relay_events method b failed) i method b in
        should_failover answer = false ∧ outcome = settled answer
        ∧ s' = mkRpcState i (log s ++ relay_events method b (failed ++ [i]))
    end.
Proof.
  induction order as [|i order IH]; intros s; cbn [try_upstreams].
  { exists [], []. split; [done|]. split; [done|]. cbn. rewrite app_nil_r. by destruct s. }
  set (a := upstream world (log s) i method b). set (s1 := record (Relayed i method b) s).
  assert (should_failover a = true → let '(outcome, s') := try_upstreams world method b order s1 in
    ∃ failed rest, i :: order = failed ++ rest
    ∧ (∀ k j, failed !! k = Some j → should_failover (upstream world (log s ++ relay_events method b (take k failed)) j method b) = true)
    ∧ match rest with
      | [] => outcome = OutcomeAllUnreachable ∧ s' = mkRpcState (sticky s) (log s ++ relay_events method b failed)
      | j :: _ =>
          let answer := upstream world (log s ++ relay_events method b failed) j method b in
          should_failover answer = false ∧ outcome = settled answer
          ∧ s' = mkRpcState j (log s ++ relay_events method b (failed ++ [j]))
      end) as Next.
  { intros Fa. specialize (IH s1). destruct (try_upstreams world method b order s1) as [outcome s'].
    destruct IH as (failed & rest & -> & A & B). exists (i :: failed), rest. split; [done|]. unfold s1 in *. cbn [log sticky record] in *.
    split.
    - intros [|k] j L; cbn in L; [injection L as <-; cbn; by rewrite app_nil_r|]. apply A in L. by rewrite <- app_assoc in L.
    - rewrite <- !app_assoc in B. destruct rest; [|by rewrite <- !app_assoc in B]. exact B. }
  assert (should_failover a = false → ∃ failed rest, i :: order = failed ++ rest
    ∧ (∀ k j, failed !! k = Some j → should_failover (upstream world (log s ++ relay_events method b (take k failed)) j method b) = true)
    ∧ match rest with
      | [] => settled a = OutcomeAllUnreachable ∧ mkRpcState i (log s1) = mkRpcState (sticky s) (log s ++ relay_events method b failed)
      | j :: _ =>
          let answer := upstream world (log s ++ relay_events method b failed) j method b in
          should_failover answer = false ∧ settled a = settled answer
          ∧ mkRpcState i (log s1) = mkRpcState j (log s ++ relay_events method b (failed ++ [j]))
      end) as Stop.
  { intros Fa. exists [], (i :: order). split; [done|]. split; [done|]. cbn. rewrite app_nil_r. by split_and!. }
  destruct a eqn:Ea; cbn [should_failover settled] in *; try (by apply Next); try (by apply Stop).
  case_bool_decide; [by apply Next|by apply Stop].
Qed.

(** C24: A relayed transaction tries every upstream node at most once, in cyclic order from the
    one that answered last, and stops at the first that is usable: one that accepts it, or
    refuses it with an error that is not a failover.  That node is remembered and its answer returned;
    only if all of them fail over is the transaction reported undeliverable, and then the
    choice stays.  An accepted transaction, and no other, is also handed to the local pool. *)
Theorem relays_try_each_upstream_once relays limit r b s :
  (0 < relay_clients relays)%nat → extract_raw_tx_bytes r = Some b →
  let n := relay_clients relays in
  let order := attempts n (sticky s `min` (n - 1)) in
  let '(response, s') := relay world relays (inner world limit) r s in
  NoDup order ∧ (∀ i, i ∈ order ↔ (i < n)%nat) ∧ head order = Some (sticky s `min` (n - 1))%nat
  ∧ ∃ failed rest, order = failed ++ rest
    ∧ (∀ k i, failed !! k = Some i →
         should_failover (upstream world (log s ++ relay_events (req_method r) b (take k failed)) i (req_method r) b) = true)
    ∧ match rest with
      | [] => response = RespError (req_id r) (mkErrorObject RELAY_UNAVAILABLE_ERROR_CODE RELAY_UNAVAILABLE_ERROR_MSG None)
          ∧ s' = mkRpcState (sticky s) (log s ++ relay_events (req_method r) b order)
      | i :: _ =>
          let answer := upstream world (log s ++ relay_events (req_method r) b failed) i (req_method r) b in
          should_failover answer = false ∧ sticky s' = i
          ∧ log s' = log s ++ relay_events (req_method r) b (failed ++ [i])
                     ++ match answer with
                        | RelayResult _ => [Called (mkRequest ETH_SEND_RAW_TRANSACTION_METHOD (Positional [ser_bytes b]) IdNull)]
                        | _ => []
                        end
          ∧ response = match settled answer with
                       | OutcomeOk v => limit_response (relay_max_response_body_size relays) (RespSuccess (req_id r) v)
                       | OutcomeUpstreamError error => RespError (req_id r) error
                       | OutcomeAllUnreachable => RespError (req_id r) (mkErrorObject RELAY_UNAVAILABLE_ERROR_CODE RELAY_UNAVAILABLE_ERROR_MSG None)
                       end
      end.
Proof.
  intros N E n order. unfold relay. rewrite E. unfold forward. fold n. fold order.
  destruct (attempts_all n (sticky s `min` (n - 1))) as (D & _ & Hd & M); [lia|]. fold order in D, Hd, M.
  pose proof (try_upstreams_spec (req_method r) b order s) as X. destruct (try_upstreams _ _ _ order s) as [outcome s1].
  destruct X as (failed & rest & O & F & X). destruct rest as [|i rest].
  - destruct X as [-> ->]. split_and!; [done..|]. exists failed, []. rewrite app_nil_r in O. by rewrite app_nil_r, O.
  - destruct X as (Na & -> & ->). set (answer := upstream world _ i _ b) in *.
    destruct answer eqn:Ea; try done; cbn [settled];
      (split; [exact D|]; split; [exact M|]; split; [exact Hd|]);
      exists failed, (i :: rest); (split; [exact O|]; split; [exact F|]);
      cbn zeta; fold answer; rewrite Ea; cbn [sticky log settled]; rewrite ?app_nil_r; try by split_and!.
    cbn. rewrite <- app_assoc. by split_and!.
Qed.
End RpcProps.
