(* ===== verification/ToyRpc.v ===== *)
(** * An instance of the RPC middleware's libraries

    Bytes as arrays of numbers, tags as strings, and transactions told apart by their first
    byte; the first of two upstream nodes is down.  The properties of [RpcMiddlewareProps] are
    applied to it. *)

From S2P Require Import Prelude RpcMiddleware RpcMiddlewareProps.
From coqutil Require Import Byte.

Definition toy_de_byte (j : Json) : option Byte.byte := match j with JNumber z => Some (byte.of_Z z) | _ => None end.
Definition toy_pending (j : Json) : option bool :=
  match j with JString t => Some (bool_decide (t = "pending")) | _ => None end.

#[export] Instance toy_rpc : RpcLibs := {|
  de_bytes j := match j with JArray l => mapM toy_de_byte l | _ => None end;
  ser_bytes b := JArray ((λ x, JNumber (byte.unsigned x)) <$> b);
  de_subscription_kind j :=
    match j with
    | JString k => if decide (k = "newPendingTransactions") then Some NewPendingTransactions else if decide (k = "newHeads") then Some NewHeads else None
    | _ => None
    end;
  de_block_id_pending := toy_pending;
  de_block_number_pending := toy_pending;
  decode_2718_protected b := match b with [] => None | x :: _ => Some (negb (Byte.eqb x Byte.x00)) end;
  batch_fits limit acc _ := bool_decide (Z.of_nat (length acc) < limit);
  batch_too_large _ := RespError IdNull (mkErrorObject (-32011) "response too large" None);
  batch_finish := RespBatch;
  limit_response _ r := r;
|}.
#[export] Instance toy_rpc_laws : RpcLaws.
Proof.
  split. intros b. cbn. apply mapM_Some_2. apply Forall2_fmap_l, Forall_Forall2_diag, Forall_forall. intros x _.
  cbn. by rewrite byte.of_Z_unsigned.
Qed.

Definition toy_world : World :=
  mkWorld (λ _ r, RespSuccess (req_id r) (JString (req_method r)))
    (λ _ i _ _, match i with 0%nat => RelayHttpError 503 | _ => RelayResult JNull end).
Definition toy_relays : TxRelays := mkTxRelays 2 10.
Definition toy_layer : ArcRpcLayer := mkArcRpcLayer true false 10 5 (Some toy_relays).

Definition toy_tx : bytes := [Byte.x01; Byte.x02].
Definition toy_raw (b : bytes) (id : Z) : Request := mkRequest ETH_SEND_RAW_TRANSACTION_METHOD (Positional [ser_bytes b]) (IdNumber id).
Definition toy_chain_id : Request := mkRequest "eth_chainId" NoParams (IdNumber 3).
Definition toy_pending_block : Request :=
  mkRequest ETH_GET_BLOCK_BY_NUMBER_METHOD (Positional [JString "pending"; JBool false]) (IdNumber 2).
(** A filtered query, a replayable transaction, one to relay, and a call for the node. *)
Definition toy_entries : list BatchEntry :=
  [EntryCall toy_pending_block; EntryCall (toy_raw [Byte.x00] 5); EntryCall (toy_raw toy_tx 1); EntryCall toy_chain_id].
Definition toy_rpc_state : RpcState := mkRpcState 0 [].

Lemma rpc_filters_enforced_witness :
  log (batch (layer toy_world toy_layer (inner toy_world 10)) toy_entries toy_rpc_state).2
  = [Relayed 0 ETH_SEND_RAW_TRANSACTION_METHOD toy_tx; Relayed 1 ETH_SEND_RAW_TRANSACTION_METHOD toy_tx;
     Called (mkRequest ETH_SEND_RAW_TRANSACTION_METHOD (Positional [ser_bytes toy_tx]) IdNull); Called toy_chain_id]
  ∧ adds (admitted toy_layer []) toy_rpc_state (batch (layer toy_world toy_layer (inner toy_world 10)) toy_entries toy_rpc_state).
Proof.
  split; [vm_compute; reflexivity|]. exact (proj1 (proj2 (rpc_filters_enforced toy_world toy_layer 10)) toy_entries toy_rpc_state).
Defined.

Lemma toy_chain_id_harmless : ¬ exposes_pending toy_chain_id.
Proof. intros [M|M|M|M|M|M]; cbn in M; try done; not_in M. Qed.

Lemma rpc_layer_transparent_witness :
  call (layer toy_world toy_layer (inner toy_world 10)) toy_chain_id toy_rpc_state
    = (RespSuccess (IdNumber 3) (JString "eth_chainId"), mkRpcState 0 [Called toy_chain_id])
  ∧ call (layer toy_world toy_layer (inner toy_world 10)) toy_pending_block toy_rpc_state
    = (RespSuccess (IdNumber 2) JNull, toy_rpc_state)
  ∧ batch (layer toy_world toy_layer (inner toy_world 10)) [EntryCall toy_chain_id; EntryCall toy_pending_block] toy_rpc_state
    = (RespBatch [RespSuccess (IdNumber 3) (JString "eth_chainId"); RespSuccess (IdNumber 2) JNull],
       mkRpcState 0 [Called toy_chain_id]).
Proof.
  destruct (rpc_layer_transparent toy_world toy_layer 10) as (T & Q & _ & B). split_and!.
  - apply (T toy_chain_id toy_rpc_state); [intros _; apply toy_chain_id_harmless|intros _ [X _]; done|by left].
  - rewrite (Q toy_pending_block toy_rpc_state eq_refl); [done|]. apply exposes_block; [cbn; set_solver|]. by eapply given_first.
  - specialize (B [EntryCall toy_chain_id; EntryCall toy_pending_block] toy_rpc_state ltac:(cbn; lia)).
    destruct (answers _ _ _ _) as [xs s'] eqn:E. vm_compute in E. injection E as <- <-.
    rewrite B by (vm_compute; reflexivity). reflexivity.
Defined.

(** The first node fails over, the second accepts. *)
Lemma relays_try_each_upstream_once_witness :
  let '(response, s') := relay toy_world toy_relays (inner toy_world 10) (toy_raw toy_tx 1) toy_rpc_state in
  response = RespSuccess (IdNumber 1) JNull ∧ sticky s' = 1%nat
  ∧ NoDup (attempts 2 0) ∧ ∀ i, i ∈ attempts 2 0 ↔ (i < 2)%nat.
Proof.
  pose proof (relays_try_each_upstream_once toy_world toy_relays 10 (toy_raw toy_tx 1) toy_tx toy_rpc_state
    ltac:(cbn; lia) ltac:(vm_compute; reflexivity)) as X.
  destruct (relay _ _ _ _ _) as [response s'] eqn:E. destruct X as (D & M & _). vm_compute in E. injection E as <- <-. by split_and!.
Defined.
