(* ===== verification/BTree.v ===== *)
(** * Ordered maps

    Rust's [BTreeMap] and redb's tables as the list of their entries in ascending key
    order, for any strict total order on the keys; byte strings in lexicographic order. *)

From stdpp Require Import sorting.
From S2P Require Import Prelude.

(** ** Operations *)

Section BTree.
Context {K V : Type} `{!EqDecision K} (lt : K → K → bool).
Implicit Types m : list (K * V).

Definition bt_get (k : K) m : option V := snd <$> (snd <$> list_find (λ kv, kv.1 = k) m).
Definition bt_remove (k : K) m : list (K * V) := filter (λ kv, kv.1 ≠ k) m.
Fixpoint bt_insert (k : K) (v : V) m : list (K * V) :=
  match m with
  | [] => [(k, v)]
  | (k', v') :: r =>
      if decide (k = k') then (k, v) :: r
      else if lt k k' then (k, v) :: (k', v') :: r
      else (k', v') :: bt_insert k v r
  end.
End BTree.

(** Byte strings in lexicographic order. *)
Fixpoint bytes_lt (a b : bytes) : bool :=
  match a, b with
  | _, [] => false
  | [], _ :: _ => true
  | x :: a, y :: b =>
      if decide (x = y) then bytes_lt a b
      else bool_decide (byte.unsigned x < byte.unsigned y)
  end.

(** ** Lemmas *)

Section BTreeLemmas.
Context {K V : Type} `{!EqDecision K} (lt : K → K → bool).
Hypothesis lt_irrefl : ∀ k, lt k k = false.
Hypothesis lt_trans : ∀ a b c, lt a b = true → lt b c = true → lt a c = true.
Hypothesis lt_total : ∀ a b, a ≠ b → lt a b = false → lt b a = true.
Implicit Types m : list (K * V).

(** Entries in strictly ascending key order. *)
Definition bt_sorted m : Prop := StronglySorted (λ a b, lt a.1 b.1 = true) m.

Lemma bt_get_cons k k' v m :
  bt_get k ((k', v) :: m) = if decide (k' = k) then Some v else bt_get k m.
Proof. unfold bt_get. cbn. case_decide; [done|]. by destruct (list_find _ m) as [[]|]. Qed.

Lemma bt_get_insert k v m : bt_get k (bt_insert lt k v m) = Some v.
Proof.
  induction m as [|[k' v'] m IH]; cbn [bt_insert].
  - by rewrite bt_get_cons, decide_True.
  - case_decide; [by rewrite bt_get_cons, decide_True|].
    destruct (lt k k'); rewrite bt_get_cons; [by rewrite decide_True|by rewrite decide_False].
Qed.

Lemma bt_get_insert_ne k k' v m : k' ≠ k → bt_get k' (bt_insert lt k v m) = bt_get k' m.
Proof.
  intros N. induction m as [|[k1 v1] m IH]; cbn [bt_insert].
  - by rewrite bt_get_cons, decide_False.
  - case_decide as D; [subst k1; by rewrite !bt_get_cons, !decide_False|].
    destruct (lt k k1); rewrite !bt_get_cons; [by rewrite (decide_False (P := k = k'))|].
    by rewrite IH.
Qed.

Lemma bt_get_remove k m : bt_get k (bt_remove k m) = None.
Proof.
  unfold bt_get, bt_remove. replace (list_find _ _) with (@None (nat * (K * V))); [done|].
  symmetry. apply list_find_None, Forall_forall. intros kv Hkv E.
  apply list_elem_of_filter in Hkv as [N _]. done.
Qed.

Lemma bt_get_remove_ne k k' m : k' ≠ k → bt_get k' (bt_remove k m) = bt_get k' m.
Proof.
  intros N. unfold bt_remove. induction m as [|[k1 v1] m IH]; [done|].
  rewrite filter_cons, (bt_get_cons k'). case_decide as D; [by rewrite bt_get_cons, IH|].
  rewrite decide_False; [done|]. intros ->. done.
Qed.

Lemma bt_get_Some k v m : bt_get k m = Some v → (k, v) ∈ m.
Proof.
  unfold bt_get. destruct (list_find _ _) as [[i [k' v']]|] eqn:E; [|done].
  apply list_find_Some in E as (E & Hk & _). cbn in *. intros [= <-]. subst k'.
  by eapply list_elem_of_lookup_2.
Qed.

Lemma bt_get_None k m : bt_get k m = None ↔ k ∉ m.*1.
Proof.
  unfold bt_get. destruct (list_find _ _) as [[i [k' v']]|] eqn:E.
  - apply list_find_Some in E as (E & Hk & _). cbn in *. subst k'. split; [done|].
    intros N. destruct N. apply list_elem_of_fmap. exists (k, v').
    split; [done|]. by eapply list_elem_of_lookup_2.
  - split; [|done]. intros _ Hk. apply list_elem_of_fmap in Hk as ([k' v'] & -> & Hin).
    apply list_find_None in E. rewrite Forall_forall in E. by apply (E _ Hin).
Qed.

Lemma bt_sorted_head k v m kv : bt_sorted ((k, v) :: m) → kv ∈ m → lt k kv.1 = true.
Proof. intros S Hin. inversion_clear S as [|? ? _ F]. rewrite Forall_forall in F. by apply (F _ Hin). Qed.

Lemma bt_remove_fresh k m : (∀ kv, kv ∈ m → kv.1 ≠ k) → bt_remove k m = m.
Proof.
  intros H. unfold bt_remove. induction m as [|kv m IH]; [done|].
  rewrite filter_cons_True by (apply H; left). f_equal. apply IH. intros kv' Hin. apply H. by right.
Qed.

Lemma bt_insert_perm k v m : bt_sorted m → bt_insert lt k v m ≡ₚ (k, v) :: bt_remove k m.
Proof.
  intros S. induction m as [|[k' v'] m IH]; [done|]. cbn [bt_insert].
  pose proof (λ kv, bt_sorted_head k' v' m kv S) as Hhd.
  case_decide as D.
  - subst k'. unfold bt_remove. rewrite filter_cons_False by (intros N; by apply N).
    fold (bt_remove k m). rewrite bt_remove_fresh; [done|].
    intros kv Hin E. specialize (Hhd kv Hin). by rewrite E, lt_irrefl in Hhd.
  - destruct (lt k k') eqn:L.
    + rewrite bt_remove_fresh; [done|]. intros kv Hin E.
      apply elem_of_cons in Hin as [->|Hin]; [done|]. specialize (Hhd kv Hin).
      pose proof (lt_trans _ _ _ L Hhd) as C. by rewrite E, lt_irrefl in C.
    + unfold bt_remove. rewrite filter_cons_True by done. fold (bt_remove k m).
      rewrite IH by (by inversion S). apply Permutation_swap.
Qed.

Lemma bt_insert_sorted_on k v m :
  (∀ k', k' ∈ m.*1 → k ≠ k' → lt k k' = false → lt k' k = true) →
  bt_sorted m → bt_sorted (bt_insert lt k v m).
Proof.
  intros T S. induction m as [|[k' v'] m IH]; [by repeat constructor|]. cbn.
  pose proof (λ kv, bt_sorted_head k' v' m kv S) as Hhd. inversion S as [|? ? S' F]; subst.
  case_decide as D; [subst k'; by constructor|].
  destruct (lt k k') eqn:L.
  - constructor; [done|]. constructor; [done|]. apply Forall_forall. intros kv Hin. cbn.
    eauto.
  - constructor; [apply IH; [|done]; intros k1 Hk1; apply T; by right|].
    apply Forall_forall. intros kv Hin.
    rewrite bt_insert_perm in Hin by done. apply elem_of_cons in Hin as [->|Hin]; cbn.
    { apply T; [by left|done|done]. }
    apply list_elem_of_filter in Hin as [_ Hin]. by apply Hhd.
Qed.

Lemma bt_insert_sorted k v m : bt_sorted m → bt_sorted (bt_insert lt k v m).
Proof. apply bt_insert_sorted_on. intros k' _. apply lt_total. Qed.

Lemma bt_remove_insert k v m : bt_remove k (bt_insert lt k v m) = bt_remove k m.
Proof.
  assert (∀ (v : V) (l : list (K * V)), bt_remove k ((k, v) :: l) = bt_remove k l) as R.
  { intros w l. unfold bt_remove. by rewrite filter_cons_False by (intros N; by apply N). }
  induction m as [|[k' v'] m IH]; cbn [bt_insert]; [apply R|].
  case_decide as D; [subst k'; by rewrite !R|]. destruct (lt k k'); [apply R|].
  unfold bt_remove in *. by rewrite !filter_cons_True, IH by done.
Qed.

Lemma bt_get_sorted k v m : bt_sorted m → (k, v) ∈ m → bt_get k m = Some v.
Proof.
  induction m as [|[k' v'] m IH]; intros S Hin; [by apply elem_of_nil in Hin|].
  rewrite bt_get_cons. apply elem_of_cons in Hin as [[= -> ->]|Hin]; [by rewrite decide_True|].
  pose proof (bt_sorted_head _ _ _ _ S Hin) as L. cbn in L.
  rewrite decide_False by (intros ->; by rewrite lt_irrefl in L). apply IH; [by inversion S|done].
Qed.

Lemma bt_sorted_filter (P : K * V → Prop) `{!∀ x, Decision (P x)} m :
  bt_sorted m → bt_sorted (filter P m).
Proof.
  induction 1 as [|kv m S IH F]; [constructor|]. rewrite filter_cons. case_decide; [|done].
  constructor; [done|]. rewrite Forall_forall in *. intros kv' Hin. apply F.
  by apply list_elem_of_filter in Hin as [_ ?].
Qed.

Lemma bt_sorted_NoDup m : bt_sorted m → NoDup m.*1.
Proof.
  induction 1 as [|kv m S IH F]; cbn; [constructor|]. apply NoDup_cons. split; [|done].
  intros Hin. apply list_elem_of_fmap in Hin as (kv' & E & Hin). rewrite Forall_forall in F.
  specialize (F _ Hin). cbn in F. by rewrite E, lt_irrefl in F.
Qed.

(** Inserting under keys that are there already replaces their values in place. *)
Lemma bt_insert_existing k v m : bt_sorted m → k ∈ m.*1 →
  bt_insert lt k v m = (λ kv, (kv.1, if decide (kv.1 = k) then v else kv.2)) <$> m.
Proof.
  induction m as [|[k' v'] m IH]; intros S Hin; [by apply elem_of_nil in Hin|]. cbn.
  assert (∀ kv, kv ∈ m → lt k' kv.1 = true) as H by (intros kv; by apply bt_sorted_head with (v := v')).
  apply StronglySorted_inv in S as [S _]. destruct (decide (k = k')) as [->|N].
  - rewrite decide_True by done. f_equal. rewrite <- (list_fmap_id m) at 1. apply list_fmap_ext.
    intros i kv L%list_elem_of_lookup_2%H. rewrite decide_False; [by destruct kv|]. intros E. rewrite E in L.
    by rewrite lt_irrefl in L.
  - rewrite decide_False by done. cbn in Hin. apply elem_of_cons in Hin as [?|Hin]; [done|].
    destruct (lt k k') eqn:L; [|f_equal; by apply IH].
    apply list_elem_of_fmap in Hin as (kv & -> & Hin). apply H in Hin.
    pose proof (lt_trans _ _ _ Hin L) as X. by rewrite lt_irrefl in X.
Qed.
Lemma bt_sorted_map_values (f : K * V → V) m : bt_sorted m → bt_sorted ((λ kv, (kv.1, f kv)) <$> m).
Proof.
  induction 1 as [|kv m S IH F]; cbn; constructor; [done|]. rewrite Forall_forall in *.
  intros x (y & -> & Hin)%list_elem_of_fmap. exact (F y Hin).
Qed.
Lemma bt_insert_all batch : ∀ m, bt_sorted m → NoDup batch.*1 → batch.*1 ⊆ m.*1 →
  foldl (λ m kv, bt_insert lt kv.1 kv.2 m) m batch = (λ kv, (kv.1, default kv.2 (bt_get kv.1 batch))) <$> m.
Proof.
  induction batch as [|[k v] batch IH]; intros m S N I; cbn [foldl].
  { rewrite <- (list_fmap_id m) at 1. apply list_fmap_ext. by intros ? []. }
  cbn in N, I. apply NoDup_cons in N as [Hk N]. cbn [fst snd].
  rewrite bt_insert_existing; [|done|apply I; by left].
  rewrite IH; [|by apply bt_sorted_map_values|done|].
  - rewrite <- list_fmap_compose. apply list_fmap_ext. intros i [k' v'] _. unfold compose. cbn [fst snd]. rewrite bt_get_cons.
    destruct (decide (k' = k)) as [->|N']; [|by rewrite decide_False by congruence].
    rewrite decide_True by done. apply bt_get_None in Hk. by rewrite Hk.
  - intros x Hx. rewrite <- list_fmap_compose. apply I. by right.
Qed.

End BTreeLemmas.

(** ** Byte strings *)

Lemma bytes_lt_irrefl a : bytes_lt a a = false.
Proof. induction a as [|x a IH]; [done|]. cbn. by rewrite decide_True. Qed.

Lemma bytes_lt_trans a b c : bytes_lt a b = true → bytes_lt b c = true → bytes_lt a c = true.
Proof.
  revert b c. induction a as [|x a IH]; intros [|y b] [|z c]; cbn; try done.
  intros H1 H2. destruct (decide (x = y)) as [<-|N1], (decide (x = z)) as [<-|N2].
  - by eapply IH.
  - done.
  - rewrite decide_False in H2 by congruence.
    apply bool_decide_eq_true in H1, H2. lia.
  - destruct (decide (y = z)) as [<-|N3]; [done|].
    apply bool_decide_eq_true in H1, H2. apply bool_decide_eq_true. lia.
Qed.

Lemma bytes_lt_total a b : a ≠ b → bytes_lt a b = false → bytes_lt b a = true.
Proof.
  revert b. induction a as [|x a IH]; intros [|y b]; cbn; try done.
  intros N H. destruct (decide (x = y)) as [<-|N1].
  - rewrite decide_True by done. apply IH; congruence.
  - rewrite decide_False by congruence. apply bool_decide_eq_false in H. apply bool_decide_eq_true.
    assert (byte.unsigned x ≠ byte.unsigned y); [|lia]. intros E. apply N1.
    by rewrite <- (byte.of_Z_unsigned x), E, byte.of_Z_unsigned.
Qed.

(** ** Sublists *)

Lemma filter_all {A} (P : A → Prop) `{!∀ x, Decision (P x)} (l : list A) :
  (∀ x, x ∈ l → P x) → filter P l = l.
Proof.
  induction l as [|x l IH]; intros HP; [done|]. rewrite filter_cons_True by (apply HP; left).
  f_equal. apply IH. intros y Hy. apply HP. by right.
Qed.

Lemma filter_none {A} (P : A → Prop) `{!∀ x, Decision (P x)} (l : list A) :
  Forall (λ x, ¬ P x) l → filter P l = [].
Proof. induction 1; [done|]. by rewrite filter_cons_False. Qed.
Lemma filter_sublist {A} (P : A → Prop) `{!∀ x, Decision (P x)} (l : list A) :
  filter P l `sublist_of` l.
Proof. induction l as [|x l IH]; [done|]. rewrite filter_cons. case_decide; by constructor. Qed.

Lemma sublist_filter_mono {A} (P : A → Prop) `{!∀ x, Decision (P x)} (l k : list A) :
  l `sublist_of` k → filter P l `sublist_of` filter P k.
Proof.
  induction 1 as [|x l k _ IH|x l k _ IH]; [done|..]; rewrite !filter_cons; case_decide; try done; by constructor.
Qed.

Lemma sublist_elem_of {A} (l k : list A) x : l `sublist_of` k → x ∈ l → x ∈ k.
Proof. induction 1; set_solver. Qed.

Lemma StronglySorted_sublist {A} (R : relation A) (l k : list A) :
  l `sublist_of` k → StronglySorted R k → StronglySorted R l.
Proof.
  induction 1 as [|x l k S IH|x l k S IH]; inversion_clear 1 as [|? ? Sk F]; [constructor| |by apply IH].
  constructor; [by apply IH|]. rewrite Forall_forall in *. intros y Hy. apply F. by eapply sublist_elem_of.
Qed.

