(* ===== verification/Validators.v ===== *)
(** * Validator sets and proposer selection

    types/src/validator_set.rs and types/src/proposer.rs: the construction of a
    validator set (sort and dedup), its lookups and total power, and the round-robin
    selection of the proposer.  A panic is [None]. *)

From stdpp Require Import sorting.
From S2P Require Import Prelude.

(** [Round] of malachite: nil, or a 32-bit number. *)
Abbreviation Round := (option Z).
Definition round_as_i64 (r : Round) : Z := default (-1) r.
Definition round_wf (r : Round) : Prop := match r with Some n => uint 32 n | None => True end.

Record Validator := mkValidator {
  address : Z;
  public_key : Z;
  voting_power : Z;
}.
#[export] Instance Validator_eq_dec : EqDecision Validator.
Proof. solve_decision. Defined.

(** [(Reverse(v1.voting_power), &v1.address) <= (Reverse(v2.voting_power), &v2.address)] *)
Definition validator_le (v1 v2 : Validator) : Prop :=
  voting_power v2 < voting_power v1
  ∨ (voting_power v1 = voting_power v2 ∧ address v1 ≤ address v2).
#[export] Instance validator_le_dec : RelDecision validator_le.
Proof. intros v1 v2. unfold validator_le. apply _. Defined.

(** [Vec::dedup]: drops every element equal to its predecessor. *)
Fixpoint dedup (l : list Validator) : list Validator :=
  match l with
  | [] => []
  | v :: l' =>
      match dedup l' with
      | [] => [v]
      | w :: r => if decide (v = w) then w :: r else v :: w :: r
      end
  end.

Definition sort_validators (vals : list Validator) : list Validator :=
  dedup (merge_sort validator_le vals).

Record ValidatorSet := mkValidatorSet { validators : list Validator }.

Definition ValidatorSet_new (vals : list Validator) : option ValidatorSet :=
  let sorted := sort_validators vals in
  if decide (sorted = []) then None else Some (mkValidatorSet sorted).

Definition set_len (s : ValidatorSet) : Z := Z.of_nat (length (validators s)).

Definition total_voting_power (s : ValidatorSet) : option Z :=
  foldl (λ acc v, a ← acc; checked_add 64 a (voting_power v)) (Some 0) (validators s).

Definition get_by_index (s : ValidatorSet) (index : Z) : option Validator :=
  validators s !! Z.to_nat index.
Definition get_by_address (s : ValidatorSet) (a : Z) : option Validator :=
  snd <$> list_find (λ v, address v = a) (validators s).
Definition get_by_public_key (s : ValidatorSet) (k : Z) : option Validator :=
  snd <$> list_find (λ v, public_key v = k) (validators s).

(** [RoundRobin::select_proposer] on a 64-bit target: the assertions, the unsigned
    subtraction and addition that panic on overflow, the final [expect]. *)
Definition select_proposer (validator_set : ValidatorSet) (height : Z) (round : Round)
    : option Validator :=
  if decide (validators validator_set = []) then None else
  if decide (¬ (round ≠ None ∧ 0 ≤ round_as_i64 round)) then None else
  h ← checked_sub 64 height 1;
  i ← checked_add 64 h (round_as_i64 round);
  get_by_index validator_set (i `mod` set_len validator_set).

(** ** Sorting *)

#[export] Instance validator_le_total : Total validator_le.
Proof. intros v1 v2. unfold validator_le. lia. Qed.
#[export] Instance validator_le_trans : Transitive validator_le.
Proof. intros v1 v2 v3. unfold validator_le. lia. Qed.

Lemma elem_of_dedup v l : v ∈ dedup l ↔ v ∈ l.
Proof.
  induction l as [|w l IH]; [done|]. cbn. destruct (dedup l) as [|x r] eqn:E.
  - rewrite !elem_of_cons, <- IH. done.
  - case_decide; subst; rewrite !elem_of_cons, <- IH, ?elem_of_cons; naive_solver.
Qed.

Lemma dedup_sorted l : StronglySorted validator_le l → StronglySorted validator_le (dedup l).
Proof.
  induction 1 as [|v l S IH F]; [constructor|]. cbn.
  assert (Forall (validator_le v) (dedup l)) as F'.
  { apply Forall_forall. intros w Hw. rewrite elem_of_dedup in Hw. rewrite Forall_forall in F. by apply F. }
  destruct (dedup l) as [|x r] eqn:E; [by repeat constructor|].
  case_decide; [done|]. by constructor.
Qed.

(** No two validators of [l] share an address. *)
Definition addresses_distinct (l : list Validator) : Prop :=
  ∀ v w, v ∈ l → w ∈ l → address v = address w → v = w.
(** Entries of [l] with the same power and address are the same: the unstable sort has no choice. *)
Definition entries_distinct (l : list Validator) : Prop :=
  ∀ v w, v ∈ l → w ∈ l → voting_power v = voting_power w → address v = address w → v = w.

Lemma dedup_NoDup l :
  entries_distinct l → StronglySorted validator_le l → NoDup (dedup l).
Proof.
  intros Hd S. induction S as [|v l S IH F]; [constructor|]. cbn.
  assert (NoDup (dedup l)) as ND by (apply IH; intros ? ? ? ?; apply Hd; by right).
  pose proof (dedup_sorted l S) as S'.
  destruct (dedup l) as [|x r] eqn:E; [apply NoDup_singleton|].
  case_decide as N; [done|]. apply NoDup_cons. split; [|done].
  intros Hv. rewrite elem_of_cons in Hv. destruct Hv as [|Hv]; [done|].
  assert (x ∈ l) as Hx by (apply elem_of_dedup; rewrite E; left).
  assert (validator_le x v) as L1
    by (inversion S' as [|? ? _ F']; subst; rewrite Forall_forall in F'; by apply F').
  assert (validator_le v x) as L2 by (rewrite Forall_forall in F; by apply F).
  apply N, Hd; [left|by right|..]; unfold validator_le in *; lia.
Qed.

Lemma sort_validators_elem v l : v ∈ sort_validators l ↔ v ∈ l.
Proof. unfold sort_validators. by rewrite elem_of_dedup, merge_sort_Permutation. Qed.

Lemma sort_validators_spec l :
  entries_distinct l →
  NoDup (sort_validators l) ∧ StronglySorted validator_le (sort_validators l).
Proof.
  intros Hd. pose proof (StronglySorted_merge_sort validator_le l) as S.
  split; [|by apply dedup_sorted]. apply dedup_NoDup; [|done].
  intros v w. rewrite !merge_sort_Permutation. apply Hd.
Qed.

Lemma sort_validators_unique l1 l2 :
  entries_distinct l1 → (∀ v, v ∈ l1 ↔ v ∈ l2) → sort_validators l1 = sort_validators l2.
Proof.
  intros Hd E.
  assert (entries_distinct l2) as Hd2 by (intros v w; rewrite <- !E; apply Hd).
  destruct (sort_validators_spec l1 Hd) as [N1 S1], (sort_validators_spec l2 Hd2) as [N2 S2].
  apply (StronglySorted_unique_strong validator_le); [|done..|].
  - intros v w. rewrite !sort_validators_elem, <- E. intros Hv Hw L1 L2.
    apply Hd; [done|done|..]; unfold validator_le in *; lia.
  - apply NoDup_Permutation; [done|done|]. intros v. by rewrite !sort_validators_elem.
Qed.

(** ** Properties *)

Lemma NoDup_addresses l : NoDup l → NoDup (address <$> l) ↔ addresses_distinct l.
Proof.
  intros N. split.
  - intros A v w [i Hi]%list_elem_of_lookup [j Hj]%list_elem_of_lookup E.
    assert (i = j) as <-; [|congruence].
    eapply (NoDup_lookup (address <$> l)); [done|..]; rewrite list_lookup_fmap, ?Hi, ?Hj; cbn; [done|by rewrite E].
  - intros D. apply (NoDup_fmap_2_strong); [|done]. intros v w Hv Hw. by apply D.
Qed.

(** C32: A validator set is canonical: nodes that are given the same entries, in any order and with any
    repetitions, build the same [ValidatorSet], as long as no two of the entries differ in the public key
    alone.  It lists each distinct entry exactly once, by
    descending power and then ascending address; so it lists each address once exactly when no two
    of the entries share an address, since the code does not look for that.  There is no set without
    entries. *)
Theorem validator_set_canonical l1 l2 :
  entries_distinct l1 → (∀ v, v ∈ l1 ↔ v ∈ l2) →
  ValidatorSet_new l1 = ValidatorSet_new l2
  ∧ (ValidatorSet_new l1 = None ↔ l1 = [])
  ∧ (∀ s, ValidatorSet_new l1 = Some s →
       NoDup (validators s) ∧ StronglySorted validator_le (validators s)
       ∧ (∀ v, v ∈ validators s ↔ v ∈ l1)
       ∧ (NoDup (address <$> validators s) ↔ addresses_distinct l1)).
Proof.
  intros Hd E. split; [unfold ValidatorSet_new; by rewrite (sort_validators_unique l1 l2)|].
  destruct (sort_validators_spec l1 Hd) as [N S]. unfold ValidatorSet_new. split.
  - case_decide as D.
    + split; [|done]. intros _. apply elem_of_nil_inv. intros v. rewrite <- sort_validators_elem, D. apply not_elem_of_nil.
    + split; [done|]. intros ->. by destruct D.
  - intros s. case_decide; [done|]. intros [= <-]. cbn. split; [done|]. split; [done|]. split; [intros v; apply sort_validators_elem|].
    rewrite NoDup_addresses by done. unfold addresses_distinct. by setoid_rewrite sort_validators_elem.
Qed.

Lemma validator_set_canonical_witness :
  let a := mkValidator 1 11 5 in let b := mkValidator 2 12 7 in
  ValidatorSet_new [a; b] = ValidatorSet_new [b; a; b].
Proof.
  intros a b. apply (validator_set_canonical [a; b] [b; a; b]).
  - intros v w. rewrite !elem_of_cons, !elem_of_nil. naive_solver.
  - intros v. rewrite !elem_of_cons, !elem_of_nil. naive_solver.
Defined.

Lemma select_proposer_index s height round :
  validators s ≠ [] → 1 ≤ height → 0 ≤ round → u64 (height - 1 + round) →
  select_proposer s height (Some round)
  = validators s !! Z.to_nat ((height - 1 + round) `mod` set_len s).
Proof.
  intros Hs Hh Hr Hu. unfold select_proposer, checked_sub, checked_add.
  change (round_as_i64 (Some round)) with round.
  rewrite decide_False by done. rewrite decide_False by (intros N; apply N; split; [done|exact Hr]).
  rewrite try_from_Some by (unfold uint in *; lia). cbn [mbind option_bind].
  by rewrite try_from_Some by (unfold uint in *; lia).
Qed.

Lemma set_len_pos s : validators s ≠ [] → 0 < set_len s.
Proof. unfold set_len. destruct (validators s); [done|]. cbn [length]. lia. Qed.

(** Exactly one shift below [n] takes [c] to [i] modulo [n]. *)
Lemma mod_shift_unique c i n : 0 < n → 0 ≤ i < n → exists! k, 0 ≤ k < n ∧ (c + k) `mod` n = i.
Proof.
  intros Hn Hi. exists ((i - c) `mod` n). split.
  - split; [by apply Z.mod_pos_bound|].
    rewrite Z.add_mod_idemp_r by lia. replace (c + (i - c)) with i by lia. by apply Z.mod_small.
  - intros k [Hk E]. trans (k `mod` n); [|by apply Z.mod_small].
    rewrite <- E, Zminus_mod_idemp_l. f_equal. lia.
Qed.

(** Proposer selection: for a height of at least 1 and a non-nil round (in the
    range where the sum fits 64 bits) it never panics and picks a member of the set;
    within any [n] consecutive rounds of a height, [n] the size of the set, every
    validator is the proposer of exactly one round. *)
Theorem proposer_rotation s height round :
  NoDup (validators s) → validators s ≠ [] → 1 ≤ height → 0 ≤ round →
  u64 (height - 1 + round + set_len s) →
  (∀ k, 0 ≤ k < set_len s →
     ∃ v, select_proposer s height (Some (round + k)) = Some v ∧ v ∈ validators s)
  ∧ (∀ v, v ∈ validators s →
       exists! k, 0 ≤ k < set_len s ∧ select_proposer s height (Some (round + k)) = Some v).
Proof.
  intros ND Hs Hh Hr Hu. pose proof (set_len_pos s Hs) as Hl.
  assert (∀ k, 0 ≤ k < set_len s → select_proposer s height (Some (round + k))
            = validators s !! Z.to_nat ((height - 1 + round + k) `mod` set_len s)) as E.
  { intros k Hk. rewrite select_proposer_index by (unfold uint in *; done || lia).
    by rewrite Z.add_assoc. }
  split.
  - intros k Hk. rewrite E by done.
    pose proof (Z.mod_pos_bound (height - 1 + round + k) (set_len s) Hl) as B. unfold set_len in B at 3.
    destruct (lookup_lt_is_Some_2 (validators s) (Z.to_nat ((height - 1 + round + k) `mod` set_len s)))
      as [v Hv]; [lia|]. exists v. split; [done|]. by eapply list_elem_of_lookup_2.
  - intros v [i Hi]%list_elem_of_lookup. pose proof (lookup_lt_Some _ _ _ Hi) as Li.
    destruct (mod_shift_unique (height - 1 + round) (Z.of_nat i) (set_len s) Hl) as (k & [Hk Ek] & Uk).
    { unfold set_len. lia. }
    exists k. split; [split; [done|]; rewrite E, Ek, Nat2Z.id by done; done|].
    intros k' [Hk' E']. apply Uk. split; [done|]. rewrite E in E' by done.
    pose proof (NoDup_lookup _ _ _ _ ND Hi E') as ->. rewrite Z2Nat.id; [done|].
    by apply Z.mod_pos_bound.
Qed.

Lemma proposer_rotation_witness :
  exists! k, 0 ≤ k < 2 ∧ select_proposer (mkValidatorSet [mkValidator 2 12 7; mkValidator 1 11 5]) 10
    (Some (3 + k)) = Some (mkValidator 1 11 5).
Proof.
  apply (proposer_rotation (mkValidatorSet [mkValidator 2 12 7; mkValidator 1 11 5]) 10 3).
  - apply (bool_decide_unpack _). vm_compute. exact I.
  - done.
  - lia.
  - lia.
  - vm_compute. split; congruence.
  - right. left.
Defined.
