(* ===== verification/Proposal.v ===== *)
(** * Proposal parts

    types/src/proposal_part.rs and proposal_parts.rs: the parts a proposal is split
    into and their assembly; malachite-app/src/proposal_parts.rs: splitting a block
    into parts and stream messages, validating the assembled parts, and rebuilding
    the block.

    Signatures, the SSZ codec of the execution payload and Keccak are third-party
    code: the class [ProposalCrypto] names them, [ProposalCryptoLaws] states that
    decoding inverts encoding and that a signature verifies under its key. *)

From S2P Require Import Prelude Validators.

(** Maximum bytes of one data part. *)
Definition CHUNK_SIZE : Z := 128 * 1024.

Class ProposalCrypto := {
  Signature : Type;
  SigningError : Type;
  sign_bytes : bytes → result SigningError Signature;
  verify_signed_bytes : bytes → Signature → Z → result SigningError bool;
  signature_to_bytes : Signature → bytes;
  Payload : Type;
  as_ssz_bytes : Payload → bytes;
  from_ssz_bytes : bytes → option Payload;
  sha3_keccak256 : bytes → bytes;
}.

Class ProposalCryptoLaws `{PC : ProposalCrypto} := {
  own_public_key : Z;
  from_as_ssz : ∀ p, from_ssz_bytes (as_ssz_bytes p) = Some p;
  verify_sign : ∀ b s, sign_bytes b = Ok s → verify_signed_bytes b s own_public_key = Ok true;
}.

Section Types.
Context `{PC : ProposalCrypto}.

Record ProposalInit := mkProposalInit {
  init_height : Z;
  init_round : Round;
  init_pol_round : Round;
  init_proposer : Z;
}.

Inductive ProposalPart :=
| PartInit (init : ProposalInit)
| PartData (data : bytes)
| PartFin (signature : Signature).

Definition as_init (p : ProposalPart) : option ProposalInit :=
  match p with PartInit i => Some i | _ => None end.

Inductive ProposalPartsError := MissingPart (what : string) | DuplicatePart (what : string).

Record ProposalParts := mkProposalParts {
  parts_init : ProposalInit;
  parts_data : list bytes;
  parts_fin : Signature;
}.

(** The loop of [ProposalParts::new]. *)
Fixpoint collect_parts (parts : list ProposalPart) (init : option ProposalInit)
    (fin : option Signature) (data : list bytes)
    : result ProposalPartsError (option ProposalInit * option Signature * list bytes) :=
  match parts with
  | [] => Ok (init, fin, data)
  | PartInit p :: rest =>
      if decide (is_Some init) then Err (DuplicatePart "Init")
      else collect_parts rest (Some p) fin data
  | PartFin p :: rest =>
      if decide (is_Some fin) then Err (DuplicatePart "Fin")
      else collect_parts rest init (Some p) data
  | PartData p :: rest => collect_parts rest init fin (data ++ [p])
  end.

Definition ProposalParts_new (parts : list ProposalPart) : result ProposalPartsError ProposalParts :=
  c ← collect_parts parts None None [];
  let '(init, fin, data) := c in
  init ← ok_or init (MissingPart "Init");
  fin ← ok_or fin (MissingPart "Fin");
  Ok (mkProposalParts init data fin).

Definition parts_height (p : ProposalParts) : Z := init_height (parts_init p).
Definition parts_round (p : ProposalParts) : Round := init_round (parts_init p).
Definition parts_proposer (p : ProposalParts) : Z := init_proposer (parts_init p).
Definition data_size (p : ProposalParts) : Z :=
  foldr (λ d acc, Z.of_nat (length d) + acc) 0 (parts_data p).

(** [hasher.update(..)] appends, [finalize] hashes what was appended. *)
Definition parts_hash (p : ProposalParts) : bytes :=
  let hasher := to_be_bytes 8 (parts_height p) ++ to_be_bytes 8 (round_as_i64 (parts_round p)) in
  sha3_keccak256 (foldl (λ h d, h ++ d) hasher (parts_data p)).

Definition pending_key (p : ProposalParts) : Z * Round * bytes :=
  (parts_height p, parts_round p,
   sha3_keccak256 (parts_hash p ++ to_be_bytes 20 (parts_proposer p)
     ++ to_be_bytes 8 (round_as_i64 (init_pol_round (parts_init p)))
     ++ signature_to_bytes (parts_fin p))).

Inductive Validity := Valid | Invalid.

Record ConsensusBlock := mkConsensusBlock {
  block_height : Z;
  block_round : Round;
  valid_round : Round;
  block_proposer : Z;
  validity : Validity;
  execution_payload : Payload;
  block_signature : option Signature;
}.

(** ** Splitting *)

(** [slice::chunks(n)] *)
Fixpoint chunks_fuel (fuel : nat) (n : nat) (l : bytes) : list bytes :=
  match fuel, l with
  | S fuel, _ :: _ => take n l :: chunks_fuel fuel n (drop n l)
  | _, _ => []
  end.
Definition chunks (n : Z) (l : bytes) : list bytes := chunks_fuel (length l) (Z.to_nat n) l.

Definition make_proposal_parts (block : ConsensusBlock)
    : result SigningError (list ProposalPart * Signature) :=
  let data := as_ssz_bytes (execution_payload block) in
  let init := PartInit (mkProposalInit (block_height block) (block_round block)
                          (valid_round block) (block_proposer block)) in
  let hasher := to_be_bytes 8 (block_height block) ++ to_be_bytes 8 (round_as_i64 (block_round block)) in
  let cs := chunks CHUNK_SIZE data in
  let hasher := foldl (λ h c, h ++ c) hasher cs in
  signature ← match block_signature block with
              | Some signature => Ok signature
              | None => sign_bytes (sha3_keccak256 hasher)
              end;
  Ok (init :: (PartData <$> cs) ++ [PartFin signature], signature).

(** malachite's stream messages *)
Inductive StreamContent := StreamData (p : ProposalPart) | StreamFin.
Record StreamMessage := mkStreamMessage {
  stream_id : bytes;
  sequence : Z;
  content : StreamContent;
}.
Definition as_data (c : StreamContent) : option ProposalPart :=
  match c with StreamData p => Some p | StreamFin => None end.
Definition is_fin (m : StreamMessage) : bool :=
  match content m with StreamFin => true | StreamData _ => false end.

Fixpoint number_parts (id : bytes) (sequence : Z) (parts : list ProposalPart) : list StreamMessage :=
  match parts with
  | [] => [mkStreamMessage id sequence StreamFin]
  | part :: rest => mkStreamMessage id sequence (StreamData part) :: number_parts id (sequence + 1) rest
  end.

Definition prepare_stream (id : bytes) (block : ConsensusBlock)
    : result SigningError (list StreamMessage * Signature) :=
  ps ← make_proposal_parts block;
  let '(parts, signature) := ps in
  Ok (number_parts id 0 parts, signature).

(** ** Validating and rebuilding *)

Definition validate_proposal_parts (parts : ProposalParts) (expected_proposer : Validator) : bool :=
  if decide (address expected_proposer ≠ parts_proposer parts) then false
  else match verify_signed_bytes (parts_hash parts) (parts_fin parts) (public_key expected_proposer) with
       | Ok true => true
       | Ok false | Err _ => false
       end.

Definition resolve_expected_proposer (validator_set : ValidatorSet) (parts : ProposalParts)
    : option Validator :=
  select_proposer validator_set (parts_height parts) (parts_round parts).

Definition assemble_block_from_parts (parts : ProposalParts) : option ConsensusBlock :=
  let block_bytes := foldl (λ bs part, bs ++ part) [] (parts_data parts) in
  payload ← from_ssz_bytes block_bytes;
  Some (mkConsensusBlock (parts_height parts) (parts_round parts) (init_pol_round (parts_init parts))
          (parts_proposer parts) Valid payload (Some (parts_fin parts))).

End Types.
