(* ===== verification/ConsensusSpec.v ===== *)
(** * The consensus-layer chain spec

    types/src/spec.rs: the fork history of each network by height, and the network
    identifier derived from it.  RLP encoding is third-party code ([RlpEncode]). *)

From S2P Require Import Prelude ChainSpec Proposal.

Inductive ChainId := Mainnet | Testnet | Devnet | Localdev.
Definition chain_id_as_u64 (c : ChainId) : Z :=
  match c with
  | Mainnet => MAINNET_CHAIN_ID
  | Testnet => TESTNET_CHAIN_ID
  | Devnet => DEVNET_CHAIN_ID
  | Localdev => LOCALDEV_CHAIN_ID
  end.

Inductive ForkCondition := ForkBlock (h : Z).
Definition active_at (c : ForkCondition) (height : Z) : bool :=
  match c with ForkBlock h => bool_decide (h ≤ height) end.

Definition GENESIS_FORK_VERSION : Z := 0.
Record ConsensusFork := mkConsensusFork { fork_version : Z; fork_condition : ForkCondition }.
Record ConsensusSpec := mkConsensusSpec { spec_chain_id : ChainId; forks : list ConsensusFork }.

(** The loop of [fork_version_at], which breaks at the first fork that is not active. *)
Fixpoint fork_version_from (active_version : Z) (forks : list ConsensusFork) (height : Z) : Z :=
  match forks with
  | [] => active_version
  | fork :: forks =>
      if active_at (fork_condition fork) height then fork_version_from (fork_version fork) forks height
      else active_version
  end.
Definition fork_version_at (spec : ConsensusSpec) (height : Z) : Z :=
  fork_version_from GENESIS_FORK_VERSION (forks spec) height.

Fixpoint next_fork_from (forks : list ConsensusFork) (height : Z) : option ForkCondition :=
  match forks with
  | [] => None
  | fork :: forks =>
      if active_at (fork_condition fork) height then next_fork_from forks height else Some (fork_condition fork)
  end.
Definition next_fork_condition_after (spec : ConsensusSpec) (height : Z) : option ForkCondition :=
  next_fork_from (forks spec) height.

Definition fork_height (f : ConsensusFork) : Z := match fork_condition f with ForkBlock h => h end.
(** The [while] of [validate_fork_history], comparing neighbours. *)
Fixpoint validate_forks_after (prev : ConsensusFork) (forks : list ConsensusFork) : bool :=
  match forks with
  | [] => true
  | curr :: forks =>
      bool_decide (fork_height prev ≤ fork_height curr) && bool_decide (fork_version prev < fork_version curr)
      && validate_forks_after curr forks
  end.
(** [true] when no assertion fires. *)
Definition validate_fork_history (forks : list ConsensusFork) : bool :=
  match forks with
  | [] => false
  | f :: forks =>
      bool_decide (fork_height f = 0) && bool_decide (fork_version f = GENESIS_FORK_VERSION)
      && validate_forks_after f forks
  end.

Definition GENESIS_FORKS : list ConsensusFork := [mkConsensusFork GENESIS_FORK_VERSION (ForkBlock 0)].
(** The specs [MAINNET], [TESTNET], [DEVNET] and [LOCALDEV]. *)
Definition for_chain_id (c : ChainId) : ConsensusSpec :=
  match c with
  | Mainnet => mkConsensusSpec Mainnet GENESIS_FORKS
  | Testnet => mkConsensusSpec Testnet GENESIS_FORKS
  | Devnet => mkConsensusSpec Devnet GENESIS_FORKS
  | Localdev => mkConsensusSpec Localdev GENESIS_FORKS
  end.

(** [alloy_rlp::encode] of the struct of chain id, genesis hash and fork version. *)
Class RlpEncode := { rlp_encode : Z * bytes * Z → bytes }.
Definition NetworkId_new `{ProposalCrypto} `{RlpEncode} (chain_id : ChainId) (genesis_hash : bytes) (fork_version : Z)
    : bytes :=
  sha3_keccak256 (rlp_encode (chain_id_as_u64 chain_id, genesis_hash, fork_version)).

(** ** Properties *)

(** In a valid history, the forks active at a height are a prefix, and the last of them decides. *)
Lemma forks_after_later prev forks f : validate_forks_after prev forks = true → f ∈ forks →
  fork_height prev ≤ fork_height f ∧ fork_version prev < fork_version f.
Proof.
  revert prev. induction forks as [|g l IH]; intros prev; [by intros _ ?%elem_of_nil|]. cbn.
  rewrite !andb_true_iff, !bool_decide_eq_true. intros ((Hh & Hv) & V) [->|Hin]%elem_of_cons; [done|].
  destruct (IH g V Hin). lia.
Qed.

Lemma active_at_spec f h : active_at (fork_condition f) h = bool_decide (fork_height f ≤ h).
Proof. unfold fork_height. by destruct f as [v [b]]. Qed.

Lemma fork_version_from_spec v prev forks h :
  validate_forks_after prev forks = true → fork_version prev = v → fork_height prev ≤ h →
  (∃ f, f ∈ prev :: forks ∧ fork_height f ≤ h ∧ fork_version_from v forks h = fork_version f)
  ∧ ∀ g, g ∈ prev :: forks → fork_height g ≤ h ↔ fork_version g ≤ fork_version_from v forks h.
Proof.
  revert v prev. induction forks as [|f l IH]; intros v prev V <- Hp; cbn [fork_version_from].
  { split; [exists prev; split_and!; [by left|done|done]|].
    intros g [->|?%elem_of_nil]%elem_of_cons; [|done]. split; lia. }
  pose proof V as V'. cbn in V'. rewrite !andb_true_iff, !bool_decide_eq_true in V'. destruct V' as ((Hh & Hv) & V').
  rewrite active_at_spec. destruct (bool_decide_reflect (fork_height f ≤ h)) as [A|A].
  - destruct (IH _ f V' eq_refl A) as ((x & Hx & Hxh & E) & All).
    split; [exists x; split_and!; [by right|done|done]|].
    intros g [->|Hin]%elem_of_cons; [|by apply All].
    pose proof (proj1 (All f (list_elem_of_here _ _)) A). split; lia.
  - split; [exists prev; split_and!; [by left|done|done]|].
    intros g [->|Hin]%elem_of_cons; [split; lia|].
    assert (fork_height f ≤ fork_height g ∧ fork_version f ≤ fork_version g) as [G1 G2].
    { apply elem_of_cons in Hin as [->|Hin]; [done|]. destruct (forks_after_later _ _ _ V' Hin). lia. }
    split; lia.
Qed.

(** Two histories that differ only in forks after [h]. *)
Lemma fork_version_from_app v l l' h : Forall (λ f, h < fork_height f) l' →
  fork_version_from v (l ++ l') h = fork_version_from v l h.
Proof.
  intros F. revert v. induction l as [|f l IH]; intros v; cbn.
  - destruct l' as [|f l']; [done|]. apply Forall_cons in F as [F _]. cbn. rewrite active_at_spec.
    by rewrite bool_decide_eq_false_2 by lia.
  - by rewrite IH.
Qed.

(** The fork version of a height is a consensus-safe function of the schedule: on a
    history that passes the build-time validation it is the version of a fork active at that
    height, exactly the forks active at the height have a version no larger, it never
    decreases with the height, and appending forks that activate later changes no earlier
    height.  The four networks' schedules pass the validation. *)
Theorem fork_versions_stable spec h :
  validate_fork_history (forks spec) = true → 0 ≤ h →
  (∃ f, f ∈ forks spec ∧ fork_height f ≤ h ∧ fork_version_at spec h = fork_version f)
  ∧ (∀ g, g ∈ forks spec → fork_height g ≤ h ↔ fork_version g ≤ fork_version_at spec h)
  ∧ (∀ h', h ≤ h' → fork_version_at spec h ≤ fork_version_at spec h')
  ∧ (∀ later, Forall (λ f, h < fork_height f) later →
       fork_version_at (mkConsensusSpec (spec_chain_id spec) (forks spec ++ later)) h = fork_version_at spec h)
  ∧ ∀ c, validate_fork_history (forks (for_chain_id c)) = true.
Proof.
  intros V Hh. destruct spec as [c [|f l]]; [done|]. unfold fork_version_at. cbn [forks] in *.
  cbn [validate_fork_history] in V. rewrite !andb_true_iff, !bool_decide_eq_true in V. destruct V as ((H0 & V0) & V).
  assert (∀ x, 0 ≤ x → fork_version_from GENESIS_FORK_VERSION (f :: l) x = fork_version_from (fork_version f) l x) as E.
  { intros x Hx. cbn. rewrite active_at_spec. by rewrite bool_decide_eq_true_2 by lia. }
  pose proof (λ x Hx, fork_version_from_spec (fork_version f) f l x V eq_refl Hx) as S.
  rewrite (E h Hh). destruct (S h) as [(x & Hx & Hxh & Ex) All]; [lia|].
  split_and!; [by exists x|exact All| | |by intros []].
  - intros h' Hle. rewrite E by lia. destruct (S h') as [_ All']; [lia|]. rewrite Ex. apply All'; [done|]. lia.
  - intros later F. cbn [spec_chain_id forks]. rewrite <- (E h Hh). by apply fork_version_from_app.
Qed.

Definition example_history : ConsensusSpec :=
  mkConsensusSpec Localdev [mkConsensusFork 0 (ForkBlock 0); mkConsensusFork 1 (ForkBlock 100); mkConsensusFork 2 (ForkBlock 200)].
Lemma fork_versions_stable_witness :
  fork_version_at example_history 150 ≤ fork_version_at example_history 250
  ∧ fork_version_at example_history 150 = 1.
Proof.
  split; [|done].
  destruct (fork_versions_stable example_history 150) as (_ & _ & M & _); [done|lia|]. apply M. lia.
Defined.
