(* ===== verification/Codec.v ===== *)
(** * Protobuf codecs of the consensus messages

    types/src/codec/proto.rs and the [Protobuf] implementations of types/src
    (address.rs, value.rs, vote.rs, proposal.rs, proposal_part.rs, proposal_parts.rs,
    certificate.rs): the conversions between the consensus types and the messages of the
    .proto files; the versioned codecs of the network and of the write-ahead log.

    The wire format is prost's: class [ProstMessage] for one message type.  The generated
    message structs are the records [p...], one field per field of the .proto file.
    Ed25519 signatures and libp2p peer ids are third-party types with their byte
    conversions.  An [expect] on a nil round is the error [Panicked]. *)

From S2P Require Import Prelude Validators Proposal.

(** ** Third-party interfaces *)

(** prost's [encode_to_vec] and [decode] of a message type. *)
Class ProstMessage (P : Type) := {
  encode_to_vec : P → bytes;
  prost_decode : bytes → option P;
}.

(** Decoding inverts encoding; a message never starts with a key of field number 0
    (prost: invalid tag value). *)
Class ProstLaws (P : Type) `{PM : ProstMessage P} := {
  prost_decode_encode : ∀ p, prost_decode (encode_to_vec p) = Some p;
  prost_decode_tag_zero : ∀ b rest, byte.unsigned b < 8 → prost_decode (b :: rest) = None;
}.

Class SignatureBytes `{PC : ProposalCrypto} := { signature_from_bytes : bytes → Signature }.
Class SignatureLaws `{SB : SignatureBytes} := {
  signature_length : ∀ s, length (signature_to_bytes s) = 64%nat;
  signature_from_to : ∀ s, signature_from_bytes (signature_to_bytes s) = s;
}.

Class PeerIds := {
  PeerId : Type;
  peer_id_to_bytes : PeerId → bytes;
  peer_id_from_bytes : bytes → option PeerId;
}.
Class PeerIdLaws `{PI : PeerIds} := {
  peer_id_from_to : ∀ p, peer_id_from_bytes (peer_id_to_bytes p) = Some p;
}.

(** ** Errors *)

Inductive ProtoError :=
| MissingField (message field : string)
| InvalidData (message field : string)
| DecodeFailed
| OtherError (msg : string)
| Panicked (msg : string).

(** [try_from] of a slice into a fixed-size array of [n] bytes. *)
Definition exactly (n : nat) (b : bytes) : option bytes :=
  if decide (length b = n) then Some b else None.

Definition expect_round (r : Round) (msg : string) : result ProtoError Z := ok_or r (Panicked msg).

(** ** Messages (consensus.proto) *)

Record pAddress := mkpAddress { pa_value : bytes }.
Record pValue := mkpValue { pv_block_hash : bytes }.
Record pValueId := mkpValueId { pvi_block_hash : bytes }.
Record pSignature := mkpSignature { ps_bytes : bytes }.
Record pVote := mkpVote {
  pvote_type : Z;
  pvote_height : Z;
  pvote_round : Z;
  pvote_value : option pValueId;
  pvote_validator_address : option pAddress;
}.
Record pProposal := mkpProposal {
  pprop_height : Z;
  pprop_round : Z;
  pprop_value : option pValue;
  pprop_pol_round : option Z;
  pprop_validator_address : option pAddress;
}.
Inductive pMessage := pMsgProposal (p : pProposal) | pMsgVote (v : pVote).
Record pSignedMessage := mkpSignedMessage {
  psm_message : option pMessage;
  psm_signature : option pSignature;
}.
Record pProposalInit := mkpProposalInit {
  ppi_height : Z;
  ppi_round : Z;
  ppi_proposer : option pAddress;
  ppi_pol_round : option Z;
}.
Record pProposalData := mkpProposalData { ppd_bytes : bytes }.
Record pProposalFin := mkpProposalFin { ppf_signature : option pSignature }.
Inductive pPart := pPartInit (i : pProposalInit) | pPartData (d : pProposalData) | pPartFin (f : pProposalFin).
Record pProposalPart := mkpProposalPart { pp_part : option pPart }.
Record pExtension := mkpExtension { pe_data : bytes; pe_signature : option pSignature }.
Inductive pContent := pContentData (b : bytes) | pContentFin (b : bool).
Record pStreamMessage := mkpStreamMessage {
  pst_stream_id : bytes;
  pst_sequence : Z;
  pst_content : option pContent;
}.
Record pValidatorProof := mkpValidatorProof {
  pvp_public_key : bytes;
  pvp_peer_id : bytes;
  pvp_signature : option pSignature;
}.

(** liveness.proto *)
Record pPolkaSignature := mkpPolkaSignature {
  pps_validator_address : option pAddress;
  pps_signature : option pSignature;
}.
Record pPolkaCertificate := mkpPolkaCertificate {
  ppc_height : Z;
  ppc_round : Z;
  ppc_value_id : option pValueId;
  ppc_signatures : list pPolkaSignature;
}.
Record pRoundSignature := mkpRoundSignature {
  prs_vote_type : Z;
  prs_validator_address : option pAddress;
  prs_signature : option pSignature;
  prs_value_id : option pValueId;
}.
Record pRoundCertificate := mkpRoundCertificate {
  prc_height : Z;
  prc_round : Z;
  prc_cert_type : Z;
  prc_signatures : list pRoundSignature;
}.
Inductive pLiveness :=
| pLiveVote (m : pSignedMessage)
| pLivePolka (c : pPolkaCertificate)
| pLiveRound (c : pRoundCertificate).
Record pLivenessMessage := mkpLivenessMessage { plm_message : option pLiveness }.

(** sync.proto *)
Record pPeerId := mkpPeerId { ppid_id : bytes }.
Record pStatus := mkpStatus {
  pst_peer_id : option pPeerId;
  pst_height : Z;
  pst_earliest_height : Z;
}.
Record pValueRequest := mkpValueRequest { pvr_range_start : Z; pvr_range_end : Z }.
Record pCommitSignature := mkpCommitSignature {
  pcs_validator_address : option pAddress;
  pcs_signature : option pSignature;
  pcs_extension : option pExtension;
}.
Record pCommitCertificate := mkpCommitCertificate {
  pcc_height : Z;
  pcc_round : Z;
  pcc_value_id : option pValueId;
  pcc_signatures : list pCommitSignature;
}.
Record pSyncedValue := mkpSyncedValue {
  psv_value_bytes : bytes;
  psv_certificate : option pCommitCertificate;
}.
Record pValueResponse := mkpValueResponse {
  pvr_start_height : Z;
  pvr_values : list pSyncedValue;
}.
Record pProposedValue := mkpProposedValue {
  ppv_height : Z;
  ppv_round : Z;
  ppv_valid_round : option Z;
  ppv_proposer : option pAddress;
  ppv_value : option pValue;
  ppv_validity : bool;
}.
(** The oneofs of [SyncRequest] and [SyncResponse] have one case. *)
Record pSyncRequest := mkpSyncRequest { psr_request : option pValueRequest }.
Record pSyncResponse := mkpSyncResponse { psr_response : option pValueResponse }.

(** store.proto *)
Record pProposalParts := mkpProposalParts {
  ppp_init : option pProposalInit;
  ppp_fin : option pProposalFin;
  ppp_data : list pProposalData;
}.
Record pStoreCommitCertificate := mkpStoreCommitCertificate {
  pscc_height : Z;
  pscc_round : Z;
  pscc_value_id : option pValueId;
  pscc_signatures : list pCommitSignature;
  pscc_proposer : option pAddress;
  pscc_extended : option bool;
}.

(** ** Consensus types *)

(** A block hash is its 32 bytes; [Value] and [ValueId] wrap one. *)
Record ValueId := mkValueId { block_hash : bytes }.
Record Value := mkValue { value_hash : bytes }.
Definition value_id_of (v : Value) : ValueId := mkValueId (value_hash v).

Inductive VoteType := Prevote | Precommit.
Inductive NilOrVal := Nil | Val (v : ValueId).
Inductive RoundCertificateType := CertPrecommit | CertSkip.

Section Types.
Context `{PC : ProposalCrypto} `{PI : PeerIds}.

Record SignedExtension := mkSignedExtension { ext_message : bytes; ext_signature : Signature }.
Record Vote := mkVote {
  vote_typ : VoteType;
  vote_height : Z;
  vote_round : Round;
  vote_value : NilOrVal;
  vote_validator_address : Z;
  vote_extension : option SignedExtension;
}.
Record Proposal := mkProposal {
  prop_height : Z;
  prop_round : Round;
  prop_value : Value;
  prop_pol_round : Round;
  prop_validator_address : Z;
}.
Record SignedVote := mkSignedVote { sv_message : Vote; sv_signature : Signature }.
Record SignedProposal := mkSignedProposal { sp_message : Proposal; sp_signature : Signature }.
Inductive SignedConsensusMsg := ConsensusVote (v : SignedVote) | ConsensusProposal (p : SignedProposal).

Record PolkaSignature := mkPolkaSignature { pol_address : Z; pol_signature : Signature }.
Record PolkaCertificate := mkPolkaCertificate {
  pol_height : Z;
  pol_cert_round : Round;
  pol_value_id : ValueId;
  polka_signatures : list PolkaSignature;
}.
Record RoundSignature := mkRoundSignature {
  rs_vote_type : VoteType;
  rs_value_id : NilOrVal;
  rs_address : Z;
  rs_signature : Signature;
}.
Record RoundCertificate := mkRoundCertificate {
  rc_height : Z;
  rc_round : Round;
  rc_cert_type : RoundCertificateType;
  round_signatures : list RoundSignature;
}.
Inductive LivenessMsg :=
| LiveVote (v : SignedVote)
| LivePolkaCertificate (c : PolkaCertificate)
| LiveSkipRoundCertificate (c : RoundCertificate).

Record CommitSignature := mkCommitSignature { cs_address : Z; cs_signature : Signature }.
Record CommitCertificate := mkCommitCertificate {
  cert_height : Z;
  cert_round : Round;
  cert_value_id : ValueId;
  commit_signatures : list CommitSignature;
}.
Record ExtendedCommitSignature := mkExtendedCommitSignature {
  ecs_address : Z;
  ecs_signature : Signature;
  ecs_extension : option SignedExtension;
}.
Record ExtendedCommitCertificate := mkExtendedCommitCertificate {
  ecert_height : Z;
  ecert_round : Round;
  ecert_value_id : ValueId;
  ecommit_signatures : list ExtendedCommitSignature;
}.
Inductive CommitCertificateType := CertUnknown | CertMinimal | CertExtended.
Record StoredCommitCertificate := mkStoredCommitCertificate {
  certificate : CommitCertificate;
  certificate_type : CommitCertificateType;
  cert_proposer : option Z;
}.

Record ProposedValue := mkProposedValue {
  pval_height : Z;
  pval_round : Round;
  pval_valid_round : Round;
  pval_proposer : Z;
  pval_value : Value;
  pval_validity : Validity;
}.
Record RawDecidedValue := mkRawDecidedValue {
  value_bytes : bytes;
  rdv_certificate : ExtendedCommitCertificate;
}.
Record Status := mkStatus { status_peer_id : PeerId; tip_height : Z; history_min_height : Z }.
Record ValueRequest := mkValueRequest { range_start : Z; range_end : Z }.
Record ValueResponse := mkValueResponse { start_height : Z; resp_values : list RawDecidedValue }.
Record ValidatorProof := mkValidatorProof {
  vp_public_key : bytes;
  vp_peer_id : bytes;
  vp_signature : Signature;
}.
End Types.

(** ** Conversions *)

Definition MAX_SIGNATURES_PER_CERTIFICATE : Z := 1000.
Definition MAX_SYNC_VALUES : Z := 1000.

Definition ADDRESS_LENGTH : nat := 20.
Definition Address_from_proto (p : pAddress) : result ProtoError Z :=
  if decide (length (pa_value p) ≠ ADDRESS_LENGTH) then Err (OtherError "Invalid address length")
  else Ok (from_be_bytes (pa_value p)).
Definition Address_to_proto (a : Z) : result ProtoError pAddress :=
  Ok (mkpAddress (to_be_bytes ADDRESS_LENGTH a)).

Definition ValueId_from_proto (p : pValueId) : result ProtoError ValueId :=
  h ← ok_or (exactly 32 (pvi_block_hash p)) (InvalidData "ValueId" "block_hash"); Ok (mkValueId h).
Definition ValueId_to_proto (v : ValueId) : result ProtoError pValueId := Ok (mkpValueId (block_hash v)).

Definition Value_from_proto (p : pValue) : result ProtoError Value :=
  h ← ok_or (exactly 32 (pv_block_hash p)) (InvalidData "Value" "value"); Ok (mkValue h).
Definition Value_to_proto (v : Value) : result ProtoError pValue := Ok (mkpValue (value_hash v)).

(** The generated enums: an integer without a name reads as the default, 0. *)
Definition encode_votetype (t : VoteType) : Z := match t with Prevote => 0 | Precommit => 1 end.
Definition decode_votetype (z : Z) : VoteType := if decide (z = 1) then Precommit else Prevote.

Definition as_bool (t : CommitCertificateType) : option bool :=
  match t with CertUnknown => None | CertMinimal => Some false | CertExtended => Some true end.
Definition certificate_type_from (b : option bool) : CommitCertificateType :=
  match b with None => CertUnknown | Some false => CertMinimal | Some true => CertExtended end.

Definition nil_or_val_from (v : option pValueId) : result ProtoError NilOrVal :=
  match v with Some value => Val <$> ValueId_from_proto value | None => Ok Nil end.
Definition nil_or_val_to (v : NilOrVal) : result ProtoError (option pValueId) :=
  match v with Nil => Ok None | Val v => Some <$> ValueId_to_proto v end.

Definition transpose {E A} (o : option (result E A)) : result E (option A) :=
  match o with None => Ok None | Some r => Some <$> r end.

Section Conversions.
Context `{PC : ProposalCrypto} {SB : SignatureBytes}.

Definition encode_signature (s : Signature) : pSignature := mkpSignature (signature_to_bytes s).
Definition decode_signature (p : pSignature) : result ProtoError Signature :=
  b ← ok_or (exactly 64 (ps_bytes p)) (OtherError "Invalid signature length");
  Ok (signature_from_bytes b).

Definition Vote_from_proto (p : pVote) : result ProtoError Vote :=
  value ← nil_or_val_from (pvote_value p);
  a ← ok_or (pvote_validator_address p) (MissingField "Vote" "validator_address");
  address ← Address_from_proto a;
  Ok (mkVote (decode_votetype (pvote_type p)) (pvote_height p) (Some (pvote_round p)) value address None).
Definition Vote_to_proto (v : Vote) : result ProtoError pVote :=
  round ← expect_round (vote_round v) "round should not be nil";
  value ← nil_or_val_to (vote_value v);
  address ← Address_to_proto (vote_validator_address v);
  Ok (mkpVote (encode_votetype (vote_typ v)) (vote_height v) round value (Some address)).

Definition Proposal_to_proto (p : Proposal) : result ProtoError pProposal :=
  round ← expect_round (prop_round p) "round should not be nil";
  value ← Value_to_proto (prop_value p);
  address ← Address_to_proto (prop_validator_address p);
  Ok (mkpProposal (prop_height p) round (Some value) (prop_pol_round p) (Some address)).
Definition Proposal_from_proto (p : pProposal) : result ProtoError Proposal :=
  v ← ok_or (pprop_value p) (MissingField "Proposal" "value");
  value ← Value_from_proto v;
  a ← ok_or (pprop_validator_address p) (MissingField "Proposal" "validator_address");
  address ← Address_from_proto a;
  Ok (mkProposal (pprop_height p) (Some (pprop_round p)) value (pprop_pol_round p) address).

Definition ProposalInit_from_proto (p : pProposalInit) : result ProtoError ProposalInit :=
  a ← ok_or (ppi_proposer p) (MissingField "ProposalInit" "proposer");
  proposer ← Address_from_proto a;
  Ok (mkProposalInit (ppi_height p) (Some (ppi_round p)) (ppi_pol_round p) proposer).
Definition ProposalInit_to_proto (i : ProposalInit) : result ProtoError pProposalInit :=
  round ← expect_round (init_round i) "round is always Some in a valid proposal";
  proposer ← Address_to_proto (init_proposer i);
  Ok (mkpProposalInit (init_height i) round (Some proposer) (init_pol_round i)).

Definition ProposalData_from_proto (p : pProposalData) : result ProtoError bytes := Ok (ppd_bytes p).
Definition ProposalData_to_proto (d : bytes) : result ProtoError pProposalData := Ok (mkpProposalData d).

Definition ProposalFin_from_proto (p : pProposalFin) : result ProtoError Signature :=
  s ← ok_or (ppf_signature p) (MissingField "ProposalFin" "signature"); decode_signature s.
Definition ProposalFin_to_proto (s : Signature) : result ProtoError pProposalFin :=
  Ok (mkpProposalFin (Some (encode_signature s))).

Definition ProposalPart_from_proto (p : pProposalPart) : result ProtoError ProposalPart :=
  part ← ok_or (pp_part p) (MissingField "ProposalPart" "part");
  match part with
  | pPartInit init => PartInit <$> ProposalInit_from_proto init
  | pPartData data => PartData <$> ProposalData_from_proto data
  | pPartFin fin => PartFin <$> ProposalFin_from_proto fin
  end.
Definition ProposalPart_to_proto (p : ProposalPart) : result ProtoError pProposalPart :=
  match p with
  | PartInit init => i ← ProposalInit_to_proto init; Ok (mkpProposalPart (Some (pPartInit i)))
  | PartData data => d ← ProposalData_to_proto data; Ok (mkpProposalPart (Some (pPartData d)))
  | PartFin fin => f ← ProposalFin_to_proto fin; Ok (mkpProposalPart (Some (pPartFin f)))
  end.

Definition ProposalParts_from_proto (p : pProposalParts) : result ProtoError ProposalParts :=
  i ← ok_or (ppp_init p) (MissingField "ProposalParts" "init");
  init ← ProposalInit_from_proto i;
  data ← mapM ProposalData_from_proto (ppp_data p);
  f ← ok_or (ppp_fin p) (MissingField "ProposalParts" "fin");
  fin ← ProposalFin_from_proto f;
  Ok (mkProposalParts init data fin).
Definition ProposalParts_to_proto (p : ProposalParts) : result ProtoError pProposalParts :=
  init ← ProposalInit_to_proto (parts_init p);
  data ← mapM ProposalData_to_proto (parts_data p);
  fin ← ProposalFin_to_proto (parts_fin p);
  Ok (mkpProposalParts (Some init) (Some fin) data).

Definition encode_vote (v : SignedVote) : result ProtoError pSignedMessage :=
  vote ← Vote_to_proto (sv_message v);
  Ok (mkpSignedMessage (Some (pMsgVote vote)) (Some (encode_signature (sv_signature v)))).
Definition decode_vote (m : pSignedMessage) : result ProtoError SignedVote :=
  s ← ok_or (psm_signature m) (MissingField "SignedMessage" "signature");
  vote ← match psm_message m with
         | Some (pMsgVote v) => Ok v
         | _ => Err (OtherError "Invalid message type: not a vote")
         end;
  signature ← decode_signature s;
  vote ← Vote_from_proto vote;
  Ok (mkSignedVote vote signature).

Definition encode_signed_proposal (p : SignedProposal) : result ProtoError pSignedMessage :=
  proposal ← Proposal_to_proto (sp_message p);
  Ok (mkpSignedMessage (Some (pMsgProposal proposal)) (Some (encode_signature (sp_signature p)))).
Definition decode_signed_proposal (m : pSignedMessage) : result ProtoError SignedProposal :=
  s ← ok_or (psm_signature m) (MissingField "SignedMessage" "signature");
  proposal ← match psm_message m with
             | Some (pMsgProposal p) => Ok p
             | _ => Err (OtherError "Invalid message type: not a proposal")
             end;
  signature ← decode_signature s;
  proposal ← Proposal_from_proto proposal;
  Ok (mkSignedProposal proposal signature).

Definition encode_extension (e : SignedExtension) : result ProtoError pExtension :=
  Ok (mkpExtension (ext_message e) (Some (encode_signature (ext_signature e)))).
Definition decode_extension (p : pExtension) : result ProtoError SignedExtension :=
  s ← ok_or (pe_signature p) (MissingField "Extension" "signature");
  signature ← decode_signature s;
  Ok (mkSignedExtension (pe_data p) signature).
End Conversions.

(** ** Certificates *)

Section Certificates.
Context `{PC : ProposalCrypto} {SB : SignatureBytes}.

(** The check against an unbounded [signatures] field. *)
Definition too_many {A} (max : Z) (l : list A) : bool := bool_decide (max < Z.of_nat (length l)).

Definition encode_round_signature (s : RoundSignature) : result ProtoError pRoundSignature :=
  value_id ← nil_or_val_to (rs_value_id s);
  address ← Address_to_proto (rs_address s);
  Ok (mkpRoundSignature (encode_votetype (rs_vote_type s)) (Some address)
        (Some (encode_signature (rs_signature s))) value_id).
Definition encode_round_certificate (c : RoundCertificate) : result ProtoError pRoundCertificate :=
  round ← expect_round (rc_round c) "round should not be nil";
  signatures ← mapM encode_round_signature (round_signatures c);
  Ok (mkpRoundCertificate (rc_height c) round
        (match rc_cert_type c with CertPrecommit => 0 | CertSkip => 1 end) signatures).
Definition decode_round_signature (s : pRoundSignature) : result ProtoError RoundSignature :=
  a ← ok_or (prs_validator_address s) (MissingField "RoundCertificate" "validator_address");
  sg ← ok_or (prs_signature s) (MissingField "RoundCertificate" "signature");
  value_id ← nil_or_val_from (prs_value_id s);
  signature ← decode_signature sg;
  address ← Address_from_proto a;
  Ok (mkRoundSignature (decode_votetype (prs_vote_type s)) value_id address signature).
Definition decode_round_certificate (p : pRoundCertificate) : result ProtoError RoundCertificate :=
  if too_many MAX_SIGNATURES_PER_CERTIFICATE (prc_signatures p)
  then Err (OtherError "RoundCertificate signature count exceeds maximum")
  else
    cert_type ← (if decide (prc_cert_type p = 0) then Ok CertPrecommit
                 else if decide (prc_cert_type p = 1) then Ok CertSkip
                 else Err (OtherError "Unknown RoundCertificateType"));
    signatures ← mapM decode_round_signature (prc_signatures p);
    Ok (mkRoundCertificate (prc_height p) (Some (prc_round p)) cert_type signatures).

Definition encode_polka_signature (s : PolkaSignature) : result ProtoError pPolkaSignature :=
  address ← Address_to_proto (pol_address s);
  Ok (mkpPolkaSignature (Some address) (Some (encode_signature (pol_signature s)))).
Definition encode_polka_certificate (c : PolkaCertificate) : result ProtoError pPolkaCertificate :=
  round ← expect_round (pol_cert_round c) "round should not be nil";
  value_id ← ValueId_to_proto (pol_value_id c);
  signatures ← mapM encode_polka_signature (polka_signatures c);
  Ok (mkpPolkaCertificate (pol_height c) round (Some value_id) signatures).
Definition decode_polka_signature (s : pPolkaSignature) : result ProtoError PolkaSignature :=
  a ← ok_or (pps_validator_address s) (MissingField "PolkaCertificate" "validator_address");
  sg ← ok_or (pps_signature s) (MissingField "PolkaCertificate" "signature");
  signature ← decode_signature sg;
  address ← Address_from_proto a;
  Ok (mkPolkaSignature address signature).
Definition decode_polka_certificate (p : pPolkaCertificate) : result ProtoError PolkaCertificate :=
  if too_many MAX_SIGNATURES_PER_CERTIFICATE (ppc_signatures p)
  then Err (OtherError "PolkaCertificate signature count exceeds maximum")
  else
    v ← ok_or (ppc_value_id p) (MissingField "PolkaCertificate" "value_id");
    value_id ← ValueId_from_proto v;
    signatures ← mapM decode_polka_signature (ppc_signatures p);
    Ok (mkPolkaCertificate (ppc_height p) (Some (ppc_round p)) value_id signatures).

Definition encode_commit_signature (s : CommitSignature) : result ProtoError pCommitSignature :=
  address ← Address_to_proto (cs_address s);
  Ok (mkpCommitSignature (Some address) (Some (encode_signature (cs_signature s))) None).
Definition encode_commit_signatures (l : list CommitSignature) : result ProtoError (list pCommitSignature) :=
  mapM encode_commit_signature l.
Definition decode_commit_signature (s : pCommitSignature) : result ProtoError CommitSignature :=
  a ← ok_or (pcs_validator_address s) (MissingField "CommitSignature" "validator_address");
  sg ← ok_or (pcs_signature s) (MissingField "CommitSignature" "signature");
  signature ← decode_signature sg;
  address ← Address_from_proto a;
  Ok (mkCommitSignature address signature).
Definition decode_commit_certificate_fields (height round : Z) (value_id : option pValueId)
    (signatures : list pCommitSignature) : result ProtoError CommitCertificate :=
  if too_many MAX_SIGNATURES_PER_CERTIFICATE signatures
  then Err (OtherError "CommitCertificate signature count exceeds maximum")
  else
    v ← ok_or value_id (MissingField "CommitCertificate" "value_id");
    value_id ← ValueId_from_proto v;
    commit_signatures ← mapM decode_commit_signature signatures;
    Ok (mkCommitCertificate height (Some round) value_id commit_signatures).

Definition decode_store_commit_certificate (p : pStoreCommitCertificate)
    : result ProtoError StoredCommitCertificate :=
  if existsb (λ s, bool_decide (is_Some (pcs_extension s))) (pscc_signatures p)
  then Err (OtherError "Stored CommitCertificate signatures must not contain vote extensions")
  else
    certificate ← decode_commit_certificate_fields (pscc_height p) (pscc_round p) (pscc_value_id p)
                    (pscc_signatures p);
    proposer ← transpose (Address_from_proto <$> pscc_proposer p);
    Ok (mkStoredCommitCertificate certificate (certificate_type_from (pscc_extended p)) proposer).
Definition encode_store_commit_certificate (c : StoredCommitCertificate)
    : result ProtoError pStoreCommitCertificate :=
  round ← expect_round (cert_round (certificate c)) "round should not be nil";
  value_id ← ValueId_to_proto (cert_value_id (certificate c));
  signatures ← encode_commit_signatures (commit_signatures (certificate c));
  proposer ← transpose (Address_to_proto <$> cert_proposer c);
  Ok (mkpStoreCommitCertificate (cert_height (certificate c)) round (Some value_id) signatures
        proposer (as_bool (certificate_type c))).

Definition decode_extended_signature (s : pCommitSignature) : result ProtoError ExtendedCommitSignature :=
  a ← ok_or (pcs_validator_address s) (MissingField "CommitSignature" "validator_address");
  sg ← ok_or (pcs_signature s) (MissingField "CommitSignature" "signature");
  extension ← transpose (decode_extension <$> pcs_extension s);
  address ← Address_from_proto a;
  signature ← decode_signature sg;
  Ok (mkExtendedCommitSignature address signature extension).
Definition decode_sync_commit_certificate (p : pCommitCertificate)
    : result ProtoError ExtendedCommitCertificate :=
  if too_many MAX_SIGNATURES_PER_CERTIFICATE (pcc_signatures p)
  then Err (OtherError "ExtendedCommitCertificate signature count exceeds maximum")
  else
    v ← ok_or (pcc_value_id p) (MissingField "CommitCertificate" "value_id");
    value_id ← ValueId_from_proto v;
    commit_signatures ← mapM decode_extended_signature (pcc_signatures p);
    Ok (mkExtendedCommitCertificate (pcc_height p) (Some (pcc_round p)) value_id commit_signatures).
Definition encode_extended_signature (s : ExtendedCommitSignature) : result ProtoError pCommitSignature :=
  address ← Address_to_proto (ecs_address s);
  extension ← transpose (encode_extension <$> ecs_extension s);
  Ok (mkpCommitSignature (Some address) (Some (encode_signature (ecs_signature s))) extension).
Definition encode_sync_commit_certificate (c : ExtendedCommitCertificate)
    : result ProtoError pCommitCertificate :=
  round ← expect_round (ecert_round c) "round should not be nil";
  value_id ← ValueId_to_proto (ecert_value_id c);
  signatures ← mapM encode_extended_signature (ecommit_signatures c);
  Ok (mkpCommitCertificate (ecert_height c) round (Some value_id) signatures).

Definition encode_synced_value (v : RawDecidedValue) : result ProtoError pSyncedValue :=
  certificate ← encode_sync_commit_certificate (rdv_certificate v);
  Ok (mkpSyncedValue (value_bytes v) (Some certificate)).
Definition decode_synced_value (p : pSyncedValue) : result ProtoError RawDecidedValue :=
  c ← ok_or (psv_certificate p) (MissingField "SyncedValue" "certificate");
  certificate ← decode_sync_commit_certificate c;
  Ok (mkRawDecidedValue (psv_value_bytes p) certificate).

Definition decode_sync_response (p : pSyncResponse) : result ProtoError ValueResponse :=
  r ← ok_or (psr_response p) (MissingField "SyncResponse" "messages");
  if too_many MAX_SYNC_VALUES (pvr_values r)
  then Err (OtherError "ValueResponse value count exceeds maximum")
  else
    values ← mapM decode_synced_value (pvr_values r);
    Ok (mkValueResponse (pvr_start_height r) values).
Definition encode_sync_response (r : ValueResponse) : result ProtoError pSyncResponse :=
  values ← mapM encode_synced_value (resp_values r);
  Ok (mkpSyncResponse (Some (mkpValueResponse (start_height r) values))).
End Certificates.

(** ** Codecs: [Codec<T>] of [ProtobufCodec] *)

Class Codec (A E : Type) := {
  codec_decode : bytes → result E A;
  codec_encode : A → result E bytes;
}.

(** Through a protobuf message [P]: [Protobuf::from_bytes], [Protobuf::to_bytes]. *)
Definition via_message {A P} `{PM : ProstMessage P} (dec : P → result ProtoError A)
    (enc : A → result ProtoError P) : Codec A ProtoError := {|
  codec_decode b := p ← ok_or (prost_decode b) DecodeFailed; dec p;
  codec_encode a := p ← enc a; Ok (encode_to_vec p);
|}.

Section ProtobufCodec.
Context `{PC : ProposalCrypto} {SB : SignatureBytes} `{PI : PeerIds}.

Definition Value_codec `{ProstMessage pValue} : Codec Value ProtoError :=
  via_message Value_from_proto Value_to_proto.
Definition ProposalPart_codec `{ProstMessage pProposalPart} : Codec ProposalPart ProtoError :=
  via_message ProposalPart_from_proto ProposalPart_to_proto.
Definition ProposalParts_codec `{ProstMessage pProposalParts} : Codec ProposalParts ProtoError :=
  via_message ProposalParts_from_proto ProposalParts_to_proto.
Definition Signature_codec `{ProstMessage pSignature} : Codec Signature ProtoError :=
  via_message decode_signature (λ s, Ok (encode_signature s)).

Definition decode_consensus_msg (p : pSignedMessage) : result ProtoError SignedConsensusMsg :=
  s ← ok_or (psm_signature p) (MissingField "SignedMessage" "signature");
  signature ← decode_signature s;
  m ← ok_or (psm_message p) (MissingField "SignedMessage" "message");
  match m with
  | pMsgProposal p => proposal ← Proposal_from_proto p;
                      Ok (ConsensusProposal (mkSignedProposal proposal signature))
  | pMsgVote v => vote ← Vote_from_proto v; Ok (ConsensusVote (mkSignedVote vote signature))
  end.
Definition encode_consensus_msg (m : SignedConsensusMsg) : result ProtoError pSignedMessage :=
  match m with
  | ConsensusVote vote =>
      v ← Vote_to_proto (sv_message vote);
      Ok (mkpSignedMessage (Some (pMsgVote v)) (Some (encode_signature (sv_signature vote))))
  | ConsensusProposal proposal =>
      p ← Proposal_to_proto (sp_message proposal);
      Ok (mkpSignedMessage (Some (pMsgProposal p)) (Some (encode_signature (sp_signature proposal))))
  end.
Definition SignedConsensusMsg_codec `{ProstMessage pSignedMessage} : Codec SignedConsensusMsg ProtoError :=
  via_message decode_consensus_msg encode_consensus_msg.

Definition decode_liveness (p : pLivenessMessage) : result ProtoError LivenessMsg :=
  match plm_message p with
  | Some (pLiveVote vote) => LiveVote <$> decode_vote vote
  | Some (pLivePolka cert) => LivePolkaCertificate <$> decode_polka_certificate cert
  | Some (pLiveRound cert) => LiveSkipRoundCertificate <$> decode_round_certificate cert
  | None => Err (MissingField "LivenessMessage" "message")
  end.
Definition encode_liveness (m : LivenessMsg) : result ProtoError pLivenessMessage :=
  match m with
  | LiveVote vote => p ← encode_vote vote; Ok (mkpLivenessMessage (Some (pLiveVote p)))
  | LivePolkaCertificate cert =>
      p ← encode_polka_certificate cert; Ok (mkpLivenessMessage (Some (pLivePolka p)))
  | LiveSkipRoundCertificate cert =>
      p ← encode_round_certificate cert; Ok (mkpLivenessMessage (Some (pLiveRound p)))
  end.
Definition LivenessMsg_codec `{ProstMessage pLivenessMessage} : Codec LivenessMsg ProtoError :=
  via_message decode_liveness encode_liveness.

Definition StreamMessage_codec `{ProstMessage pStreamMessage} `{ProstMessage pProposalPart}
    : Codec StreamMessage ProtoError :=
  via_message
    (λ p, c ← ok_or (pst_content p) (MissingField "StreamMessage" "content");
          content ← match c with
                    | pContentData data => StreamData <$> codec_decode (Codec := ProposalPart_codec) data
                    | pContentFin _ => Ok StreamFin
                    end;
          Ok (mkStreamMessage (pst_stream_id p) (pst_sequence p) content))
    (λ m, content ← match content m with
                    | StreamData data => pContentData <$> codec_encode (Codec := ProposalPart_codec) data
                    | StreamFin => Ok (pContentFin true)
                    end;
          Ok (mkpStreamMessage (stream_id m) (sequence m) (Some content))).

Definition Validity_from_bool (b : bool) : Validity := if b then Valid else Invalid.
Definition Validity_to_bool (v : Validity) : bool := match v with Valid => true | Invalid => false end.

Definition proposed_from (p : pProposedValue) : result ProtoError ProposedValue :=
  a ← ok_or (ppv_proposer p) (MissingField "ProposedValue" "proposer");
  v ← ok_or (ppv_value p) (MissingField "ProposedValue" "value");
  proposer ← Address_from_proto a;
  value ← Value_from_proto v;
  Ok (mkProposedValue (ppv_height p) (Some (ppv_round p)) (ppv_valid_round p) proposer value
        (Validity_from_bool (ppv_validity p))).
Definition proposed_to (m : ProposedValue) : result ProtoError pProposedValue :=
  round ← expect_round (pval_round m) "round is always Some in a valid proposal";
  proposer ← Address_to_proto (pval_proposer m);
  value ← Value_to_proto (pval_value m);
  Ok (mkpProposedValue (pval_height m) round (pval_valid_round m) (Some proposer) (Some value)
        (Validity_to_bool (pval_validity m))).
Definition ProposedValue_codec `{ProstMessage pProposedValue} : Codec ProposedValue ProtoError :=
  via_message proposed_from proposed_to.

Definition PolkaCertificate_codec `{ProstMessage pPolkaCertificate} : Codec PolkaCertificate ProtoError :=
  via_message decode_polka_certificate encode_polka_certificate.

Definition Status_codec `{ProstMessage pStatus} : Codec Status ProtoError :=
  via_message
    (λ p, i ← ok_or (pst_peer_id p) (MissingField "Status" "peer_id");
          peer_id ← ok_or (peer_id_from_bytes (ppid_id i)) (OtherError "Invalid peer ID");
          Ok (mkStatus peer_id (pst_height p) (pst_earliest_height p)))
    (λ m, Ok (mkpStatus (Some (mkpPeerId (peer_id_to_bytes (status_peer_id m)))) (tip_height m)
                (history_min_height m))).

Definition Request_codec `{ProstMessage pSyncRequest} : Codec ValueRequest ProtoError :=
  via_message
    (λ p, r ← ok_or (psr_request p) (MissingField "SyncRequest" "request");
          Ok (mkValueRequest (pvr_range_start r) (pvr_range_end r)))
    (λ m, Ok (mkpSyncRequest (Some (mkpValueRequest (range_start m) (range_end m))))).

Definition Response_codec `{ProstMessage pSyncResponse} : Codec ValueResponse ProtoError :=
  via_message decode_sync_response encode_sync_response.
Definition Response_encoded_len `{ProstMessage pSyncResponse} (r : ValueResponse) : result ProtoError Z :=
  p ← encode_sync_response r; Ok (Z.of_nat (length (encode_to_vec p))).

Definition ValidatorProof_codec `{ProstMessage pValidatorProof} : Codec ValidatorProof ProtoError :=
  via_message
    (λ p, s ← ok_or (pvp_signature p) (MissingField "ValidatorProof" "signature");
          signature ← decode_signature s;
          Ok (mkValidatorProof (pvp_public_key p) (pvp_peer_id p) signature))
    (λ m, Ok (mkpValidatorProof (vp_public_key m) (vp_peer_id m)
                (Some (encode_signature (vp_signature m))))).
End ProtobufCodec.

(** ** Versioned codecs *)

Inductive CodecError := EmptyBytes | UnsupportedVersion (v : Byte.byte) | ProtobufError (e : ProtoError).

(** Every version enum has the one case [V1 = 0x01]. *)
Definition V1 : Byte.byte := Byte.x01.
Definition version_try_from (b : Byte.byte) : result Byte.byte Byte.byte :=
  if decide (b = V1) then Ok V1 else Err b.

Definition versioned_decode {A} (C : Codec A ProtoError) (b : bytes) : result CodecError A :=
  match b with
  | [] => Err EmptyBytes
  | version_byte :: rest =>
      version ← map_err UnsupportedVersion (version_try_from version_byte);
      if decide (version ≠ V1) then Err (UnsupportedVersion version_byte)
      else map_err ProtobufError (codec_decode rest)
  end.
Definition versioned_encode {A} (C : Codec A ProtoError) (a : A) : result CodecError bytes :=
  encoded ← map_err ProtobufError (codec_encode a); Ok (V1 :: encoded).

(** [impl_versioned_codec!] (the network codecs). *)
Definition NetCodec {A} (C : Codec A ProtoError) : Codec A CodecError := {|
  codec_decode := versioned_decode C;
  codec_encode := versioned_encode C;
|}.

(** [impl_versioned_codec_with_legacy_fallback!] (the write-ahead log codecs). *)
Definition WalCodec {A} (C : Codec A ProtoError) : Codec A CodecError := {|
  codec_decode b :=
    if decide (b = []) then Err EmptyBytes
    else match codec_decode (Codec := C) b with
         | Ok msg => Ok msg
         | Err _ => versioned_decode C b
         end;
  codec_encode := versioned_encode C;
|}.
