(* ===== verification/CodecProps.v ===== *)
(** * Properties of the codecs

    Every codec is exact: it round-trips the messages a node may send, and whatever it
    decodes is such a message.  The write-ahead log codec reads both the versioned and
    the legacy format without confusing them. *)

From S2P Require Import Prelude Validators Proposal Codec.

(** [to] and [from] convert exactly the values that satisfy [wf]. *)
Definition exact {E A P} (wf : A → Prop) (from : P → result E A) (to : A → result E P) : Prop :=
  (∀ a, wf a → ∃ p, to a = Ok p ∧ from p = Ok a) ∧ (∀ p a, from p = Ok a → wf a).

Lemma mapM_cons {E A B} (f : A → result E B) x l :
  mapM f (x :: l) = (y ← f x; k ← mapM f l; Ok (y :: k)).
Proof. done. Qed.

Lemma exact_list {E A P} (wf : A → Prop) (from : P → result E A) (to : A → result E P) :
  exact wf from to →
  (∀ l, Forall wf l → ∃ ps, mapM to l = Ok ps ∧ mapM from ps = Ok l ∧ length ps = length l)
  ∧ (∀ ps l, mapM from ps = Ok l → Forall wf l ∧ length l = length ps).
Proof.
  intros [X1 X2]. split.
  - induction 1 as [|a l Wa _ (ps & I1 & I2 & I3)]; [by exists []|].
    destruct (X1 a Wa) as (p & T & F). exists (p :: ps). rewrite !mapM_cons, T, F, I1, I2. cbn.
    split_and!; [done..|]. by rewrite I3.
  - induction ps as [|p ps IH]; intros l; cbn; [by intros [= <-]|].
    destruct (from p) as [a|] eqn:F; [|done]. cbn. destruct (mapM from ps) as [l'|] eqn:Fs; [|done].
    cbn. intros [= <-]. destruct (IH l' eq_refl) as [W L]. cbn. split; [|by rewrite L].
    constructor; [by eapply X2|done].
Qed.

Definition some_round (r : Round) : Prop := is_Some r.
Definition wf_address (a : Z) : Prop := uint 160 a.
Definition wf_value_id (v : ValueId) : Prop := length (block_hash v) = 32%nat.
Definition wf_value (v : Value) : Prop := length (value_hash v) = 32%nat.
Definition wf_nil_or_val (v : NilOrVal) : Prop := match v with Nil => True | Val v => wf_value_id v end.
Definition at_most {A} (n : Z) (l : list A) : Prop := Z.of_nat (length l) ≤ n.

Lemma exactly_Some n b b' : exactly n b = Some b' → b' = b ∧ length b = n.
Proof. unfold exactly. case_decide; [by intros [= <-]|done]. Qed.
Lemma exactly_ok n b : length b = n → exactly n b = Some b.
Proof. intros H. unfold exactly. by rewrite decide_True. Qed.
Lemma ok_or_ok {E A} (o : option A) (e : E) a : ok_or o e = Ok a → o = Some a.
Proof. destruct o; [by intros [= ->]|done]. Qed.

(** Take a successful decoding apart. *)
Ltac undo :=
  repeat first
  [ progress binds
  | match goal with
    | H : ok_or _ _ = Ok _ |- _ => apply ok_or_ok in H
    | H : exactly _ _ = Some _ |- _ => apply exactly_Some in H as [-> ?]
    | H : Ok _ = Ok _ |- _ => injection H as <-
    end ].

Lemma address_exact : exact wf_address Address_from_proto Address_to_proto.
Proof.
  split.
  - intros a Wa. eexists. split; [done|]. unfold Address_from_proto. cbn [pa_value].
    rewrite decide_False by (rewrite length_to_be_bytes; intros N; by apply N). f_equal.
    by apply from_to_be_bytes.
  - intros p a. unfold Address_from_proto. case_decide as D; [done|]. intros [= <-].
    pose proof (from_be_bytes_range (pa_value p)) as R. rewrite D in R. exact R.
Qed.

Lemma value_id_exact : exact wf_value_id ValueId_from_proto ValueId_to_proto.
Proof.
  split.
  - intros [h] Wv. eexists. split; [done|]. unfold ValueId_from_proto. cbn [pvi_block_hash block_hash].
    by rewrite exactly_ok.
  - intros p a H. unfold ValueId_from_proto in H. undo. done.
Qed.

Lemma value_exact : exact wf_value Value_from_proto Value_to_proto.
Proof.
  split.
  - intros [h] Wv. eexists. split; [done|]. unfold Value_from_proto. cbn [pv_block_hash value_hash].
    by rewrite exactly_ok.
  - intros p a H. unfold Value_from_proto in H. undo. done.
Qed.

Lemma nil_or_val_exact : exact wf_nil_or_val nil_or_val_from nil_or_val_to.
Proof.
  split.
  - intros [|v] Wv; [by exists None|]. destruct (proj1 value_id_exact v Wv) as (p & T & F).
    exists (Some p). cbn [nil_or_val_to nil_or_val_from]. by rewrite T, F.
  - intros [p|] v; cbn; [|by intros [= <-]]. destruct (ValueId_from_proto p) eqn:F; [|done].
    intros [= <-]. by apply (proj2 value_id_exact) in F.
Qed.

Lemma votetype_roundtrip t : decode_votetype (encode_votetype t) = t.
Proof. by destruct t. Qed.
Lemma certificate_type_roundtrip t : certificate_type_from (as_bool t) = t.
Proof. by destruct t. Qed.
Lemma validity_roundtrip v : Validity_from_bool (Validity_to_bool v) = v.
Proof. by destruct v. Qed.

#[local] Arguments Address_from_proto : simpl never.
#[local] Arguments Address_to_proto : simpl never.
#[local] Arguments ValueId_from_proto : simpl never.
#[local] Arguments ValueId_to_proto : simpl never.
#[local] Arguments Value_from_proto : simpl never.
#[local] Arguments Value_to_proto : simpl never.
#[local] Arguments nil_or_val_from : simpl never.
#[local] Arguments nil_or_val_to : simpl never.
#[local] Arguments decode_votetype : simpl never.
#[local] Arguments encode_votetype : simpl never.
#[local] Arguments mapM : simpl never.

Section Exactness.
#[local] Arguments decode_signature : simpl never.
#[local] Arguments encode_signature : simpl never.
Context `{PC : ProposalCrypto} {SB : SignatureBytes} {SL : SignatureLaws}.

Lemma signature_exact : exact (λ _, True) decode_signature (λ s, Ok (encode_signature s)).
Proof.
  split; [|done]. intros s _. eexists. split; [done|]. unfold decode_signature, encode_signature.
  cbn [ps_bytes]. rewrite exactly_ok by apply signature_length. cbn. by rewrite signature_from_to.
Qed.

Lemma signature_back s : decode_signature (encode_signature s) = Ok s.
Proof. destruct (proj1 signature_exact s I) as (p & [= <-] & F). done. Qed.

Definition wf_vote (v : Vote) : Prop :=
  some_round (vote_round v) ∧ wf_nil_or_val (vote_value v) ∧ wf_address (vote_validator_address v)
  ∧ vote_extension v = None.
Lemma vote_exact : exact wf_vote Vote_from_proto Vote_to_proto.
Proof.
  split.
  - intros [t h r v a e] ([z R] & Wv & Wa & E). cbn in *. subst r e. unfold Vote_to_proto, Vote_from_proto. cbn.
    destruct (proj1 nil_or_val_exact v Wv) as (p1 & T1 & F1).
    destruct (proj1 address_exact a Wa) as (p2 & T2 & F2).
    rewrite T1. cbn. rewrite T2. cbn. eexists. split; [done|]. cbn. rewrite F1. cbn. rewrite F2. cbn.
    by rewrite votetype_roundtrip.
  - intros p v H. unfold Vote_from_proto in H. undo. split_and!; cbn; [by eexists|..|done].
    + by eapply (proj2 nil_or_val_exact).
    + by eapply (proj2 address_exact).
Qed.

Definition wf_proposal (p : Proposal) : Prop :=
  some_round (prop_round p) ∧ wf_value (prop_value p) ∧ wf_address (prop_validator_address p).
Lemma proposal_exact : exact wf_proposal Proposal_from_proto Proposal_to_proto.
Proof.
  split.
  - intros [h r v l a] ([z R] & Wv & Wa). cbn in *. subst r. unfold Proposal_to_proto, Proposal_from_proto.
    cbn -[Value_to_proto Address_to_proto].
    destruct (proj1 value_exact v Wv) as (p1 & T1 & F1).
    destruct (proj1 address_exact a Wa) as (p2 & T2 & F2).
    rewrite T1. cbn. rewrite T2. cbn. eexists. split; [done|]. cbn. rewrite F1. cbn. by rewrite F2.
  - intros p v H. unfold Proposal_from_proto in H. undo. split_and!; cbn; [by eexists|..].
    + by eapply (proj2 value_exact).
    + by eapply (proj2 address_exact).
Qed.

Definition wf_init (i : ProposalInit) : Prop := some_round (init_round i) ∧ wf_address (init_proposer i).
Lemma init_exact : exact wf_init ProposalInit_from_proto ProposalInit_to_proto.
Proof.
  split.
  - intros [h r l a] ([z R] & Wa). cbn in *. subst r. unfold ProposalInit_to_proto, ProposalInit_from_proto.
    cbn -[Address_to_proto]. destruct (proj1 address_exact a Wa) as (p2 & T2 & F2).
    rewrite T2. cbn. eexists. split; [done|]. cbn. by rewrite F2.
  - intros p v H. unfold ProposalInit_from_proto in H. undo. split; cbn; [by eexists|].
    by eapply (proj2 address_exact).
Qed.

Lemma fin_exact : exact (λ _, True) ProposalFin_from_proto ProposalFin_to_proto.
Proof. split; [|done]. intros s _. eexists. split; [done|]. cbn. apply signature_back. Qed.

Definition wf_part (p : ProposalPart) : Prop := match p with PartInit i => wf_init i | _ => True end.
Lemma part_exact : exact wf_part ProposalPart_from_proto ProposalPart_to_proto.
Proof.
  split.
  - intros [i|d|s] W; cbn.
    + destruct (proj1 init_exact i W) as (p & T & F). rewrite T. cbn. eexists. split; [done|]. cbn. by rewrite F.
    + by eexists.
    + eexists. split; [done|]. cbn. by rewrite signature_back.
  - intros [[[i|d|f]|]] q; cbn; try done.
    + destruct (ProposalInit_from_proto i) eqn:F; [|done]. intros [= <-]. by eapply (proj2 init_exact).
    + by intros [= <-].
    + destruct (ProposalFin_from_proto f) eqn:F; [|done]. by intros [= <-].
Qed.

Lemma data_exact : exact (λ _, True) ProposalData_from_proto ProposalData_to_proto.
Proof. split; [|done]. intros d _. by eexists. Qed.

Definition wf_parts (p : ProposalParts) : Prop := wf_init (parts_init p).
Lemma parts_exact : exact wf_parts ProposalParts_from_proto ProposalParts_to_proto.
Proof.
  split.
  - intros [i d s] W. unfold wf_parts in W. cbn in W. unfold ProposalParts_to_proto, ProposalParts_from_proto.
    cbn -[mapM ProposalInit_to_proto].
    destruct (proj1 init_exact i W) as (p & T & F).
    destruct (proj1 (exact_list _ _ _ data_exact) d) as (ps & Ts & Fs & _); [by apply Forall_true|].
    rewrite T. cbn -[mapM]. rewrite Ts. cbn -[mapM]. eexists. split; [done|].
    cbn -[mapM]. rewrite F. cbn -[mapM]. rewrite Fs. cbn. by rewrite signature_back.
  - intros p v H. unfold ProposalParts_from_proto in H. undo. unfold wf_parts. cbn. by eapply (proj2 init_exact).
Qed.

Definition wf_signed_vote (v : SignedVote) : Prop := wf_vote (sv_message v).
Lemma signed_vote_exact : exact wf_signed_vote decode_vote encode_vote.
Proof.
  split.
  - intros [v s] W. destruct (proj1 vote_exact v W) as (p & T & F). unfold encode_vote, decode_vote. cbn.
    rewrite T. cbn. eexists. split; [done|]. cbn. rewrite signature_back. cbn. by rewrite F.
  - intros p v H. unfold decode_vote in H. undo. by eapply (proj2 vote_exact).
Qed.

Definition wf_signed_proposal (p : SignedProposal) : Prop := wf_proposal (sp_message p).
Lemma signed_proposal_exact : exact wf_signed_proposal decode_signed_proposal encode_signed_proposal.
Proof.
  split.
  - intros [v s] W. destruct (proj1 proposal_exact v W) as (p & T & F).
    unfold encode_signed_proposal, decode_signed_proposal. cbn.
    rewrite T. cbn. eexists. split; [done|]. cbn. rewrite signature_back. cbn. by rewrite F.
  - intros p v H. unfold decode_signed_proposal in H. undo. by eapply (proj2 proposal_exact).
Qed.

Definition wf_consensus_msg (m : SignedConsensusMsg) : Prop :=
  match m with ConsensusVote v => wf_signed_vote v | ConsensusProposal p => wf_signed_proposal p end.
Lemma consensus_msg_exact : exact wf_consensus_msg decode_consensus_msg encode_consensus_msg.
Proof.
  split.
  - intros [[v s]|[v s]] W; unfold encode_consensus_msg, decode_consensus_msg; cbn.
    + destruct (proj1 vote_exact v W) as (p & T & F). rewrite T. cbn. eexists. split; [done|]. cbn.
      rewrite signature_back. cbn. by rewrite F.
    + destruct (proj1 proposal_exact v W) as (p & T & F). rewrite T. cbn. eexists. split; [done|]. cbn.
      rewrite signature_back. cbn. by rewrite F.
  - intros p m H. unfold decode_consensus_msg in H. undo. case_match; undo; cbn.
    + by eapply (proj2 proposal_exact).
    + by eapply (proj2 vote_exact).
Qed.

Definition wf_extension (_ : SignedExtension) : Prop := True.
Lemma extension_exact : exact wf_extension decode_extension encode_extension.
Proof.
  split; [|done]. intros [d s] _. eexists. split; [done|]. unfold decode_extension. cbn. by rewrite signature_back.
Qed.

End Exactness.

(** ** Certificates *)

Section CertificateExactness.
Context `{PC : ProposalCrypto} {SB : SignatureBytes} {SL : SignatureLaws}.
#[local] Arguments decode_extension : simpl never.
#[local] Arguments decode_signature : simpl never.
#[local] Arguments encode_signature : simpl never.

Lemma too_many_false {A} n (l : list A) : too_many n l = false ↔ at_most n l.
Proof. unfold too_many, at_most. rewrite bool_decide_eq_false. lia. Qed.

Lemma round_signature_exact :
  exact (λ s, wf_nil_or_val (rs_value_id s) ∧ wf_address (rs_address s))
    decode_round_signature encode_round_signature.
Proof.
  split.
  - intros [t v a s] [Wv Wa]. cbn in *. unfold encode_round_signature, decode_round_signature. cbn.
    destruct (proj1 nil_or_val_exact v Wv) as (p1 & T1 & F1).
    destruct (proj1 address_exact a Wa) as (p2 & T2 & F2).
    rewrite T1. cbn. rewrite T2. cbn. eexists. split; [done|]. cbn. rewrite F1. cbn.
    rewrite signature_back. cbn. rewrite F2. cbn. by rewrite votetype_roundtrip.
  - intros p s H. unfold decode_round_signature in H. undo. split; cbn.
    + by eapply (proj2 nil_or_val_exact).
    + by eapply (proj2 address_exact).
Qed.

Definition wf_round_certificate (c : RoundCertificate) : Prop :=
  some_round (rc_round c) ∧ at_most MAX_SIGNATURES_PER_CERTIFICATE (round_signatures c)
  ∧ Forall (λ s, wf_nil_or_val (rs_value_id s) ∧ wf_address (rs_address s)) (round_signatures c).
Lemma round_certificate_exact : exact wf_round_certificate decode_round_certificate encode_round_certificate.
Proof.
  split.
  - intros [h r t l] ([z R] & Wn & Wl). cbn in *. subst r.
    unfold encode_round_certificate, decode_round_certificate. cbn.
    destruct (proj1 (exact_list _ _ _ round_signature_exact) l Wl) as (ps & T & F & L).
    rewrite T. cbn. eexists. split; [done|]. cbn.
    rewrite (proj2 (too_many_false _ _)) by (unfold at_most in *; by rewrite L).
    destruct t; cbn; rewrite F; done.
  - intros p c H. unfold decode_round_certificate in H. destruct (too_many _ _) eqn:N; [done|].
    apply too_many_false in N. undo.
    match goal with H : mapM _ _ = Ok _ |- _ =>
      eapply (proj2 (exact_list _ _ _ round_signature_exact)) in H as [W L] end.
    split_and!; cbn; [by eexists| |done]. unfold at_most in *. by rewrite L.
Qed.

Lemma polka_signature_exact :
  exact (λ s, wf_address (pol_address s)) decode_polka_signature encode_polka_signature.
Proof.
  split.
  - intros [a s] Wa. cbn in *. unfold encode_polka_signature, decode_polka_signature. cbn.
    destruct (proj1 address_exact a Wa) as (p2 & T2 & F2).
    rewrite T2. cbn. eexists. split; [done|]. cbn. rewrite signature_back. cbn. by rewrite F2.
  - intros p s H. unfold decode_polka_signature in H. undo. by eapply (proj2 address_exact).
Qed.

Definition wf_polka (c : PolkaCertificate) : Prop :=
  some_round (pol_cert_round c) ∧ wf_value_id (pol_value_id c)
  ∧ at_most MAX_SIGNATURES_PER_CERTIFICATE (polka_signatures c)
  ∧ Forall (λ s, wf_address (pol_address s)) (polka_signatures c).
Lemma polka_exact : exact wf_polka decode_polka_certificate encode_polka_certificate.
Proof.
  split.
  - intros [h r v l] ([z R] & Wv & Wn & Wl). cbn in *. subst r.
    unfold encode_polka_certificate, decode_polka_certificate. cbn.
    destruct (proj1 value_id_exact v Wv) as (p1 & T1 & F1).
    destruct (proj1 (exact_list _ _ _ polka_signature_exact) l Wl) as (ps & T & F & L).
    rewrite T1. cbn. rewrite T. cbn. eexists. split; [done|]. cbn.
    rewrite (proj2 (too_many_false _ _)) by (unfold at_most in *; by rewrite L).
    rewrite F1. cbn. by rewrite F.
  - intros p c H. unfold decode_polka_certificate in H. destruct (too_many _ _) eqn:N; [done|].
    apply too_many_false in N. undo.
    match goal with H : mapM _ _ = Ok _ |- _ =>
      eapply (proj2 (exact_list _ _ _ polka_signature_exact)) in H as [W L] end.
    split_and!; cbn; [by eexists|by eapply (proj2 value_id_exact)| |done]. unfold at_most in *. by rewrite L.
Qed.

Lemma commit_signature_exact :
  exact (λ s, wf_address (cs_address s)) decode_commit_signature encode_commit_signature.
Proof.
  split.
  - intros [a s] Wa. cbn in *. unfold encode_commit_signature, decode_commit_signature. cbn.
    destruct (proj1 address_exact a Wa) as (p2 & T2 & F2).
    rewrite T2. cbn. eexists. split; [done|]. cbn. rewrite signature_back. cbn. by rewrite F2.
  - intros p s H. unfold decode_commit_signature in H. undo. by eapply (proj2 address_exact).
Qed.

(** The signatures of a plain commit certificate carry no extension. *)
Lemma encode_commit_no_extension l ps :
  mapM encode_commit_signature l = Ok ps → existsb (λ s, bool_decide (is_Some (pcs_extension s))) ps = false.
Proof.
  revert ps. induction l as [|s l IH]; intros ps; [by intros [= <-]|]. rewrite mapM_cons. intros H. undo.
  unfold encode_commit_signature in *. undo. cbn. by apply IH.
Qed.

Definition wf_certificate (c : CommitCertificate) : Prop :=
  some_round (cert_round c) ∧ wf_value_id (cert_value_id c)
  ∧ at_most MAX_SIGNATURES_PER_CERTIFICATE (commit_signatures c)
  ∧ Forall (λ s, wf_address (cs_address s)) (commit_signatures c).
Definition wf_stored_certificate (c : StoredCommitCertificate) : Prop :=
  wf_certificate (certificate c) ∧ (∀ a, cert_proposer c = Some a → wf_address a).
Lemma stored_certificate_exact :
  exact wf_stored_certificate decode_store_commit_certificate encode_store_commit_certificate.
Proof.
  split.
  - intros [[h r v l] t q] [([z R] & Wv & Wn & Wl) Wq]. cbn in *. subst r.
    unfold encode_store_commit_certificate, decode_store_commit_certificate,
      decode_commit_certificate_fields, encode_commit_signatures. cbn.
    destruct (proj1 value_id_exact v Wv) as (p1 & T1 & F1).
    destruct (proj1 (exact_list _ _ _ commit_signature_exact) l Wl) as (ps & T & F & L).
    rewrite T1. cbn. rewrite T. cbn.
    assert (∃ pq, transpose (Address_to_proto <$> q) = Ok pq ∧ transpose (Address_from_proto <$> pq) = Ok q)
      as (pq & Tq & Fq).
    { destruct q as [a|]; [|by exists None]. destruct (proj1 address_exact a (Wq a eq_refl)) as (p2 & T2 & F2).
      exists (Some p2). cbn. by rewrite T2, F2. }
    rewrite Tq. cbn. eexists. split; [done|]. cbn. rewrite (encode_commit_no_extension _ _ T).
    rewrite (proj2 (too_many_false _ _)) by (unfold at_most in *; by rewrite L).
    rewrite F1. cbn. rewrite F. cbn. rewrite Fq. cbn. by rewrite certificate_type_roundtrip.
  - intros p c H. unfold decode_store_commit_certificate, decode_commit_certificate_fields in H.
    destruct (existsb _ _); [done|]. undo. destruct (too_many _ _) eqn:N; [done|].
    apply too_many_false in N. undo.
    match goal with H : mapM _ _ = Ok _ |- _ =>
      eapply (proj2 (exact_list _ _ _ commit_signature_exact)) in H as [W L] end.
    split; [split_and!; cbn; [by eexists|by eapply (proj2 value_id_exact)| |done]|].
    { unfold at_most in *. by rewrite L. }
    cbn. intros a ->. destruct (pscc_proposer p) as [pa|]; [|done]. cbn in *.
    destruct (Address_from_proto pa) eqn:Fa; [|done]. injection H1 as <-.
    by eapply (proj2 address_exact).
Qed.

Lemma extended_signature_exact :
  exact (λ s, wf_address (ecs_address s)) decode_extended_signature encode_extended_signature.
Proof.
  split.
  - intros [a s x] Wa. cbn in *. unfold encode_extended_signature, decode_extended_signature. cbn.
    destruct (proj1 address_exact a Wa) as (p2 & T2 & F2). rewrite T2. cbn.
    destruct x as [x|]; cbn; (eexists; split; [done|]); cbn.
    + destruct (proj1 extension_exact x I) as (p1 & [= <-] & F1). rewrite F1. cbn. rewrite F2. cbn.
      by rewrite signature_back.
    + rewrite F2. cbn. by rewrite signature_back.
  - intros p s H. unfold decode_extended_signature in H. undo. by eapply (proj2 address_exact).
Qed.

Definition wf_extended_certificate (c : ExtendedCommitCertificate) : Prop :=
  some_round (ecert_round c) ∧ wf_value_id (ecert_value_id c)
  ∧ at_most MAX_SIGNATURES_PER_CERTIFICATE (ecommit_signatures c)
  ∧ Forall (λ s, wf_address (ecs_address s)) (ecommit_signatures c).
Lemma sync_certificate_exact :
  exact wf_extended_certificate decode_sync_commit_certificate encode_sync_commit_certificate.
Proof.
  split.
  - intros [h r v l] ([z R] & Wv & Wn & Wl). cbn in *. subst r.
    unfold encode_sync_commit_certificate, decode_sync_commit_certificate. cbn.
    destruct (proj1 value_id_exact v Wv) as (p1 & T1 & F1).
    destruct (proj1 (exact_list _ _ _ extended_signature_exact) l Wl) as (ps & T & F & L).
    rewrite T1. cbn. rewrite T. cbn. eexists. split; [done|]. cbn.
    rewrite (proj2 (too_many_false _ _)) by (unfold at_most in *; by rewrite L).
    rewrite F1. cbn. by rewrite F.
  - intros p c H. unfold decode_sync_commit_certificate in H. destruct (too_many _ _) eqn:N; [done|].
    apply too_many_false in N. undo.
    match goal with H : mapM _ _ = Ok _ |- _ =>
      eapply (proj2 (exact_list _ _ _ extended_signature_exact)) in H as [W L] end.
    split_and!; cbn; [by eexists|by eapply (proj2 value_id_exact)| |done]. unfold at_most in *. by rewrite L.
Qed.

Lemma synced_value_exact :
  exact (λ v, wf_extended_certificate (rdv_certificate v)) decode_synced_value encode_synced_value.
Proof.
  split.
  - intros [b c] W. destruct (proj1 sync_certificate_exact c W) as (p & T & F).
    unfold encode_synced_value, decode_synced_value. cbn. rewrite T. cbn. eexists. split; [done|]. cbn. by rewrite F.
  - intros p v H. unfold decode_synced_value in H. undo. by eapply (proj2 sync_certificate_exact).
Qed.

Definition wf_response (r : ValueResponse) : Prop :=
  at_most MAX_SYNC_VALUES (resp_values r)
  ∧ Forall (λ v, wf_extended_certificate (rdv_certificate v)) (resp_values r).
Lemma sync_response_exact : exact wf_response decode_sync_response encode_sync_response.
Proof.
  split.
  - intros [h l] [Wn Wl]. cbn in *. unfold encode_sync_response, decode_sync_response. cbn.
    destruct (proj1 (exact_list _ _ _ synced_value_exact) l Wl) as (ps & T & F & L).
    rewrite T. cbn. eexists. split; [done|]. cbn.
    rewrite (proj2 (too_many_false _ _)) by (unfold at_most in *; by rewrite L). by rewrite F.
  - intros p r H. unfold decode_sync_response in H. undo. destruct (too_many _ _) eqn:N; [done|].
    apply too_many_false in N. undo.
    match goal with H : mapM _ _ = Ok _ |- _ =>
      eapply (proj2 (exact_list _ _ _ synced_value_exact)) in H as [W L] end.
    split; cbn; [|done]. unfold at_most in *. by rewrite L.
Qed.

Definition wf_liveness (m : LivenessMsg) : Prop :=
  match m with
  | LiveVote v => wf_signed_vote v
  | LivePolkaCertificate c => wf_polka c
  | LiveSkipRoundCertificate c => wf_round_certificate c
  end.
Lemma liveness_exact : exact wf_liveness decode_liveness encode_liveness.
Proof.
  split.
  - intros [v|c|c] W; unfold encode_liveness, decode_liveness.
    + destruct (proj1 signed_vote_exact v W) as (p & T & F). rewrite T. eexists. split; [done|]. cbn -[decode_vote]. by rewrite F.
    + destruct (proj1 polka_exact c W) as (p & T & F). rewrite T. eexists. split; [done|].
      cbn -[decode_polka_certificate]. by rewrite F.
    + destruct (proj1 round_certificate_exact c W) as (p & T & F). rewrite T. eexists. split; [done|].
      cbn -[decode_round_certificate]. by rewrite F.
  - intros [[[v|c|c]|]] m; cbn -[decode_vote decode_polka_certificate decode_round_certificate]; try done.
    + destruct (decode_vote v) eqn:E; [|done]. intros [= <-]. by eapply (proj2 signed_vote_exact).
    + destruct (decode_polka_certificate c) eqn:E; [|done]. intros [= <-]. by eapply (proj2 polka_exact).
    + destruct (decode_round_certificate c) eqn:E; [|done]. intros [= <-]. by eapply (proj2 round_certificate_exact).
Qed.

End CertificateExactness.

(** ** Codecs *)

(** A codec is exact when its two directions are. *)
Definition codec_exact {A E} (wf : A → Prop) (C : Codec A E) : Prop :=
  exact wf (codec_decode (Codec := C)) (codec_encode (Codec := C)).

Lemma via_message_exact {A P} `{PM : ProstMessage P} {PL : ProstLaws P} (wf : A → Prop) dec enc :
  exact wf dec enc → codec_exact wf (via_message dec enc).
Proof.
  intros [X1 X2]. split.
  - intros a Wa. destruct (X1 a Wa) as (p & T & F). exists (encode_to_vec p). cbn. rewrite T. split; [done|].
    by rewrite prost_decode_encode.
  - intros b a H. cbn in H. undo. by eapply X2.
Qed.

Lemma versioned_decode_V1 {A} (C : Codec A ProtoError) b :
  versioned_decode C (V1 :: b) = map_err ProtobufError (codec_decode b).
Proof. done. Qed.

Lemma versioned_exact {A} (wf : A → Prop) (C : Codec A ProtoError) :
  codec_exact wf C → codec_exact wf (NetCodec C).
Proof.
  intros [X1 X2]. split.
  - intros a Wa. destruct (X1 a Wa) as (p & T & F). exists (V1 :: p). cbn [codec_encode codec_decode NetCodec].
    unfold versioned_encode. rewrite T. split; [done|]. by rewrite versioned_decode_V1, F.
  - intros [|v b] a; [done|]. cbn [codec_decode NetCodec]. unfold versioned_decode, version_try_from.
    case_decide; [|done]. cbn. intros Hd%map_err_ok. by eapply X2.
Qed.

(** The log codec over [C]: exact, it also reads the bytes [C] wrote before versions, and
    no legacy entry is ever taken for a versioned one. *)
Definition wal_exact {A} (wf : A → Prop) (C : Codec A ProtoError) : Prop :=
  codec_exact wf (WalCodec C)
  ∧ (∀ a b, wf a → codec_encode (Codec := C) a = Ok b → b ≠ [] →
       codec_decode (Codec := WalCodec C) b = Ok a)
  ∧ (∀ b a, codec_decode (Codec := WalCodec C) (V1 :: b) = Ok a → codec_decode (Codec := C) b = Ok a).

Lemma wal_decode_cons {A} (C : Codec A ProtoError) x b :
  codec_decode (Codec := WalCodec C) (x :: b)
  = match codec_decode (Codec := C) (x :: b) with Ok msg => Ok msg | Err _ => versioned_decode C (x :: b) end.
Proof. done. Qed.

(** A version byte is no protobuf key. *)
Lemma via_message_V1 {A P} `{PM : ProstMessage P} {PL : ProstLaws P} (dec : P → result ProtoError A) enc b :
  codec_decode (Codec := via_message dec enc) (V1 :: b) = Err DecodeFailed.
Proof. cbn. by rewrite prost_decode_tag_zero. Qed.

Lemma via_message_wal {A P} `{PM : ProstMessage P} {PL : ProstLaws P} (wf : A → Prop) dec enc :
  exact wf dec enc → wal_exact wf (via_message dec enc).
Proof.
  intros X. pose proof (via_message_exact _ _ _ X) as Y. pose proof Y as [Y1 Y2].
  pose proof (versioned_exact _ _ Y) as [V1' V2'].
  split; [split|split].
  - intros a Wa. destruct (Y1 a Wa) as (b & T & F). exists (V1 :: b). split.
    + cbn [codec_encode WalCodec]. unfold versioned_encode. by rewrite T.
    + by rewrite wal_decode_cons, via_message_V1, versioned_decode_V1, F.
  - intros [|x b] a; [done|]. rewrite wal_decode_cons.
    destruct (codec_decode (Codec := via_message dec enc) (x :: b)) eqn:D.
    + intros [= <-]. by eapply Y2.
    + intros Hv. by eapply V2'.
  - intros a b Wa T Nb. destruct (Y1 a Wa) as (b' & T' & F). rewrite T in T'. injection T' as <-.
    destruct b as [|x b]; [done|]. rewrite wal_decode_cons. by rewrite F.
  - intros b a. rewrite wal_decode_cons, via_message_V1, versioned_decode_V1. apply map_err_ok.
Qed.

Section CodecProperties.
Context `{PC : ProposalCrypto} {SB : SignatureBytes} {SL : SignatureLaws} `{PI : PeerIds} {PIL : PeerIdLaws}.
#[local] Arguments decode_signature : simpl never.
#[local] Arguments encode_signature : simpl never.

(** What prost is used for. *)
Class ProstMessages := {
  #[global] pm_signed :: ProstMessage pSignedMessage;
  #[global] pm_liveness :: ProstMessage pLivenessMessage;
  #[global] pm_part :: ProstMessage pProposalPart;
  #[global] pm_stream :: ProstMessage pStreamMessage;
  #[global] pm_status :: ProstMessage pStatus;
  #[global] pm_request :: ProstMessage pSyncRequest;
  #[global] pm_response :: ProstMessage pSyncResponse;
  #[global] pm_proof :: ProstMessage pValidatorProof;
  #[global] pm_proposed :: ProstMessage pProposedValue;
  #[global] pm_polka :: ProstMessage pPolkaCertificate;
}.
Class ProstMessagesLaws `{PMS : ProstMessages} : Prop := {
  #[global] pl_signed :: ProstLaws pSignedMessage;
  #[global] pl_liveness :: ProstLaws pLivenessMessage;
  #[global] pl_part :: ProstLaws pProposalPart;
  #[global] pl_stream :: ProstLaws pStreamMessage;
  #[global] pl_status :: ProstLaws pStatus;
  #[global] pl_request :: ProstLaws pSyncRequest;
  #[global] pl_response :: ProstLaws pSyncResponse;
  #[global] pl_proof :: ProstLaws pValidatorProof;
  #[global] pl_proposed :: ProstLaws pProposedValue;
  #[global] pl_polka :: ProstLaws pPolkaCertificate;
}.
Context {PMS : ProstMessages} {PML : ProstMessagesLaws}.

Definition wf_stream_message (m : StreamMessage) : Prop :=
  match content m with StreamData p => wf_part p | StreamFin => True end.
Lemma stream_message_exact : codec_exact wf_stream_message StreamMessage_codec.
Proof.
  pose proof (via_message_exact _ _ _ part_exact) as [X1 X2].
  apply via_message_exact. split.
  - intros [sid q [p|]] W; cbn -[codec_encode codec_decode].
    + destruct (X1 p W) as (b & T & F). unfold ProposalPart_codec. rewrite T. cbn -[codec_decode].
      eexists. split; [done|]. cbn -[codec_decode]. by rewrite F.
    + by eexists.
  - intros p m H. undo. unfold wf_stream_message. cbn -[codec_decode] in *. case_match; [|by undo].
    unfold ProposalPart_codec in *. destruct (codec_decode b) eqn:F; [|done].
    match goal with H : _ <$> Ok _ = Ok _ |- _ => injection H as <- end. by eapply X2.
Qed.

Lemma status_exact : codec_exact (λ _, True) Status_codec.
Proof.
  apply via_message_exact. split; [|done]. intros [p t h] _. eexists. split; [done|]. cbn.
  by rewrite peer_id_from_to.
Qed.

Lemma request_exact : codec_exact (λ _, True) Request_codec.
Proof. apply via_message_exact. split; [|done]. intros [a b] _. by eexists. Qed.

Lemma proof_exact : codec_exact (λ _, True) ValidatorProof_codec.
Proof.
  apply via_message_exact. split; [|done]. intros [k p s] _. eexists. split; [done|]. cbn.
  by rewrite signature_back.
Qed.

Definition wf_proposed (v : ProposedValue) : Prop :=
  some_round (pval_round v) ∧ wf_address (pval_proposer v) ∧ wf_value (pval_value v).
Lemma proposed_conversion_exact : exact wf_proposed proposed_from proposed_to.
Proof.
  split.
  - intros [h r vr a v val] ([z R] & Wa & Wv). cbn in *. subst r.
    destruct (proj1 value_exact v Wv) as (p1 & T1 & F1).
    destruct (proj1 address_exact a Wa) as (p2 & T2 & F2).
    unfold proposed_to, proposed_from. cbn. rewrite T2. cbn. rewrite T1. cbn. eexists. split; [done|]. cbn. rewrite F2. cbn. rewrite F1. cbn.
    by rewrite validity_roundtrip.
  - intros p v H. unfold proposed_from in H. undo.
    split_and!; cbn; [by eexists|by eapply (proj2 address_exact)|by eapply (proj2 value_exact)].
Qed.

(** C26: The network codecs are exact: a consensus, liveness, proposal-part, stream or sync
    message with defined rounds, 20-byte addresses, 32-byte hashes, no vote extension, at
    most 1000 signatures per certificate and 1000 values per response encodes, and its
    encoding decodes to the same message; conversely whatever bytes a peer sends, a
    message that decodes satisfies those bounds. *)
Theorem network_codecs_exact :
  codec_exact wf_consensus_msg (NetCodec SignedConsensusMsg_codec)
  ∧ codec_exact wf_liveness (NetCodec LivenessMsg_codec)
  ∧ codec_exact wf_part (NetCodec ProposalPart_codec)
  ∧ codec_exact wf_stream_message (NetCodec StreamMessage_codec)
  ∧ codec_exact (λ _, True) (NetCodec Status_codec)
  ∧ codec_exact (λ _, True) (NetCodec Request_codec)
  ∧ codec_exact wf_response (NetCodec Response_codec)
  ∧ codec_exact (λ _, True) (NetCodec ValidatorProof_codec).
Proof.
  split_and!; apply versioned_exact.
  - apply via_message_exact, consensus_msg_exact.
  - apply via_message_exact, liveness_exact.
  - apply via_message_exact, part_exact.
  - apply stream_message_exact.
  - apply status_exact.
  - apply request_exact.
  - apply via_message_exact, sync_response_exact.
  - apply proof_exact.
Qed.

(** The write-ahead log codecs (consensus messages, proposed values, polka
    certificates) are exact, replay every non-empty entry written before version bytes
    were introduced, and never mistake one format for the other: bytes that start with
    the version byte decode to what the rest encodes. *)
Theorem wal_codecs_replay :
  wal_exact wf_consensus_msg SignedConsensusMsg_codec
  ∧ wal_exact wf_proposed ProposedValue_codec
  ∧ wal_exact wf_polka PolkaCertificate_codec.
Proof.
  split_and!; apply via_message_wal; [apply consensus_msg_exact| |apply polka_exact].
  apply proposed_conversion_exact.
Qed.

End CodecProperties.
