(* ===== verification/StoreCodec.v ===== *)
(** * Encodings of the consensus database

    consensus-db/src/encoder.rs, decoder.rs and versions.rs: every stored value is a
    version byte followed by an SSZ or protobuf encoding.  The stored types:
    types/src/evidence.rs, proposal_monitor.rs, block.rs and
    consensus-db/src/invalid_payloads.rs.

    SSZ of an execution payload is [as_ssz_bytes]; SSZ of a block tuple is the class
    [SszBlockCodec]; protobuf is [ProstMessage].  A [SystemTime] is a number of
    milliseconds relative to the Unix epoch. *)

From S2P Require Import Prelude Validators Proposal Codec.

(** ** Stored types *)

Section StoredTypes.
Context `{PC : ProposalCrypto}.

Record DoubleVote := mkDoubleVote { dv_first : SignedVote; dv_second : SignedVote }.
Record DoubleProposal := mkDoubleProposal { dp_first : SignedProposal; dp_second : SignedProposal }.
Record ValidatorEvidence := mkValidatorEvidence {
  ve_address : Z;
  double_votes : list DoubleVote;
  double_proposals : list DoubleProposal;
}.
Record StoredMisbehaviorEvidence := mkEvidence {
  ev_height : Z;
  ev_validators : list ValidatorEvidence;
}.
Definition Evidence_empty (height : Z) : StoredMisbehaviorEvidence := mkEvidence height [].

Record InvalidPayload := mkInvalidPayload {
  ip_height : Z;
  ip_round : Round;
  ip_proposer_address : Z;
  ip_payload : option Payload;
  ip_reason : string;
}.
Definition InvalidPayload_new_from_block (block : ConsensusBlock) (reason : string) : InvalidPayload :=
  mkInvalidPayload (block_height block) (block_round block) (block_proposer block)
    (Some (execution_payload block)) reason.
Definition InvalidPayload_new_from_parts (parts : ProposalParts) (reason : string) : InvalidPayload :=
  mkInvalidPayload (parts_height parts) (parts_round parts) (parts_proposer parts) None reason.
Definition InvalidPayload_new_without_payload (height : Z) (round : Round) (proposer : Z) (reason : string)
    : InvalidPayload :=
  mkInvalidPayload height round proposer None reason.

Record StoredInvalidPayloads := mkStoredInvalidPayloads {
  sip_height : Z;
  sip_payloads : list InvalidPayload;
}.
Definition InvalidPayloads_empty (height : Z) : StoredInvalidPayloads := mkStoredInvalidPayloads height [].
Definition add_invalid_payload (s : StoredInvalidPayloads) (p : InvalidPayload) : StoredInvalidPayloads :=
  mkStoredInvalidPayloads (sip_height s) (sip_payloads s ++ [p]).
End StoredTypes.

Inductive ProposalSuccessState := Unknown | Unsuccessful | Successful.
Definition success_as_u32 (s : ProposalSuccessState) : Z :=
  match s with Unknown => 0 | Unsuccessful => 1 | Successful => 2 end.
Definition success_from_u32 (z : Z) : ProposalSuccessState :=
  if decide (z = 1) then Unsuccessful else if decide (z = 2) then Successful else Unknown.

Record ProposalMonitor := mkProposalMonitor {
  pm_height : Z;
  pm_proposer : Z;
  pm_start_time : Z;
  pm_receive_time : option Z;
  pm_value_id : option ValueId;
  pm_successful : ProposalSuccessState;
  pm_synced : bool;
}.
Definition ProposalMonitor_new (height proposer start_time : Z) : ProposalMonitor :=
  mkProposalMonitor height proposer start_time None None Unknown false.

(** ** Messages (store.proto) *)

Record pDoubleVote := mkpDoubleVote { pdv_first : option pSignedMessage; pdv_second : option pSignedMessage }.
Record pDoubleProposal := mkpDoubleProposal {
  pdp_first : option pSignedMessage;
  pdp_second : option pSignedMessage;
}.
Record pValidatorEvidence := mkpValidatorEvidence {
  pve_address : option pAddress;
  pve_double_votes : list pDoubleVote;
  pve_double_proposals : list pDoubleProposal;
}.
Record pMisbehaviorEvidence := mkpMisbehaviorEvidence {
  pme_height : Z;
  pme_validators : list pValidatorEvidence;
}.
Record pProposalMonitorData := mkpProposalMonitorData {
  ppm_height : Z;
  ppm_proposer : option pAddress;
  ppm_start_time_ms : Z;
  ppm_receive_time_ms : Z;
  ppm_value_id : bytes;
  ppm_successful_state : Z;
  ppm_synced : bool;
}.
Record pInvalidPayload := mkpInvalidPayload {
  pip_height : Z;
  pip_round : Z;
  pip_proposer_address : option pAddress;
  pip_payload : option bytes;
  pip_reason : string;
}.
Record pInvalidPayloads := mkpInvalidPayloads {
  pips_height : Z;
  pips_payloads : list pInvalidPayload;
}.

(** ** Errors and versions *)

Inductive DecodeError :=
| UnsupportedVersionOf (v : Byte.byte)
| EmptyVersion
| SszError
| ProtobufDecode
| ProtoErrorOf (e : ProtoError).

Definition ExecutionPayloadVersion : Byte.byte := Byte.x03.
Definition ProposalPartsVersion : Byte.byte := Byte.x01.
Definition ConsensusBlockVersion : Byte.byte := Byte.x01.
Definition CommitCertificateVersion : Byte.byte := Byte.x01.
Definition MisbehaviorEvidenceVersion : Byte.byte := Byte.x01.
Definition ProposalMonitorDataVersion : Byte.byte := Byte.x01.
Definition InvalidPayloadsVersion : Byte.byte := Byte.x01.

(** The frame of every decoder: a version byte, then the body. *)
Definition with_version {A} (version : Byte.byte) (body : bytes → result DecodeError A) (b : bytes)
    : result DecodeError A :=
  match b with
  | [] => Err EmptyVersion
  | v :: rest => if decide (v = version) then body rest else Err (UnsupportedVersionOf v)
  end.

(** SSZ of [SszBlock]: height, round, valid round, proposer, validity, payload, signature. *)
Section StoreCodecs.
Context `{PC : ProposalCrypto} {SB : SignatureBytes}.

Definition SszBlock : Type := Z * option Z * option Z * Z * bool * Payload * option Signature.
Class SszBlockCodec := {
  ssz_block_encode : SszBlock → bytes;
  ssz_block_decode : bytes → option SszBlock;
}.
Context {SZ : SszBlockCodec}.

Definition block_as_ssz_data (b : ConsensusBlock) : SszBlock :=
  (block_height b, block_round b, valid_round b, block_proposer b,
   Validity_to_bool (validity b), execution_payload b, block_signature b).

Definition encode_execution_payload (p : Payload) : bytes := ExecutionPayloadVersion :: as_ssz_bytes p.
Definition decode_execution_payload : bytes → result DecodeError Payload :=
  with_version ExecutionPayloadVersion (λ b, ok_or (from_ssz_bytes b) SszError).

Definition encode_block (b : ConsensusBlock) : bytes :=
  ConsensusBlockVersion :: ssz_block_encode (block_as_ssz_data b).
Definition decode_block : bytes → result DecodeError ConsensusBlock :=
  with_version ConsensusBlockVersion (λ b,
    d ← ok_or (ssz_block_decode b) SszError;
    let '(height, round, valid_round, proposer, is_valid, execution_payload, signature) := d in
    Ok (mkConsensusBlock height round valid_round proposer (Validity_from_bool is_valid)
          execution_payload signature)).

Definition encode_parts `{ProstMessage pProposalParts} (p : ProposalParts) : result ProtoError bytes :=
  proto ← ProposalParts_to_proto p; Ok (ProposalPartsVersion :: encode_to_vec proto).
Definition decode_parts `{ProstMessage pProposalParts} : bytes → result DecodeError ProposalParts :=
  with_version ProposalPartsVersion (λ b,
    proto ← ok_or (prost_decode b) ProtobufDecode;
    map_err ProtoErrorOf (ProposalParts_from_proto proto)).

Definition encode_certificate `{ProstMessage pStoreCommitCertificate} (c : StoredCommitCertificate)
    : result ProtoError bytes :=
  proto ← encode_store_commit_certificate c; Ok (CommitCertificateVersion :: encode_to_vec proto).
Definition decode_certificate `{ProstMessage pStoreCommitCertificate}
    : bytes → result DecodeError StoredCommitCertificate :=
  with_version CommitCertificateVersion (λ b,
    proto ← ok_or (prost_decode b) ProtobufDecode;
    map_err ProtoErrorOf (decode_store_commit_certificate proto)).

(** [duration_since(UNIX_EPOCH).unwrap_or_default().as_millis() as u64]; a [SystemTime] is
    its milliseconds from the epoch. *)
Definition millis_since_epoch (t : Z) : Z := Z.max 0 t mod 2 ^ 64.

Definition monitor_to_proto (d : ProposalMonitor) : result ProtoError pProposalMonitorData :=
  proposer ← Address_to_proto (pm_proposer d);
  Ok (mkpProposalMonitorData (pm_height d) (Some proposer) (millis_since_epoch (pm_start_time d))
        (default 0 (millis_since_epoch <$> pm_receive_time d))
        (default [] (block_hash <$> pm_value_id d)) (success_as_u32 (pm_successful d)) (pm_synced d)).
Definition monitor_from_proto (p : pProposalMonitorData) : result DecodeError ProposalMonitor :=
  a ← ok_or (ppm_proposer p) (ProtoErrorOf (OtherError "Missing proposer in proposal monitor data"));
  proposer ← map_err ProtoErrorOf (Address_from_proto a);
  let receive_time := if decide (0 < ppm_receive_time_ms p) then Some (ppm_receive_time_ms p) else None in
  let value_id := mkValueId <$> exactly 32 (ppm_value_id p) in
  Ok (mkProposalMonitor (ppm_height p) proposer (ppm_start_time_ms p) receive_time value_id
        (success_from_u32 (ppm_successful_state p)) (ppm_synced p)).
Definition encode_proposal_monitor_data `{ProstMessage pProposalMonitorData} (d : ProposalMonitor)
    : result ProtoError bytes :=
  proto ← monitor_to_proto d; Ok (ProposalMonitorDataVersion :: encode_to_vec proto).
Definition decode_proposal_monitor_data `{ProstMessage pProposalMonitorData}
    : bytes → result DecodeError ProposalMonitor :=
  with_version ProposalMonitorDataVersion (λ b,
    proto ← ok_or (prost_decode b) ProtobufDecode; monitor_from_proto proto).

(** A required pair of messages of a piece of evidence. *)
Definition required {A} (what : string) (dec : pSignedMessage → result ProtoError A)
    (o : option pSignedMessage) : result DecodeError A :=
  m ← ok_or o (ProtoErrorOf (OtherError what)); map_err ProtoErrorOf (dec m).

Definition decode_proto_double_vote (p : pDoubleVote) : result DecodeError DoubleVote :=
  first ← required "Missing first vote in double vote" decode_vote (pdv_first p);
  second ← required "Missing second vote in double vote" decode_vote (pdv_second p);
  Ok (mkDoubleVote first second).
Definition decode_proto_double_proposal (p : pDoubleProposal) : result DecodeError DoubleProposal :=
  first ← required "Missing first proposal in double proposal" decode_signed_proposal (pdp_first p);
  second ← required "Missing second proposal in double proposal" decode_signed_proposal (pdp_second p);
  Ok (mkDoubleProposal first second).
Definition decode_proto_validator_evidence (p : pValidatorEvidence) : result DecodeError ValidatorEvidence :=
  a ← ok_or (pve_address p) (ProtoErrorOf (OtherError "Missing address in validator evidence"));
  address ← map_err ProtoErrorOf (Address_from_proto a);
  double_votes ← mapM decode_proto_double_vote (pve_double_votes p);
  double_proposals ← mapM decode_proto_double_proposal (pve_double_proposals p);
  Ok (mkValidatorEvidence address double_votes double_proposals).
Definition decode_proto_misbehavior_evidence (p : pMisbehaviorEvidence)
    : result DecodeError StoredMisbehaviorEvidence :=
  validators ← mapM decode_proto_validator_evidence (pme_validators p);
  Ok (mkEvidence (pme_height p) validators).
Definition decode_misbehavior_evidence `{ProstMessage pMisbehaviorEvidence}
    : bytes → result DecodeError StoredMisbehaviorEvidence :=
  with_version MisbehaviorEvidenceVersion (λ b,
    proto ← ok_or (prost_decode b) ProtobufDecode; decode_proto_misbehavior_evidence proto).

Definition encode_double_vote (d : DoubleVote) : result ProtoError pDoubleVote :=
  first ← encode_vote (dv_first d); second ← encode_vote (dv_second d);
  Ok (mkpDoubleVote (Some first) (Some second)).
Definition encode_double_proposal (d : DoubleProposal) : result ProtoError pDoubleProposal :=
  first ← encode_signed_proposal (dp_first d); second ← encode_signed_proposal (dp_second d);
  Ok (mkpDoubleProposal (Some first) (Some second)).
Definition encode_validator_evidence (v : ValidatorEvidence) : result ProtoError pValidatorEvidence :=
  votes ← mapM encode_double_vote (double_votes v);
  proposals ← mapM encode_double_proposal (double_proposals v);
  address ← Address_to_proto (ve_address v);
  Ok (mkpValidatorEvidence (Some address) votes proposals).
Definition encode_misbehavior_evidence `{ProstMessage pMisbehaviorEvidence} (e : StoredMisbehaviorEvidence)
    : result ProtoError bytes :=
  validators ← mapM encode_validator_evidence (ev_validators e);
  Ok (MisbehaviorEvidenceVersion :: encode_to_vec (mkpMisbehaviorEvidence (ev_height e) validators)).

Definition encode_invalid_payload (p : InvalidPayload) : result ProtoError pInvalidPayload :=
  round ← ok_or (ip_round p) (OtherError "stored invalid payload is missing the round");
  address ← Address_to_proto (ip_proposer_address p);
  Ok (mkpInvalidPayload (ip_height p) round (Some address) (as_ssz_bytes <$> ip_payload p) (ip_reason p)).
Definition encode_invalid_payloads `{ProstMessage pInvalidPayloads} (s : StoredInvalidPayloads)
    : result ProtoError bytes :=
  payloads ← mapM encode_invalid_payload (sip_payloads s);
  Ok (InvalidPayloadsVersion :: encode_to_vec (mkpInvalidPayloads (sip_height s) payloads)).

Definition decode_proto_invalid_payload (p : pInvalidPayload) : result DecodeError InvalidPayload :=
  a ← ok_or (pip_proposer_address p) (ProtoErrorOf (OtherError "Missing proposer_address in invalid payload"));
  address ← map_err ProtoErrorOf (Address_from_proto a);
  payload ← transpose ((λ b, ok_or (from_ssz_bytes b) SszError) <$> pip_payload p);
  Ok (mkInvalidPayload (pip_height p) (Some (pip_round p)) address payload (pip_reason p)).
Definition decode_proto_invalid_payloads (p : pInvalidPayloads) : result DecodeError StoredInvalidPayloads :=
  payloads ← mapM decode_proto_invalid_payload (pips_payloads p);
  Ok (mkStoredInvalidPayloads (pips_height p) payloads).
Definition decode_invalid_payloads `{ProstMessage pInvalidPayloads}
    : bytes → result DecodeError StoredInvalidPayloads :=
  with_version InvalidPayloadsVersion (λ b,
    proto ← ok_or (prost_decode b) ProtobufDecode; decode_proto_invalid_payloads proto).

End StoreCodecs.
