(* ===== verification/Store.v ===== *)
(** * The consensus database

    consensus-db/src/store.rs: the seven tables of the consensus layer and every
    operation on them, services/pruning.rs and types/src/height.rs.

    redb is third-party: a table is an ordered map from keys to bytes, a write
    transaction commits all of its writes or none.  [Db] carries, besides the tables, the
    faults redb will report: the next transaction fails when the next fault is [true]
    ([with_read], [with_write]).  redb's error types are the one error [Storage].  A panic
    is the error [StorePanicked]; it drops, and so aborts, an open transaction.  An error of
    redb on a single row of a read, which some loops skip, is not modelled, nor are metrics,
    logs, savepoints and the file behind the database. *)

From S2P Require Import Prelude BTree Validators Proposal Codec StoreCodec.

(** ** Heights *)

Definition height_increment (h : Z) : option Z := checked_add 64 h 1.
Definition height_increment_by (h n : Z) : option Z := checked_add 64 h n.
Definition height_saturating_sub (h n : Z) : Z := saturating_sub h n.

(** ** Keys *)

(** [(Height, Round, BlockHash)], compared in this order, rounds as [i64]. *)
Definition BlockKey : Type := Z * Round * bytes.
Definition block_key_lt (a b : BlockKey) : bool :=
  let '(h1, r1, x1) := a in
  let '(h2, r2, x2) := b in
  bool_decide (h1 < h2)
  || bool_decide (h1 = h2)
     && (bool_decide (round_as_i64 r1 < round_as_i64 r2)
         || bool_decide (round_as_i64 r1 = round_as_i64 r2) && bytes_lt x1 x2).
Definition key_height (k : BlockKey) : Z := k.1.1.
Definition ZERO_HASH : bytes := replicate 32 Byte.x00.

(** ** Tables *)

Record Tables := mkTables {
  certificates : list (Z * bytes);
  decided_blocks : list (Z * bytes);
  misbehavior_evidence : list (Z * bytes);
  invalid_payloads : list (Z * bytes);
  proposal_monitor_data : list (Z * bytes);
  undecided_blocks : list (BlockKey * bytes);
  pending_proposal_parts : list (BlockKey * bytes);
}.

(** The tables keyed by height. *)
Inductive HeightTable :=
| CERTIFICATES_TABLE
| DECIDED_BLOCKS_TABLE
| MISBEHAVIOR_EVIDENCE_TABLE
| INVALID_PAYLOADS_TABLE
| PROPOSAL_MONITOR_DATA_TABLE.
#[export] Instance height_table_eq_decision : EqDecision HeightTable.
Proof. solve_decision. Defined.

Definition height_table (t : Tables) (id : HeightTable) : list (Z * bytes) :=
  match id with
  | CERTIFICATES_TABLE => certificates t
  | DECIDED_BLOCKS_TABLE => decided_blocks t
  | MISBEHAVIOR_EVIDENCE_TABLE => misbehavior_evidence t
  | INVALID_PAYLOADS_TABLE => invalid_payloads t
  | PROPOSAL_MONITOR_DATA_TABLE => proposal_monitor_data t
  end.
Definition set_height_table (t : Tables) (id : HeightTable) (l : list (Z * bytes)) : Tables :=
  let '(mkTables c d e i p u q) := t in
  match id with
  | CERTIFICATES_TABLE => mkTables l d e i p u q
  | DECIDED_BLOCKS_TABLE => mkTables c l e i p u q
  | MISBEHAVIOR_EVIDENCE_TABLE => mkTables c d l i p u q
  | INVALID_PAYLOADS_TABLE => mkTables c d e l p u q
  | PROPOSAL_MONITOR_DATA_TABLE => mkTables c d e i l u q
  end.
Definition set_undecided (t : Tables) (l : list (BlockKey * bytes)) : Tables :=
  mkTables (certificates t) (decided_blocks t) (misbehavior_evidence t) (invalid_payloads t)
    (proposal_monitor_data t) l (pending_proposal_parts t).
Definition set_pending (t : Tables) (l : list (BlockKey * bytes)) : Tables :=
  mkTables (certificates t) (decided_blocks t) (misbehavior_evidence t) (invalid_payloads t)
    (proposal_monitor_data t) (undecided_blocks t) l.

Definition insert_height (t : Tables) (id : HeightTable) (h : Z) (b : bytes) : Tables :=
  set_height_table t id (bt_insert Z.ltb h b (height_table t id)).
Definition remove_height (t : Tables) (id : HeightTable) (h : Z) : Tables :=
  set_height_table t id (bt_remove h (height_table t id)).

(** ** Transactions *)

Inductive StoreError :=
| Storage
| StoreProto (e : ProtoError)
| StoreDecode (e : DecodeError)
| StoreMigration (msg : string)
| StoreOther (msg : string)
| StorePanicked (msg : string).

(** [?] on an encoder's result; a panic in the encoder stays one. *)
Definition store_proto (e : ProtoError) : StoreError :=
  match e with Panicked msg => StorePanicked msg | _ => StoreProto e end.

Record Db := mkDb { tables : Tables; faults : list bool }.

Definition next_fault (db : Db) : bool := match faults db with b :: _ => b | [] => false end.

Definition with_read {A} (f : Tables → result StoreError A) : M Db StoreError A := λ db,
  if next_fault db then (Err Storage, mkDb (tables db) (tail (faults db)))
  else (f (tables db), mkDb (tables db) (tail (faults db))).

Definition with_write {A} (f : Tables → result StoreError (A * Tables)) : M Db StoreError A := λ db,
  if next_fault db then (Err Storage, mkDb (tables db) (tail (faults db)))
  else match f (tables db) with
       | Ok (a, t) => (Ok a, mkDb t (tail (faults db)))
       | Err e => (Err e, mkDb (tables db) (tail (faults db)))
       end.

(** ** Range results *)

Inductive RangeFailureReason := AboveCurrentHead | Pruned | NotRecorded | Internal.
#[export] Instance range_failure_reason_eq_decision : EqDecision RangeFailureReason.
Proof. solve_decision. Defined.

Inductive RangeQueryResult (A : Type) :=
| Complete (items : list A)
| Unavailable (reason : RangeFailureReason) (failed_heights : list Z).
Arguments Complete {_} _.
Arguments Unavailable {_} _ _.

(** ** Rollback *)

Record RollbackReport := mkRollbackReport {
  rr_certificates : Z;
  rr_decided_blocks : Z;
  rr_invalid_payloads : Z;
  rr_misbehavior_evidence : Z;
  rr_proposal_monitor_data : Z;
  rr_undecided_blocks : Z;
  rr_pending_proposal_parts : Z;
}.
Definition RollbackReport_default : RollbackReport := mkRollbackReport 0 0 0 0 0 0 0.

(** [retain_in(lo..hi, |_, _| keep)] *)
Definition height_in (lo hi : Z) (kv : Z * bytes) : bool :=
  bool_decide (lo ≤ kv.1) && bool_decide (kv.1 < hi).
Definition key_in (lo hi : BlockKey) (kv : BlockKey * bytes) : bool :=
  negb (block_key_lt kv.1 lo) && block_key_lt kv.1 hi.
Definition retain_in {K} (inside : K * bytes → bool) (keep : bool) (l : list (K * bytes)) : list (K * bytes) :=
  filter (λ kv, negb (inside kv) || keep = true) l.
Definition count_in {K} (inside : K * bytes → bool) (n : Z) (l : list (K * bytes)) : Z :=
  foldl (λ n kv, if inside kv then saturating_add 64 n 1 else n) n l.

(** One batch of heights [range_low..range_high], over the seven tables. *)
Definition rollback_batch (range_low range_high : Z) (dry_run : bool) (r : RollbackReport) (t : Tables)
    : RollbackReport * Tables :=
  let inside := height_in range_low range_high in
  let composite := key_in (range_low, None, ZERO_HASH) (range_high, None, ZERO_HASH) in
  (mkRollbackReport
     (count_in inside (rr_certificates r) (certificates t))
     (count_in inside (rr_decided_blocks r) (decided_blocks t))
     (count_in inside (rr_invalid_payloads r) (invalid_payloads t))
     (count_in inside (rr_misbehavior_evidence r) (misbehavior_evidence t))
     (count_in inside (rr_proposal_monitor_data r) (proposal_monitor_data t))
     (count_in composite (rr_undecided_blocks r) (undecided_blocks t))
     (count_in composite (rr_pending_proposal_parts r) (pending_proposal_parts t)),
   mkTables
     (retain_in inside dry_run (certificates t))
     (retain_in inside dry_run (decided_blocks t))
     (retain_in inside dry_run (misbehavior_evidence t))
     (retain_in inside dry_run (invalid_payloads t))
     (retain_in inside dry_run (proposal_monitor_data t))
     (retain_in composite dry_run (undecided_blocks t))
     (retain_in composite dry_run (pending_proposal_parts t))).

(** The loop, from the tip down to [stop]; one round moves [range_high] down, so the
    distance to [stop] is enough fuel.  A dry run aborts its transactions. *)
Fixpoint rollback_loop (fuel : nat) (stop batch_size : Z) (dry_run : bool) (range_high : Z)
    (report : RollbackReport) : M Db StoreError RollbackReport :=
  match fuel with
  | O => m_ret report
  | S fuel =>
      if decide (range_high = stop) then m_ret report
      else
        let range_low := Z.max (height_saturating_sub range_high batch_size) stop in
        report <-- with_write (λ t,
          let '(report, t') := rollback_batch range_low range_high dry_run report t in
          Ok (report, if dry_run then t else t')) ;;
        rollback_loop fuel stop batch_size dry_run range_low report
  end.

Definition rollback_to_height (target_height batch_size : Z) (dry_run : bool)
    : M Db StoreError RollbackReport :=
  if decide (¬ 0 < batch_size) then m_err (StorePanicked "batch_size must be > 0")
  else
  current <-- with_read (λ t, Ok (fst <$> last (certificates t))) ;;
  match current with
  | None => m_ret RollbackReport_default
  | Some current_height =>
      if decide (current_height ≤ target_height) then m_ret RollbackReport_default
      else
        stop <-- m_lift (ok_or (height_increment target_height) (StorePanicked "block height overflow")) ;;
        range_high <-- m_lift (ok_or (height_increment current_height) (StorePanicked "block height overflow")) ;;
        rollback_loop (Z.to_nat (range_high - stop) + 1) stop batch_size dry_run range_high
          RollbackReport_default
  end.

(** ** Blocks *)

(** What the store reads of an execution payload: its own block hash. *)
Class PayloadHash `{PC : ProposalCrypto} := { payload_block_hash : Payload → bytes }.
(** It is 32 bytes, and so is a Keccak-256 digest. *)
Class HashLengths `{PH : PayloadHash} : Prop := {
  payload_hash_length : ∀ p, length (payload_block_hash p) = 32%nat;
  keccak_length : ∀ b, length (sha3_keccak256 b) = 32%nat;
}.

(** [Round::from(i64)] of the consensus library. *)
Class RoundFrom := { round_from_i64 : Z → Round }.
Class RoundFromLaws `{RoundFrom} := {
  round_from_i64_nat : ∀ z, 0 ≤ z < 2 ^ 32 → round_from_i64 z = Some z;
}.

(** The messages the store encodes. *)
Class StoreMessages := {
  #[global] sm_parts :: ProstMessage pProposalParts;
  #[global] sm_certificate :: ProstMessage pStoreCommitCertificate;
  #[global] sm_evidence :: ProstMessage pMisbehaviorEvidence;
  #[global] sm_monitor :: ProstMessage pProposalMonitorData;
  #[global] sm_invalid :: ProstMessage pInvalidPayloads;
}.
Class StoreMessagesLaws `{SM : StoreMessages} : Prop := {
  #[global] sml_parts :: ProstLaws pProposalParts;
  #[global] sml_certificate :: ProstLaws pStoreCommitCertificate;
  #[global] sml_evidence :: ProstLaws pMisbehaviorEvidence;
  #[global] sml_monitor :: ProstLaws pProposalMonitorData;
  #[global] sml_invalid :: ProstLaws pInvalidPayloads;
}.

#[export] Instance value_id_eq_decision : EqDecision ValueId.
Proof. solve_decision. Defined.

Section Store.
Context `{PC : ProposalCrypto} {SB : SignatureBytes} {SZ : SszBlockCodec} {PH : PayloadHash}.
Context {SM : StoreMessages} {RF : RoundFrom} `{!EqDecision Signature}.

#[export] Instance commit_signature_eq_decision : EqDecision CommitSignature.
Proof. solve_decision. Defined.

Definition self_reported_block_hash (b : ConsensusBlock) : bytes := payload_block_hash (execution_payload b).

Record DecidedBlock := mkDecidedBlock {
  db_execution_payload : Payload;
  db_certificate : CommitCertificate;
}.
Definition DecidedBlock_new (p : Payload) (c : CommitCertificate) : result StoreError DecidedBlock :=
  if decide (payload_block_hash p = block_hash (cert_value_id c)) then Ok (mkDecidedBlock p c)
  else Err (StorePanicked "Block hash in the execution payload does not match the hash in the commit certificate").
Definition DecidedBlock_height (d : DecidedBlock) : Z := cert_height (db_certificate d).

(** ** Decided blocks and certificates *)

Definition read_payload (t : Tables) (height : Z) : result StoreError (option Payload) :=
  transpose ((λ b, map_err StoreDecode (decode_execution_payload b)) <$> bt_get height (decided_blocks t)).

Definition get_payload (height : Z) : M Db StoreError (option Payload) := with_read (λ t, read_payload t height).

Definition get_certificate (height : option Z) : M Db StoreError (option StoredCommitCertificate) :=
  with_read (λ t,
    let b := match height with
             | Some height => bt_get height (certificates t)
             | None => snd <$> last (certificates t)
             end in
    Ok (b ≫= λ b, result_ok (decode_certificate b))).

Definition get_decided_block (height : Z) : M Db StoreError (option DecidedBlock) :=
  with_read (λ t,
    payload ← read_payload t height;
    let cert := bt_get height (certificates t) ≫= λ b, result_ok (decode_certificate b) in
    match payload, cert with
    | Some payload, Some cert => Some <$> DecidedBlock_new payload (certificate cert)
    | _, _ => Ok None
    end).

Definition insert_certificate (t : Tables) (c : CommitCertificate) (ty : CommitCertificateType)
    (proposer : option Z) : result StoreError Tables :=
  b ← map_err store_proto (encode_certificate (mkStoredCommitCertificate c ty proposer));
  Ok (insert_height t CERTIFICATES_TABLE (cert_height c) b).

Definition insert_decided_block (d : DecidedBlock) (proposer : Z) : M Db StoreError unit :=
  with_write (λ t,
    let t := insert_height t DECIDED_BLOCKS_TABLE (DecidedBlock_height d)
               (encode_execution_payload (db_execution_payload d)) in
    t ← insert_certificate t (db_certificate d) CertMinimal (Some proposer);
    Ok (tt, t)).

(** [Store::store_decided_block] *)
Definition store_decided_block (c : CommitCertificate) (p : Payload) (proposer : Z) : M Db StoreError unit :=
  d <-- m_lift (DecidedBlock_new p c) ;; insert_decided_block d proposer.

Definition check_extension (existing new : CommitCertificate) : result StoreError unit :=
  if decide (cert_height new ≠ cert_height existing) then Err (StoreOther "existing certificate has different height")
  else if decide (cert_round new ≠ cert_round existing) then Err (StoreOther "existing certificate has different round")
  else if decide (cert_value_id new ≠ cert_value_id existing)
  then Err (StoreOther "existing certificate has different value_id")
  else if decide (Forall (λ s, s ∈ commit_signatures new) (commit_signatures existing)) then Ok tt
  else Err (StoreOther "existing commit signature is missing in the new certificate").

Definition extend_certificate (c : CommitCertificate) : M Db StoreError unit :=
  with_write (λ t,
    b ← ok_or (bt_get (cert_height c) (certificates t)) (StoreOther "no existing certificate was found");
    existing ← map_err (λ _, StoreOther "Failed to decode existing certificate") (decode_certificate b);
    _ ← check_extension (certificate existing) c;
    t ← insert_certificate t c CertExtended (cert_proposer existing);
    Ok (tt, t)).

(** ** Evidence, monitor data, invalid payloads *)

Definition insert_misbehavior_evidence (e : StoredMisbehaviorEvidence) : M Db StoreError unit :=
  with_write (λ t,
    b ← map_err store_proto (encode_misbehavior_evidence e);
    Ok (tt, insert_height t MISBEHAVIOR_EVIDENCE_TABLE (ev_height e) b)).

Definition insert_proposal_monitor_data (d : ProposalMonitor) : M Db StoreError unit :=
  with_write (λ t,
    b ← map_err store_proto (encode_proposal_monitor_data d);
    Ok (tt, insert_height t PROPOSAL_MONITOR_DATA_TABLE (pm_height d) b)).

Definition get_proposal_monitor_data (height : option Z) : M Db StoreError (option ProposalMonitor) :=
  with_read (λ t,
    let b := match height with
             | Some height => bt_get height (proposal_monitor_data t)
             | None => snd <$> last (proposal_monitor_data t)
             end in
    transpose ((λ b, map_err StoreDecode (decode_proposal_monitor_data b)) <$> b)).

Definition limit_height (min : bool) : M Db StoreError (option Z) :=
  with_read (λ t, Ok (fst <$> (if min then head (certificates t) else last (certificates t)))).
Definition min_height : M Db StoreError (option Z) := limit_height true.
Definition max_height : M Db StoreError (option Z) := limit_height false.

(** The height a query without a height, or up to the tip, is about. *)
Definition effective_height (height : option Z) (max_height : Z) : option Z :=
  match height with
  | Some height => if decide (max_height < height) then None else Some height
  | None => Some max_height
  end.

Definition get_misbehavior_evidence (height : option Z) : M Db StoreError (option StoredMisbehaviorEvidence) :=
  max <-- max_height ;;
  match max ≫= effective_height height with
  | None => m_ret None
  | Some height =>
      with_read (λ t,
        e ← transpose ((λ b, map_err StoreDecode (decode_misbehavior_evidence b))
                         <$> bt_get height (misbehavior_evidence t));
        Ok (Some (default (Evidence_empty height) e)))
  end.

Definition get_invalid_payloads (height : option Z) : M Db StoreError (option StoredInvalidPayloads) :=
  max <-- max_height ;;
  match max ≫= effective_height height with
  | None => m_ret None
  | Some height =>
      with_read (λ t,
        p ← transpose ((λ b, map_err StoreDecode (decode_invalid_payloads b))
                         <$> bt_get height (invalid_payloads t));
        Ok (Some (default (InvalidPayloads_empty height) p)))
  end.

Definition append_invalid_payload (p : InvalidPayload) : M Db StoreError unit :=
  with_write (λ t,
    let height := ip_height p in
    stored ← match bt_get height (invalid_payloads t) with
             | Some b => map_err StoreDecode (decode_invalid_payloads b)
             | None => Ok (mkStoredInvalidPayloads height [])
             end;
    b ← map_err store_proto (encode_invalid_payloads (add_invalid_payload stored p));
    Ok (tt, insert_height t INVALID_PAYLOADS_TABLE height b)).

(** ** Range queries *)

(** One height of a range: an item, or why there is none. *)
Definition read_height {A} (t : Tables) (id : HeightTable) (decode : bytes → result DecodeError A)
    (on_missing : Z → result RangeFailureReason A) (earliest head height : Z) : result RangeFailureReason A :=
  if decide (height < earliest) then Err Pruned
  else if decide (head < height) then Err AboveCurrentHead
  else match bt_get height (height_table t id) with
       | Some b => map_err (λ _, Internal) (decode b)
       | None => on_missing height
       end.

(** The loop: the items, and the failures with their heights. *)
Fixpoint read_heights {A} (read : Z → result RangeFailureReason A) (hs : list Z)
    : list A * list (Z * RangeFailureReason) :=
  match hs with
  | [] => ([], [])
  | h :: hs =>
      let '(items, failures) := read_heights read hs in
      match read h with
      | Ok item => (item :: items, failures)
      | Err reason => (items, (h, reason) :: failures)
      end
  end.

Definition range_result {A} (items : list A) (failures : list (Z * RangeFailureReason)) : RangeQueryResult A :=
  match failures with
  | [] => Complete items
  | (_, reason) :: _ => Unavailable reason (fst <$> filter (λ f, f.2 = reason) failures)
  end.

Definition read_height_range {A} (id : HeightTable) (from count : Z) (decode : bytes → result DecodeError A)
    (on_missing : Z → result RangeFailureReason A) : M Db StoreError (option (RangeQueryResult A)) :=
  to <-- m_lift (ok_or (offset ← checked_sub 64 count 1; checked_add 64 from offset)
                   (StoreOther "invalid height range")) ;;
  with_read (λ t,
    match head (certificates t), last (certificates t) with
    | Some (earliest, _), Some (head, _) =>
        let '(items, failures) :=
          read_heights (read_height t id decode on_missing earliest head) (seqZ from (to - from + 1)) in
        Ok (Some (range_result items failures))
    | _, _ => Ok None
    end).

Definition get_certificate_range (from count : Z) :=
  read_height_range CERTIFICATES_TABLE from count decode_certificate (λ _, Err Internal).
Definition get_misbehavior_evidence_range (from count : Z) :=
  read_height_range MISBEHAVIOR_EVIDENCE_TABLE from count decode_misbehavior_evidence
    (λ height, Ok (Evidence_empty height)).
Definition get_proposal_monitor_data_range (from count : Z) :=
  read_height_range PROPOSAL_MONITOR_DATA_TABLE from count decode_proposal_monitor_data
    (λ _, Err NotRecorded).
Definition get_invalid_payloads_range (from count : Z) :=
  read_height_range INVALID_PAYLOADS_TABLE from count decode_invalid_payloads
    (λ height, Ok (InvalidPayloads_empty height)).

(** ** Undecided blocks *)

Definition get_undecided_block (height : Z) (round : Round) (hash : bytes)
    : M Db StoreError (option ConsensusBlock) :=
  with_read (λ t,
    transpose ((λ b, map_err StoreDecode (decode_block b)) <$> bt_get (height, round, hash) (undecided_blocks t))).

Fixpoint find_undecided (height : Z) (hash : bytes) (l : list (BlockKey * bytes))
    : result StoreError (option ConsensusBlock) :=
  match l with
  | [] => Ok None
  | ((key_height, _, key_block_hash), b) :: l =>
      if decide (key_height = height ∧ key_block_hash = hash)
      then Some <$> map_err StoreDecode (decode_block b)
      else find_undecided height hash l
  end.
Definition get_undecided_block_by_height_and_block_hash (height : Z) (hash : bytes)
    : M Db StoreError (option ConsensusBlock) :=
  with_read (λ t, find_undecided height hash (undecided_blocks t)).

(** [table.range(start..end)], then the entries of exactly this height and round. *)
Definition get_undecided_blocks (height : Z) (round : Round) : M Db StoreError (list ConsensusBlock) :=
  with_read (λ t,
    let range_start := (height, round, ZERO_HASH) in
    let range_end := (height, round_from_i64 (round_as_i64 round + 1), ZERO_HASH) in
    let range := filter (λ kv, key_in range_start range_end kv = true) (undecided_blocks t) in
    mapM (λ kv, map_err StoreDecode (decode_block kv.2))
      (filter (λ kv, kv.1.1 = (height, round)) range)).

Definition insert_undecided_block (b : ConsensusBlock) (t : Tables) : Tables :=
  set_undecided t (bt_insert block_key_lt (block_height b, block_round b, self_reported_block_hash b)
                     (encode_block b) (undecided_blocks t)).

Definition store_undecided_block (b : ConsensusBlock) : M Db StoreError unit :=
  with_write (λ t, Ok (tt, insert_undecided_block b t)).

(** ** Pending proposal parts *)

Definition remove_pending_proposal_parts (p : ProposalParts) (t : Tables) : Tables :=
  set_pending t (bt_remove (pending_key p) (pending_proposal_parts t)).

Definition remove_pending_parts_and_store_undecided_block (p : ProposalParts) (b : ConsensusBlock)
    : M Db StoreError unit :=
  with_write (λ t, Ok (tt, insert_undecided_block b (remove_pending_proposal_parts p t))).

Definition get_pending_proposal_parts (height : Z) (round : Round) : M Db StoreError (list ProposalParts) :=
  with_read (λ t,
    mapM (λ kv, map_err StoreDecode (decode_parts kv.2))
      (filter (λ kv, kv.1.1 = (height, round)) (pending_proposal_parts t))).

Definition get_pending_proposal_parts_count : M Db StoreError Z :=
  with_read (λ t, Ok (Z.of_nat (length (pending_proposal_parts t)))).

(** [*counts.entry(height).or_insert(0) += 1] over the table. *)
Definition count_height (counts : list (Z * Z)) (kv : BlockKey * bytes) : list (Z * Z) :=
  let height := key_height kv.1 in
  bt_insert Z.ltb height (default 0 (bt_get height counts) + 1) counts.
Definition get_pending_proposal_parts_counts : M Db StoreError (list (Z * Z)) :=
  with_read (λ t, Ok (foldl count_height [] (pending_proposal_parts t))).

(** The last height at which parts are kept: [max] heights from the current one on. *)
Definition max_allowed_height (max current_height : Z) (msg : string) : result StoreError Z :=
  n ← ok_or (checked_sub 64 max 1) (StorePanicked msg);
  ok_or (height_increment_by current_height n) (StorePanicked "block height overflow").

Definition insert_pending_proposal_parts (p : ProposalParts) (max_pending_parts current_height : Z)
    : M Db StoreError bool :=
  allowed <-- m_lift (max_allowed_height max_pending_parts current_height "max_pending_parts must be > 0") ;;
  if decide (allowed < parts_height p) then m_ret false
  else
    value <-- m_lift (map_err store_proto (encode_parts p)) ;;
    with_write (λ t,
      if decide (Z.of_nat (length (pending_proposal_parts t)) < max_pending_parts)
      then Ok (true, set_pending t (bt_insert block_key_lt (pending_key p) value (pending_proposal_parts t)))
      else Ok (false, t)).

Definition keys_to_remove (max_pending current_height allowed : Z) (keys : list BlockKey) : list BlockKey :=
  let stale := filter (λ k, key_height k < current_height) keys in
  let within := filter (λ k, ¬ key_height k < current_height ∧ key_height k ≤ allowed) keys in
  let far := filter (λ k, ¬ key_height k < current_height ∧ ¬ key_height k ≤ allowed) keys in
  stale ++ far ++ drop (Z.to_nat max_pending) within.

Definition enforce_pending_proposals_limit (max_pending_proposals current_height : Z)
    : M Db StoreError (list BlockKey) :=
  with_write (λ t,
    allowed ← max_allowed_height max_pending_proposals current_height "max_pending_proposals must be > 0";
    let keys := keys_to_remove max_pending_proposals current_height allowed (fst <$> pending_proposal_parts t) in
    Ok (keys, set_pending t (foldl (λ l k, bt_remove k l) (pending_proposal_parts t) keys))).

(** ** Cleaning and pruning *)

Definition clean_stale_consensus_data (current_height : Z) : M Db StoreError unit :=
  with_write (λ t,
    let keep := filter (λ kv : BlockKey * bytes, current_height < key_height kv.1) in
    Ok (tt, set_pending (set_undecided t (keep (undecided_blocks t))) (keep (pending_proposal_parts t)))).

Definition RETH_AMNESIA_HEIGHT_COUNT : Z := 10000.
Definition PRUNE_BATCH_LIMIT : nat := 300.

(** [height_range(&t, ..retain_height, limit)] *)
Definition height_range (l : list (Z * bytes)) (retain_height : Z) (limit : nat) : list Z :=
  fst <$> take limit (filter (λ kv : Z * bytes, kv.1 < retain_height) l).

Definition prune_height_table_batch (retain_height : Z) (id : HeightTable) : M Db StoreError (list Z) :=
  _ <-- max_height ;;
  keys <-- with_read (λ t, Ok (height_range (height_table t id) retain_height PRUNE_BATCH_LIMIT)) ;;
  match keys with
  | [] => m_ret []
  | _ => with_write (λ t, Ok (keys, foldl (λ t h, remove_height t id h) t keys))
  end.

Definition prune_historical_certs (retain_height : Z) := prune_height_table_batch retain_height CERTIFICATES_TABLE.
Definition prune_blocks : M Db StoreError (list Z) :=
  max <-- max_height ;;
  let curr_height := default 0 max in
  prune_height_table_batch (height_saturating_sub curr_height RETH_AMNESIA_HEIGHT_COUNT) DECIDED_BLOCKS_TABLE.
Definition prune_proposal_monitor_data (retain_height : Z) :=
  prune_height_table_batch retain_height PROPOSAL_MONITOR_DATA_TABLE.
Definition prune_misbehavior_evidence (retain_height : Z) :=
  prune_height_table_batch retain_height MISBEHAVIOR_EVIDENCE_TABLE.
Definition prune_invalid_payloads (retain_height : Z) :=
  prune_height_table_batch retain_height INVALID_PAYLOADS_TABLE.

(** ** The pruning service *)

Record PruningConfig := mkPruningConfig { certificates_distance : Z; certificates_before : Z }.
Definition pruning_enabled (c : PruningConfig) : bool :=
  bool_decide (0 < certificates_distance c) || bool_decide (0 < certificates_before c).
Definition effective_certificates_min_height (c : PruningConfig) (current_height : Z) : Z :=
  if decide (0 < certificates_before c) then certificates_before c
  else if decide (0 < certificates_distance c)
  then height_saturating_sub current_height (certificates_distance c)
  else 0.

(** [if let Err(e) = call { error!(..) }] *)
Definition logged {A} (m : M Db StoreError A) : M Db StoreError unit := λ db, (Ok tt, (m db).2).

(** [PruningService::prune_historical_certs]: the four tables in turn, the result of the first. *)
Definition service_prune_historical_certs (c : PruningConfig) (latest_height : Z) : M Db StoreError (list Z) :=
  if negb (pruning_enabled c) then m_ret []
  else λ db,
    let retain_height := effective_certificates_min_height c latest_height in
    let '(pruned_certs, db) := prune_historical_certs retain_height db in
    let '(_, db) := (logged (prune_proposal_monitor_data retain_height) ;;;
                     logged (prune_misbehavior_evidence retain_height) ;;;
                     logged (prune_invalid_payloads retain_height)) db in
    (pruned_certs, db).
End Store.
