(* ===== verification/Migrations.v ===== *)
(** * Migrating the consensus database

    consensus-db/src/migrations.rs and migrations/migrators.rs, the schema version of
    versions.rs, [Db::new] and [Store::open] of store.rs, and the command [db migrate] of
    malachite-app/src/main.rs: rows written before values had a version byte get one, table by
    table, when the database is opened.

    A [File] is the database with its metadata table, and the faults redb will report, one per
    transaction as in Store.  A process that dies between two transactions leaves what a fault
    at the second one leaves.  The conversion of the file format by redb itself is not modelled,
    nor are the durations and logs. *)

From S2P Require Import Prelude BTree Validators Proposal Codec StoreCodec Store.

(** ** Schema versions *)

(** A [SchemaVersion] is a [u8]. *)
Definition V0 : Z := 0.
Definition V1 : Z := 1.
Definition DB_SCHEMA_VERSION : Z := V1.
Definition version_next (v : Z) : option Z := checked_add 8 v 1.

(** ** The file *)

(** [metadata]: the metadata table, if it exists, with the schema version, if it is set;
    [created]: whether the tables keyed by height have been created. *)
Record Contents := mkContents {
  metadata : option (option Z);
  created : bool;
  rows : Tables;
}.
Record File := mkFile { contents : Contents; file_faults : list bool }.

Definition set_rows (c : Contents) (t : Tables) : Contents := mkContents (metadata c) (created c) t.

Definition file_fault (f : File) : bool := match file_faults f with b :: _ => b | [] => false end.
Definition read_tx {A} (g : Contents → result StoreError A) : M File StoreError A := λ f,
  if file_fault f then (Err Storage, mkFile (contents f) (tail (file_faults f)))
  else (g (contents f), mkFile (contents f) (tail (file_faults f))).
Definition write_tx {A} (g : Contents → result StoreError (A * Contents)) : M File StoreError A := λ f,
  if file_fault f then (Err Storage, mkFile (contents f) (tail (file_faults f)))
  else match g (contents f) with
       | Ok (a, c) => (Ok a, mkFile c (tail (file_faults f)))
       | Err e => (Err e, mkFile (contents f) (tail (file_faults f)))
       end.

(** [open_table] in a read transaction fails when the table does not exist. *)
Definition current_schema_version : M File StoreError (option Z) :=
  read_tx (λ c, ok_or (metadata c) Storage).
Definition set_schema_version (version : Z) : M File StoreError unit :=
  write_tx (λ c, Ok (tt, mkContents (Some (Some version)) (created c) (rows c))).
Definition ensure_metadata_table_exists : M File StoreError unit :=
  write_tx (λ c, Ok (tt, mkContents (Some (default None (metadata c))) (created c) (rows c))).

Definition unsupported (v : Z) : StoreError := StoreDecode (UnsupportedVersionOf (byte.of_Z v)).

(** [MigrationCoordinator::needs_migration] *)
Definition needs_migration (db_exists : bool) : M File StoreError bool :=
  ensure_metadata_table_exists ;;;
  current <-- current_schema_version ;;
  match current with
  | None =>
      if db_exists then set_schema_version V0 ;;; m_ret true
      else set_schema_version DB_SCHEMA_VERSION ;;; m_ret false
  | Some v =>
      if decide (v < DB_SCHEMA_VERSION) then m_ret true
      else if decide (DB_SCHEMA_VERSION < v) then m_err (unsupported v)
      else m_ret false
  end.

(** ** Migrators *)

Record Migrator := mkMigrator {
  source_version : Z;
  target_version : Byte.byte;
  migrate_record : bytes → result StoreError bytes;
  record_needs_migration : bytes → bool;
}.
Record MigratorSet := mkMigratorSet {
  ms_certificate : Migrator;
  ms_decided_block : Migrator;
  ms_undecided_block : Migrator;
  ms_pending_parts : Migrator;
}.

(** The body all four migrators have: the version byte is prepended to every record. *)
Definition prepend_version (version : Byte.byte) (old_bytes : bytes) : result StoreError bytes :=
  match old_bytes with
  | [] => Err (StoreDecode EmptyVersion)
  | _ => Ok (version :: old_bytes)
  end.
Definition CommitCertificateMigrator0To1 : Migrator :=
  mkMigrator V0 CommitCertificateVersion (prepend_version CommitCertificateVersion) (λ _, true).
Definition ExecutionPayloadMigrator0To3 : Migrator :=
  mkMigrator V0 ExecutionPayloadVersion (prepend_version ExecutionPayloadVersion) (λ _, true).
Definition ConsensusBlockMigrator0To1 : Migrator :=
  mkMigrator V0 ConsensusBlockVersion (prepend_version ConsensusBlockVersion) (λ _, true).
Definition ProposalPartsMigrator0To1 : Migrator :=
  mkMigrator V0 ProposalPartsVersion (prepend_version ProposalPartsVersion) (λ _, true).
Definition MigratorSet_v1 : MigratorSet :=
  mkMigratorSet CommitCertificateMigrator0To1 ExecutionPayloadMigrator0To3 ConsensusBlockMigrator0To1
    ProposalPartsMigrator0To1.

Definition get_migrators_for_version (version : Z) : result StoreError MigratorSet :=
  if decide (version = V1) then Ok MigratorSet_v1 else Err (unsupported version).

(** [from.next().as_u8()..=to.as_u8()] *)
Definition build_migration_chain (from to : Z) : result StoreError (list (Z * MigratorSet)) :=
  first ← ok_or (version_next from) (StorePanicked "schema version overflow");
  mapM (λ version, migrators ← get_migrators_for_version version; Ok (version, migrators))
    (seqZ first (to - first + 1)).

(** ** Statistics *)

Record MigrationStats := mkMigrationStats {
  tables_migrated : Z;
  records_scanned : Z;
  records_upgraded : Z;
  records_skipped : Z;
}.
Definition stats_default : MigrationStats := mkMigrationStats 0 0 0 0.
Definition stats_merge (a b : MigrationStats) : MigrationStats :=
  mkMigrationStats (tables_migrated a + tables_migrated b) (records_scanned a + records_scanned b)
    (records_upgraded a + records_upgraded b) (records_skipped a + records_skipped b).
(** The statistics of one table, at the end of its migration. *)
Definition table_stats (scanned upgraded : Z) : MigrationStats :=
  mkMigrationStats 1 scanned upgraded (scanned - upgraded).

(** ** One table *)

Definition BATCH_SIZE : nat := 1000.

Definition migrate_row (m : Migrator) (msg : string) (b : bytes) : result StoreError (option bytes) :=
  if record_needs_migration m b then map_err (λ _, StoreMigration msg) (Some <$> migrate_record m b) else Ok None.
Definition push_row {K} (k : K) (up : option bytes) (batch : list (K * bytes)) : list (K * bytes) :=
  match up with Some b => (k, b) :: batch | None => batch end.

(** The rows of a batch: the upgraded ones, and the height the next batch starts at. *)
Fixpoint scan_batch (m : Migrator) (msg : string) (l : list (Z * bytes)) (next_height : Z)
    : result StoreError (list (Z * bytes) * Z) :=
  match l with
  | [] => Ok ([], next_height)
  | (key, b) :: l =>
      up ← migrate_row m msg b;
      next_height ← ok_or (height_increment key) (StorePanicked "block height overflow");
      rest ← scan_batch m msg l next_height;
      Ok (push_row key up rest.1, rest.2)
  end.

(** One transaction of the loop: how many rows it scanned and upgraded, and the next height. *)
Definition migrate_batch (id : HeightTable) (m : Migrator) (msg : string) (dry_run : bool) (next_height : Z)
    : M File StoreError (Z * Z * Z) :=
  write_tx (λ c,
    let l := height_table (rows c) id in
    let entries := take BATCH_SIZE (filter (λ kv : Z * bytes, next_height ≤ kv.1) l) in
    scanned ← scan_batch m msg entries next_height;
    let l' := foldl (λ l kv, bt_insert Z.ltb kv.1 kv.2 l) l scanned.1 in
    Ok ((Z.of_nat (length entries), Z.of_nat (length scanned.1), scanned.2),
        if dry_run then c else set_rows c (set_height_table (rows c) id l'))).

Fixpoint migrate_batches (fuel : nat) (id : HeightTable) (m : Migrator) (msg : string) (dry_run : bool)
    (next_height scanned upgraded : Z) : M File StoreError MigrationStats :=
  match fuel with
  | O => m_err (StorePanicked "out of fuel")
  | S fuel =>
      batch <-- migrate_batch id m msg dry_run next_height ;;
      let '(records_scanned, records_upgraded, next_height) := batch in
      let scanned := scanned + records_scanned in
      let upgraded := upgraded + records_upgraded in
      if decide (records_scanned < Z.of_nat BATCH_SIZE) then m_ret (table_stats scanned upgraded)
      else migrate_batches fuel id m msg dry_run next_height scanned upgraded
  end.

Definition migrate_height_table (id : HeightTable) (msg : string) (m : Migrator) (dry_run : bool)
    : M File StoreError MigrationStats :=
  first <-- read_tx (λ c, if created c then Ok (head (height_table (rows c) id)) else Err Storage) ;;
  match first with
  | None => m_ret (table_stats 0 0)
  | Some (min_height, _) =>
      f <-- m_get ;;
      migrate_batches (S (length (height_table (rows (contents f)) id))) id m msg dry_run min_height 0 0
  end.
Definition migrate_certificates : Migrator → bool → M File StoreError MigrationStats :=
  migrate_height_table CERTIFICATES_TABLE "Failed to migrate certificate".
Definition migrate_decided_blocks : Migrator → bool → M File StoreError MigrationStats :=
  migrate_height_table DECIDED_BLOCKS_TABLE "Failed to migrate decided block".

(** The tables of blocks that are not decided fit in one transaction. *)
Fixpoint scan_table (m : Migrator) (msg : string) (l : list (BlockKey * bytes))
    : result StoreError (list (BlockKey * bytes)) :=
  match l with
  | [] => Ok []
  | (key, b) :: l =>
      up ← migrate_row m msg b;
      rest ← scan_table m msg l;
      Ok (push_row key up rest)
  end.
Definition migrate_key_table (get : Tables → list (BlockKey * bytes)) (set : Tables → list (BlockKey * bytes) → Tables)
    (msg : string) (m : Migrator) (dry_run : bool) : M File StoreError MigrationStats :=
  write_tx (λ c,
    let l := get (rows c) in
    to_migrate ← scan_table m msg l;
    let l' := foldl (λ l kv, bt_insert block_key_lt kv.1 kv.2 l) l to_migrate in
    Ok (table_stats (Z.of_nat (length l)) (Z.of_nat (length to_migrate)),
        if dry_run then c else set_rows c (set (rows c) l'))).
Definition migrate_undecided_blocks : Migrator → bool → M File StoreError MigrationStats :=
  migrate_key_table undecided_blocks set_undecided "Failed to migrate undecided block".
Definition migrate_pending_parts : Migrator → bool → M File StoreError MigrationStats :=
  migrate_key_table pending_proposal_parts set_pending "Failed to migrate pending parts".

(** ** The whole database *)

(** The four tables of one step of the chain. *)
Definition migrate_step (ms : MigratorSet) (dry_run : bool) (stats : MigrationStats) : M File StoreError MigrationStats :=
  c <-- migrate_certificates (ms_certificate ms) dry_run ;;
  d <-- migrate_decided_blocks (ms_decided_block ms) dry_run ;;
  u <-- migrate_undecided_blocks (ms_undecided_block ms) dry_run ;;
  p <-- migrate_pending_parts (ms_pending_parts ms) dry_run ;;
  m_ret (stats_merge (stats_merge (stats_merge (stats_merge stats c) d) u) p).

Fixpoint migrate_chain (chain : list (Z * MigratorSet)) (stats : MigrationStats) : M File StoreError MigrationStats :=
  match chain with
  | [] => m_ret stats
  | (schema_version, migrators) :: chain =>
      stats <-- migrate_step migrators false stats ;;
      set_schema_version schema_version ;;;
      migrate_chain chain stats
  end.
Definition migrate : M File StoreError MigrationStats :=
  current <-- current_schema_version ;;
  from_version <-- m_lift (ok_or current (StorePanicked "Database schema version should be set")) ;;
  migration_chain <-- m_lift (build_migration_chain from_version DB_SCHEMA_VERSION) ;;
  migrate_chain migration_chain stats_default.

Fixpoint preview_chain (chain : list (Z * MigratorSet)) (stats : MigrationStats) : M File StoreError MigrationStats :=
  match chain with
  | [] => m_ret stats
  | (_, migrators) :: chain =>
      stats <-- migrate_step migrators true stats ;;
      preview_chain chain stats
  end.
Definition preview_migrate : M File StoreError MigrationStats :=
  current <-- current_schema_version ;;
  from_version <-- m_lift (ok_or current
                    (StoreMigration "database schema version is not set; cannot preview migration")) ;;
  migration_chain <-- m_lift (build_migration_chain from_version DB_SCHEMA_VERSION) ;;
  preview_chain migration_chain stats_default.

(** ** Opening *)

Inductive DbUpgrade := Skip | Perform.

(** [Db::new] *)
Definition Db_new (db_upgrade : DbUpgrade) (db_exists : bool) : M File StoreError unit :=
  match db_upgrade with
  | Skip => m_ret tt
  | Perform =>
      needed <-- needs_migration db_exists ;;
      if needed : bool then migrate ;;; m_ret tt else m_ret tt
  end.
Definition create_tables : M File StoreError unit :=
  write_tx (λ c, Ok (tt, mkContents (metadata c) true (rows c))).
(** [Store::open] *)
Definition Store_open (db_upgrade : DbUpgrade) (db_exists : bool) : M File StoreError unit :=
  Db_new db_upgrade db_exists ;;;
  create_tables.

(** The command, on a file that exists; [None] when there is nothing to do. *)
Definition db_migrate (dry_run : bool) : M File StoreError (option MigrationStats) :=
  needed <-- needs_migration true ;;
  if negb needed then m_ret None
  else if dry_run then stats <-- preview_migrate ;; m_ret (Some stats)
  else stats <-- migrate ;; m_ret (Some stats).
