(* ===== verification/StoreCodecProps.v ===== *)
(** * Properties of the stored encodings

    What the consensus database writes it reads back, for all seven kinds of rows. *)

From S2P Require Import Prelude Validators Proposal Codec CodecProps StoreCodec Store.

(** Encoding succeeds, and decoding gives the value back. *)
Definition reads_back {E F A} (wf : A → Prop) (dec : bytes → result F A) (enc : A → result E bytes) : Prop :=
  ∀ a, wf a → ∃ b, enc a = Ok b ∧ dec b = Ok a.

#[local] Arguments Address_from_proto : simpl never.
#[local] Arguments Address_to_proto : simpl never.
#[local] Arguments mapM : simpl never.

Section StoreCodecProps.
Context `{PC : ProposalCrypto} {PCL : ProposalCryptoLaws} {SB : SignatureBytes} {SL : SignatureLaws}.
Context {SZ : SszBlockCodec}.
#[local] Arguments decode_vote : simpl never.
#[local] Arguments encode_vote : simpl never.
#[local] Arguments decode_signed_proposal : simpl never.
#[local] Arguments encode_signed_proposal : simpl never.

(** SSZ reads back what it wrote, for values of the Rust types. *)
Definition wf_block (b : ConsensusBlock) : Prop :=
  uint 64 (block_height b) ∧ (∀ r, block_round b = Some r → uint 32 r)
  ∧ (∀ r, valid_round b = Some r → uint 32 r) ∧ uint 160 (block_proposer b).
Class SszBlockLaws : Prop := {
  ssz_block_back : ∀ b, wf_block b →
    ssz_block_decode (ssz_block_encode (block_as_ssz_data b)) = Some (block_as_ssz_data b);
}.
Context {SZL : SszBlockLaws}.

Lemma with_version_same {A} v (body : bytes → result DecodeError A) b : with_version v body (v :: b) = body b.
Proof. cbn. by rewrite decide_True. Qed.

(** A versioned row over an exact conversion to a message. *)
Lemma framed_reads_back {A P} `{PM : ProstMessage P} {PL : ProstLaws P} (wf : A → Prop) v
    (from : P → result DecodeError A) (to : A → result ProtoError P) :
  (∀ a, wf a → ∃ p, to a = Ok p ∧ from p = Ok a) →
  reads_back wf (with_version v (λ b, p ← ok_or (prost_decode b) ProtobufDecode; from p))
    (λ a, p ← to a; Ok (v :: encode_to_vec p)).
Proof.
  intros X a W. destruct (X a W) as (p & T & F). exists (v :: encode_to_vec p). rewrite T. split; [done|].
  by rewrite with_version_same, prost_decode_encode.
Qed.

Lemma map_err_of_exact {E F A P} (g : E → F) (wf : A → Prop) (from : P → result E A) (to : A → result E P) :
  exact wf from to → ∀ a, wf a → ∃ p, to a = Ok p ∧ map_err g (from p) = Ok a.
Proof. intros [X _] a W. destruct (X a W) as (p & T & Fr). exists p. by rewrite T, Fr. Qed.

Lemma payload_reads_back :
  reads_back (E := ProtoError) (λ _, True) decode_execution_payload (λ p, Ok (encode_execution_payload p)).
Proof.
  intros p _. eexists. split; [done|]. unfold decode_execution_payload, encode_execution_payload.
  by rewrite with_version_same, from_as_ssz.
Qed.

Lemma block_reads_back : reads_back (E := ProtoError) wf_block decode_block (λ b, Ok (encode_block b)).
Proof.
  intros b W. eexists. split; [done|]. unfold decode_block, encode_block.
  rewrite with_version_same, ssz_block_back by done. destruct b. cbn. by rewrite validity_roundtrip.
Qed.

Lemma parts_reads_back `{PM : ProstMessage pProposalParts} {PL : ProstLaws pProposalParts} :
  reads_back wf_parts decode_parts encode_parts.
Proof. apply (framed_reads_back wf_parts), map_err_of_exact, parts_exact. Qed.

Lemma certificate_reads_back `{PM : ProstMessage pStoreCommitCertificate} {PL : ProstLaws pStoreCommitCertificate} :
  reads_back wf_stored_certificate decode_certificate encode_certificate.
Proof. apply (framed_reads_back wf_stored_certificate), map_err_of_exact, stored_certificate_exact. Qed.

(** Times are whole milliseconds after the epoch, as the encoding keeps them. *)
Definition wf_monitor (d : ProposalMonitor) : Prop :=
  wf_address (pm_proposer d) ∧ uint 64 (pm_start_time d)
  ∧ (∀ t, pm_receive_time d = Some t → 0 < t ∧ uint 64 t)
  ∧ (∀ v, pm_value_id d = Some v → wf_value_id v).
Lemma millis_id t : uint 64 t → millis_since_epoch t = t.
Proof. unfold uint, millis_since_epoch. intros U. rewrite Z.max_r by lia. apply Z.mod_small. lia. Qed.
Lemma success_roundtrip s : success_from_u32 (success_as_u32 s) = s.
Proof. by destruct s. Qed.

Lemma monitor_back d : wf_monitor d → ∃ p, monitor_to_proto d = Ok p ∧ monitor_from_proto p = Ok d.
Proof.
  intros (Wa & Ws & Wt & Wv). destruct d as [h a s t v y z]. cbn in Wa, Ws, Wt, Wv.
  destruct (proj1 address_exact a Wa) as (pa & T & F).
  unfold monitor_to_proto, monitor_from_proto. cbn -[millis_since_epoch success_from_u32 success_as_u32].
  rewrite T. cbn -[millis_since_epoch success_from_u32 success_as_u32]. eexists. split; [done|].
  cbn -[millis_since_epoch success_from_u32 success_as_u32 exactly]. rewrite F.
  cbn -[millis_since_epoch success_from_u32 success_as_u32 exactly].
  rewrite success_roundtrip, (millis_id s Ws). f_equal. f_equal.
  - destruct t as [t|]; [|done]. destruct (Wt t eq_refl) as [P U]. cbn -[millis_since_epoch].
    by rewrite (millis_id t U), decide_True.
  - destruct v as [[v]|]; [|done]. pose proof (Wv _ eq_refl) as L. unfold wf_value_id in L. cbn in L.
    cbn -[exactly]. by rewrite exactly_ok.
Qed.
Lemma monitor_reads_back `{PM : ProstMessage pProposalMonitorData} {PL : ProstLaws pProposalMonitorData} :
  reads_back wf_monitor decode_proposal_monitor_data encode_proposal_monitor_data.
Proof. apply (framed_reads_back wf_monitor), monitor_back. Qed.

(** ** Evidence *)

Lemma required_exact {A} what (wf : A → Prop) dec enc : exact wf dec enc →
  ∀ a, wf a → ∃ p, enc a = Ok p ∧ required what dec (Some p) = Ok a.
Proof. intros [X _] a W. destruct (X a W) as (p & T & F). exists p. split; [done|]. cbn. by rewrite F. Qed.

(** Lists of values that convert back. *)
Lemma mapM_back {E F A P} (wf : A → Prop) (from : P → result F A) (to : A → result E P) l :
  (∀ a, wf a → ∃ p, to a = Ok p ∧ from p = Ok a) → Forall wf l →
  ∃ ps, mapM to l = Ok ps ∧ mapM from ps = Ok l.
Proof.
  intros X. induction 1 as [|a l Wa _ (ps & I1 & I2)]; [by exists []|].
  destruct (X a Wa) as (p & T & Fr). exists (p :: ps). by rewrite !mapM_cons, T, Fr, I1, I2.
Qed.

Definition wf_double_vote (d : DoubleVote) : Prop := wf_signed_vote (dv_first d) ∧ wf_signed_vote (dv_second d).
Lemma double_vote_back d : wf_double_vote d →
  ∃ p, encode_double_vote d = Ok p ∧ decode_proto_double_vote p = Ok d.
Proof.
  destruct d as [v w]. intros [Wv Ww]. cbn in Wv, Ww.
  destruct (required_exact "Missing first vote in double vote" _ _ _ signed_vote_exact v Wv) as (p & T & F).
  destruct (required_exact "Missing second vote in double vote" _ _ _ signed_vote_exact w Ww) as (q & T' & F').
  unfold encode_double_vote, decode_proto_double_vote. cbn -[required]. rewrite T. cbn -[required]. rewrite T'.
  eexists. split; [done|]. cbn -[required]. rewrite F. cbn -[required]. by rewrite F'.
Qed.

Definition wf_double_proposal (d : DoubleProposal) : Prop :=
  wf_signed_proposal (dp_first d) ∧ wf_signed_proposal (dp_second d).
Lemma double_proposal_back d : wf_double_proposal d →
  ∃ p, encode_double_proposal d = Ok p ∧ decode_proto_double_proposal p = Ok d.
Proof.
  destruct d as [v w]. intros [Wv Ww]. cbn in Wv, Ww.
  destruct (required_exact "Missing first proposal in double proposal" _ _ _ signed_proposal_exact v Wv)
    as (p & T & F).
  destruct (required_exact "Missing second proposal in double proposal" _ _ _ signed_proposal_exact w Ww)
    as (q & T' & F').
  unfold encode_double_proposal, decode_proto_double_proposal. cbn -[required]. rewrite T. cbn -[required].
  rewrite T'. eexists. split; [done|]. cbn -[required]. rewrite F. cbn -[required]. by rewrite F'.
Qed.

Definition wf_validator_evidence (v : ValidatorEvidence) : Prop :=
  wf_address (ve_address v) ∧ Forall wf_double_vote (double_votes v)
  ∧ Forall wf_double_proposal (double_proposals v).
Lemma validator_evidence_back v : wf_validator_evidence v →
  ∃ p, encode_validator_evidence v = Ok p ∧ decode_proto_validator_evidence p = Ok v.
Proof.
  destruct v as [a vs ps]. intros (Wa & Wv & Wp). cbn in Wa, Wv, Wp.
  destruct (proj1 address_exact a Wa) as (pa & T & F).
  destruct (mapM_back _ _ _ _ double_vote_back Wv) as (pvs & T1 & F1).
  destruct (mapM_back _ _ _ _ double_proposal_back Wp) as (pps & T2 & F2).
  unfold encode_validator_evidence, decode_proto_validator_evidence. cbn. rewrite T1. cbn. rewrite T2. cbn.
  rewrite T. eexists. split; [done|]. cbn. rewrite F. cbn. rewrite F1. cbn. by rewrite F2.
Qed.

Definition wf_evidence (e : StoredMisbehaviorEvidence) : Prop := Forall wf_validator_evidence (ev_validators e).
Lemma evidence_reads_back `{PM : ProstMessage pMisbehaviorEvidence} {PL : ProstLaws pMisbehaviorEvidence} :
  reads_back wf_evidence decode_misbehavior_evidence encode_misbehavior_evidence.
Proof.
  intros [h vs] W. destruct (mapM_back _ _ _ _ validator_evidence_back W) as (pvs & T & F).
  unfold encode_misbehavior_evidence, decode_misbehavior_evidence. cbn [ev_validators ev_height] in *.
  rewrite T. eexists. split; [done|]. rewrite with_version_same, prost_decode_encode. cbn.
  unfold decode_proto_misbehavior_evidence. cbn. by rewrite F.
Qed.

(** ** Invalid payloads *)

Definition wf_invalid_payload (p : InvalidPayload) : Prop :=
  some_round (ip_round p) ∧ wf_address (ip_proposer_address p).
Lemma invalid_payload_back p : wf_invalid_payload p →
  ∃ q, encode_invalid_payload p = Ok q ∧ decode_proto_invalid_payload q = Ok p.
Proof.
  destruct p as [h r a pl re]. intros [[z R] Wa]. cbn in R, Wa. subst r.
  destruct (proj1 address_exact a Wa) as (pa & T & F).
  unfold encode_invalid_payload, decode_proto_invalid_payload. cbn. rewrite T. eexists. split; [done|].
  cbn. rewrite F. cbn. destruct pl as [pl|]; [|done]. cbn. by rewrite from_as_ssz.
Qed.
Definition wf_invalid_payloads (s : StoredInvalidPayloads) : Prop := Forall wf_invalid_payload (sip_payloads s).
Lemma invalid_payloads_reads_back `{PM : ProstMessage pInvalidPayloads} {PL : ProstLaws pInvalidPayloads} :
  reads_back wf_invalid_payloads decode_invalid_payloads encode_invalid_payloads.
Proof.
  intros [h ps] W. destruct (mapM_back _ _ _ _ invalid_payload_back W) as (q & T & F).
  unfold encode_invalid_payloads, decode_invalid_payloads. cbn [sip_payloads sip_height] in *.
  rewrite T. eexists. split; [done|]. rewrite with_version_same, prost_decode_encode. cbn.
  unfold decode_proto_invalid_payloads. cbn. by rewrite F.
Qed.
End StoreCodecProps.
