(* ===== verification/StoreProps.v ===== *)
(** * Properties of the consensus database

    The order of the composite keys, the shape of the tables, and rollback: it removes
    exactly a range of heights from all seven tables, and a failure in the middle leaves the
    tables cut at one height. *)

From stdpp Require Import sorting.
From S2P Require Import Prelude BTree Validators Proposal Codec StoreCodec Store.

(** ** Composite keys *)

(** The keys the program builds: a round that is nil or a [u32], a 32-byte hash. *)
Definition wf_round (r : Round) : Prop := ∀ z, r = Some z → 0 ≤ z < 2 ^ 32.
Definition wf_key (k : BlockKey) : Prop := wf_round k.1.2 ∧ length k.2 = 32%nat.

Lemma wf_round_i64 r : wf_round r → -1 ≤ round_as_i64 r.
Proof. intros W. destruct r as [z|]; cbn; [specialize (W z eq_refl)|]; lia. Qed.

Lemma bytes_lt_zero x n : length x = n → bytes_lt x (replicate n Byte.x00) = false.
Proof.
  intros <-. induction x as [|b x IH]; [done|]. cbn. case_decide; [done|].
  apply bool_decide_eq_false. pose proof (byte.unsigned_range b). change (byte.unsigned Byte.x00) with 0. lia.
Qed.

(** The range of composite keys of a rollback batch is a range of heights. *)
Lemma key_in_heights lo hi k v : wf_key k →
  key_in (lo, None, ZERO_HASH) (hi, None, ZERO_HASH) (k, v) = bool_decide (lo ≤ key_height k < hi).
Proof.
  destruct k as [[h r] x]. intros [W L]. cbn in W, L. pose proof (wf_round_i64 r W) as R.
  assert (∀ b, block_key_lt (h, r, x) (b, None, ZERO_HASH) = bool_decide (h < b)) as E.
  { intros b. unfold block_key_lt, ZERO_HASH. rewrite (bytes_lt_zero x 32 L), andb_false_r, orb_false_r.
    rewrite (bool_decide_eq_false_2 (round_as_i64 r < round_as_i64 None)) by (cbn; lia).
    by rewrite andb_false_r, orb_false_r. }
  unfold key_in, key_height. cbn [fst snd]. rewrite !E, <- bool_decide_not, <- bool_decide_and.
  apply bool_decide_ext. lia.
Qed.

(** ** The shape of the tables *)

Definition wf_height_table (l : list (Z * bytes)) : Prop :=
  bt_sorted Z.ltb l ∧ Forall (λ kv, uint 64 kv.1) l.
Definition wf_key_table (l : list (BlockKey * bytes)) : Prop :=
  bt_sorted block_key_lt l ∧ Forall (λ kv, wf_key kv.1) l.

Definition tables_wf (t : Tables) : Prop :=
  (∀ id, wf_height_table (height_table t id))
  ∧ wf_key_table (undecided_blocks t) ∧ wf_key_table (pending_proposal_parts t).

Lemma sorted_le_last (l : list (Z * bytes)) k v h : bt_sorted Z.ltb l → last l = Some (k, v) → h ∈ l.*1 → h ≤ k.
Proof.
  intros S L (kv & -> & Hin)%list_elem_of_fmap. apply last_Some in L as [l' ->].
  apply elem_of_app in Hin as [Hin|Hin]; [|apply list_elem_of_singleton in Hin as ->; cbn; lia].
  apply StronglySorted_app_1_elem_of with (x1 := kv) (x2 := (k, v)) in S; [|done|by left]. cbn in S. lia.
Qed.

(** ** Rollback *)

(** The tables without the heights from [lo] to below [hi]. *)
Definition outside (lo hi h : Z) : Prop := ¬ (lo ≤ h < hi).
#[global] Instance outside_decision lo hi h : Decision (outside lo hi h).
Proof. unfold outside. apply _. Defined.
Definition without (lo hi : Z) (t : Tables) : Tables :=
  let heights := filter (λ kv : Z * bytes, outside lo hi kv.1) in
  let keys := filter (λ kv : BlockKey * bytes, outside lo hi (key_height kv.1)) in
  mkTables (heights (certificates t)) (heights (decided_blocks t)) (heights (misbehavior_evidence t))
    (heights (invalid_payloads t)) (heights (proposal_monitor_data t)) (keys (undecided_blocks t))
    (keys (pending_proposal_parts t)).

(** How many entries [without] drops, table by table. *)
Definition dropped {K} (height : K → Z) (lo hi : Z) (l : list (K * bytes)) : Z :=
  Z.of_nat (length (filter (λ kv, lo ≤ height kv.1 < hi) l)).
Definition add_dropped (lo hi : Z) (t : Tables) (r : RollbackReport) : RollbackReport :=
  let heights n l := saturating_add 64 n (dropped id lo hi l) in
  let keys n l := saturating_add 64 n (dropped key_height lo hi l) in
  mkRollbackReport (heights (rr_certificates r) (certificates t)) (heights (rr_decided_blocks r) (decided_blocks t))
    (heights (rr_invalid_payloads r) (invalid_payloads t))
    (heights (rr_misbehavior_evidence r) (misbehavior_evidence t))
    (heights (rr_proposal_monitor_data r) (proposal_monitor_data t))
    (keys (rr_undecided_blocks r) (undecided_blocks t))
    (keys (rr_pending_proposal_parts r) (pending_proposal_parts t)).

Lemma count_in_dropped {K} (height : K → Z) inside lo hi n (l : list (K * bytes)) :
  n ≤ uint_max 64 → Forall (λ kv, inside kv = bool_decide (lo ≤ height kv.1 < hi)) l →
  count_in inside n l = saturating_add 64 n (dropped height lo hi l).
Proof.
  intros B F. unfold count_in, dropped. revert n B. induction F as [|kv l E F IH]; intros n B.
  { cbn. unfold saturating_add. lia. }
  cbn [foldl]. rewrite E, filter_cons. case_bool_decide; case_decide; try done; rewrite IH;
    unfold saturating_add; cbn [length]; lia.
Qed.

Lemma retain_in_without {K} (height : K → Z) inside lo hi (l : list (K * bytes)) :
  Forall (λ kv, inside kv = bool_decide (lo ≤ height kv.1 < hi)) l →
  retain_in inside false l = filter (λ kv, outside lo hi (height kv.1)) l.
Proof.
  intros F. unfold retain_in. induction F as [|kv l E F IH]; [done|].
  rewrite !filter_cons, E, IH. unfold outside. case_bool_decide; cbn; by repeat case_decide.
Qed.

Lemma retain_in_keep {K} (inside : K * bytes → bool) l : retain_in inside true l = l.
Proof.
  unfold retain_in. induction l as [|kv l IH]; [done|]. rewrite filter_cons, IH.
  by rewrite decide_True by apply orb_true_r.
Qed.

Definition report_wf (r : RollbackReport) : Prop :=
  Forall (λ n, n ≤ uint_max 64)
    [rr_certificates r; rr_decided_blocks r; rr_invalid_payloads r; rr_misbehavior_evidence r;
     rr_proposal_monitor_data r; rr_undecided_blocks r; rr_pending_proposal_parts r].

Lemma height_in_range lo hi (l : list (Z * bytes)) :
  Forall (λ kv, height_in lo hi kv = bool_decide (lo ≤ id kv.1 < hi)) l.
Proof.
  apply Forall_forall. intros kv _. unfold height_in. rewrite <- bool_decide_and. by apply bool_decide_ext.
Qed.
Lemma key_in_range lo hi l : Forall (λ kv, wf_key kv.1) l →
  Forall (λ kv, key_in (lo, None, ZERO_HASH) (hi, None, ZERO_HASH) kv
                = bool_decide (lo ≤ key_height kv.1 < hi)) l.
Proof. rewrite !Forall_forall. intros W [k v] Hin. apply key_in_heights. by apply (W _ Hin). Qed.

Definition keys_wf (t : Tables) : Prop :=
  Forall (λ kv, wf_key kv.1) (undecided_blocks t) ∧ Forall (λ kv, wf_key kv.1) (pending_proposal_parts t).

(** One batch drops a range of heights, or nothing in a dry run, and counts it. *)
Lemma rollback_batch_spec lo hi dry r t : report_wf r → keys_wf t →
  rollback_batch lo hi dry r t = (add_dropped lo hi t r, if dry then t else without lo hi t).
Proof.
  intros R [W1 W2]. unfold report_wf in R. rewrite !Forall_cons in R.
  destruct R as (R1 & R2 & R3 & R4 & R5 & R6 & R7 & _).
  unfold rollback_batch, add_dropped. f_equal.
  - f_equal; (apply count_in_dropped; [done|]); by (apply height_in_range || apply key_in_range).
  - destruct dry; [rewrite !retain_in_keep; by destruct t|]. unfold without.
    f_equal; (apply retain_in_without with (height := id) || apply retain_in_without);
      by (apply height_in_range || apply key_in_range).
Qed.

Lemma report_wf_add lo hi t r : report_wf (add_dropped lo hi t r).
Proof. unfold report_wf, add_dropped, saturating_add. repeat constructor; cbn -[Z.min uint_max]; lia. Qed.

Lemma keys_wf_without lo hi t : keys_wf t → keys_wf (without lo hi t).
Proof.
  unfold keys_wf. rewrite !Forall_forall. intros [W1 W2].
  split; intros kv [_ Hin]%list_elem_of_filter; [by apply W1|by apply W2].
Qed.

(** Two adjacent ranges are one. *)
Lemma filter_outside_outside {A} (height : A → Z) lo mid hi (l : list A) : lo ≤ mid ≤ hi →
  filter (λ x, outside lo mid (height x)) (filter (λ x, outside mid hi (height x)) l)
  = filter (λ x, outside lo hi (height x)) l.
Proof.
  intros B. rewrite list_filter_filter. apply list_filter_iff. intros x. unfold outside. lia.
Qed.
Lemma without_without lo mid hi t : lo ≤ mid ≤ hi → without lo mid (without mid hi t) = without lo hi t.
Proof.
  intros B. unfold without. cbn [certificates decided_blocks misbehavior_evidence invalid_payloads
    proposal_monitor_data undecided_blocks pending_proposal_parts].
  by f_equal; (apply (filter_outside_outside fst) || apply (filter_outside_outside (λ kv, key_height kv.1))).
Qed.

Lemma dropped_split {K} (height : K → Z) lo mid hi (l : list (K * bytes)) : lo ≤ mid ≤ hi →
  dropped height lo hi l = dropped height mid hi l + dropped height lo mid l.
Proof.
  intros B. unfold dropped. induction l as [|kv l IH]; [done|]. rewrite !filter_cons.
  repeat case_decide; cbn [length]; lia.
Qed.
Lemma dropped_without {K} (height : K → Z) lo mid hi (l : list (K * bytes)) : lo ≤ mid ≤ hi →
  dropped height lo mid (filter (λ kv, outside mid hi (height kv.1)) l) = dropped height lo mid l.
Proof.
  intros B. unfold dropped. rewrite list_filter_filter. do 2 f_equal. apply list_filter_iff.
  intros kv. unfold outside. lia.
Qed.

Lemma saturating_add_add n a b : 0 ≤ a → 0 ≤ b →
  saturating_add 64 (saturating_add 64 n a) b = saturating_add 64 n (a + b).
Proof. unfold saturating_add. lia. Qed.

Lemma dropped_nonneg {K} (height : K → Z) lo hi (l : list (K * bytes)) : 0 ≤ dropped height lo hi l.
Proof. unfold dropped. lia. Qed.

Lemma add_dropped_add dry lo mid hi t r : lo ≤ mid ≤ hi →
  add_dropped lo mid (if dry : bool then t else without mid hi t) (add_dropped mid hi t r) = add_dropped lo hi t r.
Proof.
  intros B. unfold add_dropped. cbn [rr_certificates rr_decided_blocks rr_invalid_payloads
    rr_misbehavior_evidence rr_proposal_monitor_data rr_undecided_blocks rr_pending_proposal_parts].
  f_equal; rewrite saturating_add_add by apply dropped_nonneg; f_equal;
    rewrite (dropped_split _ lo mid hi) by done; f_equal; destruct dry; try done; cbn [without];
    unfold without; cbn [certificates decided_blocks misbehavior_evidence invalid_payloads
      proposal_monitor_data undecided_blocks pending_proposal_parts];
    (apply (dropped_without id) || apply (dropped_without key_height)); done.
Qed.

(** What a rollback down to [stop] from [hi] has done when it stops at [cut]. *)
Definition rolled_back (stop hi : Z) (dry : bool) (r : RollbackReport) (db : Db)
    (out : result StoreError RollbackReport * Db) : Prop :=
  ∃ cut, stop ≤ cut ≤ hi
  ∧ tables out.2 = (if dry then tables db else without cut hi (tables db))
  ∧ match out.1 with
    | Ok report => cut = stop ∧ report = add_dropped stop hi (tables db) r
    | Err e => e = Storage ∧ true ∈ faults db
    end.

Lemma without_nothing h t : without h h t = t.
Proof.
  unfold without. destruct t. cbn.
  f_equal; apply filter_all; intros kv _; unfold outside; lia.
Qed.

Lemma with_write_faulty {A} (f : Tables → result StoreError (A * Tables)) db :
  next_fault db = true → with_write f db = (Err Storage, mkDb (tables db) (tail (faults db))) ∧ true ∈ faults db.
Proof.
  intros F. unfold with_write. rewrite F. split; [done|]. unfold next_fault in F.
  destruct (faults db); [done|]. subst. by left.
Qed.
Lemma tail_faults (db : Db) : true ∈ tail (faults db) → true ∈ faults db.
Proof. destruct (faults db); [done|]. by right. Qed.

Lemma dropped_nothing {K} (height : K → Z) h (l : list (K * bytes)) : dropped height h h l = 0.
Proof.
  unfold dropped. induction l as [|kv l IH]; [done|]. rewrite filter_cons_False by lia. done.
Qed.
Lemma add_dropped_nothing h t r : report_wf r → add_dropped h h t r = r.
Proof.
  unfold report_wf. rewrite !Forall_cons. intros (? & ? & ? & ? & ? & ? & ? & _).
  unfold add_dropped, saturating_add. rewrite !dropped_nothing. destruct r. cbn -[Z.min uint_max] in *.
  f_equal; lia.
Qed.

Lemma rollback_loop_spec fuel stop batch dry hi r db :
  0 < batch → stop ≤ hi → hi - stop < Z.of_nat fuel → 0 ≤ stop → report_wf r → keys_wf (tables db) →
  rolled_back stop hi dry r db (rollback_loop fuel stop batch dry hi r db).
Proof.
  intros B. revert hi r db. induction fuel as [|fuel IH]; intros hi r db L F S0 R W; [lia|].
  cbn [rollback_loop]. case_decide as D.
  { subst hi. exists stop. cbn. split_and!; [lia|lia| |done|by rewrite add_dropped_nothing].
    destruct dry; [done|]. by rewrite without_nothing. }
  set (lo := Z.max (height_saturating_sub hi batch) stop).
  assert (stop ≤ lo < hi) as BL by (unfold lo, height_saturating_sub, saturating_sub; lia).
  unfold m_bind. destruct (next_fault db) eqn:NF.
  { eapply with_write_faulty in NF as [-> Hin]. exists hi. cbn. split_and!; [lia|lia| |done|done].
    destruct dry; [done|]. by rewrite without_nothing. }
  unfold with_write. rewrite NF, rollback_batch_spec by done. cbn [fst snd].
  set (db1 := mkDb _ _).
  assert (tables db1 = if dry then tables db else without lo hi (tables db)) as T1 by (by destruct dry).
  destruct (IH lo (add_dropped lo hi (tables db) r) db1) as (cut & C & T & O); [lia|lia|done|apply report_wf_add| |].
  { rewrite T1. destruct dry; [done|]. by apply keys_wf_without. }
  exists cut. split; [lia|]. split.
  - rewrite T, T1. destruct dry; [done|]. apply without_without. lia.
  - destruct (rollback_loop _ _ _ _ _ _ _) as [[rep|e] db2]; cbn in *.
    + destruct O as [-> ->]. split; [done|]. rewrite T1. apply add_dropped_add. lia.
    + destruct O as [-> Hin]. split; [done|]. by apply tail_faults.
Qed.

(** One above the last height with a certificate, or [stop] when that is below it. *)
Definition rollback_top (stop : Z) (t : Tables) : Z :=
  Z.max stop (default (-1) (fst <$> last (certificates t)) + 1).

Lemma certificates_below_top stop t kv : bt_sorted Z.ltb (certificates t) →
  kv ∈ certificates t → kv.1 < rollback_top stop t.
Proof.
  intros S Hin. unfold rollback_top. destruct (last (certificates t)) as [[k v]|] eqn:L.
  - cbn. enough (kv.1 ≤ k) by lia. eapply sorted_le_last; [done..|]. by apply list_elem_of_fmap_2.
  - apply last_None in L. rewrite L in Hin. by apply elem_of_nil in Hin.
Qed.

Lemma keys_wf_of t : tables_wf t → keys_wf t.
Proof. intros (_ & [_ ?] & [_ ?]). done. Qed.

(** Nothing is cut when there is nothing above the target, or before the first batch. *)
Lemma without_top top dry t : (if dry : bool then t else without top top t) = t.
Proof. destruct dry; [done|]. apply without_nothing. Qed.

Lemma certificates_without stop t : bt_sorted Z.ltb (certificates t) →
  certificates (without stop (rollback_top stop t) t) = filter (λ kv, kv.1 ≤ stop - 1) (certificates t).
Proof.
  intros S. unfold without. cbn [certificates].
  pose proof (λ kv, certificates_below_top stop t kv S) as B. revert B.
  generalize (rollback_top stop t). intros top. clear S. induction (certificates t) as [|kv l IH]; intros B; [done|].
  pose proof (B kv (list_elem_of_here _ _)) as Bk. rewrite !filter_cons, IH by (intros kv' ?; apply B; by right).
  unfold outside. repeat case_decide; try done; lia.
Qed.

Lemma last_certificate_in t k v : last (certificates t) = Some (k, v) → k ∈ (certificates t).*1.
Proof. intros [l ->]%last_Some. rewrite fmap_app. apply elem_of_app. right. by left. Qed.

(** C17: Rolling the consensus database back to a height, with any batch size and redb failing at any
    transaction, leaves the seven tables without the heights from one cut up to the last
    decided one, and never touches a height at or below the target; a dry run changes
    nothing.  When it succeeds the cut is just above the target, no certificate above it
    is left, and the report counts what was removed table by table.  It fails only when
    redb does, or when the last decided height is the largest [u64]. *)
Theorem rollback_cuts_at_one_height target batch dry db :
  0 < batch → uint 64 target → tables_wf (tables db) →
  let stop := target + 1 in
  let top := rollback_top stop (tables db) in
  let '(r, db') := rollback_to_height target batch dry db in
  ∃ cut, stop ≤ cut ≤ top
  ∧ tables db' = (if dry then tables db else without cut top (tables db))
  ∧ match r with
    | Ok report =>
        cut = stop ∧ report = add_dropped stop top (tables db) RollbackReport_default
        ∧ (dry = false → certificates (tables db') = filter (λ kv, kv.1 ≤ target) (certificates (tables db)))
    | Err Storage => true ∈ faults db
    | Err (StorePanicked _) => uint_max 64 ∈ (certificates (tables db)).*1
    | Err _ => False
    end.
Proof.
  intros B U W stop top. pose proof (proj1 (proj1 W CERTIFICATES_TABLE)) as S. cbn [height_table] in S.
  pose proof (keys_wf_of _ W) as KW. pose proof (certificates_without stop (tables db) S) as CW.
  assert (stop ≤ top) as ST by (unfold top, rollback_top; lia). replace (stop - 1) with target in CW by lia.
  unfold rollback_to_height. rewrite decide_False by lia. unfold m_bind, with_read at 1.
  destruct (next_fault db) eqn:NF.
  { exists top. cbn [tables]. split_and!; [lia|lia|by rewrite without_top|].
    unfold next_fault in NF. destruct (faults db); [done|]. subst. by left. }
  destruct (last (certificates (tables db))) as [[k v]|] eqn:L; cbn [fmap option_fmap option_map fst].
  2: { assert (top = stop) as TS by (unfold top, rollback_top, stop, uint in *; rewrite L; cbn; lia).
       exists stop. cbn [m_ret tables]. rewrite TS, without_top, add_dropped_nothing by (repeat constructor; done).
       split_and!; [lia|lia|done|done|done|]. intros _. rewrite <- CW. fold top. by rewrite TS, without_nothing. }
  case_decide as D.
  { assert (top = stop) as TS by (unfold top, rollback_top; rewrite L; cbn; lia).
    exists stop. cbn [m_ret tables]. rewrite TS, without_top, add_dropped_nothing by (repeat constructor; done).
    split_and!; [lia|lia|done|done|done|]. intros _. rewrite <- CW. fold top. by rewrite TS, without_nothing. }
  assert (uint 64 k) as Uk.
  { destruct (proj1 W CERTIFICATES_TABLE) as [_ F]. rewrite Forall_forall in F.
    apply last_Some in L as [l L]. apply (F (k, v)). cbn. rewrite L. apply elem_of_app. right. by left. }
  assert (top = k + 1) as TK by (unfold top, rollback_top, stop; rewrite L; cbn; lia).
  unfold height_increment, checked_add. rewrite (try_from_Some _ (target + 1)) by (unfold uint in *; lia).
  cbn [ok_or m_lift]. unfold try_from. case_decide as DU; cbn [ok_or].
  2: { exists top. cbn [tables]. split_and!; [lia|lia|by rewrite without_top|].
       replace (uint_max 64) with k by (unfold uint, uint_max in *; lia). by eapply last_certificate_in. }
  pose proof (rollback_loop_spec (Z.to_nat (k + 1 - (target + 1)) + 1) (target + 1) batch dry (k + 1)
    RollbackReport_default (mkDb (tables db) (tail (faults db)))) as X.
  destruct X as (cut & C & T & O); [lia|lia|lia|unfold uint in U; lia|repeat constructor; done|done|].
  destruct (rollback_loop _ _ _ _ _ _ _) as [[rep|e] db2]; cbn [fst snd tables faults] in *; exists cut;
    rewrite TK; (split; [lia|]); (split; [done|]).
  - destruct O as [-> ->]. split_and!; [done|done|]. intros ->. rewrite T, <- TK. exact CW.
  - destruct O as [-> Hin]. by apply tail_faults.
Qed.
