(* ===== verification/StoreInv.v ===== *)
(** * The invariant of the consensus database

    Every table is ordered by its key, every row reads back as a value that belongs under
    its key, and a decided payload has the hash its certificate decides.  All operations
    keep this, whichever transactions fail. *)

From stdpp Require Import sorting.
From S2P Require Import Prelude BTree Validators Proposal Codec CodecProps StoreCodec Store StoreCodecProps StoreProps.

(** ** The order of the composite keys *)

Lemma block_key_lt_spec h r x h' r' x' :
  block_key_lt (h, r, x) (h', r', x') = true ↔
  h < h' ∨ (h = h' ∧ (round_as_i64 r < round_as_i64 r'
                      ∨ (round_as_i64 r = round_as_i64 r' ∧ bytes_lt x x' = true))).
Proof.
  unfold block_key_lt. by rewrite !orb_true_iff, !andb_true_iff, !orb_true_iff, !andb_true_iff, !bool_decide_eq_true.
Qed.

Lemma block_key_lt_irrefl k : block_key_lt k k = false.
Proof.
  destruct k as [[h r] x]. apply not_true_is_false. rewrite block_key_lt_spec, bytes_lt_irrefl. naive_solver lia.
Qed.
Lemma block_key_lt_trans a b c :
  block_key_lt a b = true → block_key_lt b c = true → block_key_lt a c = true.
Proof.
  destruct a as [[h r] x], b as [[h1 r1] x1], c as [[h2 r2] x2]. rewrite !block_key_lt_spec.
  pose proof (bytes_lt_trans x x1 x2).
  intros [?|[? [?|[? ?]]]] [?|[? [?|[? ?]]]];
    first [left; lia | right; split; [lia|]; first [left; lia | right; split; [lia|auto]]].
Qed.

Lemma wf_round_inj r r' : wf_round r → wf_round r' → round_as_i64 r = round_as_i64 r' → r = r'.
Proof.
  intros W W' E. destruct r as [z|], r' as [z'|]; cbn in E; [by f_equal| | |done].
  - specialize (W z eq_refl). lia.
  - specialize (W' z' eq_refl). lia.
Qed.
Lemma block_key_lt_total a b : wf_key a → wf_key b → a ≠ b → block_key_lt a b = false → block_key_lt b a = true.
Proof.
  destruct a as [[h r] x], b as [[h' r'] x']. intros [Wr _] [Wr' _] N L. cbn in Wr, Wr'.
  apply not_true_iff_false in L. rewrite block_key_lt_spec in *.
  destruct (decide (h = h')) as [->|]; [|left; lia].
  destruct (decide (round_as_i64 r = round_as_i64 r')) as [E|]; [|right; split; [done|left; lia]].
  apply wf_round_inj in E as ->; [|done..]. right. split; [done|]. right. split; [done|].
  apply bytes_lt_total; [congruence|]. apply not_true_is_false. naive_solver.
Qed.

(** ** Tables with some rows removed *)

Record sub_tables (t' t : Tables) : Prop := {
  sub_heights : ∀ id, height_table t' id `sublist_of` height_table t id;
  sub_undecided : undecided_blocks t' `sublist_of` undecided_blocks t;
  sub_pending : pending_proposal_parts t' `sublist_of` pending_proposal_parts t;
}.

#[export] Instance sub_tables_preorder : PreOrder sub_tables.
Proof.
  split.
  - by intros t.
  - intros a b c [H1 U1 P1] [H2 U2 P2]. split.
    + intros id. by transitivity (height_table b id).
    + by transitivity (undecided_blocks b).
    + by transitivity (pending_proposal_parts b).
Qed.

Lemma height_table_set t id l id' :
  height_table (set_height_table t id l) id' = if decide (id = id') then l else height_table t id'.
Proof. destruct t, id, id'; done. Qed.

Lemma sub_tables_set_height t id l : l `sublist_of` height_table t id → sub_tables (set_height_table t id l) t.
Proof.
  intros S. split; [|by destruct t, id..]. intros id'. rewrite height_table_set. case_decide; [by subst|done].
Qed.
Lemma sub_tables_set_undecided t l : l `sublist_of` undecided_blocks t → sub_tables (set_undecided t l) t.
Proof. intros S. split; [intros id; by destruct t, id|done|by destruct t]. Qed.
Lemma sub_tables_set_pending t l : l `sublist_of` pending_proposal_parts t → sub_tables (set_pending t l) t.
Proof. intros S. split; [intros id; by destruct t, id|by destruct t|done]. Qed.

Lemma bt_remove_all_sublist {K} `{!EqDecision K} ks (l : list (K * bytes)) :
  foldl (λ l k, bt_remove k l) l ks `sublist_of` l.
Proof.
  revert l. induction ks as [|k ks IH]; intros l; [done|]. cbn.
  transitivity (bt_remove k l); [apply IH|apply filter_sublist].
Qed.
Lemma sub_tables_remove_heights id hs t : sub_tables (foldl (λ t h, remove_height t id h) t hs) t.
Proof.
  revert t. induction hs as [|h hs IH]; intros t; [done|]. cbn.
  transitivity (remove_height t id h); [apply IH|]. apply sub_tables_set_height, filter_sublist.
Qed.
Lemma sub_tables_without lo hi t : sub_tables (without lo hi t) t.
Proof. split; [intros []|..]; apply filter_sublist. Qed.

(** ** Operations that keep a property of the tables *)

Definition db_keeps {A} (I : Tables → Prop) (m : M Db StoreError A) : Prop :=
  ∀ db, I (tables db) → I (tables (m db).2).

Lemma db_keeps_lift {A} I (r : result StoreError A) : db_keeps I (m_lift r).
Proof. by intros db. Qed.
Lemma db_keeps_ret {A} I (a : A) : db_keeps I (m_ret a).
Proof. by intros db. Qed.
Lemma db_keeps_bind {A B} I (m : M Db StoreError A) (f : A → M Db StoreError B) :
  db_keeps I m → (∀ a, db_keeps I (f a)) → db_keeps I (m_bind m f).
Proof.
  intros K1 K2 db Hi. specialize (K1 db Hi). unfold m_bind.
  destruct (m db) as [[a|e] db']; cbn in *; [by apply K2|done].
Qed.
Lemma db_keeps_bind_lift {A B} I (r : result StoreError A) (f : A → M Db StoreError B) :
  (∀ a, r = Ok a → db_keeps I (f a)) → db_keeps I (m_bind (m_lift r) f).
Proof. intros K db Hi. unfold m_bind, m_lift. destruct r as [a|e]; [by apply (K a)|done]. Qed.
Lemma db_keeps_read {A} I (f : Tables → result StoreError A) : db_keeps I (with_read f).
Proof. intros db Hi. unfold with_read. by destruct (next_fault db). Qed.
Lemma db_keeps_write {A} (I : Tables → Prop) (f : Tables → result StoreError (A * Tables)) :
  (∀ t a t', I t → f t = Ok (a, t') → I t') → db_keeps I (with_write f).
Proof.
  intros K db Hi. unfold with_write. destruct (next_fault db); [done|].
  destruct (f (tables db)) as [[a t']|e] eqn:F; cbn; [by eapply K|done].
Qed.


(** A transaction that only removes rows. *)
Lemma db_keeps_removal {A} (I : Tables → Prop) (f : Tables → A * Tables) :
  (∀ t t', I t → sub_tables t' t → I t') → (∀ t, sub_tables (f t).2 t) → db_keeps I (with_write (λ t, Ok (f t))).
Proof. intros D S. apply db_keeps_write. intros t a t' Hi [= E]. apply (D t); [done|]. specialize (S t). by rewrite E in S. Qed.

(** ** The invariant *)

Section Invariant.
Context `{PC : ProposalCrypto} {PCL : ProposalCryptoLaws} {SB : SignatureBytes} {SL : SignatureLaws}.
Context {SZ : SszBlockCodec} {SZL : SszBlockLaws} {PH : PayloadHash} {HL : HashLengths}.
Context {SM : StoreMessages} {SML : StoreMessagesLaws} {RF : RoundFrom} `{!EqDecision Signature}.

(** A row of a table keyed by height reads back as a value of that height. *)
Definition height_row (id : HeightTable) (h : Z) (b : bytes) : Prop :=
  match id with
  | CERTIFICATES_TABLE =>
      ∃ c, decode_certificate b = Ok c ∧ wf_stored_certificate c ∧ cert_height (certificate c) = h
  | DECIDED_BLOCKS_TABLE => ∃ p, decode_execution_payload b = Ok p
  | MISBEHAVIOR_EVIDENCE_TABLE => ∃ e, decode_misbehavior_evidence b = Ok e ∧ ev_height e = h
  | INVALID_PAYLOADS_TABLE =>
      ∃ s, decode_invalid_payloads b = Ok s ∧ wf_invalid_payloads s ∧ sip_height s = h
           ∧ Forall (λ p, ip_height p = h) (sip_payloads s)
  | PROPOSAL_MONITOR_DATA_TABLE => ∃ d, decode_proposal_monitor_data b = Ok d ∧ pm_height d = h
  end.
Definition undecided_row (k : BlockKey) (b : bytes) : Prop :=
  ∃ x, decode_block b = Ok x ∧ k = (block_height x, block_round x, self_reported_block_hash x) ∧ wf_block x.
(** Parts as the network delivers them: rounds of 32 bits, heights of 64. *)
Definition wf_pending (p : ProposalParts) : Prop :=
  wf_parts p ∧ uint 64 (parts_height p) ∧ wf_round (parts_round p) ∧ wf_round (init_pol_round (parts_init p)).
Definition pending_row (k : BlockKey) (b : bytes) : Prop :=
  ∃ p, decode_parts b = Ok p ∧ k = pending_key p ∧ wf_pending p.

(** The payload decided at a height is the one its certificate is for. *)
Definition payload_matches (pb cb : bytes) : Prop :=
  ∀ p c, decode_execution_payload pb = Ok p → decode_certificate cb = Ok c →
  payload_block_hash p = block_hash (cert_value_id (certificate c)).

(** The invariant; within a transaction, the payload and the certificate of the height [x]
    may differ. *)
Record store_ok_except (x : option Z) (t : Tables) : Prop := {
  ok_wf : tables_wf t;
  ok_heights : ∀ id h b, (h, b) ∈ height_table t id → height_row id h b;
  ok_undecided : ∀ k b, (k, b) ∈ undecided_blocks t → undecided_row k b;
  ok_pending : ∀ k b, (k, b) ∈ pending_proposal_parts t → pending_row k b;
  ok_decided : ∀ h pb cb, x ≠ Some h →
    (h, pb) ∈ decided_blocks t → (h, cb) ∈ certificates t → payload_matches pb cb;
}.
Definition store_ok : Tables → Prop := store_ok_except None.

Lemma wf_height_table_sub l' l : l' `sublist_of` l → wf_height_table l → wf_height_table l'.
Proof.
  intros S [O F]. split; [by eapply StronglySorted_sublist|]. rewrite Forall_forall in *. intros kv Hin.
  apply F. by eapply sublist_elem_of.
Qed.
Lemma wf_key_table_sub l' l : l' `sublist_of` l → wf_key_table l → wf_key_table l'.
Proof.
  intros S [O F]. split; [by eapply StronglySorted_sublist|]. rewrite Forall_forall in *. intros kv Hin.
  apply F. by eapply sublist_elem_of.
Qed.

Lemma store_ok_sub t t' : store_ok t → sub_tables t' t → store_ok t'.
Proof.
  intros [W H U P D] [S1 S2 S3]. pose proof (S1 CERTIFICATES_TABLE) as SC.
  pose proof (S1 DECIDED_BLOCKS_TABLE) as SD. destruct W as (W1 & W2 & W3). split.
  - split_and!; [|by eapply wf_key_table_sub..]. intros id. eapply wf_height_table_sub; [apply S1|apply W1].
  - intros id h b Hin. apply H. eapply sublist_elem_of; [apply S1|done].
  - intros k b Hin. apply U. by eapply sublist_elem_of.
  - intros k b Hin. apply P. by eapply sublist_elem_of.
  - intros h pb cb N Hp Hc. apply (D h); [done|exact (sublist_elem_of _ _ _ SD Hp)|exact (sublist_elem_of _ _ _ SC Hc)].
Qed.

(** ** Rows that are written *)

Lemma bt_insert_elem {K} `{!EqDecision K} (lt : K → K → bool) k v (l : list (K * bytes)) kv :
  kv ∈ bt_insert lt k v l → kv = (k, v) ∨ kv ∈ l.
Proof.
  induction l as [|[k' v'] l IH]; cbn; [intros ?%list_elem_of_singleton; by left|].
  case_decide; [subst|destruct (lt k k')]; rewrite !elem_of_cons; naive_solver.
Qed.

Lemma wf_height_table_insert h b l : uint 64 h → wf_height_table l → wf_height_table (bt_insert Z.ltb h b l).
Proof.
  intros U [O F]. split.
  - apply bt_insert_sorted; [intros; lia|intros; lia|intros; lia|done].
  - rewrite Forall_forall in *. intros kv [->|Hin]%bt_insert_elem; [done|by apply F].
Qed.
Lemma wf_key_table_insert k b l : wf_key k → wf_key_table l → wf_key_table (bt_insert block_key_lt k b l).
Proof.
  intros Wk [O F]. rewrite Forall_forall in F. split.
  - apply bt_insert_sorted_on; [apply block_key_lt_irrefl|apply block_key_lt_trans| |done].
    intros k' (kv & -> & Hin)%list_elem_of_fmap. apply block_key_lt_total; [done|by apply F].
  - rewrite Forall_forall. intros kv [->|Hin]%bt_insert_elem; [done|by apply F].
Qed.

(** An old row under the key that is written is gone. *)
Lemma height_insert_elem h b (l : list (Z * bytes)) kv : bt_sorted Z.ltb l →
  kv ∈ bt_insert Z.ltb h b l → kv = (h, b) ∨ (kv ∈ l ∧ kv.1 ≠ h).
Proof.
  intros S Hin. rewrite bt_insert_perm in Hin; [|intros; lia|intros; lia|done].
  apply elem_of_cons in Hin as [->|Hin]; [by left|]. apply list_elem_of_filter in Hin. naive_solver.
Qed.

Lemma store_ok_insert_row t id h b :
  store_ok_except (Some h) t → uint 64 h → height_row id h b → store_ok_except (Some h) (insert_height t id h b).
Proof.
  intros [(W1 & W2 & W3) H U P D] Uh R. unfold insert_height.
  assert (∀ id', height_table (set_height_table t id (bt_insert Z.ltb h b (height_table t id))) id'
                 = if decide (id = id') then bt_insert Z.ltb h b (height_table t id) else height_table t id') as E.
  { intros id'. apply height_table_set. }
  assert (∀ id' kv, kv.1 ≠ h →
    kv ∈ height_table (set_height_table t id (bt_insert Z.ltb h b (height_table t id))) id' →
    kv ∈ height_table t id') as O.
  { intros id' kv N. rewrite E. destruct (decide _); [subst id'|done].
    intros [->|Hin]%bt_insert_elem; [done|done]. }
  split.
  - split_and!; [|by destruct t, id..]. intros id'. rewrite E. destruct (decide _); [subst id'|apply W1].
    by apply wf_height_table_insert.
  - intros id' h' b'. rewrite E. destruct (decide _); [subst id'|apply H].
    intros [[= -> ->]|Hin]%bt_insert_elem; [done|by apply H].
  - destruct t, id; exact U.
  - destruct t, id; exact P.
  - intros h' pb cb N Hp Hc. assert (h' ≠ h) as N' by congruence.
    apply (D h'); [done|by apply (O DECIDED_BLOCKS_TABLE (h', pb))|by apply (O CERTIFICATES_TABLE (h', cb))].
Qed.

Lemma store_ok_open h t : store_ok t → store_ok_except (Some h) t.
Proof. intros [W H U P D]. split; [done..|]. intros h' pb cb _. by apply D. Qed.
Lemma store_ok_close h t : store_ok_except (Some h) t →
  (∀ pb cb, (h, pb) ∈ decided_blocks t → (h, cb) ∈ certificates t → payload_matches pb cb) → store_ok t.
Proof.
  intros [W H U P D] M. split; [done..|]. intros h' pb cb _ Hp Hc.
  destruct (decide (h' = h)) as [->|N]; [by apply M|]. apply (D h'); [congruence|done|done].
Qed.

(** The row under a key that was just written. *)
Lemma inserted_row id h b b' t : wf_height_table (height_table t id) →
  (h, b') ∈ height_table (insert_height t id h b) id → b' = b.
Proof.
  intros [S _]. unfold insert_height. rewrite height_table_set, decide_True by done.
  intros [[= ->]|[_ N]]%height_insert_elem; done.
Qed.

Lemma height_table_undecided t l id : height_table (set_undecided t l) id = height_table t id.
Proof. by destruct t, id. Qed.
Lemma height_table_pending t l id : height_table (set_pending t l) id = height_table t id.
Proof. by destruct t, id. Qed.

Lemma store_ok_insert_undecided t k b :
  store_ok t → wf_key k → undecided_row k b →
  store_ok (set_undecided t (bt_insert block_key_lt k b (undecided_blocks t))).
Proof.
  intros [(W1 & W2 & W3) H U P D] Wk R. split; [|intros id; rewrite height_table_undecided; apply H| |done|done].
  - split_and!; [intros id; rewrite height_table_undecided; apply W1| |done]. by apply wf_key_table_insert.
  - intros k' b' [[= -> ->]|Hin]%bt_insert_elem; [done|by apply U].
Qed.
Lemma store_ok_insert_pending t k b :
  store_ok t → wf_key k → pending_row k b →
  store_ok (set_pending t (bt_insert block_key_lt k b (pending_proposal_parts t))).
Proof.
  intros [(W1 & W2 & W3) H U P D] Wk R. split; [|intros id; rewrite height_table_pending; apply H|done| |done].
  - split_and!; [intros id; rewrite height_table_pending; apply W1|done|]. by apply wf_key_table_insert.
  - intros k' b' [[= -> ->]|Hin]%bt_insert_elem; [done|by apply P].
Qed.
(** ** Operations that remove rows *)

Lemma db_keeps_rollback_loop fuel stop batch dry hi r : db_keeps store_ok (rollback_loop fuel stop batch dry hi r).
Proof.
  revert hi r. induction fuel as [|fuel IH]; intros hi r; cbn [rollback_loop]; [apply db_keeps_ret|].
  case_decide; [apply db_keeps_ret|]. apply db_keeps_bind; [|intros; apply IH]. apply db_keeps_write.
  intros t a t' O. unfold rollback_batch. intros [= _ <-]. destruct dry; [done|]. apply (store_ok_sub t); [done|].
  split; [intros []|..]; apply filter_sublist.
Qed.
Lemma db_keeps_rollback target batch dry : db_keeps store_ok (rollback_to_height target batch dry).
Proof.
  unfold rollback_to_height. case_decide; [by intros db|]. apply db_keeps_bind; [apply db_keeps_read|].
  intros [current|]; [|apply db_keeps_ret]. case_decide; [apply db_keeps_ret|].
  do 2 (apply db_keeps_bind; [apply db_keeps_lift|intros ?]). apply db_keeps_rollback_loop.
Qed.

Lemma db_keeps_enforce max cur : db_keeps store_ok (enforce_pending_proposals_limit max cur).
Proof.
  apply db_keeps_write. intros t a t' O. destruct (max_allowed_height _ _ _) as [allowed|e]; [|done].
  intros [= <- <-]. apply (store_ok_sub t); [done|]. apply sub_tables_set_pending, bt_remove_all_sublist.
Qed.
Lemma db_keeps_clean h : db_keeps store_ok (clean_stale_consensus_data h).
Proof.
  apply (db_keeps_removal _ (λ t, (tt, _))); [apply store_ok_sub|]. intros t. cbn.
  etrans; [apply sub_tables_set_pending|apply sub_tables_set_undecided]; apply filter_sublist.
Qed.
Lemma db_keeps_prune_table retain id : db_keeps store_ok (prune_height_table_batch retain id).
Proof.
  apply db_keeps_bind; [apply db_keeps_read|intros _]. apply db_keeps_bind; [apply db_keeps_read|].
  intros [|h hs]; [apply db_keeps_ret|]. apply (db_keeps_removal _ (λ t, (_, _))); [apply store_ok_sub|].
  intros t. apply sub_tables_remove_heights.
Qed.
Lemma db_keeps_prune_blocks : db_keeps store_ok prune_blocks.
Proof. apply db_keeps_bind; [apply db_keeps_read|]. intros max. apply db_keeps_prune_table. Qed.
Lemma db_keeps_logged {A} (m : M Db StoreError A) : db_keeps store_ok m → db_keeps store_ok (logged m).
Proof. intros K db O. by apply K. Qed.
Lemma db_keeps_service_prune c h : db_keeps store_ok (service_prune_historical_certs c h).
Proof.
  unfold service_prune_historical_certs. destruct (negb _); [apply db_keeps_ret|]. intros db O.
  pose proof (db_keeps_prune_table (effective_certificates_min_height c h) CERTIFICATES_TABLE db O) as O1.
  unfold prune_historical_certs. destruct (prune_height_table_batch _ _ db) as [r1 db1]. cbn in O1.
  set (rest := _ ;;; _). assert (db_keeps store_ok rest) as K.
  { unfold rest. repeat (apply db_keeps_bind; [apply db_keeps_logged, db_keeps_prune_table|intros _]).
    apply db_keeps_logged, db_keeps_prune_table. }
  specialize (K db1 O1). by destruct (rest db1).
Qed.

(** ** Operations that write rows *)

Lemma db_keeps_insert_undecided b t : wf_block b → store_ok t → store_ok (insert_undecided_block b t).
Proof.
  intros W O. apply store_ok_insert_undecided; [done| |].
  - split; [|apply payload_hash_length]. intros z E. cbn in E. destruct W as (_ & Wr & _). by apply Wr.
  - destruct (block_reads_back b W) as (x & [= <-] & D). by exists b.
Qed.
Lemma db_keeps_store_undecided b : wf_block b → db_keeps store_ok (store_undecided_block b).
Proof. intros W. apply db_keeps_write. intros t a t' O [= <- <-]. by apply db_keeps_insert_undecided. Qed.
Lemma db_keeps_promote p b : wf_block b → db_keeps store_ok (remove_pending_parts_and_store_undecided_block p b).
Proof.
  intros W. apply db_keeps_write. intros t a t' O [= <- <-]. apply db_keeps_insert_undecided; [done|].
  apply (store_ok_sub t); [done|]. apply sub_tables_set_pending, filter_sublist.
Qed.
Lemma db_keeps_insert_pending p max cur : wf_pending p →
  db_keeps store_ok (insert_pending_proposal_parts p max cur).
Proof.
  intros Wp. pose proof Wp as (W & _ & Wr & _). apply db_keeps_bind; [apply db_keeps_lift|intros allowed]. case_decide; [apply db_keeps_ret|].
  destruct (parts_reads_back p W) as (b & E & D). apply db_keeps_bind_lift. rewrite E. intros value [= <-].
  apply db_keeps_write. intros t a t' O. case_decide; intros [= <- <-]; [|done].
  apply store_ok_insert_pending; [done| |by exists p].
  split; [by unfold pending_key; cbn|apply keccak_length].
Qed.

(** A row outside the decided heights. *)
Lemma store_ok_insert_side t id h b : id ≠ CERTIFICATES_TABLE → id ≠ DECIDED_BLOCKS_TABLE →
  store_ok t → uint 64 h → height_row id h b → store_ok (insert_height t id h b).
Proof.
  intros N1 N2 O Uh R. apply (store_ok_close h); [apply store_ok_insert_row; [by apply store_ok_open|done..]|].
  intros pb cb. pose proof (height_table_set t id (bt_insert Z.ltb h b (height_table t id))) as E.
  specialize (E CERTIFICATES_TABLE) as EC. specialize (E DECIDED_BLOCKS_TABLE) as ED.
  rewrite decide_False in EC by done. rewrite decide_False in ED by done. cbn [height_table] in EC, ED.
  unfold insert_height. rewrite EC, ED. by apply (ok_decided _ _ O).
Qed.

Lemma db_keeps_evidence e : wf_evidence e → uint 64 (ev_height e) → db_keeps store_ok (insert_misbehavior_evidence e).
Proof.
  intros W U. destruct (evidence_reads_back e W) as (b & E & D). apply db_keeps_write. rewrite E.
  intros t a t' O [= <- <-]. apply store_ok_insert_side; [done..|]. by exists e.
Qed.
Lemma db_keeps_monitor d : wf_monitor d → uint 64 (pm_height d) → db_keeps store_ok (insert_proposal_monitor_data d).
Proof.
  intros W U. destruct (monitor_reads_back d W) as (b & E & D). apply db_keeps_write. rewrite E.
  intros t a t' O [= <- <-]. apply store_ok_insert_side; [done..|]. by exists d.
Qed.

(** What is stored about invalid payloads at a height before an append. *)
Definition stored_invalid (t : Tables) (h : Z) : result DecodeError StoredInvalidPayloads :=
  match bt_get h (invalid_payloads t) with
  | Some b => decode_invalid_payloads b
  | None => Ok (mkStoredInvalidPayloads h [])
  end.
Lemma stored_invalid_read t h :
  match bt_get h (invalid_payloads t) with
  | Some b => map_err StoreDecode (decode_invalid_payloads b)
  | None => Ok (mkStoredInvalidPayloads h [])
  end = map_err StoreDecode (stored_invalid t h).
Proof. unfold stored_invalid. by destruct (bt_get _ _). Qed.
Lemma stored_invalid_ok t h : store_ok t → ∃ s, stored_invalid t h = Ok s ∧ wf_invalid_payloads s
  ∧ sip_height s = h ∧ Forall (λ p, ip_height p = h) (sip_payloads s).
Proof.
  intros O. unfold stored_invalid. destruct (bt_get _ _) as [b|] eqn:G.
  - apply bt_get_Some in G. exact (ok_heights _ _ O INVALID_PAYLOADS_TABLE h b G).
  - eexists. split; [done|]. split_and!; [constructor|done|constructor].
Qed.
Lemma db_keeps_append p : wf_invalid_payload p → uint 64 (ip_height p) → db_keeps store_ok (append_invalid_payload p).
Proof.
  intros W U. apply db_keeps_write. intros t a t' O.
  destruct (stored_invalid_ok t (ip_height p) O) as (s & E & Ws & Hs & F).
  cbv zeta. rewrite stored_invalid_read, E. cbn [map_err].
  destruct (invalid_payloads_reads_back (add_invalid_payload s p)) as (b & Eb & D).
  { apply Forall_app. split; [done|by constructor]. }
  cbn [mbind result_bind]. rewrite Eb. intros [= <- <-]. apply store_ok_insert_side; [done..|].
  exists (add_invalid_payload s p). split_and!; [done| |done|]; apply Forall_app; split; try done; by constructor.
Qed.

(** ** Certificates *)

Lemma encode_certificate_row c ty proposer : wf_certificate c → (∀ a, proposer = Some a → wf_address a) →
  ∃ b, encode_certificate (mkStoredCommitCertificate c ty proposer) = Ok b
       ∧ decode_certificate b = Ok (mkStoredCommitCertificate c ty proposer)
       ∧ height_row CERTIFICATES_TABLE (cert_height c) b.
Proof.
  intros W Wp. destruct (certificate_reads_back (mkStoredCommitCertificate c ty proposer)) as (b & E & D); [done|].
  exists b. split_and!; [done..|]. by eexists.
Qed.

Lemma db_keeps_decide c p proposer : wf_certificate c → uint 64 (cert_height c) → wf_address proposer →
  db_keeps store_ok (store_decided_block c p proposer).
Proof.
  intros W U Wa. apply db_keeps_bind_lift. intros d. unfold DecidedBlock_new. case_decide as M; [|done]. intros [= <-].
  apply db_keeps_write. intros t a t' O. cbn [db_execution_payload db_certificate DecidedBlock_height].
  unfold insert_certificate, DecidedBlock_height. cbn [db_certificate].
  destruct (encode_certificate_row c CertMinimal (Some proposer) W) as (b & E & D & R); [by intros a0 [= <-]|].
  rewrite E. intros [= <- <-]. set (pb := encode_execution_payload p).
  destruct (payload_reads_back p I) as (pb' & [= <-] & Dp).
  set (t1 := insert_height t DECIDED_BLOCKS_TABLE (cert_height c) pb).
  assert (store_ok_except (Some (cert_height c)) t1) as O1.
  { apply store_ok_insert_row; [by apply store_ok_open|done|by exists p]. }
  apply (store_ok_close (cert_height c)); [by apply store_ok_insert_row|].
  intros pb1 cb1 Hp Hc. apply (inserted_row CERTIFICATES_TABLE) in Hc as ->; [|apply (ok_wf _ _ O1)].
  assert (pb1 = pb) as ->.
  { apply (inserted_row DECIDED_BLOCKS_TABLE (cert_height c) pb pb1 t); [apply (ok_wf _ _ O)|].
    revert Hp. by destruct t. }
  intros p1 c1. unfold pb. rewrite Dp, D. intros [= <-] [= <-]. done.
Qed.

Lemma check_extension_ok existing new u : check_extension existing new = Ok u →
  cert_height new = cert_height existing ∧ cert_round new = cert_round existing
  ∧ cert_value_id new = cert_value_id existing
  ∧ Forall (λ s, s ∈ commit_signatures new) (commit_signatures existing).
Proof.
  unfold check_extension. destruct (decide _) as [|K1]; [done|]. destruct (decide _) as [|K2]; [done|].
  destruct (decide _) as [|K3]; [done|]. destruct (decide _) as [K4|]; [|done]. intros _.
  split_and!; [by apply dec_stable..|done].
Qed.

Lemma db_keeps_extend c : wf_certificate c → uint 64 (cert_height c) → db_keeps store_ok (extend_certificate c).
Proof.
  intros W U. apply db_keeps_write. intros t a t' O. destruct (bt_get _ _) as [b0|] eqn:G; [|done]. cbn [ok_or mbind result_bind].
  apply bt_get_Some in G. destruct (ok_heights _ _ O CERTIFICATES_TABLE _ _ G) as (c0 & D0 & W0 & H0).
  rewrite D0. cbn [map_err mbind result_bind]. destruct (check_extension _ _) as [u|] eqn:X; [|done].
  apply check_extension_ok in X as (_ & _ & K3 & _). cbn [mbind result_bind]. unfold insert_certificate.
  destruct (encode_certificate_row c CertExtended (cert_proposer c0) W) as (b & E & D & R); [apply W0|].
  rewrite E. intros [= <- <-].
  apply (store_ok_close (cert_height c)); [by apply store_ok_insert_row; [apply store_ok_open|..]|].
  intros pb cb Hp Hc. apply (inserted_row CERTIFICATES_TABLE) in Hc as ->; [|apply (ok_wf _ _ O)].
  intros p1 c1 Dp. rewrite D. intros [= <-]. cbn [certificate]. rewrite K3.
  refine (ok_decided _ _ O (cert_height c) pb b0 _ _ G p1 c0 Dp D0); [done|]. revert Hp. by destruct t.
Qed.
(** ** Runs *)

(** The operations that change the tables. *)
Inductive StoreOp :=
| OpDecide (c : CommitCertificate) (p : Payload) (proposer : Z)
| OpExtend (c : CommitCertificate)
| OpEvidence (e : StoredMisbehaviorEvidence)
| OpMonitor (d : ProposalMonitor)
| OpInvalid (p : InvalidPayload)
| OpUndecided (b : ConsensusBlock)
| OpPending (p : ProposalParts) (max cur : Z)
| OpPromote (p : ProposalParts) (b : ConsensusBlock)
| OpEnforce (max cur : Z)
| OpClean (h : Z)
| OpPruneBlocks
| OpPrune (c : PruningConfig) (h : Z)
| OpRollback (target batch : Z) (dry : bool).

Definition run_op (op : StoreOp) (db : Db) : Db :=
  match op with
  | OpDecide c p a => (store_decided_block c p a db).2
  | OpExtend c => (extend_certificate c db).2
  | OpEvidence e => (insert_misbehavior_evidence e db).2
  | OpMonitor d => (insert_proposal_monitor_data d db).2
  | OpInvalid p => (append_invalid_payload p db).2
  | OpUndecided b => (store_undecided_block b db).2
  | OpPending p max cur => (insert_pending_proposal_parts p max cur db).2
  | OpPromote p b => (remove_pending_parts_and_store_undecided_block p b db).2
  | OpEnforce max cur => (enforce_pending_proposals_limit max cur db).2
  | OpClean h => (clean_stale_consensus_data h db).2
  | OpPruneBlocks => (prune_blocks db).2
  | OpPrune c h => (service_prune_historical_certs c h db).2
  | OpRollback target batch dry => (rollback_to_height target batch dry db).2
  end.

(** The values are of the Rust types, and encodable. *)
Definition wf_op (op : StoreOp) : Prop :=
  match op with
  | OpDecide c _ a => wf_certificate c ∧ uint 64 (cert_height c) ∧ wf_address a
  | OpExtend c => wf_certificate c ∧ uint 64 (cert_height c)
  | OpEvidence e => wf_evidence e ∧ uint 64 (ev_height e)
  | OpMonitor d => wf_monitor d ∧ uint 64 (pm_height d)
  | OpInvalid p => wf_invalid_payload p ∧ uint 64 (ip_height p)
  | OpUndecided b | OpPromote _ b => wf_block b
  | OpPending p _ _ => wf_pending p
  | _ => True
  end.

Lemma run_op_ok op db : wf_op op → store_ok (tables db) → store_ok (tables (run_op op db)).
Proof.
  destruct op; cbn [wf_op run_op]; intros W O.
  - destruct W as (? & ? & ?). by apply db_keeps_decide.
  - destruct W. by apply db_keeps_extend.
  - destruct W. by apply db_keeps_evidence.
  - destruct W. by apply db_keeps_monitor.
  - destruct W. by apply db_keeps_append.
  - by apply db_keeps_store_undecided.
  - by apply db_keeps_insert_pending.
  - by apply db_keeps_promote.
  - by apply db_keeps_enforce.
  - by apply db_keeps_clean.
  - by apply db_keeps_prune_blocks.
  - by apply db_keeps_service_prune.
  - by apply db_keeps_rollback.
Qed.

Definition empty_tables : Tables := mkTables [] [] [] [] [] [] [].
Lemma store_ok_empty : store_ok empty_tables.
Proof.
  split.
  - split_and!; [intros []|..]; (split; constructor).
  - intros [] h b Hin; by apply elem_of_nil in Hin.
  - intros k b Hin. by apply elem_of_nil in Hin.
  - intros k b Hin. by apply elem_of_nil in Hin.
  - intros h pb cb _ Hin. by apply elem_of_nil in Hin.
Qed.

Definition run_ops (ops : list StoreOp) (db : Db) : Db := foldl (λ db op, run_op op db) db ops.
Lemma run_ops_ok ops db : Forall wf_op ops → store_ok (tables db) → store_ok (tables (run_ops ops db)).
Proof.
  intros F. revert db. induction F as [|op ops W F IH]; intros db O; [done|]. cbn. by apply IH, run_op_ok.
Qed.

(** ** Reads *)

(** A read fails only when redb does. *)
Definition only_storage {A} (r : result StoreError A) : Prop := ∀ e, r = Err e → e = Storage.

Lemma only_storage_read {A} (f : Tables → result StoreError A) db :
  is_ok (f (tables db)) = true → only_storage (with_read f db).1.
Proof. intros H e. unfold with_read. destruct (next_fault db); cbn; [by intros [= <-]|]. intros E. by rewrite E in H. Qed.

Lemma read_row {A} id (dec : bytes → result DecodeError A) t h : store_ok t →
  (∀ b, height_row id h b → ∃ a, dec b = Ok a) →
  ∃ o, transpose ((λ b, map_err StoreDecode (dec b)) <$> bt_get h (height_table t id)) = Ok o.
Proof.
  intros O R. destruct (bt_get _ _) as [b|] eqn:G; [|by exists None]. apply bt_get_Some in G.
  destruct (R b (ok_heights _ _ O id h b G)) as [a D]. exists (Some a). cbn. by rewrite D.
Qed.

Lemma mapM_read {A K} (dec : bytes → result DecodeError A) (l : list (K * bytes)) :
  (∀ kv, kv ∈ l → ∃ a, dec kv.2 = Ok a) → is_ok (mapM (λ kv, map_err StoreDecode (dec kv.2)) l) = true.
Proof.
  intros R. enough (∃ r, mapM (λ kv, map_err StoreDecode (dec kv.2)) l = Ok r) as [r ->] by done.
  induction l as [|kv l IH]; [by exists []|]. destruct (R kv (list_elem_of_here _ _)) as [a D].
  destruct IH as [r E]; [intros kv' ?; apply R; by right|]. exists (a :: r). by rewrite mapM_cons, D, E.
Qed.

Lemma get_decided_block_sound t h : store_ok t →
  is_ok (payload ← read_payload t h;
         match payload, bt_get h (certificates t) ≫= λ b, result_ok (decode_certificate b) with
         | Some payload, Some cert => Some <$> DecidedBlock_new payload (certificate cert)
         | _, _ => Ok None
         end) = true.
Proof.
  intros O. unfold read_payload. destruct (bt_get h (decided_blocks t)) as [pb|] eqn:G; [|done]. apply bt_get_Some in G.
  destruct (ok_heights _ _ O DECIDED_BLOCKS_TABLE _ _ G) as [p D]. cbn. rewrite D. cbn.
  destruct (bt_get h (certificates t)) as [cb|] eqn:Gc; [|done]. apply bt_get_Some in Gc. cbn.
  destruct (decode_certificate cb) as [c|] eqn:Dc; [|done]. cbn. unfold DecidedBlock_new.
  by rewrite decide_True by (by eapply (ok_decided _ _ O)).
Qed.
Lemma only_storage_after_max {A} (f : option Z → M Db StoreError A) db :
  (∀ max db', tables db' = tables db → only_storage (f max db').1) →
  only_storage (m_bind max_height f db).1.
Proof.
  intros H. unfold m_bind, max_height, limit_height, with_read. destruct (next_fault db); cbn; [by intros e [= <-]|].
  by apply H.
Qed.

(** Every read of the database, at every height, round and hash. *)
Record reads_sound (db : Db) : Prop := {
  sound_payload : ∀ h, only_storage (get_payload h db).1;
  sound_decided : ∀ h, only_storage (get_decided_block h db).1;
  sound_monitor : ∀ h, only_storage (get_proposal_monitor_data h db).1;
  sound_evidence : ∀ h, only_storage (get_misbehavior_evidence h db).1;
  sound_invalid : ∀ h, only_storage (get_invalid_payloads h db).1;
  sound_block : ∀ h r x, only_storage (get_undecided_block h r x db).1;
  sound_block_by_hash : ∀ h x, only_storage (get_undecided_block_by_height_and_block_hash h x db).1;
  sound_blocks : ∀ h r, only_storage (get_undecided_blocks h r db).1;
  sound_parts : ∀ h r, only_storage (get_pending_proposal_parts h r db).1;
}.

Lemma find_undecided_sound h x l :
  (∀ k b, (k, b) ∈ l → undecided_row k b) → is_ok (find_undecided h x l) = true.
Proof.
  induction l as [|[[[h' r'] x'] b] l IH]; intros R; [done|]. cbn [find_undecided]. case_decide.
  - destruct (R _ _ (list_elem_of_here _ _)) as (y & D & _). by rewrite D.
  - apply IH. intros k' b' Hin. apply R. by right.
Qed.

Lemma last_row t id kv : store_ok t → last (height_table t id) = Some kv → height_row id kv.1 kv.2.
Proof.
  intros O [l E]%last_Some. apply (ok_heights _ _ O). rewrite E. destruct kv. apply elem_of_app. right. by left.
Qed.

Lemma store_ok_reads db : store_ok (tables db) → reads_sound db.
Proof.
  intros O. split.
  - intros h. apply only_storage_read. destruct (read_row DECIDED_BLOCKS_TABLE decode_execution_payload _ h O) as [o E];
      [done|]. unfold read_payload. cbn [height_table] in E. by rewrite E.
  - intros h. by apply only_storage_read, get_decided_block_sound.
  - intros [h|]; apply only_storage_read.
    + destruct (read_row PROPOSAL_MONITOR_DATA_TABLE decode_proposal_monitor_data _ h O) as [o E]; [naive_solver|].
      cbn [height_table] in E. cbv zeta. by rewrite E.
    + cbv zeta. destruct (last _) as [[h b]|] eqn:L; [|done].
      destruct (last_row _ PROPOSAL_MONITOR_DATA_TABLE _ O L) as (d & D & _). cbn in *. by rewrite D.
  - intros h. apply only_storage_after_max. intros max db' T. destruct (max ≫= _) as [h'|]; [|done].
    apply only_storage_read. rewrite T.
    destruct (read_row MISBEHAVIOR_EVIDENCE_TABLE decode_misbehavior_evidence _ h' O) as [o E]; [naive_solver|].
    cbn [height_table] in E. by rewrite E.
  - intros h. apply only_storage_after_max. intros max db' T. destruct (max ≫= _) as [h'|]; [|done].
    apply only_storage_read. rewrite T.
    destruct (read_row INVALID_PAYLOADS_TABLE decode_invalid_payloads _ h' O) as [o E]; [naive_solver|].
    cbn [height_table] in E. by rewrite E.
  - intros h r x. apply only_storage_read. destruct (bt_get _ _) as [b|] eqn:G; [|done]. apply bt_get_Some in G.
    destruct (ok_undecided _ _ O _ _ G) as (y & D & _). cbn. by rewrite D.
  - intros h x. apply only_storage_read, find_undecided_sound, (ok_undecided _ _ O).
  - intros h r. apply only_storage_read, mapM_read. intros [k b] [_ [_ Hin]%list_elem_of_filter]%list_elem_of_filter.
    destruct (ok_undecided _ _ O _ _ Hin) as (y & D & _). by exists y.
  - intros h r. apply only_storage_read, mapM_read. intros [k b] [_ Hin]%list_elem_of_filter.
    destruct (ok_pending _ _ O _ _ Hin) as (y & D & _). by exists y.
Qed.

(** C9: Whatever sequence of operations the consensus layer runs on an empty database, and
    whichever transactions redb fails, the database stays sound: every table is in key
    order, every row reads back as a value that belongs under its key, and the payload and
    the certificate of a height are about the same block.  So no read ever meets a row it
    cannot decode, and reading a decided block never trips its assertion: reads fail only
    when redb does. *)
Theorem store_always_readable ops fs :
  Forall wf_op ops →
  let db := run_ops ops (mkDb empty_tables fs) in store_ok (tables db) ∧ reads_sound db.
Proof.
  intros F db. assert (store_ok (tables db)) as O by (apply run_ops_ok; [done|apply store_ok_empty]).
  split; [done|by apply store_ok_reads].
Qed.
End Invariant.
