(* ===== verification/MigrationsProps.v ===== *)
(** * Properties of migrations

    What every attempt to migrate leaves in the database, that a database written before the
    version bytes is restored, that a dry run reports what a migration does, and what a
    second attempt does to the rows of a failed first one. *)

From stdpp Require Import sorting.
From S2P Require Import Prelude BTree Validators Proposal Codec CodecProps StoreCodec Store StoreCodecProps StoreProps StoreInv Migrations.

(** ** Transactions *)

Definition fuel_exhausted : StoreError := StorePanicked "out of fuel".

Lemma write_tx_run {A} (g : Contents → result StoreError (A * Contents)) f r f' : write_tx g f = (r, f') →
  (true ∈ file_faults f' → true ∈ file_faults f)
  ∧ match r with
    | Ok a => ∃ c, g (contents f) = Ok (a, c) ∧ contents f' = c
    | Err e => contents f' = contents f ∧ (e = Storage ∧ true ∈ file_faults f ∨ g (contents f) = Err e)
    end.
Proof.
  unfold write_tx, file_fault. destruct (file_faults f) as [|[] l] eqn:F.
  - destruct (g (contents f)) as [[a c]|e]; intros [= <- <-]; cbn; rewrite ?F; eauto.
  - intros [= <- <-]. cbn. split; [by right|]. split; [done|]. left. by split; [|left].
  - destruct (g (contents f)) as [[a c]|e]; intros [= <- <-]; cbn; rewrite ?F; split; eauto; by right.
Qed.
Lemma read_tx_run {A} (g : Contents → result StoreError A) f r f' : read_tx g f = (r, f') →
  (true ∈ file_faults f' → true ∈ file_faults f) ∧ contents f' = contents f
  ∧ (r = Err Storage ∧ true ∈ file_faults f ∨ r = g (contents f)).
Proof.
  unfold read_tx, file_fault. destruct (file_faults f) as [|[] l] eqn:F; intros [= <- <-]; cbn; rewrite ?F.
  - eauto.
  - split; [by right|]. split; [done|]. left. by split; [|left].
  - split; [by right|]. eauto.
Qed.

(** ** Rows *)

(** The rows of a table with a version byte, all of them or those below a height. *)
Definition prefixed {K} (v : Byte.byte) (l : list (K * bytes)) : list (K * bytes) := (λ kv, (kv.1, v :: kv.2)) <$> l.
Definition prefixed_below (v : Byte.byte) (n : Z) (l : list (Z * bytes)) : list (Z * bytes) :=
  (λ kv, (kv.1, if decide (kv.1 < n) then v :: kv.2 else kv.2)) <$> l.
Definition from_height (n : Z) (l : list (Z * bytes)) : list (Z * bytes) := filter (λ kv, n ≤ kv.1) l.
Definition next_after (n : Z) (l : list (Z * bytes)) : Z := match last l with Some kv => kv.1 + 1 | None => n end.

Definition prepends (m : Migrator) (v : Byte.byte) : Prop :=
  (∀ b, record_needs_migration m b = true) ∧ ∀ b, migrate_record m b = prepend_version v b.

(** A row no migration can handle: it is empty, or at the highest height there is. *)
Definition stuck_row {K} (kv : K * bytes) : Prop := kv.2 = [].
Definition stuck_height (kv : Z * bytes) : Prop := stuck_row kv ∨ height_increment kv.1 = None.

Lemma migrate_row_run m v msg b : prepends m v →
  migrate_row m msg b = match b with [] => Err (StoreMigration msg) | _ => Ok (Some (v :: b)) end.
Proof. intros [N P]. unfold migrate_row. rewrite N, P. by destruct b. Qed.

Lemma scan_batch_run m v msg l : prepends m v → ∀ n,
  match scan_batch m msg l n with
  | Ok (batch, n') => batch = prefixed v l ∧ n' = next_after n l ∧ ¬ Exists stuck_height l
  | Err e => e ≠ fuel_exhausted ∧ Exists stuck_height l
  end.
Proof.
  intros P. induction l as [|[k b] l IH]; intros n; cbn [scan_batch].
  { split_and!; [done..|]. by intros X%Exists_nil. }
  rewrite (migrate_row_run m v msg b P). destruct b as [|x b]; cbn [mbind result_bind].
  { split; [done|]. left. by left. }
  destruct (height_increment k) as [n'|] eqn:I; cbn [ok_or mbind result_bind].
  2: { split; [done|]. left. by right. }
  specialize (IH n'). destruct (scan_batch m msg l n') as [[batch n'']|e]; cbn [mbind result_bind fst snd].
  - destruct IH as (-> & -> & Q). split_and!; [done| |].
    + apply checked_add_inv in I as [-> _]. unfold next_after. destruct l; [done|]. cbn [last].
      by destruct (last _) as [kv|] eqn:L; [|rewrite last_None in L].
    + intros [[K|K]|X]%Exists_cons; [done| |done]. cbn in K. by rewrite K in I.
  - destruct IH as [F E]. split; [done|]. by right.
Qed.
Lemma scan_table_run m v msg l : prepends m v →
  match scan_table m msg l with
  | Ok batch => batch = prefixed v l ∧ ¬ Exists stuck_row l
  | Err e => e ≠ fuel_exhausted ∧ Exists stuck_row l
  end.
Proof.
  intros P. induction l as [|[k b] l IH]; cbn [scan_table].
  { split; [done|]. by intros X%Exists_nil. }
  rewrite (migrate_row_run m v msg b P). destruct b as [|x b]; cbn [mbind result_bind].
  { split; [done|]. by left. }
  destruct (scan_table m msg l) as [batch|e]; cbn [mbind result_bind].
  { destruct IH as [-> Q]. split; [done|]. by intros [X|X]%Exists_cons. }
  destruct IH as [F E]. split; [done|]. by right.
Qed.

Lemma prefixed_keys {K} v (l : list (K * bytes)) : (prefixed v l).*1 = l.*1.
Proof. unfold prefixed. rewrite <- list_fmap_compose. by apply list_fmap_ext. Qed.
Lemma prefixed_get {K} `{!EqDecision K} v k (l : list (K * bytes)) : bt_get k (prefixed v l) = cons v <$> bt_get k l.
Proof.
  induction l as [|[k' b] l IH]; [done|]. unfold prefixed. cbn [fmap list_fmap fst snd]. rewrite !bt_get_cons.
  by case_decide.
Qed.

(** Writing back the prefixed rows of a part of a table. *)
Lemma insert_prefixed {K} `{!EqDecision K} (lt : K → K → bool) v (part l : list (K * bytes)) :
  (∀ k, lt k k = false) → (∀ a b c, lt a b = true → lt b c = true → lt a c = true) →
  bt_sorted lt l → part `sublist_of` l →
  foldl (λ l kv, bt_insert lt kv.1 kv.2 l) l (prefixed v part)
  = (λ kv, (kv.1, if decide (kv.1 ∈ part.*1) then v :: kv.2 else kv.2)) <$> l.
Proof.
  intros I T S P. rewrite bt_insert_all; [|done..| |].
  - apply list_fmap_ext. intros i [k b] Hin%list_elem_of_lookup_2. cbn [fst snd]. f_equal. rewrite prefixed_get.
    case_decide as D.
    + apply list_elem_of_fmap in D as ([k' b'] & E & D). cbn in E. subst k'.
      pose proof (sublist_elem_of _ _ _ P D) as D'.
      pose proof (bt_get_sorted lt I k b l S Hin) as G. rewrite (bt_get_sorted lt I k b' l S D') in G. injection G as ->.
      rewrite (bt_get_sorted lt I k b part); [done| |done]. by eapply StronglySorted_sublist.
    + apply bt_get_None in D. by rewrite D.
  - rewrite prefixed_keys. eapply bt_sorted_NoDup; [done|]. by eapply StronglySorted_sublist.
  - rewrite prefixed_keys. intros k (kv & -> & Hin)%list_elem_of_fmap. apply list_elem_of_fmap_2. by eapply sublist_elem_of.
Qed.

(** ** Batches *)

Section Batches.
Context (l : list (Z * bytes)) (S : bt_sorted Z.ltb l).

Definition batch_at (n : Z) : list (Z * bytes) := take BATCH_SIZE (from_height n l).

Lemma from_height_sorted n : bt_sorted Z.ltb (from_height n l).
Proof. by apply bt_sorted_filter. Qed.
Lemma batch_ge n kv : kv ∈ batch_at n → n ≤ kv.1.
Proof. intros Hin%elem_of_take. destruct Hin as (i & L & _). apply list_elem_of_lookup_2 in L. by apply list_elem_of_filter in L as [? _]. Qed.
Lemma next_after_ge n : n ≤ next_after n (batch_at n).
Proof.
  unfold next_after. destruct (last (batch_at n)) as [kv|] eqn:L; [|lia]. apply last_Some in L as [l' L].
  assert (kv ∈ batch_at n) as Hin by (rewrite L; apply elem_of_app; right; by left). apply batch_ge in Hin. lia.
Qed.
(** A batch takes the rows up to the height the next one starts at. *)
Lemma batch_split n : let n' := next_after n (batch_at n) in
  Forall (λ kv : Z * bytes, kv.1 < n') (batch_at n) ∧ Forall (λ kv : Z * bytes, n' ≤ kv.1) (drop BATCH_SIZE (from_height n l)).
Proof.
  intros n'. pose proof (from_height_sorted n) as Sn. rewrite <- (take_drop BATCH_SIZE) in Sn. fold (batch_at n) in Sn.
  unfold n', next_after. destruct (last (batch_at n)) as [kv|] eqn:L.
  - apply last_Some in L as [l' L]. rewrite L in Sn |- *. split; apply Forall_forall; intros x Hin.
    + apply elem_of_app in Hin as [Hin|Hin]; [|apply list_elem_of_singleton in Hin as ->; lia].
      rewrite <- app_assoc in Sn.
      apply StronglySorted_app_1_elem_of with (x1 := x) (x2 := kv) in Sn; [|done|by left]. cbn in Sn. lia.
    + apply StronglySorted_app_1_elem_of with (x1 := kv) (x2 := x) in Sn; [|apply elem_of_app; right; by left|done].
      cbn in Sn. lia.
  - apply last_None in L. split; [by rewrite L|]. unfold batch_at in L.
    destruct (from_height n l); [by rewrite drop_nil|done].
Qed.
Lemma from_next n : from_height (next_after n (batch_at n)) l = drop BATCH_SIZE (from_height n l).
Proof.
  destruct (batch_split n) as [F1 F2]. pose proof (next_after_ge n) as G. cbv zeta in *. set (n' := next_after n (batch_at n)) in *.
  transitivity (from_height n' (from_height n l)).
  { unfold from_height. rewrite list_filter_filter. apply list_filter_iff. intros kv. lia. }
  rewrite <- (take_drop BATCH_SIZE (from_height n l)) at 1. fold (batch_at n). unfold from_height at 1. rewrite filter_app.
  assert (filter (λ kv : Z * bytes, n' ≤ kv.1) (batch_at n) = []) as ->.
  { apply filter_none. eapply Forall_impl; [exact F1|]. cbn. lia. }
  apply filter_all. by apply Forall_forall.
Qed.
Lemma batch_member n k b : (k, b) ∈ l → n ≤ k → k ∈ (batch_at n).*1 ↔ k < next_after n (batch_at n).
Proof.
  intros Hin Hn. destruct (batch_split n) as [F1 F2]. cbv zeta in *. rewrite Forall_forall in F1, F2. split.
  - intros (kv & -> & Hk)%list_elem_of_fmap. by apply F1.
  - intros Hk. assert ((k, b) ∈ from_height n l) as Hf by (by apply list_elem_of_filter).
    rewrite <- (take_drop BATCH_SIZE) in Hf. apply elem_of_app in Hf as [Hf|Hf]; [by eapply (list_elem_of_fmap_2 fst) in Hf|].
    apply F2 in Hf. cbn [fst] in Hf. lia.
Qed.

Lemma from_height_below v n : from_height n (prefixed_below v n l) = from_height n l.
Proof.
  clear S. induction l as [|[k b] l' IH]; [done|]. unfold from_height, prefixed_below in *. cbn [fmap list_fmap fst snd].
  rewrite !filter_cons. cbn [fst]. rewrite IH. case_decide; [by rewrite decide_False by lia|done].
Qed.
Lemma insert_batch v n :
  foldl (λ l kv, bt_insert Z.ltb kv.1 kv.2 l) (prefixed_below v n l) (prefixed v (batch_at n))
  = prefixed_below v (next_after n (batch_at n)) l.
Proof.
  pose proof (next_after_ge n) as G. rewrite insert_prefixed.
  - unfold prefixed_below. rewrite <- list_fmap_compose. apply list_fmap_ext.
    intros i [k b] Hin%list_elem_of_lookup_2. unfold compose. cbn [fst snd]. f_equal.
    destruct (decide (k < n)) as [D|D].
    + rewrite (decide_True (P := k < _)) by lia. rewrite decide_False; [done|].
      intros (kv & -> & Hk)%list_elem_of_fmap. apply batch_ge in Hk. lia.
    + pose proof (batch_member n k b Hin ltac:(lia)) as M. by repeat case_decide; tauto.
  - intros k. apply Z.ltb_irrefl.
  - intros a b c. rewrite !Z.ltb_lt. lia.
  - by apply bt_sorted_map_values.
  - transitivity (from_height n (prefixed_below v n l)); [|apply filter_sublist]. rewrite from_height_below. apply sublist_take.
Qed.
Lemma prefixed_below_done v n : from_height n l = [] → prefixed_below v n l = prefixed v l.
Proof.
  intros E. apply list_fmap_ext. intros i kv Hin%list_elem_of_lookup_2. rewrite decide_True; [done|].
  apply Znot_ge_lt. intros G. apply (filter_nil_not_elem_of (λ kv : Z * bytes, n ≤ kv.1) l kv E); [lia|done].
Qed.
Lemma prefixed_below_start v k b : head l = Some (k, b) → prefixed_below v k l = l ∧ from_height k l = l.
Proof.
  intros H. assert (Forall (λ kv : Z * bytes, k ≤ kv.1) l) as F.
  { destruct l as [|kv l']; [done|]. cbn in H. injection H as ->. apply StronglySorted_inv in S as [_ F].
    constructor; [cbn; lia|]. eapply Forall_impl; [exact F|]. cbn. lia. }
  split; [|by apply filter_all, Forall_forall]. unfold prefixed_below. rewrite <- (list_fmap_id l) at 2. apply list_fmap_ext.
  rewrite Forall_forall in F. intros i [k' b'] Hin%list_elem_of_lookup_2%F. cbn in Hin. cbn. by rewrite decide_False by lia.
Qed.
End Batches.

(** ** One table *)

Definition with_table (c : Contents) (id : HeightTable) (l : list (Z * bytes)) : Contents :=
  set_rows c (set_height_table (rows c) id l).
Lemma with_table_get c id l : height_table (rows (with_table c id l)) id = l.
Proof. by destruct c as [? ? []], id. Qed.
Lemma with_table_twice c id l l' : with_table (with_table c id l) id l' = with_table c id l'.
Proof. by destruct c as [? ? []], id. Qed.
Lemma with_table_same c id : with_table c id (height_table (rows c) id) = c.
Proof. by destruct c as [? ? []], id. Qed.

(** A table whose rows below [n] are migrated, unless this is a dry run. *)
Definition shown (dry_run : bool) (c : Contents) (id : HeightTable) (v : Byte.byte) (n : Z) : Contents :=
  if dry_run then c else with_table c id (prefixed_below v n (height_table (rows c) id)).
Definition migrated (dry_run : bool) (c : Contents) (id : HeightTable) (v : Byte.byte) : Contents :=
  if dry_run then c else with_table c id (prefixed v (height_table (rows c) id)).
Definition count {A} (l : list A) : Z := Z.of_nat (length l).

Section OneTable.
Context (id : HeightTable) (m : Migrator) (v : Byte.byte) (msg : string) (dry_run : bool) (c : Contents).
Context (P : prepends m v) (S : bt_sorted Z.ltb (height_table (rows c) id)).
Notation l := (height_table (rows c) id).

Lemma batch_run n f r f' : contents f = shown dry_run c id v n → migrate_batch id m msg dry_run n f = (r, f') →
  (true ∈ file_faults f' → true ∈ file_faults f)
  ∧ match r with
    | Ok x => x = (count (batch_at l n), count (batch_at l n), next_after n (batch_at l n))
        ∧ contents f' = shown dry_run c id v (next_after n (batch_at l n)) ∧ ¬ Exists stuck_height (batch_at l n)
    | Err e => contents f' = contents f ∧ e ≠ fuel_exhausted ∧ (true ∈ file_faults f ∨ Exists stuck_height l)
    end.
Proof.
  intros C H. apply write_tx_run in H as [F H]. split; [exact F|].
  assert (take BATCH_SIZE (filter (λ kv : Z * bytes, n ≤ kv.1) (height_table (rows (contents f)) id)) = batch_at l n) as E.
  { rewrite C. unfold shown. destruct dry_run; [done|]. rewrite with_table_get. unfold batch_at. f_equal. apply from_height_below. }
  cbv beta zeta in H. rewrite E in H. pose proof (scan_batch_run m v msg (batch_at l n) P n) as B.
  destruct (scan_batch m msg (batch_at l n) n) as [[batch n']|e]; cbn [mbind result_bind fst snd] in H.
  - destruct B as (-> & -> & Q). destruct r as [x|e]; [|destruct H as [H [[-> X]|?]]; [by split_and!; [..|left]|done]].
    destruct H as (c' & [= <- <-] & ->). split; [unfold count, prefixed; by rewrite length_fmap|]. split; [|exact Q].
    rewrite C. unfold shown. destruct dry_run; [done|]. rewrite with_table_get, insert_batch by done. apply with_table_twice.
  - destruct r as [x|e']; [by destruct H as (? & ? & _)|]. destruct H as [H [[-> X]|[= <-]]]; [by split_and!; [..|left]|].
    destruct B as [B1 B2]. split_and!; [done..|]. right. unfold batch_at, from_height in B2.
    rewrite Exists_exists in B2 |- *. destruct B2 as (kv & Hin & K). exists kv. split; [|done].
    apply elem_of_take in Hin as (i & L & _). apply list_elem_of_lookup_2 in L. by apply list_elem_of_filter in L as [_ ?].
Qed.

Lemma batches_run fuel : ∀ n sc up f r f', (length (from_height n l) < fuel)%nat → contents f = shown dry_run c id v n →
  migrate_batches fuel id m msg dry_run n sc up f = (r, f') →
  (true ∈ file_faults f' → true ∈ file_faults f)
  ∧ match r with
    | Ok st => st = table_stats (sc + count (from_height n l)) (up + count (from_height n l))
        ∧ contents f' = migrated dry_run c id v ∧ ¬ Exists stuck_height (from_height n l)
    | Err e => e ≠ fuel_exhausted ∧ (true ∈ file_faults f ∨ Exists stuck_height l) ∧ ∃ n', contents f' = shown dry_run c id v n'
    end.
Proof.
  induction fuel as [|fuel IH]; intros n sc up f r f' Fu C H; [lia|]. cbn [migrate_batches] in H.
  unfold m_bind in H. destruct (migrate_batch id m msg dry_run n f) as [rb f1] eqn:E.
  apply (batch_run _ _ _ _ C) in E as [F E]. destruct rb as [x|e].
  2: { injection H as <- <-. destruct E as (C1 & E1 & E2). split; [exact F|]. split_and!; [done..|]. exists n. congruence. }
  destruct E as (-> & C1 & Q). pose proof (from_next l S n) as N.
  assert (∀ X : ¬ Exists stuck_height (from_height (next_after n (batch_at l n)) l), ¬ Exists stuck_height (from_height n l)) as Q2.
  { intros X. rewrite N in X. rewrite <- (take_drop BATCH_SIZE (from_height n l)), Exists_app. by intros [?|?]. }
  assert (count (from_height n l) = count (batch_at l n) + count (from_height (next_after n (batch_at l n)) l)) as L.
  { rewrite N. unfold count, batch_at. rewrite length_take, length_drop. lia. }
  assert (length (batch_at l n) = Nat.min BATCH_SIZE (length (from_height n l))) as Lb by apply length_take.
  case_decide as D.
  - injection H as <- <-. split; [exact F|].
    assert (from_height (next_after n (batch_at l n)) l = []) as Z.
    { rewrite N. apply drop_ge. unfold count in D. lia. }
    rewrite Z in L. split; [f_equal; unfold count in *; cbn in L; lia|].
    split; [|apply Q2; rewrite Z; by intros X%Exists_nil]. rewrite C1. unfold shown, migrated.
    destruct dry_run; [done|]. by rewrite prefixed_below_done.
  - assert (0 < length (batch_at l n))%nat by (unfold count, BATCH_SIZE in *; lia).
    apply IH in H; [|unfold count in L; lia|exact C1]. destruct H as [F2 H]. split; [auto|]. destruct r as [st|e].
    + destruct H as (-> & -> & X). split; [f_equal; lia|]. by split; [|apply Q2].
    + destruct H as (E1 & E2 & E3). split_and!; [done| |done]. destruct E2; [left; auto|by right].
Qed.

Lemma height_table_run f r f' : contents f = c → migrate_height_table id msg m dry_run f = (r, f') →
  (true ∈ file_faults f' → true ∈ file_faults f)
  ∧ match r with
    | Ok st => st = table_stats (count l) (count l) ∧ contents f' = migrated dry_run c id v
        ∧ created c = true ∧ ¬ Exists stuck_height l
    | Err e => e ≠ fuel_exhausted ∧ (true ∈ file_faults f ∨ created c = false ∨ Exists stuck_height l)
        ∧ ∃ n, contents f' = shown dry_run c id v n
    end.
Proof.
  intros C H. unfold migrate_height_table, m_bind at 1 in H.
  assert (∃ n, c = shown dry_run c id v n) as [n0 N0].
  { unfold shown. destruct dry_run; [by exists 0|]. destruct (head l) as [[k b]|] eqn:Hd.
    - exists k. destruct (prefixed_below_start l S v k b Hd) as [-> _]. symmetry. apply with_table_same.
    - exists 0. destruct l eqn:El; [|done]. cbn. rewrite <- El. symmetry. apply with_table_same. }
  destruct (read_tx _ f) as [rd f1] eqn:E. apply read_tx_run in E as (F1 & C1 & E). rewrite C in C1.
  destruct rd as [first|e].
  2: { injection H as <- <-. rewrite C in E. split; [exact F1|]. split; [|split; [|exists n0; congruence]].
       - destruct E as [[[= ->] _]|E]; [done|]. destruct (created c); [done|by injection E as ->].
       - destruct E as [[_ ?]|E]; [by left|]. right. left. by destruct (created c). }
  destruct E as [[? _]|E]; [done|]. rewrite C in E. destruct (created c) eqn:Cr; [|done]. injection E as ->.
  destruct (head l) as [[k b]|] eqn:Hd.
  - unfold m_bind, m_get in H. rewrite C1 in H. destruct (prefixed_below_start l S v k b Hd) as [Pb Fh].
    apply batches_run in H; [|rewrite Fh; lia|].
    + destruct H as [F2 H]. split; [auto|]. rewrite Fh in H. destruct r as [st|e]; [naive_solver|].
      destruct H as (E1 & E2 & E3). split_and!; [done| |done]. destruct E2; [left; auto|right; by right].
    + rewrite C1. unfold shown. destruct dry_run; [done|]. rewrite Pb. symmetry. apply with_table_same.
  - injection H as <- <-. split; [exact F1|]. destruct l eqn:El; [|done]. split; [done|].
    split; [|split; [done|by intros X%Exists_nil]]. rewrite C1. unfold migrated.
    destruct dry_run; [done|]. rewrite El. cbn. rewrite <- El. symmetry. apply with_table_same.
Qed.
End OneTable.

Section KeyTable.
Context (get : Tables → list (BlockKey * bytes)) (set : Tables → list (BlockKey * bytes) → Tables).
Context (m : Migrator) (v : Byte.byte) (msg : string) (dry_run : bool).

Lemma key_table_run f r f' : prepends m v → bt_sorted block_key_lt (get (rows (contents f))) →
  migrate_key_table get set msg m dry_run f = (r, f') →
  let c := contents f in
  let l := get (rows c) in
  (true ∈ file_faults f' → true ∈ file_faults f)
  ∧ match r with
    | Ok st => st = table_stats (count l) (count l) ∧ contents f' = (if dry_run then c else set_rows c (set (rows c) (prefixed v l)))
        ∧ ¬ Exists stuck_row l
    | Err e => e ≠ fuel_exhausted ∧ (true ∈ file_faults f ∨ Exists stuck_row l) ∧ contents f' = c
    end.
Proof.
  intros P S H c l. apply write_tx_run in H as [F H]. split; [exact F|]. cbv beta zeta in H. fold c in H. fold l in H, S.
  pose proof (scan_table_run m v msg l P) as B. destruct (scan_table m msg l) as [batch|e]; cbn [mbind result_bind] in H.
  - destruct B as [-> Q]. destruct r as [x|e]; [|destruct H as [H [[-> X]|?]]; [by split_and!; [|left|]|done]].
    destruct H as (c' & [= <- <-] & ->). split; [unfold count, prefixed; by rewrite length_fmap|]. split; [|exact Q].
    destruct dry_run; [done|]. do 2 f_equal. rewrite insert_prefixed; [|apply block_key_lt_irrefl|apply block_key_lt_trans|done..].
    apply list_fmap_ext. intros i kv Hin%list_elem_of_lookup_2. rewrite decide_True; [done|]. by apply list_elem_of_fmap_2.
  - destruct r as [x|e']; [by destruct H as (? & ? & _)|]. destruct B as [B1 B2].
    destruct H as [H [[-> X]|[= <-]]]; split_and!; [done|by left|done|done|by right|done].
Qed.
End KeyTable.

(** ** All tables *)

(** A database whose four tables have version bytes, and one on the way there. *)
Definition upgraded (t : Tables) : Tables :=
  mkTables (prefixed CommitCertificateVersion (certificates t)) (prefixed ExecutionPayloadVersion (decided_blocks t))
    (misbehavior_evidence t) (invalid_payloads t) (proposal_monitor_data t)
    (prefixed ConsensusBlockVersion (undecided_blocks t)) (prefixed ProposalPartsVersion (pending_proposal_parts t)).
Definition partly_upgraded (cert decided : Z) (undecided pending : bool) (t : Tables) : Tables :=
  mkTables (prefixed_below CommitCertificateVersion cert (certificates t))
    (prefixed_below ExecutionPayloadVersion decided (decided_blocks t))
    (misbehavior_evidence t) (invalid_payloads t) (proposal_monitor_data t)
    (if undecided then prefixed ConsensusBlockVersion (undecided_blocks t) else undecided_blocks t)
    (if pending then prefixed ProposalPartsVersion (pending_proposal_parts t) else pending_proposal_parts t).

Definition stuck (t : Tables) : Prop :=
  Exists stuck_height (certificates t) ∨ Exists stuck_height (decided_blocks t)
  ∨ Exists stuck_row (undecided_blocks t) ∨ Exists stuck_row (pending_proposal_parts t).
#[export] Instance stuck_row_decision {K} (kv : K * bytes) : Decision (stuck_row kv).
Proof. unfold stuck_row. apply _. Defined.
#[export] Instance stuck_height_decision (kv : Z * bytes) : Decision (stuck_height kv).
Proof. unfold stuck_height. apply _. Defined.
#[export] Instance stuck_decision t : Decision (stuck t).
Proof. unfold stuck. apply _. Defined.
Definition total (t : Tables) : Z :=
  count (certificates t) + count (decided_blocks t) + count (undecided_blocks t) + count (pending_proposal_parts t).
(** The report of a migration that upgraded every row. *)
Definition full_report (t : Tables) : MigrationStats := mkMigrationStats 4 (total t) (total t) 0.

(** All rows lie below some height, and above another. *)
Lemma height_above (l : list (Z * bytes)) v : ∃ n, prefixed_below v n l = prefixed v l.
Proof.
  induction l as [|[k b] l [n IH]]; [by exists 0|]. exists (Z.max n (Z.max (k + 1) (foldr Z.max 0 (l.*1) + 1))).
  unfold prefixed_below, prefixed. apply list_fmap_ext. intros i kv Hin%list_elem_of_lookup_2. rewrite decide_True; [done|].
  assert (∀ h, h ∈ l.*1 → h ≤ foldr Z.max 0 l.*1) as M.
  { clear. induction l as [|x l IH]; cbn; intros h Hh; [by apply elem_of_nil in Hh|].
    apply elem_of_cons in Hh as [->|Hh]; [lia|]. specialize (IH h Hh). lia. }
  apply elem_of_cons in Hin as [->|Hin]; [cbn; lia|]. apply (list_elem_of_fmap_2 fst), M in Hin. lia.
Qed.
Lemma height_below (l : list (Z * bytes)) v : bt_sorted Z.ltb l → ∃ n, prefixed_below v n l = l.
Proof.
  intros S. destruct (head l) as [[k b]|] eqn:H; [|destruct l; [by exists 0|done]].
  exists k. by apply (prefixed_below_start l S v k b).
Qed.

Lemma certificates_run dry_run f r f' : wf_height_table (certificates (rows (contents f))) →
  migrate_certificates CommitCertificateMigrator0To1 dry_run f = (r, f') →
  let c := contents f in
  (true ∈ file_faults f' → true ∈ file_faults f)
  ∧ match r with
    | Ok st => st = table_stats (count (certificates (rows c))) (count (certificates (rows c)))
        ∧ contents f' = migrated dry_run c CERTIFICATES_TABLE CommitCertificateVersion
        ∧ created c = true ∧ ¬ Exists stuck_height (certificates (rows c))
    | Err e => e ≠ fuel_exhausted ∧ (true ∈ file_faults f ∨ created c = false ∨ Exists stuck_height (certificates (rows c)))
        ∧ ∃ n, contents f' = shown dry_run c CERTIFICATES_TABLE CommitCertificateVersion n
    end.
Proof. intros [W _] H. by apply height_table_run with (v := CommitCertificateVersion) (c := contents f) in H. Qed.
Lemma decided_run dry_run f r f' : wf_height_table (decided_blocks (rows (contents f))) →
  migrate_decided_blocks ExecutionPayloadMigrator0To3 dry_run f = (r, f') →
  let c := contents f in
  (true ∈ file_faults f' → true ∈ file_faults f)
  ∧ match r with
    | Ok st => st = table_stats (count (decided_blocks (rows c))) (count (decided_blocks (rows c)))
        ∧ contents f' = migrated dry_run c DECIDED_BLOCKS_TABLE ExecutionPayloadVersion
        ∧ created c = true ∧ ¬ Exists stuck_height (decided_blocks (rows c))
    | Err e => e ≠ fuel_exhausted ∧ (true ∈ file_faults f ∨ created c = false ∨ Exists stuck_height (decided_blocks (rows c)))
        ∧ ∃ n, contents f' = shown dry_run c DECIDED_BLOCKS_TABLE ExecutionPayloadVersion n
    end.
Proof. intros [W _] H. by apply height_table_run with (v := ExecutionPayloadVersion) (c := contents f) in H. Qed.

(** Where the rows stand when a step stops at one of the tables. *)
Inductive stopped (t : Tables) : Tables → Prop :=
| stopped_at c d u p : stopped t (partly_upgraded c d u p t).

Definition blocked (f : File) : Prop := true ∈ file_faults f ∨ created (contents f) = false ∨ stuck (rows (contents f)).

(** The tables keyed by height are migrated: what is left to do. *)
Definition heights_done (dry_run : bool) (c : Contents) (u : bool) : Contents :=
  if dry_run then c
  else set_rows c (mkTables (prefixed CommitCertificateVersion (certificates (rows c)))
         (prefixed ExecutionPayloadVersion (decided_blocks (rows c))) (misbehavior_evidence (rows c)) (invalid_payloads (rows c))
         (proposal_monitor_data (rows c))
         (if u then prefixed ConsensusBlockVersion (undecided_blocks (rows c)) else undecided_blocks (rows c))
         (pending_proposal_parts (rows c))).
Definition step_failed (dry_run : bool) (f f' : File) (e : StoreError) : Prop :=
  e ≠ fuel_exhausted ∧ blocked f
  ∧ ∃ t, stopped (rows (contents f)) t ∧ contents f' = (if dry_run then contents f else set_rows (contents f) t).
Lemma heights_done_stopped dry_run c u :
  ∃ t, stopped (rows c) t ∧ heights_done dry_run c u = (if dry_run then c else set_rows c t).
Proof.
  destruct (height_above (certificates (rows c)) CommitCertificateVersion) as [nc Nc].
  destruct (height_above (decided_blocks (rows c)) ExecutionPayloadVersion) as [nd Nd].
  exists (partly_upgraded nc nd u false (rows c)). split; [constructor|]. unfold heights_done, partly_upgraded. by rewrite Nc, Nd.
Qed.

Lemma heights_run dry_run f r f' : tables_wf (rows (contents f)) →
  (c <-- migrate_certificates CommitCertificateMigrator0To1 dry_run ;;
   d <-- migrate_decided_blocks ExecutionPayloadMigrator0To3 dry_run ;; m_ret (c, d)) f = (r, f') →
  let t := rows (contents f) in
  (true ∈ file_faults f' → true ∈ file_faults f)
  ∧ match r with
    | Ok st => st = (table_stats (count (certificates t)) (count (certificates t)),
                     table_stats (count (decided_blocks t)) (count (decided_blocks t)))
        ∧ contents f' = heights_done dry_run (contents f) false ∧ created (contents f) = true
        ∧ ¬ Exists stuck_height (certificates t) ∧ ¬ Exists stuck_height (decided_blocks t)
    | Err e => step_failed dry_run f f' e
    end.
Proof.
  intros (Wh & _) H t. pose proof (Wh CERTIFICATES_TABLE) as Wc. pose proof (Wh DECIDED_BLOCKS_TABLE) as Wd.
  cbn [height_table] in Wc, Wd. set (c := contents f) in *. unfold step_failed, blocked, stuck. fold c.
  destruct (height_above (certificates t) CommitCertificateVersion) as [nc Nc].
  destruct (height_below (decided_blocks t) ExecutionPayloadVersion (proj1 Wd)) as [ld Ld].
  unfold m_bind at 1 in H. destruct (migrate_certificates _ dry_run f) as [rc f1] eqn:E1.
  apply certificates_run in E1 as [F1 E1]; [|exact Wc]. fold c t in E1. destruct rc as [sc|e].
  2: { injection H as <- <-. split; [exact F1|]. destruct E1 as (X1 & X2 & n & X3). split; [done|].
       split; [tauto|]. exists (partly_upgraded n ld false false t). split; [constructor|].
       rewrite X3. unfold shown. destruct dry_run; [done|]. unfold partly_upgraded. rewrite Ld. unfold t. by destruct c as [? ? []]. }
  destruct E1 as (-> & C1 & Cr & Q1). unfold m_bind, m_ret in H.
  destruct (migrate_decided_blocks _ dry_run f1) as [rd f2] eqn:E2.
  assert (decided_blocks (rows (contents f1)) = decided_blocks t ∧ created (contents f1) = created c) as [R1 R2].
  { rewrite C1. unfold migrated, t. destruct dry_run; [done|]. by destruct c as [? ? []]. }
  apply decided_run in E2 as [F2 E2]; [|by rewrite R1]. cbv zeta in E2. rewrite R1, R2 in E2.
  destruct rd as [sd|e]; injection H as <- <-; (split; [auto|]).
  - destruct E2 as (-> & C2 & _ & Q2). split_and!; [done| |done..]. rewrite C2, C1. unfold migrated, heights_done.
    destruct dry_run; [done|]. by destruct c as [? ? []].
  - destruct E2 as (X1 & X2 & n & X3). split; [done|]. split; [naive_solver|].
    exists (partly_upgraded nc n false false t). split; [constructor|].
    rewrite X3, C1. unfold shown, migrated. destruct dry_run; [done|]. unfold partly_upgraded. rewrite Nc. unfold t. by destruct c as [? ? []].
Qed.

Lemma step_run dry_run f r f' : tables_wf (rows (contents f)) →
  migrate_step MigratorSet_v1 dry_run stats_default f = (r, f') →
  let c := contents f in
  (true ∈ file_faults f' → true ∈ file_faults f)
  ∧ match r with
    | Ok st => st = full_report (rows c) ∧ contents f' = (if dry_run then c else set_rows c (upgraded (rows c)))
        ∧ created c = true ∧ ¬ stuck (rows c)
    | Err e => step_failed dry_run f f' e
    end.
Proof.
  intros W H c. pose proof W as (_ & [Wu _] & [Wp _]).
  assert (∀ u e f', e ≠ fuel_exhausted → blocked f → contents f' = heights_done dry_run c u → step_failed dry_run f f' e) as Bad.
  { intros u e f2 X1 X2 X3. split_and!; [done..|]. destruct (heights_done_stopped dry_run c u) as (t & St & E). exists t. by rewrite X3, E. }
  unfold migrate_step in H. cbn [ms_certificate ms_decided_block ms_undecided_block ms_pending_parts MigratorSet_v1] in H.
  destruct ((sc <-- migrate_certificates CommitCertificateMigrator0To1 dry_run ;;
             d <-- migrate_decided_blocks ExecutionPayloadMigrator0To3 dry_run ;; m_ret (sc, d)) f) as [rh f2] eqn:E.
  pose proof E as E'. apply heights_run in E' as [F2 E']; [|exact W]. fold c in E'. unfold m_bind in E, H.
  destruct (migrate_certificates _ dry_run f) as [[sc|e1] f1]; [|injection E as <- <-; by injection H as <- <-].
  destruct (migrate_decided_blocks _ dry_run f1) as [[sd|e1] f2']; injection E as <- <-; [|by injection H as <- <-].
  destruct E' as ([= -> ->] & C2 & Cr & Q1 & Q2).
  assert (undecided_blocks (rows (contents f2')) = undecided_blocks (rows c)) as R by (rewrite C2; by destruct dry_run).
  destruct (migrate_undecided_blocks _ dry_run f2') as [ru f3] eqn:E3.
  apply key_table_run with (v := ConsensusBlockVersion) in E3 as [F3 E3]; [|done|by rewrite R]. rewrite R in E3. destruct ru as [su|e].
  2: { injection H as <- <-. split; [auto|]. destruct E3 as (X1 & X2 & X3).
       apply (Bad false); [done|unfold blocked, stuck; fold c; naive_solver|congruence]. }
  destruct E3 as (-> & C3 & Q3).
  assert (contents f3 = heights_done dry_run c true) as C3' by (rewrite C3, C2; by destruct dry_run).
  assert (pending_proposal_parts (rows (contents f3)) = pending_proposal_parts (rows c)) as R' by (rewrite C3'; by destruct dry_run).
  destruct (migrate_pending_parts _ dry_run f3) as [rp f4] eqn:E4.
  apply key_table_run with (v := ProposalPartsVersion) in E4 as [F4 E4]; [|done|by rewrite R']. rewrite R' in E4. destruct rp as [sp|e].
  2: { injection H as <- <-. split; [auto|]. destruct E4 as (X1 & X2 & X3).
       apply (Bad true); [done|unfold blocked, stuck; fold c; naive_solver|congruence]. }
  destruct E4 as (-> & C4 & Q4). injection H as <- <-. split; [auto|]. split_and!; [| |done|unfold stuck; tauto].
  - unfold stats_merge, table_stats, full_report, total, stats_default. cbn. f_equal; lia.
  - rewrite C4, C3'. by destruct dry_run.
Qed.

(** ** Migrating and previewing *)

Lemma chain_from_v0 : build_migration_chain V0 DB_SCHEMA_VERSION = Ok [(V1, MigratorSet_v1)].
Proof. done. Qed.
Lemma stopped_done t : stopped t (upgraded t).
Proof.
  destruct (height_above (certificates t) CommitCertificateVersion) as [nc Nc].
  destruct (height_above (decided_blocks t) ExecutionPayloadVersion) as [nd Nd].
  replace (upgraded t) with (partly_upgraded nc nd true true t); [constructor|]. unfold partly_upgraded. by rewrite Nc, Nd.
Qed.
Lemma stopped_start t : tables_wf t → stopped t t.
Proof.
  intros (Wh & _). destruct (height_below (certificates t) CommitCertificateVersion) as [nc Nc]; [apply (Wh CERTIFICATES_TABLE)|].
  destruct (height_below (decided_blocks t) ExecutionPayloadVersion) as [nd Nd]; [apply (Wh DECIDED_BLOCKS_TABLE)|].
  replace t with (partly_upgraded nc nd false false t) at 2; [constructor|]. unfold partly_upgraded. rewrite Nc, Nd. by destruct t.
Qed.

Definition at_version (c : Contents) (v : Z) (t : Tables) : Contents := mkContents (Some (Some v)) (created c) t.

Lemma migrate_run f r f' : metadata (contents f) = Some (Some V0) → tables_wf (rows (contents f)) → migrate f = (r, f') →
  let c := contents f in
  (true ∈ file_faults f' → true ∈ file_faults f)
  ∧ match r with
    | Ok st => st = full_report (rows c) ∧ contents f' = at_version c V1 (upgraded (rows c)) ∧ created c = true ∧ ¬ stuck (rows c)
    | Err e => e ≠ fuel_exhausted ∧ blocked f ∧ ∃ t, stopped (rows c) t ∧ contents f' = set_rows c t
    end.
Proof.
  intros Md W H c. unfold migrate, m_bind at 1 in H. destruct (current_schema_version f) as [rv f1] eqn:E.
  apply read_tx_run in E as (F1 & C1 & E). rewrite Md in E. cbn [ok_or] in E. fold c in C1.
  assert (∃ t, stopped (rows c) t ∧ contents f1 = set_rows c t) as St.
  { exists (rows c). split; [by apply stopped_start|]. rewrite C1. by destruct c. }
  destruct E as [[-> X]| ->]; [injection H as <- <-; split; [exact F1|]; by split_and!; [|left|]|].
  unfold m_bind at 1, m_lift at 1 in H. cbn [ok_or] in H. unfold m_bind at 1, m_lift at 1 in H. rewrite chain_from_v0 in H.
  cbn [migrate_chain] in H. unfold m_bind at 1 in H. destruct (migrate_step _ false stats_default f1) as [rs f2] eqn:E.
  apply step_run in E as [F2 E]; [|by rewrite C1]. cbv zeta in E. rewrite C1 in E.
  assert (blocked f1 → blocked f) as Bl by (unfold blocked; rewrite C1; fold c; naive_solver).
  destruct rs as [st|e]; [|injection H as <- <-; split; [auto|]; destruct E as (X1 & X2 & X3); rewrite C1 in X3; split_and!; [done|auto|exact X3]].
  destruct E as (-> & C2 & Cr & Q). unfold m_bind at 1 in H. destruct (set_schema_version V1 f2) as [rw f3] eqn:E.
  apply write_tx_run in E as [F3 E]. destruct rw as [[]|e]; cbn in H; injection H as <- <-; (split; [auto|]).
  - destruct E as (c3 & [= <-] & ->). rewrite C2. by split_and!.
  - destruct E as [C3 [[-> X]|?]]; [|done]. split_and!; [done|left; auto|]. exists (upgraded (rows c)).
    split; [apply stopped_done|]. congruence.
Qed.

Lemma preview_run f r f' : metadata (contents f) = Some (Some V0) → tables_wf (rows (contents f)) → preview_migrate f = (r, f') →
  contents f' = contents f
  ∧ match r with
    | Ok st => st = full_report (rows (contents f)) ∧ created (contents f) = true ∧ ¬ stuck (rows (contents f))
    | Err e => e ≠ fuel_exhausted ∧ blocked f
    end.
Proof.
  intros Md W H. unfold preview_migrate, m_bind at 1 in H. destruct (current_schema_version f) as [rv f1] eqn:E.
  apply read_tx_run in E as (F1 & C1 & E). rewrite Md in E. cbn [ok_or] in E.
  destruct E as [[-> X]| ->]; [injection H as <- <-; split; [exact C1|]; by split; [|left]|].
  unfold m_bind at 1, m_lift at 1 in H. cbn [ok_or] in H. unfold m_bind at 1, m_lift at 1 in H. rewrite chain_from_v0 in H.
  cbn [preview_chain] in H. unfold m_bind at 1 in H. destruct (migrate_step _ true stats_default f1) as [rs f2] eqn:E.
  apply step_run in E as [F2 E]; [|by rewrite C1]. cbv zeta in E. rewrite C1 in E. destruct rs as [st|e]; injection H as <- <-.
  - destruct E as (-> & C2 & Cr & Q). by split.
  - destruct E as (X1 & X2 & t & _ & X3). split; [congruence|]. split; [done|]. unfold blocked in *. rewrite C1 in X2. naive_solver.
Qed.

(** ** Opening *)

(** A database file written before schema versions: it has none, or version 0. *)
Definition unversioned_file (c : Contents) : Prop :=
  metadata c = None ∨ metadata c = Some None ∨ metadata c = Some (Some V0).

Lemma needs_run f r f' : unversioned_file (contents f) → needs_migration true f = (r, f') →
  (true ∈ file_faults f' → true ∈ file_faults f)
  ∧ created (contents f') = created (contents f) ∧ rows (contents f') = rows (contents f)
  ∧ unversioned_file (contents f')
  ∧ match r with
    | Ok needed => needed = true ∧ metadata (contents f') = Some (Some V0)
    | Err e => e = Storage ∧ true ∈ file_faults f
    end.
Proof.
  intros U H. unfold needs_migration, m_bind at 1 in H. destruct (ensure_metadata_table_exists f) as [r1 f1] eqn:E.
  apply write_tx_run in E as [F1 E]. destruct r1 as [[]|e].
  2: { injection H as <- <-. destruct E as [-> [[-> X]|?]]; [|done]. by split_and!. }
  destruct E as (c1 & [= <-] & C1). unfold m_bind at 1 in H. destruct (current_schema_version f1) as [r2 f2] eqn:E.
  apply read_tx_run in E as (F2 & C2 & E). rewrite C1 in E. cbn [metadata ok_or] in E. rewrite C1 in C2.
  assert (unversioned_file (contents f2)) as U2.
  { rewrite C2. unfold unversioned_file in *. cbn. destruct U as [->|[->| ->]]; cbn; tauto. }
  destruct r2 as [cur|e].
  2: { injection H as <- <-. rewrite C2. split; [auto|]. destruct E as [[[= ->] X]|?]; [|done]. rewrite C2 in U2. by split_and!; auto. }
  destruct E as [[? _]|[= ->]]; [done|].
  destruct U as [M|[M|M]]; rewrite M in H, C2; cbn [default from_option id] in H, C2.
  1,2: unfold m_bind, m_ret in H; cbv iota beta in H; destruct (set_schema_version V0 f2) as [r3 f3] eqn:E; apply write_tx_run in E as [F3 E];
    destruct r3 as [[]|e]; injection H as <- <-; (split; [auto|]);
    [destruct E as (c3 & [= <-] & ->); rewrite C2; cbn; split_and!; [done..| |done|done]; right; by right
    |destruct E as [-> [[-> X]|?]]; [|done]; by rewrite C2 in U2 |- *; split_and!; auto].
  injection H as <- <-. split; [auto|]. rewrite C2. rewrite C2 in U2. by split_and!.
Qed.

Lemma Db_new_run f r f' : unversioned_file (contents f) → tables_wf (rows (contents f)) → Db_new Perform true f = (r, f') →
  let c := contents f in
  (true ∈ file_faults f' → true ∈ file_faults f)
  ∧ match r with
    | Ok _ => contents f' = at_version c V1 (upgraded (rows c)) ∧ created c = true ∧ ¬ stuck (rows c)
    | Err e => e ≠ fuel_exhausted ∧ blocked f ∧ unversioned_file (contents f') ∧ created (contents f') = created c
        ∧ stopped (rows c) (rows (contents f'))
    end.
Proof.
  intros U W H c. cbn [Db_new] in H. unfold m_bind at 1 in H. destruct (needs_migration true f) as [rn f1] eqn:E.
  apply needs_run in E as (F1 & Cr & R & U1 & E); [|done]. fold c in Cr, R. destruct rn as [needed|e].
  2: { injection H as <- <-. destruct E as [-> X]. split; [exact F1|]. split_and!; [done|by left|done|done|].
       rewrite R. by apply stopped_start. }
  destruct E as [-> Md]. unfold m_bind, m_ret in H. destruct (migrate f1) as [rm f2] eqn:E.
  apply migrate_run in E as [F2 E]; [|done|by rewrite R]. cbv zeta in E. rewrite R, Cr in E.
  destruct rm as [st|e]; injection H as <- <-; (split; [auto|]).
  - destruct E as (_ & -> & X & Y). unfold at_version. rewrite Cr. by split_and!.
  - destruct E as (X1 & X2 & t & X3 & X4). unfold blocked in X2. rewrite R, Cr in X2.
    rewrite X4. split_and!; [done|unfold blocked; fold c; naive_solver| |done|exact X3]. right. right. exact Md.
Qed.

(** Rows on the way are as sound, and as migratable, as the ones they come from. *)
Lemma map_values_wf {K} `{!EqDecision K} (lt : K → K → bool) (Q : K → Prop) (g : K * bytes → bytes) l :
  bt_sorted lt l ∧ Forall (λ kv, Q kv.1) l →
  bt_sorted lt ((λ kv, (kv.1, g kv)) <$> l) ∧ Forall (λ kv, Q kv.1) ((λ kv, (kv.1, g kv)) <$> l).
Proof. intros [S F]. split; [by apply bt_sorted_map_values|]. by apply Forall_fmap. Qed.
Lemma partly_wf c d u p t : tables_wf t → tables_wf (partly_upgraded c d u p t).
Proof.
  intros (Wh & Wu & Wp). split_and!.
  - intros id. specialize (Wh id). destruct id; try done; by apply (map_values_wf Z.ltb (uint 64)).
  - destruct u; [|done]. by apply (map_values_wf block_key_lt wf_key).
  - destruct p; [|done]. by apply (map_values_wf block_key_lt wf_key).
Qed.
Lemma stuck_height_below v n l : Exists stuck_height (prefixed_below v n l) → Exists stuck_height l.
Proof.
  unfold prefixed_below. rewrite Exists_fmap. intros H. eapply Exists_impl; [exact H|]. intros [k b]. unfold stuck_height, stuck_row. cbn.
  case_decide; naive_solver.
Qed.
Lemma stuck_row_prefixed {K} v (l : list (K * bytes)) : Exists stuck_row (prefixed v l) → Exists stuck_row l.
Proof. unfold prefixed. rewrite Exists_fmap. intros H. eapply Exists_impl; [exact H|]. by intros [k b]. Qed.
Lemma partly_stuck c d u p t : stuck (partly_upgraded c d u p t) → stuck t.
Proof.
  unfold stuck. cbn. intros [H|[H|[H|H]]].
  - left. by eapply stuck_height_below.
  - right. left. by eapply stuck_height_below.
  - right. right. left. destruct u; [by eapply stuck_row_prefixed|done].
  - right. right. right. destruct p; [by eapply stuck_row_prefixed|done].
Qed.

(** ** A database without version bytes *)

Definition stripped {K} (l : list (K * bytes)) : list (K * bytes) := (λ kv, (kv.1, tail kv.2)) <$> l.
Definition unversioned (t : Tables) : Tables :=
  mkTables (stripped (certificates t)) (stripped (decided_blocks t)) (misbehavior_evidence t) (invalid_payloads t)
    (proposal_monitor_data t) (stripped (undecided_blocks t)) (stripped (pending_proposal_parts t)).

Lemma prefixed_stripped {K} v (l : list (K * bytes)) : (∀ k b, (k, b) ∈ l → ∃ rest, b = v :: rest) → prefixed v (stripped l) = l.
Proof.
  intros H. unfold prefixed, stripped. rewrite <- list_fmap_compose. rewrite <- (list_fmap_id l) at 2. apply list_fmap_ext.
  intros i [k b] Hin%list_elem_of_lookup_2. apply H in Hin as [rest ->]. done.
Qed.
Lemma with_version_head {A} v (body : bytes → result DecodeError A) b x : with_version v body b = Ok x → ∃ rest, b = v :: rest.
Proof. destruct b as [|y b]; cbn; [done|]. case_decide; [subst; eauto|done]. Qed.
Lemma unversioned_wf t : tables_wf t → tables_wf (unversioned t).
Proof.
  intros (Wh & Wu & Wp). split_and!; [|by apply (map_values_wf block_key_lt wf_key)..].
  intros id. specialize (Wh id). destruct id; try done; by apply (map_values_wf Z.ltb (uint 64)).
Qed.

(** A database at the current version is left as it is, whatever fails. *)
Lemma reopen_current c faults : metadata c = Some (Some V1) → created c = true →
  contents (Store_open Perform true (mkFile c faults)).2 = c.
Proof.
  intros Md Cr. destruct c as [md cr t]. cbn in Md, Cr. subst. unfold Store_open. cbn [Db_new].
  unfold m_bind. destruct (needs_migration true _) as [rn f1] eqn:E. unfold needs_migration, m_bind in E.
  destruct (ensure_metadata_table_exists _) as [r1 f2] eqn:E1. apply write_tx_run in E1 as [_ E1]. destruct r1 as [[]|e].
  2: { injection E as <- <-. cbn [snd]. by destruct E1 as [-> _]. }
  destruct E1 as (c1 & [= <-] & C1). destruct (current_schema_version f2) as [r2 f3] eqn:E2.
  apply read_tx_run in E2 as (_ & C2 & E2). rewrite C1 in C2, E2. destruct r2 as [cur|e].
  2: { injection E as <- <-. cbn [snd]. by rewrite C2. }
  destruct E2 as [[? _]|[= ->]]; [done|]. injection E as <- <-. cbn [m_ret].
  destruct (create_tables f3) as [r3 f4] eqn:E3. apply write_tx_run in E3 as [_ E3]. destruct r3 as [u|e]; cbn [snd].
  - destruct E3 as (c4 & [= _ <-] & ->). by rewrite C2.
  - by destruct E3 as [-> _].
Qed.

Section Restore.
Context `{PC : ProposalCrypto} {PCL : ProposalCryptoLaws} {SB : SignatureBytes} {SL : SignatureLaws}.
Context {SZ : SszBlockCodec} {SZL : SszBlockLaws} {PH : PayloadHash} {HL : HashLengths}.
Context {SM : StoreMessages} {SML : StoreMessagesLaws} {RF : RoundFrom} `{!EqDecision Signature}.

Lemma upgraded_unversioned t : store_ok t → upgraded (unversioned t) = t.
Proof.
  intros [_ H U P _]. unfold upgraded, unversioned. cbn [certificates decided_blocks misbehavior_evidence invalid_payloads proposal_monitor_data undecided_blocks pending_proposal_parts]. rewrite !prefixed_stripped; [by destruct t|..].
  - intros k b (x & D & _)%P. by apply with_version_head in D.
  - intros k b (x & D & _)%U. by apply with_version_head in D.
  - intros k b (x & D)%(H DECIDED_BLOCKS_TABLE). by apply with_version_head in D.
  - intros k b (x & D & _)%(H CERTIFICATES_TABLE). by apply with_version_head in D.
Qed.

(** C21: Opening a database written before values had version bytes restores it exactly.  If the
    file holds the rows of a sound database without the first byte of each certificate, decided
    or undecided block and pending proposal, and nothing fails, opening it succeeds and leaves
    that database at the current schema version: every row reads back as before, and those of the other
    three tables were never touched.  The version is set last: whatever transaction fails, the file is at
    the current version only with the whole database restored, and otherwise it is still marked as
    to be migrated, with the four tables upgraded up to some point.  Opening a restored database again
    changes nothing, even if transactions fail. *)
Theorem migration_restores_database t f :
  store_ok t → ¬ stuck (unversioned t) →
  unversioned_file (contents f) → created (contents f) = true → rows (contents f) = unversioned t →
  let restored := mkContents (Some (Some V1)) true t in
  let '(r, f') := Store_open Perform true f in
  (true ∉ file_faults f → r = Ok tt)
  ∧ (r = Ok tt → contents f' = restored)
  ∧ (contents f' = restored
     ∨ unversioned_file (contents f') ∧ created (contents f') = true
       ∧ ∃ c d u p, rows (contents f') = partly_upgraded c d u p (unversioned t))
  ∧ ∀ faults, contents (Store_open Perform true (mkFile restored faults)).2 = restored.
Proof.
  intros O Q U Cr R restored.
  assert (∀ faults, contents (Store_open Perform true (mkFile restored faults)).2 = restored) as Again
    by (intros faults; by apply reopen_current).
  unfold Store_open at 1. unfold m_bind. destruct (Db_new Perform true f) as [rd f1] eqn:E.
  apply Db_new_run in E as [F1 E]; [|done|rewrite R; apply unversioned_wf, O]. rewrite R, Cr in E. destruct rd as [[]|e].
  2: { destruct E as (_ & B & U1 & C1 & St). split_and!; [|done| |exact Again].
       - intros F. destruct B as [X|[X|X]]; [done|by rewrite Cr in X|by rewrite R in X].
       - right. inversion St as [c d u p Rt]. split_and!; [done..|]. by exists c, d, u, p. }
  destruct E as (C1 & _). unfold at_version in C1. rewrite Cr, upgraded_unversioned in C1 by done.
  destruct (create_tables f1) as [r2 f2] eqn:E. apply write_tx_run in E as [_ E].
  assert (contents f2 = restored) as C2.
  { destruct r2; [destruct E as (c2 & E & ->); rewrite C1 in E; by injection E as _ <-|]. by rewrite (proj1 E). }
  split_and!; [|done|by left|exact Again]. intros F. destruct r2 as [[]|e]; [done|]. destruct E as [_ [[_ X]|?]]; [by apply F1 in X|done].
Qed.
End Restore.

(** A dry run of the migration command predicts it.  On a file without a current schema
    version the dry run never changes a row, and when nothing fails it succeeds exactly when the
    migration does, with the same report; a migration that succeeds has upgraded every row of
    the four tables, counted all of them and skipped none. *)
Theorem dry_run_predicts_migration f :
  unversioned_file (contents f) → tables_wf (rows (contents f)) →
  let '(r1, f1) := db_migrate true f in
  let '(r2, f2) := db_migrate false f in
  let t := rows (contents f) in
  rows (contents f1) = t
  ∧ (true ∉ file_faults f → ∀ report, r1 = Ok report ↔ r2 = Ok report)
  ∧ ∀ report, r2 = Ok report → report = Some (full_report t) ∧ rows (contents f2) = upgraded t.
Proof.
  intros U W. unfold db_migrate, m_bind. destruct (needs_migration true f) as [rn f0] eqn:E.
  apply needs_run in E as (F0 & Cr & R & _ & E); [|done]. destruct rn as [needed|e].
  2: { destruct E as [_ X]. split_and!; [done|by intros|by intros]. }
  destruct E as [-> Md]. cbn [negb]. assert (tables_wf (rows (contents f0))) as W0 by (by rewrite R).
  destruct (preview_migrate f0) as [r1 f1] eqn:E1. apply (preview_run _ _ _ Md W0) in E1 as [C1 E1].
  destruct (migrate f0) as [r2 f2] eqn:E2. apply (migrate_run _ _ _ Md W0) in E2 as [_ E2]. cbv zeta in E2.
  rewrite R in E1, E2. destruct r1 as [s1|e1], r2 as [s2|e2]; cbn [m_ret fst snd].
  - destruct E1 as (-> & _), E2 as (-> & C2 & _). rewrite C1, C2. split_and!; [done|done|by intros ? [= <-]].
  - rewrite C1. split_and!; [done| |done]. intros F. destruct E1 as (_ & E1 & E1'), E2 as (_ & [X|[X|X]] & _).
    + by apply F0 in X.
    + by rewrite X in E1.
    + by rewrite R in X.
  - rewrite C1. destruct E1 as (_ & X), E2 as (-> & C2 & Y1 & Y2). split_and!; [done| |by rewrite C2; intros ? [= <-]].
    intros F. destruct X as [X|[X|X]]; [by apply F0 in X|by rewrite X in Y1|by rewrite R in X].
  - rewrite C1. by split_and!.
Qed.

(** C38: A failed migration must not be repeated, although opening the database again does just
    that.  Every failure leaves the tables upgraded up to some point with the schema version
    still unset, and the next attempt, which succeeds if nothing fails, prepends the version
    byte to every row once more: a certificate that the first attempt had upgraded now carries
    two version bytes while the database claims to be at the current version. *)
Theorem retried_migration_prefixes_twice f e f1 :
  unversioned_file (contents f) → created (contents f) = true → tables_wf (rows (contents f)) → ¬ stuck (rows (contents f)) →
  Db_new Perform true f = (Err e, f1) →
  let t := rows (contents f) in
  e ≠ fuel_exhausted ∧ ∃ c d u p, rows (contents f1) = partly_upgraded c d u p t
  ∧ let '(r2, f2) := Db_new Perform true (mkFile (contents f1) []) in
    r2 = Ok tt ∧ contents f2 = mkContents (Some (Some V1)) true (upgraded (partly_upgraded c d u p t))
    ∧ ∀ h b, (h, b) ∈ certificates t → h < c →
        (h, CommitCertificateVersion :: CommitCertificateVersion :: b) ∈ certificates (rows (contents f2)).
Proof.
  intros U Cr W Q H t. apply Db_new_run in H as [_ (E & _ & U1 & Cr1 & St)]; [|done..]. fold t in St. split; [done|].
  inversion St as [c d u p Rt]. exists c, d, u, p. split; [done|].
  destruct (Db_new Perform true (mkFile (contents f1) [])) as [r2 f2] eqn:H2. apply Db_new_run in H2 as [_ H2]; [|exact U1|].
  - cbn [contents] in H2. rewrite <- Rt, Cr1, Cr in H2. destruct r2 as [[]|e2].
    + destruct H2 as (C2 & _). unfold at_version in C2. rewrite Cr1, Cr in C2. split_and!; [done|exact C2|].
      rewrite C2. cbn [rows upgraded certificates partly_upgraded]. intros h b Hin L.
      apply (list_elem_of_fmap_2 (λ kv : Z * bytes, (kv.1, if decide (kv.1 < c) then CommitCertificateVersion :: kv.2 else kv.2))) in Hin.
      apply (list_elem_of_fmap_2 (λ kv : Z * bytes, (kv.1, CommitCertificateVersion :: kv.2))) in Hin.
      cbn [fst snd] in Hin. by rewrite decide_True in Hin.
    + destruct H2 as (_ & [X|[X|X]] & _); [by apply elem_of_nil in X|cbn in X; congruence|]. destruct Q. cbn [contents] in X.
      rewrite <- Rt in X. by eapply partly_stuck.
  - cbn. rewrite <- Rt. by apply partly_wf.
Qed.
