(* ===== verification/StoreQueries.v ===== *)
(** * What the operations of the consensus database do

    Pruning, the limit on pending proposals, the extension of certificates and the range
    queries, each as an exact description of its result. *)

From stdpp Require Import sorting.
From S2P Require Import Prelude BTree Validators Proposal Codec CodecProps StoreCodec Store StoreCodecProps StoreProps StoreInv.

(** ** Pruning *)

Lemma sorted_filter_lt (l : list (Z * bytes)) h : bt_sorted Z.ltb l →
  filter (λ kv : Z * bytes, kv.1 < h) l = take (length (filter (λ kv : Z * bytes, kv.1 < h) l)) l.
Proof.
  induction 1 as [|kv l S IH F]; [done|]. rewrite filter_cons. case_decide as D.
  - cbn [length take]. by rewrite <- IH.
  - assert (filter (λ kv : Z * bytes, kv.1 < h) l = []) as ->; [|done].
    destruct (filter _ l) as [|kv' r] eqn:E; [done|]. exfalso.
    assert (kv' ∈ filter (λ kv : Z * bytes, kv.1 < h) l) as [L Hin]%list_elem_of_filter by (rewrite E; left).
    rewrite Forall_forall in F. specialize (F _ Hin). cbn in F. lia.
Qed.

(** Removing the first keys of an ordered table one by one drops its first rows. *)
Lemma remove_keys_cons {K} `{!EqDecision K} (kv : K * bytes) ks l :
  kv.1 ∉ ks → foldl (λ l k, bt_remove k l) (kv :: l) ks = kv :: foldl (λ l k, bt_remove k l) l ks.
Proof.
  revert l. induction ks as [|k ks IH]; intros l N; [done|]. apply not_elem_of_cons in N as [N1 N2]. cbn [foldl].
  unfold bt_remove at 2. rewrite filter_cons_True by done. by apply IH.
Qed.
Lemma remove_first_keys (l : list (Z * bytes)) n : bt_sorted Z.ltb l →
  foldl (λ l k, bt_remove k l) l (take n l).*1 = drop n l.
Proof.
  intros S. revert n. induction S as [|kv l S IH F]; intros [|n]; [done..|]. cbn [take fmap list_fmap foldl drop].
  unfold bt_remove at 2. rewrite filter_cons_False by naive_solver.
  replace (filter _ l) with l; [apply IH|]. symmetry. apply filter_all. intros kv' Hin. rewrite Forall_forall in F.
  specialize (F _ Hin). cbn in F. lia.
Qed.
Lemma remove_heights_table id hs t :
  foldl (λ t h, remove_height t id h) t hs
  = set_height_table t id (foldl (λ l k, bt_remove k l) (height_table t id) hs).
Proof.
  revert t. induction hs as [|h hs IH]; intros t; cbn [foldl]; [by destruct t, id|].
  rewrite IH. unfold remove_height. by destruct t, id.
Qed.

(** How many rows below [retain] one batch removes. *)
Definition batch_size (retain : Z) (l : list (Z * bytes)) : nat :=
  Nat.min PRUNE_BATCH_LIMIT (length (filter (λ kv : Z * bytes, kv.1 < retain) l)).

Lemma height_range_take retain (l : list (Z * bytes)) : bt_sorted Z.ltb l →
  height_range l retain PRUNE_BATCH_LIMIT = (take (batch_size retain l) l).*1.
Proof.
  intros S. unfold height_range, batch_size. pose proof (sorted_filter_lt l retain S) as E.
  remember (length (filter (λ kv : Z * bytes, kv.1 < retain) l)) as n eqn:En. by rewrite E, take_take.
Qed.

Lemma with_read_faults {A} (f : Tables → result StoreError A) db :
  (with_read f db).2 = mkDb (tables db) (tail (faults db)).
Proof. unfold with_read. by destruct (next_fault db). Qed.
Lemma next_fault_in db : next_fault db = true → true ∈ faults db.
Proof. unfold next_fault. destruct (faults db); [done|]. intros ->. by left. Qed.

(** The transactions redb still fails. *)
Definition failures (fs : list bool) : nat := length (filter (λ b, b = true) fs).
Lemma failures_cons b fs : failures (b :: fs) = ((if b then 1 else 0) + failures fs)%nat.
Proof. unfold failures. by destruct b. Qed.
Lemma failures_next t fs : (failures (tail fs) + (if next_fault (mkDb t fs) then 1 else 0))%nat = failures fs.
Proof. destruct fs as [|b fs]; [done|]. rewrite failures_cons. cbn [tail next_fault faults]. destruct b; lia. Qed.

(** One batch: the first rows below [retain] go, or, when redb fails, none. *)
Definition pruned (retain : Z) (id : HeightTable) (db : Db) (out : result StoreError (list Z) * Db) : Prop :=
  let l := height_table (tables db) id in
  (∀ b, b ∈ faults out.2 → b ∈ faults db)
  ∧ ((out.1 = Ok (take (batch_size retain l) l).*1 ∧ (failures (faults out.2) ≤ failures (faults db))%nat
      ∧ tables out.2 = set_height_table (tables db) id (drop (batch_size retain l) l))
     ∨ (out.1 = Err Storage ∧ true ∈ faults db ∧ (failures (faults out.2) < failures (faults db))%nat ∧ tables out.2 = tables db)).

Lemma set_height_table_same t id : set_height_table t id (height_table t id) = t.
Proof. by destruct t, id. Qed.

Lemma prune_batch_spec retain id db : bt_sorted Z.ltb (height_table (tables db) id) →
  pruned retain id db (prune_height_table_batch retain id db).
Proof.
  intros S. unfold pruned, prune_height_table_batch, m_bind, max_height, limit_height, with_read.
  destruct db as [t fs]. cbn [tables faults] in *.
  assert (∀ b (l : list bool), b ∈ tail l → b ∈ l) as T by (intros b [|? ?]; [done|by right]).
  pose proof (failures_next t fs) as N1. pose proof (failures_next t (tail fs)) as N2. pose proof (failures_next t (tail (tail fs))) as N3.
  destruct (next_fault (mkDb t fs)) eqn:F1; cbn [fst snd faults tables].
  { split; [intros b; apply T|]. right. split_and!; [done|by apply (next_fault_in (mkDb t fs))|lia|done]. }
  destruct (next_fault (mkDb t (tail fs))) eqn:F2; cbn [fst snd faults tables].
  { split; [intros b Hb; auto|]. right. split_and!; [done|by apply T, (next_fault_in (mkDb t (tail fs)))|lia|done]. }
  rewrite (height_range_take _ _ S). set (l := height_table t id) in *. set (n := batch_size retain l). clearbody n.
  destruct ((take n l).*1) as [|h hs] eqn:E.
  { split; [intros b Hb; auto|]. left. cbn [m_ret tables faults snd fst]. split; [done|]. split; [lia|].
    pose proof (remove_first_keys l n S) as R. rewrite E in R. cbn in R. rewrite <- R. symmetry. apply set_height_table_same. }
  unfold with_write. cbn [tables faults].
  destruct (next_fault (mkDb t (tail (tail fs)))) eqn:F3; cbn [fst snd faults tables].
  { split; [intros b Hb; auto|]. right. split_and!; [done|by apply T, T, (next_fault_in (mkDb t (tail (tail fs))))|lia|done]. }
  split; [intros b Hb; auto|]. left. split; [done|]. split; [lia|]. rewrite <- E, remove_heights_table. fold l.
  by rewrite (remove_first_keys l n S).
Qed.

(** The tables the pruning service works on share one window. *)
Definition pruned_tables : list HeightTable :=
  [CERTIFICATES_TABLE; PROPOSAL_MONITOR_DATA_TABLE; MISBEHAVIOR_EVIDENCE_TABLE; INVALID_PAYLOADS_TABLE].

(** What pruning the tables [ids], with failures on [failed], has done to the database: each table loses
    its batch of the lowest rows below the window, but for the failed ones, and each of these took a
    failure of redb of its own. *)
Record prunes (retain : Z) (ids failed : list HeightTable) (db db' : Db) : Prop := {
  prunes_failed : failed ⊆ ids ∧ (length failed + failures (faults db') ≤ failures (faults db))%nat;
  prunes_in : ∀ id, id ∈ ids →
    let l := height_table (tables db) id in
    height_table (tables db') id = if decide (id ∈ failed) then l else drop (batch_size retain l) l;
  prunes_out : ∀ id, id ∉ ids → height_table (tables db') id = height_table (tables db) id;
  prunes_undecided : undecided_blocks (tables db') = undecided_blocks (tables db);
  prunes_pending : pending_proposal_parts (tables db') = pending_proposal_parts (tables db);
}.

Lemma prunes_batch retain id db : bt_sorted Z.ltb (height_table (tables db) id) →
  let out := prune_height_table_batch retain id db in
  prunes retain [id] (if is_ok out.1 then [] else [id]) db out.2.
Proof.
  intros S out. destruct (prune_batch_spec retain id db S) as (F & [(E & L & T)|(E & _ & L & T)]); fold out in F, E, L, T; rewrite E; cbn [is_ok].
  - split; rewrite ?T.
    + split; [set_solver|done].
    + intros id' ->%list_elem_of_singleton. cbv zeta. rewrite height_table_set, decide_True by done. by rewrite decide_False by apply not_elem_of_nil.
    + intros id' N%not_elem_of_cons. rewrite height_table_set, decide_False; [done|naive_solver].
    + by destruct (tables db), id.
    + by destruct (tables db), id.
  - split; rewrite ?T; [|..|done|done|done].
    + split; [done|]. cbn. lia.
    + intros id' Hin. cbv zeta. by rewrite decide_True.
Qed.

Lemma prunes_app retain ids1 ids2 f1 f2 db db1 db2 : (∀ id, id ∈ ids1 → id ∉ ids2) →
  prunes retain ids1 f1 db db1 → prunes retain ids2 f2 db1 db2 → prunes retain (ids1 ++ ids2) (f1 ++ f2) db db2.
Proof.
  intros D [[S1 N1] I1 O1 U1 P1] [[S2 N2] I2 O2 U2 P2]. split; [| | |by rewrite U2|by rewrite P2].
  - split; [set_solver|]. rewrite length_app. lia.
  - intros id Hin l. destruct (decide (id ∈ ids1)) as [H1|H1].
    + rewrite (O2 id) by auto. rewrite (I1 id H1). fold l. assert (id ∉ f2) as Nf by (intros Hf; apply (D id H1); auto).
      destruct (decide (id ∈ f1)); [rewrite decide_True by set_solver|rewrite decide_False by set_solver]; done.
    + apply elem_of_app in Hin as [?|Hin]; [done|]. rewrite (I2 id Hin), (O1 id H1). fold l.
      assert (id ∉ f1) as Nf by (intros Hf; auto).
      destruct (decide (id ∈ f2)); [rewrite decide_True by set_solver|rewrite decide_False by set_solver]; done.
  - intros id [N1' N2']%not_elem_of_app. rewrite O2, O1; done.
Qed.

Lemma batch_rows_below retain (l : list (Z * bytes)) kv : bt_sorted Z.ltb l →
  kv ∈ take (batch_size retain l) l → kv.1 < retain.
Proof.
  intros S Hin. assert (kv ∈ filter (λ kv : Z * bytes, kv.1 < retain) l) as [? _]%list_elem_of_filter; [|done].
  rewrite (sorted_filter_lt l retain S). eapply sublist_elem_of; [|done]. unfold batch_size.
  rewrite <- (take_take l). apply sublist_take.
Qed.

Lemma prunes_table retain ids failed db db' id : prunes retain ids failed db db' →
  ∃ n, (n ≤ batch_size retain (height_table (tables db) id))%nat ∧ height_table (tables db') id = drop n (height_table (tables db) id).
Proof.
  intros X. destruct (decide (id ∈ ids)) as [H|H]; [|exists 0%nat; split; [lia|]; by rewrite (prunes_out _ _ _ _ _ X id H)].
  rewrite (prunes_in _ _ _ _ _ X id H). case_decide; [by exists 0%nat; split; [lia|]|by eexists].
Qed.

Lemma prunes_sorted retain ids failed db db' id : prunes retain ids failed db db' →
  bt_sorted Z.ltb (height_table (tables db) id) → bt_sorted Z.ltb (height_table (tables db') id).
Proof.
  intros X S. destruct (prunes_table _ _ _ _ _ id X) as (n & _ & ->). eapply StronglySorted_sublist; [|done]. apply sublist_drop.
Qed.

Lemma prunes_step retain ids failed id db db1 : prunes retain ids failed db db1 → id ∉ ids →
  bt_sorted Z.ltb (height_table (tables db) id) →
  let out := prune_height_table_batch retain id db1 in
  prunes retain (ids ++ [id]) (failed ++ if is_ok out.1 then [] else [id]) db out.2.
Proof.
  intros X N S. eapply prunes_app; [|done|apply prunes_batch; by eapply prunes_sorted].
  intros id' Hin ->%list_elem_of_singleton. done.
Qed.

Lemma prunes_length retain ids failed db db' id : prunes retain ids failed db db' →
  (length (height_table (tables db) id) ≤ 300 + length (height_table (tables db') id))%nat.
Proof.
  intros X. destruct (prunes_table _ _ _ _ _ id X) as (n & L & ->). rewrite length_drop.
  assert (batch_size retain (height_table (tables db) id) ≤ 300)%nat by apply Nat.le_min_l. lia.
Qed.

(** Rows of the window, that is from [retain] on, stay. *)
Lemma prunes_window retain ids failed db db' id h b : prunes retain ids failed db db' →
  bt_sorted Z.ltb (height_table (tables db) id) → retain ≤ h →
  (h, b) ∈ height_table (tables db) id → (h, b) ∈ height_table (tables db') id.
Proof.
  intros X S R Hin. destruct (prunes_table _ _ _ _ _ id X) as (n & L & ->).
  rewrite <- (take_drop n (height_table (tables db) id)) in Hin. apply elem_of_app in Hin as [Hin|Hin]; [|done].
  assert ((h, b) ∈ take (batch_size retain (height_table (tables db) id)) (height_table (tables db) id)) as B.
  { eapply sublist_elem_of; [|exact Hin]. rewrite <- (Nat.min_l _ _ L), <- take_take. apply sublist_take. }
  apply batch_rows_below in B; [cbn in B; lia|done].
Qed.

(** C20: The pruning service, whichever of its transactions redb fails, never removes a row from
    its window: with the retain height of the configuration, every row of the four tables
    it prunes at or above that height stays, the decided blocks, undecided blocks and
    pending proposals are untouched, and of each table only the lowest rows go, at most
    300 of them.  Each of the four tables loses its whole batch, unless redb fails a transaction on
    that very table: there are no more tables left as they were than failures of redb, so a failure on one
    does not keep the others from being pruned.  It returns the heights of the removed certificates, and an
    error exactly when it failed on them. *)
Theorem pruning_keeps_window c latest db :
  pruning_enabled c = true → tables_wf (tables db) →
  let retain := effective_certificates_min_height c latest in
  let '(r, db') := service_prune_historical_certs c latest db in
  ∃ failed, prunes retain pruned_tables failed db db'
  ∧ (∀ id h b, retain ≤ h → (h, b) ∈ height_table (tables db) id → (h, b) ∈ height_table (tables db') id)
  ∧ (∀ id, (length (height_table (tables db) id) ≤ 300 + length (height_table (tables db') id))%nat)
  ∧ r = if decide (CERTIFICATES_TABLE ∈ failed) then Err Storage
        else Ok (take (batch_size retain (certificates (tables db))) (certificates (tables db))).*1.
Proof.
  intros E W retain. unfold service_prune_historical_certs. rewrite E. cbn [negb]. fold retain.
  assert (∀ id, bt_sorted Z.ltb (height_table (tables db) id)) as S0 by apply W.
  pose proof (prunes_batch retain CERTIFICATES_TABLE db (S0 _)) as X1. cbv zeta in X1.
  destruct (prune_batch_spec retain CERTIFICATES_TABLE db (S0 _)) as (_ & R).
  unfold prune_historical_certs. destruct (prune_height_table_batch retain CERTIFICATES_TABLE db) as [r1 db1].
  cbn [fst snd] in X1, R. unfold logged, m_bind.
  pose proof (prunes_step retain [_] _ PROPOSAL_MONITOR_DATA_TABLE db db1 X1 ltac:(set_solver) (S0 _)) as X2.
  pose proof (prunes_step retain [_; _] _ MISBEHAVIOR_EVIDENCE_TABLE db _ X2 ltac:(set_solver) (S0 _)) as X3.
  pose proof (prunes_step retain [_; _; _] _ INVALID_PAYLOADS_TABLE db _ X3 ltac:(set_solver) (S0 _)) as X.
  eexists. split; [exact X|]. split_and!.
  - intros id h b. by eapply prunes_window.
  - intros id. by eapply prunes_length.
  - destruct R as [[-> _]|(-> & _)]; cbn [is_ok].
    + rewrite decide_False; [done|]. repeat case_match; set_solver.
    + by rewrite decide_True by set_solver.
Qed.

(** ** The limit on pending proposals *)

Lemma remove_keys_filter {K} `{!EqDecision K} ks (l : list (K * bytes)) :
  foldl (λ l k, bt_remove k l) l ks = filter (λ kv, kv.1 ∉ ks) l.
Proof.
  revert l. induction ks as [|k ks IH]; intros l; cbn [foldl].
  - symmetry. apply filter_all. intros kv _. apply not_elem_of_nil.
  - rewrite IH. unfold bt_remove. rewrite list_filter_filter. apply list_filter_iff. intros kv.
    rewrite not_elem_of_cons. naive_solver.
Qed.

Lemma filter_ext_elem {A} (P Q : A → Prop) `{!∀ x, Decision (P x), !∀ x, Decision (Q x)} (l : list A) :
  (∀ x, x ∈ l → P x ↔ Q x) → filter P l = filter Q l.
Proof.
  induction l as [|x l IH]; intros E; [done|]. rewrite !filter_cons, IH by (intros y Hy; apply E; by right).
  pose proof (E x (list_elem_of_here _ _)). repeat case_decide; naive_solver.
Qed.

(** Removing the keys after the first [n] keeps the first [n] rows. *)
Lemma filter_not_drop {K} `{!EqDecision K} n (l : list (K * bytes)) : NoDup l.*1 →
  filter (λ kv, kv.1 ∉ drop n l.*1) l = take n l.
Proof.
  intros N. rewrite <- (take_drop n l.*1) in N. apply NoDup_app in N as (_ & D & _).
  transitivity (filter (λ kv, kv.1 ∉ drop n l.*1) (take n l ++ drop n l)); [by rewrite take_drop|].
  rewrite filter_app, filter_all, filter_none; [apply app_nil_r| |].
  - apply Forall_forall. intros kv Hin H. apply H. rewrite <- fmap_drop. by apply list_elem_of_fmap_2.
  - intros kv Hin. apply D. rewrite <- fmap_take. by apply list_elem_of_fmap_2.
Qed.

(** The rows at the heights that may be pending. *)
Definition in_window (cur allowed : Z) (k : BlockKey) : Prop := cur ≤ key_height k ≤ allowed.
#[global] Instance in_window_decision cur allowed k : Decision (in_window cur allowed k).
Proof. unfold in_window. apply _. Defined.

Lemma filter_fst {K} (P : K → Prop) `{!∀ k, Decision (P k)} (l : list (K * bytes)) :
  filter P l.*1 = (filter (λ kv, P kv.1) l).*1.
Proof.
  induction l as [|kv l IH]; [done|]. cbn [fmap list_fmap]. rewrite !filter_cons, IH. by case_decide.
Qed.

Lemma keys_to_remove_spec max cur allowed (l : list (BlockKey * bytes)) kv : cur ≤ allowed + 1 → kv ∈ l →
  kv.1 ∉ keys_to_remove max cur allowed l.*1 ↔
  in_window cur allowed kv.1
  ∧ kv.1 ∉ drop (Z.to_nat max) (filter (λ kv, in_window cur allowed kv.1) l).*1.
Proof.
  intros B Hin. unfold keys_to_remove. rewrite !not_elem_of_app, !list_elem_of_filter.
  assert (filter (λ k, ¬ key_height k < cur ∧ key_height k ≤ allowed) l.*1
          = (filter (λ kv, in_window cur allowed kv.1) l).*1) as ->.
  { rewrite filter_fst. f_equal. apply list_filter_iff. intros x. unfold in_window. lia. }
  assert (kv.1 ∈ l.*1) by (by apply list_elem_of_fmap_2). unfold in_window. split.
  - intros (H1 & H2 & H3). split; [|done].
    assert (¬ key_height kv.1 < cur) by (intros ?; apply H1; done). split; [lia|].
    destruct (decide (key_height kv.1 ≤ allowed)); [done|]. exfalso. apply H2. done.
  - intros [? ?]. split_and!; [intros [? _]; lia|intros [[? ?] _]; lia|done].
Qed.

Lemma keys_to_remove_sub max cur allowed keys k : k ∈ keys_to_remove max cur allowed keys → k ∈ keys.
Proof.
  unfold keys_to_remove. rewrite !elem_of_app, !list_elem_of_filter. intros [[_ ?]|[[_ ?]|Hin]]; [done..|].
  eapply sublist_elem_of in Hin; [|apply sublist_drop]. by apply list_elem_of_filter in Hin as [_ ?].
Qed.

Lemma max_allowed_height_spec max cur msg : uint 64 max → uint 64 cur →
  match max_allowed_height max cur msg with
  | Ok allowed => allowed = cur + max - 1 ∧ 0 < max
  | Err e => (∃ m, e = StorePanicked m) ∧ (max = 0 ∨ uint_max 64 < cur + max - 1)
  end.
Proof.
  intros Um Uc. unfold max_allowed_height, height_increment_by, checked_sub, checked_add, try_from.
  destruct (decide (uint 64 (max - 1))) as [D1|D1]; cbn [ok_or mbind result_bind].
  - destruct (decide (uint 64 (cur + (max - 1)))) as [D2|D2]; cbn [ok_or].
    + unfold uint in *. lia.
    + split; [by eexists|]. right. unfold uint, uint_max in *. lia.
  - split; [by eexists|]. left. unfold uint in *. lia.
Qed.

Lemma remove_keys_kept max cur (l : list (BlockKey * bytes)) : NoDup l.*1 → 0 < max →
  let ks := keys_to_remove max cur (cur + max - 1) l.*1 in
  filter (λ kv, kv.1 ∉ ks) l = take (Z.to_nat max) (filter (λ kv, in_window cur (cur + max - 1) kv.1) l).
Proof.
  intros N M ks. rewrite <- filter_not_drop.
  - rewrite list_filter_filter. apply filter_ext_elem. intros kv Hin. unfold ks.
    rewrite keys_to_remove_spec by (lia || done). naive_solver.
  - rewrite <- filter_fst. by apply NoDup_filter.
Qed.

(** On startup the limit on pending proposals is enforced exactly: with [max] allowed from the
    current height on, what is kept are the [max] lowest proposals among the heights from
    the current one to [max - 1] above it, in order; the keys reported are the ones removed,
    and nothing else in the database changes.  A failing transaction removes nothing, and
    the only other errors are the panics of a zero limit and of a height overflow. *)
Theorem pending_limit_enforced max cur db :
  uint 64 max → uint 64 cur → tables_wf (tables db) →
  let '(r, db') := enforce_pending_proposals_limit max cur db in
  let kept := take (Z.to_nat max)
                (filter (λ kv, in_window cur (cur + max - 1) kv.1) (pending_proposal_parts (tables db))) in
  match r with
  | Ok removed =>
      tables db' = set_pending (tables db) kept ∧ Z.of_nat (length kept) ≤ max
      ∧ (∀ k, k ∈ removed ↔ k ∈ (pending_proposal_parts (tables db)).*1 ∧ k ∉ kept.*1)
  | Err e =>
      tables db' = tables db
      ∧ (e = Storage ∧ true ∈ faults db
         ∨ (∃ msg, e = StorePanicked msg) ∧ (max = 0 ∨ uint_max 64 < cur + max - 1))
  end.
Proof.
  intros Um Uc W. unfold enforce_pending_proposals_limit, with_write. destruct (next_fault db) eqn:NF.
  { split; [done|]. left. split; [done|by apply next_fault_in]. }
  pose proof (max_allowed_height_spec max cur "max_pending_proposals must be > 0" Um Uc) as A.
  destruct (max_allowed_height _ _ _) as [allowed|e]; cbn [mbind result_bind]; [|split; [done|by right]].
  destruct A as [-> M]. set (l := pending_proposal_parts (tables db)).
  assert (NoDup l.*1) as N.
  { eapply bt_sorted_NoDup; [apply block_key_lt_irrefl|]. apply W. }
  rewrite remove_keys_filter. pose proof (remove_keys_kept max cur l N M) as K. cbv zeta in K.
  set (ks := keys_to_remove max cur (cur + max - 1) l.*1) in *. cbn [tables]. rewrite <- K. split_and!; [done|rewrite K, length_take; lia|].
  intros k. split.
  - intros Hk. split; [by eapply keys_to_remove_sub|].
    intros (kv & -> & [Hn _]%list_elem_of_filter)%list_elem_of_fmap. done.
  - intros [(kv & -> & Hin)%list_elem_of_fmap Nk]. apply dec_stable. intros Hn. apply Nk.
    by apply list_elem_of_fmap_2, list_elem_of_filter.
Qed.

Section Queries.
Context `{PC : ProposalCrypto} {PCL : ProposalCryptoLaws} {SB : SignatureBytes} {SL : SignatureLaws}.
Context {SZ : SszBlockCodec} {PH : PayloadHash} {SM : StoreMessages} {SML : StoreMessagesLaws}.
Context `{!EqDecision Signature}.

(** ** Extending a certificate *)

Definition stored_certificate (t : Tables) (h : Z) : option StoredCommitCertificate :=
  bt_get h (certificates t) ≫= λ b, result_ok (decode_certificate b).

(** A certificate for the same decision with at least the same signatures. *)
Definition extends (existing new : CommitCertificate) : Prop :=
  cert_height new = cert_height existing ∧ cert_round new = cert_round existing
  ∧ cert_value_id new = cert_value_id existing
  ∧ Forall (λ s, s ∈ commit_signatures new) (commit_signatures existing).

Lemma check_extension_err existing new e : check_extension existing new = Err e →
  (∃ msg, e = StoreOther msg) ∧ ¬ extends existing new.
Proof.
  unfold check_extension, extends. repeat (destruct (decide _); [intros [= <-]; split; [by eexists|naive_solver]|]).
  destruct (decide _); [done|]. intros [= <-]. split; [by eexists|naive_solver].
Qed.

Lemma certificates_set t l : certificates (set_height_table t CERTIFICATES_TABLE l) = l.
Proof. by destruct t. Qed.

Lemma extend_certificate_spec c db :
  wf_certificate c → store_ok (tables db) →
  let h := cert_height c in
  let '(r, db') := extend_certificate c db in
  match r with
  | Ok _ => ∃ old, stored_certificate (tables db) h = Some old ∧ extends (certificate old) c
      ∧ stored_certificate (tables db') h = Some (mkStoredCommitCertificate c CertExtended (cert_proposer old))
      ∧ (∀ h', h' ≠ h → stored_certificate (tables db') h' = stored_certificate (tables db) h')
      ∧ (∀ id, id ≠ CERTIFICATES_TABLE → height_table (tables db') id = height_table (tables db) id)
      ∧ undecided_blocks (tables db') = undecided_blocks (tables db)
      ∧ pending_proposal_parts (tables db') = pending_proposal_parts (tables db)
  | Err e => tables db' = tables db
      ∧ (e = Storage ∧ true ∈ faults db
         ∨ (∃ msg, e = StoreOther msg)
           ∧ ∀ old, stored_certificate (tables db) h = Some old → ¬ extends (certificate old) c)
  end.
Proof.
  intros W O h. unfold extend_certificate, with_write. destruct (next_fault db) eqn:NF.
  { split; [done|]. left. split; [done|by apply next_fault_in]. }
  unfold stored_certificate. fold h. destruct (bt_get h (certificates (tables db))) as [b0|] eqn:G;
    cbn [ok_or mbind result_bind option_bind].
  2: { split; [done|]. right. split; [by eexists|done]. }
  pose proof (bt_get_Some _ _ _ G) as Hin.
  destruct (ok_heights _ _ O CERTIFICATES_TABLE _ _ Hin) as (old & D & W0 & _).
  rewrite D. cbn [map_err result_ok mbind result_bind].
  destruct (check_extension (certificate old) c) as [u|e] eqn:X; cbn [mbind result_bind].
  2: { apply check_extension_err in X as [M N]. split; [done|]. right. split; [done|]. by intros ? [= <-]. }
  destruct (encode_certificate_row c CertExtended (cert_proposer old) W) as (b & E & Db & _); [apply W0|].
  unfold insert_certificate. rewrite E. cbn [map_err mbind result_bind tables]. fold h.
  exists old. unfold insert_height. split_and!; [done|by eapply check_extension_ok|..].
  - rewrite certificates_set, bt_get_insert. cbn. by rewrite Db.
  - intros h' N. by rewrite certificates_set, bt_get_insert_ne.
  - intros id N. by rewrite height_table_set, decide_False.
  - by destruct (tables db).
  - by destruct (tables db).
Qed.

(** Extending a stored certificate replaces it exactly when the new one is for the same
    height, round and value and keeps every signature already stored; it is marked
    extended, keeps the recorded proposer, and no other certificate or table changes.  In
    every other case the database is unchanged and the caller gets an error: signatures of
    a decided height are never lost. *)
Theorem certificate_extension c db :
  wf_certificate c → store_ok (tables db) →
  let h := cert_height c in
  let '(r, db') := extend_certificate c db in
  match r with
  | Ok _ => ∃ old, stored_certificate (tables db) h = Some old ∧ extends (certificate old) c
      ∧ stored_certificate (tables db') h = Some (mkStoredCommitCertificate c CertExtended (cert_proposer old))
      ∧ (∀ h', h' ≠ h → stored_certificate (tables db') h' = stored_certificate (tables db) h')
      ∧ (∀ id, id ≠ CERTIFICATES_TABLE → height_table (tables db') id = height_table (tables db) id)
      ∧ undecided_blocks (tables db') = undecided_blocks (tables db)
      ∧ pending_proposal_parts (tables db') = pending_proposal_parts (tables db)
  | Err e => tables db' = tables db
      ∧ (e = Storage ∧ true ∈ faults db
         ∨ (∃ msg, e = StoreOther msg)
           ∧ ∀ old, stored_certificate (tables db) h = Some old → ¬ extends (certificate old) c)
  end.
Proof. apply extend_certificate_spec. Qed.
(** ** Range queries *)

Lemma read_heights_ok {A} (read : Z → result RangeFailureReason A) hs items :
  Forall2 (λ h item, read h = Ok item) hs items → read_heights read hs = (items, []).
Proof. induction 1 as [|h item hs items E F IH]; [done|]. cbn. by rewrite IH, E. Qed.

Lemma read_heights_failures {A} (read : Z → result RangeFailureReason A) hs :
  (read_heights read hs).2 = omap (λ h, match read h with Ok _ => None | Err r => Some (h, r) end) hs.
Proof.
  induction hs as [|h hs IH]; [done|]. cbn. destruct (read_heights read hs) as [items fs]. cbn in IH.
  by destruct (read h); cbn; rewrite IH.
Qed.

Lemma failed_heights {A} (read : Z → result RangeFailureReason A) reason (P : Z → Prop) `{!∀ h, Decision (P h)} hs :
  (∀ h, h ∈ hs → read h = Err reason ↔ P h) →
  fst <$> filter (λ f, f.2 = reason) (read_heights read hs).2 = filter P hs.
Proof.
  rewrite read_heights_failures. induction hs as [|h hs IH]; intros E; [done|].
  pose proof (E h (list_elem_of_here _ _)) as Eh. specialize (IH (λ h' Hin, E h' (list_elem_of_further _ _ _ Hin))).
  cbn [omap list_omap]. rewrite filter_cons, <- IH. destruct (read h) as [i|r].
  - rewrite decide_False; [done|]. intros [=]%Eh.
  - rewrite filter_cons. cbn [snd]. destruct (decide (r = reason)) as [->|N].
    + rewrite decide_True by (by apply Eh). done.
    + rewrite decide_False; [done|]. intros [= ->]%Eh. done.
Qed.

(** The reason of the result is the one of the lowest height that fails. *)
Lemma range_result_first {A} (read : Z → result RangeFailureReason A) reason (P : Z → Prop)
    `{!∀ h, Decision (P h)} hs1 h hs2 :
  Forall (λ h, is_ok (read h) = true) hs1 → read h = Err reason →
  (∀ h', h' ∈ hs1 ++ h :: hs2 → read h' = Err reason ↔ P h') →
  let out := read_heights read (hs1 ++ h :: hs2) in
  range_result out.1 out.2 = Unavailable reason (filter P (hs1 ++ h :: hs2)).
Proof.
  intros F E EP out. pose proof (failed_heights read reason P _ EP) as FH. fold out in FH.
  assert (∃ fs, out.2 = (h, reason) :: fs) as [fs Efs].
  { unfold out. rewrite read_heights_failures. clear FH EP out. induction F as [|h1 hs1 O F IH].
    - cbn. rewrite E. by eexists.
    - destruct IH as [fs IH]. exists fs. cbn. by destruct (read h1). }
  unfold range_result. rewrite Efs in *. by rewrite FH.
Qed.

(** What a range query over a table without holes gives, with certificates from [earliest]
    to [head]. *)
Definition window_result {A} (key : A → Z) (from count earliest head : Z) (r : RangeQueryResult A) : Prop :=
  let hs := seqZ from count in
  if decide (from < earliest) then r = Unavailable Pruned (filter (λ h, h < earliest) hs)
  else if decide (head < from + count - 1) then r = Unavailable AboveCurrentHead (filter (λ h, head < h) hs)
  else ∃ items, r = Complete items ∧ key <$> items = hs.

Lemma read_window {A} (read : Z → result RangeFailureReason A) (key : A → Z) from count earliest head :
  0 < count → earliest ≤ head →
  (∀ h, h < earliest → read h = Err Pruned) → (∀ h, earliest ≤ h → head < h → read h = Err AboveCurrentHead) →
  (∀ h, earliest ≤ h ≤ head → ∃ a, read h = Ok a ∧ key a = h) →
  let out := read_heights read (seqZ from count) in
  window_result key from count earliest head (range_result out.1 out.2).
Proof.
  intros C EH RP RA RO out. unfold window_result. case_decide as D1; [|case_decide as D2].
  - unfold out. rewrite (seqZ_cons from count) by lia. apply (range_result_first read Pruned _ []); [constructor|by apply RP|].
    intros h _. destruct (decide (h < earliest)); [naive_solver|]. split; [|done].
    destruct (decide (head < h)); [by rewrite RA by lia|]. destruct (RO h) as (a & -> & _); [lia|done].
  - set (n := Z.max 0 (head + 1 - from)). unfold out.
    assert (seqZ from count = seqZ from n ++ (from + n) :: seqZ (Z.succ (from + n)) (Z.pred (count - n))) as ->.
    { rewrite <- seqZ_cons by lia. rewrite <- seqZ_app by lia. f_equal. lia. }
    apply range_result_first.
    + apply Forall_forall. intros h Hin%elem_of_seqZ. destruct (RO h) as (a & -> & _); [lia|done].
    + apply RA; lia.
    + intros h Hin. assert (earliest ≤ h) by (apply elem_of_app in Hin as [Hin|Hin];
        [apply elem_of_seqZ in Hin; lia|apply elem_of_cons in Hin as [->|Hin%elem_of_seqZ]; lia]).
      destruct (decide (head < h)); [naive_solver|]. destruct (RO h) as (a & -> & _); [lia|done].
  - assert (∃ items, Forall2 (λ h item, read h = Ok item) (seqZ from count) items
                     ∧ key <$> items = seqZ from count) as (items & F & K).
    { assert (∀ h, h ∈ seqZ from count → earliest ≤ h ≤ head) as B by (intros h Hin%elem_of_seqZ; lia).
      clear out. induction (seqZ from count) as [|h hs IH]; [by exists []|].
      destruct IH as (items & F & K); [intros h' ?; apply B; by right|].
      destruct (RO h (B h (list_elem_of_here _ _))) as (a & E & Ka). exists (a :: items).
      split; [by constructor|]. cbn. by rewrite Ka, K. }
    exists items. unfold out. by rewrite (read_heights_ok read _ items F).
Qed.

Lemma range_query_window {A} id (decode : bytes → result DecodeError A) (synth : Z → A) (key : A → Z)
    from count earliest head b1 b2 db :
  (∀ h b, height_row id h b → ∃ a, decode b = Ok a ∧ key a = h) → (∀ h, key (synth h) = h) →
  uint 64 from → 0 < count → from + count - 1 ≤ uint_max 64 → next_fault db = false → store_ok (tables db) →
  list.head (certificates (tables db)) = Some (earliest, b1) →
  last (certificates (tables db)) = Some (head, b2) →
  ∃ r, (read_height_range id from count decode (λ h, Ok (synth h)) db).1 = Ok (Some r)
       ∧ window_result key from count earliest head r.
Proof.
  intros DK SK Uf C B NF O H L. unfold read_height_range, m_bind, m_lift, checked_sub, checked_add.
  rewrite try_from_Some by (unfold uint, uint_max in *; lia). cbn [mbind option_bind].
  rewrite try_from_Some by (unfold uint, uint_max in *; lia). cbn [ok_or].
  unfold with_read. rewrite NF. cbn [fst]. rewrite H, L.
  replace (from + (count - 1) - from + 1) with count by lia.
  set (read := read_height (tables db) id decode (λ h, Ok (synth h)) earliest head).
  pose proof (read_window read key from count earliest head) as X. cbv zeta in X.
  destruct (read_heights read (seqZ from count)) as [items fs]. eexists. split; [done|]. cbn [fst snd] in X. apply X; [done|..].
  - apply (sorted_le_last (certificates (tables db)) head b2); [exact (proj1 (proj1 (ok_wf _ _ O) CERTIFICATES_TABLE))|done|].
    destruct (certificates (tables db)); [done|]. injection H as ->. by left.
  - intros h ?. unfold read, read_height. by rewrite decide_True.
  - intros h ? ?. unfold read, read_height. by rewrite decide_False, decide_True by lia.
  - intros h ?. unfold read, read_height. rewrite !decide_False by lia.
    destruct (bt_get h (height_table (tables db) id)) as [b|] eqn:G; [|by eexists].
    apply bt_get_Some in G. destruct (DK h b (ok_heights _ _ O id h b G)) as (a & -> & K). by exists a.
Qed.

(** A range query for evidence or for invalid payloads is answered from one snapshot and
    exactly: inside the window of stored certificates every height, with or without a record,
    gives one item for that height, in ascending order; otherwise the answer names the
    reason of the lowest height that fails, pruned before above the head, and exactly the
    heights of the range that fail for it. *)
Theorem range_queries_cover_window from count earliest head b1 b2 db :
  uint 64 from → 0 < count → from + count - 1 ≤ uint_max 64 → next_fault db = false → store_ok (tables db) →
  list.head (certificates (tables db)) = Some (earliest, b1) →
  last (certificates (tables db)) = Some (head, b2) →
  (∃ r, (get_misbehavior_evidence_range from count db).1 = Ok (Some r)
        ∧ window_result ev_height from count earliest head r)
  ∧ (∃ r, (get_invalid_payloads_range from count db).1 = Ok (Some r)
          ∧ window_result sip_height from count earliest head r).
Proof.
  intros Uf C B NF O H L. split; (eapply range_query_window; [|done..]).
  - intros h b (e & D & E). by exists e.
  - intros h b (s & D & _ & E & _). by exists s.
Qed.
End Queries.
