(* ===== verification/ToyCrypto.v ===== *)
(** * Concrete third-party code of the consensus messages

    Instances of the signature, payload codec and hash operations ([ProposalCrypto],
    [SignatureBytes]), of peer ids, and of prost's encoding of the messages of
    [Codec], with their laws: the assumptions on that code can hold together. *)

From stdpp Require Import countable.
From Stdlib Require Import Eqdep_dec.
From S2P Require Import Prelude Validators Proposal Codec CodecProps.

(** ** Signatures: 64 bytes; the one of key 7 starts with the signed bytes *)

Definition Sig64 : Type := { b : bytes | bool_decide (length b = 64%nat) = true }.

Definition sig64_bytes (b : bytes) : bytes := take 64 (b ++ replicate 64 Byte.x00).
Lemma sig64_length b : bool_decide (length (sig64_bytes b) = 64%nat) = true.
Proof.
  apply bool_decide_eq_true. unfold sig64_bytes. rewrite length_take, length_app, length_replicate. lia.
Qed.
Definition sig64 (b : bytes) : Sig64 := exist _ (sig64_bytes b) (sig64_length b).

Lemma sig64_inj (s t : Sig64) : proj1_sig s = proj1_sig t → s = t.
Proof.
  destruct s as [b Hb], t as [c Hc]. cbn. intros ->. f_equal. apply UIP_dec. apply bool_dec.
Qed.

#[export] Instance toy_crypto : ProposalCrypto := {
  Signature := Sig64;
  SigningError := Empty_set;
  sign_bytes b := Ok (sig64 b);
  verify_signed_bytes b s pk := Ok (bool_decide (sig64_bytes b = proj1_sig s ∧ pk = 7));
  signature_to_bytes s := proj1_sig s;
  Payload := bytes;
  as_ssz_bytes p := p;
  from_ssz_bytes b := Some b;
  sha3_keccak256 b := take 32 (b ++ replicate 32 Byte.x00);
}.

#[export] Instance toy_crypto_laws : ProposalCryptoLaws.
Proof.
  refine {| own_public_key := 7 |}; [done|]. intros b s [= <-]. cbn. f_equal. by apply bool_decide_eq_true.
Defined.

#[export] Instance toy_signature : SignatureBytes := { signature_from_bytes := sig64 }.
#[export] Instance toy_signature_laws : SignatureLaws.
Proof.
  split.
  - intros [b Hb]. exact (proj1 (bool_decide_eq_true _) Hb).
  - intros [b Hb]. apply sig64_inj. cbn. pose proof (proj1 (bool_decide_eq_true _) Hb) as L. cbn in L.
    unfold sig64_bytes. rewrite take_app_le by lia. by rewrite take_ge by lia.
Qed.

#[export] Instance toy_peer_ids : PeerIds := {
  PeerId := bytes; peer_id_to_bytes p := p; peer_id_from_bytes b := Some b;
}.
#[export] Instance toy_peer_id_laws : PeerIdLaws.
Proof. by split. Qed.

(** ** prost: any countable message type, behind a byte that is a valid key *)

Fixpoint pos_bytes (p : positive) : bytes :=
  match p with
  | xH => []
  | xO p => Byte.x00 :: pos_bytes p
  | xI p => Byte.x01 :: pos_bytes p
  end.
Fixpoint bytes_pos (b : bytes) : positive :=
  match b with
  | [] => xH
  | x :: b => if decide (x = Byte.x00) then xO (bytes_pos b) else xI (bytes_pos b)
  end.
Lemma bytes_pos_bytes p : bytes_pos (pos_bytes p) = p.
Proof. induction p as [p IH|p IH|]; cbn; [by rewrite IH..|done]. Qed.

Definition toy_message_encoding (P : Type) `{Countable P} : ProstMessage P := {|
  encode_to_vec p := Byte.x08 :: pos_bytes (encode p);
  prost_decode b :=
    match b with
    | x :: b => if decide (x = Byte.x08) then decode (bytes_pos b) else None
    | [] => None
    end;
|}.
Lemma toy_message_laws (P : Type) `{Countable P} : @ProstLaws P (toy_message_encoding P).
Proof.
  split; cbn.
  - intros p. by rewrite bytes_pos_bytes, decode_encode.
  - intros b rest L. case_decide; [|done]. by subst.
Qed.

#[export] Instance byte_countable : Countable Byte.byte.
Proof. refine (inj_countable' byte.unsigned byte.of_Z byte.of_Z_unsigned). Defined.

#[export] Instance pAddress_eq : EqDecision pAddress.
Proof. solve_decision. Defined.
#[export] Instance pAddress_countable : Countable pAddress.
Proof.
  refine (inj_countable' pa_value mkpAddress _); by intros [].
Defined.
#[export] Instance pValue_eq : EqDecision pValue.
Proof. solve_decision. Defined.
#[export] Instance pValue_countable : Countable pValue.
Proof.
  refine (inj_countable' pv_block_hash mkpValue _); by intros [].
Defined.
#[export] Instance pValueId_eq : EqDecision pValueId.
Proof. solve_decision. Defined.
#[export] Instance pValueId_countable : Countable pValueId.
Proof.
  refine (inj_countable' pvi_block_hash mkpValueId _); by intros [].
Defined.
#[export] Instance pSignature_eq : EqDecision pSignature.
Proof. solve_decision. Defined.
#[export] Instance pSignature_countable : Countable pSignature.
Proof.
  refine (inj_countable' ps_bytes mkpSignature _); by intros [].
Defined.
#[export] Instance pVote_eq : EqDecision pVote.
Proof. solve_decision. Defined.
#[export] Instance pVote_countable : Countable pVote.
Proof.
  refine (inj_countable' (λ r, (pvote_type r, pvote_height r, pvote_round r, pvote_value r, pvote_validator_address r))
    (λ '(x0, x1, x2, x3, x4), mkpVote x0 x1 x2 x3 x4) _); by intros [].
Defined.
#[export] Instance pProposal_eq : EqDecision pProposal.
Proof. solve_decision. Defined.
#[export] Instance pProposal_countable : Countable pProposal.
Proof.
  refine (inj_countable' (λ r, (pprop_height r, pprop_round r, pprop_value r, pprop_pol_round r, pprop_validator_address r))
    (λ '(x0, x1, x2, x3, x4), mkpProposal x0 x1 x2 x3 x4) _); by intros [].
Defined.
#[export] Instance pMessage_eq : EqDecision pMessage.
Proof. solve_decision. Defined.
#[export] Instance pMessage_countable : Countable pMessage.
Proof.
  refine (inj_countable' (λ r, match r with pMsgProposal x => inl x | pMsgVote x => inr x end)
    (λ s, match s with inl x => pMsgProposal x | inr x => pMsgVote x end) _); by intros [].
Defined.
#[export] Instance pSignedMessage_eq : EqDecision pSignedMessage.
Proof. solve_decision. Defined.
#[export] Instance pSignedMessage_countable : Countable pSignedMessage.
Proof.
  refine (inj_countable' (λ r, (psm_message r, psm_signature r))
    (λ '(x0, x1), mkpSignedMessage x0 x1) _); by intros [].
Defined.
#[export] Instance pProposalInit_eq : EqDecision pProposalInit.
Proof. solve_decision. Defined.
#[export] Instance pProposalInit_countable : Countable pProposalInit.
Proof.
  refine (inj_countable' (λ r, (ppi_height r, ppi_round r, ppi_proposer r, ppi_pol_round r))
    (λ '(x0, x1, x2, x3), mkpProposalInit x0 x1 x2 x3) _); by intros [].
Defined.
#[export] Instance pProposalData_eq : EqDecision pProposalData.
Proof. solve_decision. Defined.
#[export] Instance pProposalData_countable : Countable pProposalData.
Proof.
  refine (inj_countable' ppd_bytes mkpProposalData _); by intros [].
Defined.
#[export] Instance pProposalFin_eq : EqDecision pProposalFin.
Proof. solve_decision. Defined.
#[export] Instance pProposalFin_countable : Countable pProposalFin.
Proof.
  refine (inj_countable' ppf_signature mkpProposalFin _); by intros [].
Defined.
#[export] Instance pPart_eq : EqDecision pPart.
Proof. solve_decision. Defined.
#[export] Instance pPart_countable : Countable pPart.
Proof.
  refine (inj_countable' (λ r, match r with pPartInit x => inl x | pPartData x => inr (inl x) | pPartFin x => inr (inr x) end)
    (λ s, match s with inl x => pPartInit x | inr (inl x) => pPartData x | inr (inr x) => pPartFin x end) _); by intros [].
Defined.
#[export] Instance pProposalPart_eq : EqDecision pProposalPart.
Proof. solve_decision. Defined.
#[export] Instance pProposalPart_countable : Countable pProposalPart.
Proof.
  refine (inj_countable' pp_part mkpProposalPart _); by intros [].
Defined.
#[export] Instance pContent_eq : EqDecision pContent.
Proof. solve_decision. Defined.
#[export] Instance pContent_countable : Countable pContent.
Proof.
  refine (inj_countable' (λ r, match r with pContentData x => inl x | pContentFin x => inr x end)
    (λ s, match s with inl x => pContentData x | inr x => pContentFin x end) _); by intros [].
Defined.
#[export] Instance pStreamMessage_eq : EqDecision pStreamMessage.
Proof. solve_decision. Defined.
#[export] Instance pStreamMessage_countable : Countable pStreamMessage.
Proof.
  refine (inj_countable' (λ r, (pst_stream_id r, pst_sequence r, pst_content r))
    (λ '(x0, x1, x2), mkpStreamMessage x0 x1 x2) _); by intros [].
Defined.
#[export] Instance pValidatorProof_eq : EqDecision pValidatorProof.
Proof. solve_decision. Defined.
#[export] Instance pValidatorProof_countable : Countable pValidatorProof.
Proof.
  refine (inj_countable' (λ r, (pvp_public_key r, pvp_peer_id r, pvp_signature r))
    (λ '(x0, x1, x2), mkpValidatorProof x0 x1 x2) _); by intros [].
Defined.
#[export] Instance pPolkaSignature_eq : EqDecision pPolkaSignature.
Proof. solve_decision. Defined.
#[export] Instance pPolkaSignature_countable : Countable pPolkaSignature.
Proof.
  refine (inj_countable' (λ r, (pps_validator_address r, pps_signature r))
    (λ '(x0, x1), mkpPolkaSignature x0 x1) _); by intros [].
Defined.
#[export] Instance pPolkaCertificate_eq : EqDecision pPolkaCertificate.
Proof. solve_decision. Defined.
#[export] Instance pPolkaCertificate_countable : Countable pPolkaCertificate.
Proof.
  refine (inj_countable' (λ r, (ppc_height r, ppc_round r, ppc_value_id r, ppc_signatures r))
    (λ '(x0, x1, x2, x3), mkpPolkaCertificate x0 x1 x2 x3) _); by intros [].
Defined.
#[export] Instance pRoundSignature_eq : EqDecision pRoundSignature.
Proof. solve_decision. Defined.
#[export] Instance pRoundSignature_countable : Countable pRoundSignature.
Proof.
  refine (inj_countable' (λ r, (prs_vote_type r, prs_validator_address r, prs_signature r, prs_value_id r))
    (λ '(x0, x1, x2, x3), mkpRoundSignature x0 x1 x2 x3) _); by intros [].
Defined.
#[export] Instance pRoundCertificate_eq : EqDecision pRoundCertificate.
Proof. solve_decision. Defined.
#[export] Instance pRoundCertificate_countable : Countable pRoundCertificate.
Proof.
  refine (inj_countable' (λ r, (prc_height r, prc_round r, prc_cert_type r, prc_signatures r))
    (λ '(x0, x1, x2, x3), mkpRoundCertificate x0 x1 x2 x3) _); by intros [].
Defined.
#[export] Instance pLiveness_eq : EqDecision pLiveness.
Proof. solve_decision. Defined.
#[export] Instance pLiveness_countable : Countable pLiveness.
Proof.
  refine (inj_countable' (λ r, match r with pLiveVote x => inl x | pLivePolka x => inr (inl x) | pLiveRound x => inr (inr x) end)
    (λ s, match s with inl x => pLiveVote x | inr (inl x) => pLivePolka x | inr (inr x) => pLiveRound x end) _); by intros [].
Defined.
#[export] Instance pLivenessMessage_eq : EqDecision pLivenessMessage.
Proof. solve_decision. Defined.
#[export] Instance pLivenessMessage_countable : Countable pLivenessMessage.
Proof.
  refine (inj_countable' plm_message mkpLivenessMessage _); by intros [].
Defined.
#[export] Instance pPeerId_eq : EqDecision pPeerId.
Proof. solve_decision. Defined.
#[export] Instance pPeerId_countable : Countable pPeerId.
Proof.
  refine (inj_countable' ppid_id mkpPeerId _); by intros [].
Defined.
#[export] Instance pStatus_eq : EqDecision pStatus.
Proof. solve_decision. Defined.
#[export] Instance pStatus_countable : Countable pStatus.
Proof.
  refine (inj_countable' (λ r, (pst_peer_id r, pst_height r, pst_earliest_height r))
    (λ '(x0, x1, x2), mkpStatus x0 x1 x2) _); by intros [].
Defined.
#[export] Instance pValueRequest_eq : EqDecision pValueRequest.
Proof. solve_decision. Defined.
#[export] Instance pValueRequest_countable : Countable pValueRequest.
Proof.
  refine (inj_countable' (λ r, (pvr_range_start r, pvr_range_end r))
    (λ '(x0, x1), mkpValueRequest x0 x1) _); by intros [].
Defined.
#[export] Instance pExtension_eq : EqDecision pExtension.
Proof. solve_decision. Defined.
#[export] Instance pExtension_countable : Countable pExtension.
Proof.
  refine (inj_countable' (λ r, (pe_data r, pe_signature r))
    (λ '(x0, x1), mkpExtension x0 x1) _); by intros [].
Defined.
#[export] Instance pCommitSignature_eq : EqDecision pCommitSignature.
Proof. solve_decision. Defined.
#[export] Instance pCommitSignature_countable : Countable pCommitSignature.
Proof.
  refine (inj_countable' (λ r, (pcs_validator_address r, pcs_signature r, pcs_extension r))
    (λ '(x0, x1, x2), mkpCommitSignature x0 x1 x2) _); by intros [].
Defined.
#[export] Instance pCommitCertificate_eq : EqDecision pCommitCertificate.
Proof. solve_decision. Defined.
#[export] Instance pCommitCertificate_countable : Countable pCommitCertificate.
Proof.
  refine (inj_countable' (λ r, (pcc_height r, pcc_round r, pcc_value_id r, pcc_signatures r))
    (λ '(x0, x1, x2, x3), mkpCommitCertificate x0 x1 x2 x3) _); by intros [].
Defined.
#[export] Instance pSyncedValue_eq : EqDecision pSyncedValue.
Proof. solve_decision. Defined.
#[export] Instance pSyncedValue_countable : Countable pSyncedValue.
Proof.
  refine (inj_countable' (λ r, (psv_value_bytes r, psv_certificate r))
    (λ '(x0, x1), mkpSyncedValue x0 x1) _); by intros [].
Defined.
#[export] Instance pValueResponse_eq : EqDecision pValueResponse.
Proof. solve_decision. Defined.
#[export] Instance pValueResponse_countable : Countable pValueResponse.
Proof.
  refine (inj_countable' (λ r, (pvr_start_height r, pvr_values r))
    (λ '(x0, x1), mkpValueResponse x0 x1) _); by intros [].
Defined.
#[export] Instance pSyncRequest_eq : EqDecision pSyncRequest.
Proof. solve_decision. Defined.
#[export] Instance pSyncRequest_countable : Countable pSyncRequest.
Proof.
  refine (inj_countable' psr_request mkpSyncRequest _); by intros [].
Defined.
#[export] Instance pSyncResponse_eq : EqDecision pSyncResponse.
Proof. solve_decision. Defined.
#[export] Instance pSyncResponse_countable : Countable pSyncResponse.
Proof.
  refine (inj_countable' psr_response mkpSyncResponse _); by intros [].
Defined.
#[export] Instance pProposedValue_eq : EqDecision pProposedValue.
Proof. solve_decision. Defined.
#[export] Instance pProposedValue_countable : Countable pProposedValue.
Proof.
  refine (inj_countable' (λ r, (ppv_height r, ppv_round r, ppv_valid_round r, ppv_proposer r, ppv_value r, ppv_validity r))
    (λ '(x0, x1, x2, x3, x4, x5), mkpProposedValue x0 x1 x2 x3 x4 x5) _); by intros [].
Defined.

#[export] Instance toy_messages : ProstMessages := {
  pm_signed := toy_message_encoding pSignedMessage;
  pm_liveness := toy_message_encoding pLivenessMessage;
  pm_part := toy_message_encoding pProposalPart;
  pm_stream := toy_message_encoding pStreamMessage;
  pm_status := toy_message_encoding pStatus;
  pm_request := toy_message_encoding pSyncRequest;
  pm_response := toy_message_encoding pSyncResponse;
  pm_proof := toy_message_encoding pValidatorProof;
  pm_proposed := toy_message_encoding pProposedValue;
  pm_polka := toy_message_encoding pPolkaCertificate;
}.
#[export] Instance toy_messages_laws : ProstMessagesLaws.
Proof. split; apply toy_message_laws. Qed.

(** ** The codecs on a concrete message *)

Definition toy_vote : SignedConsensusMsg :=
  ConsensusVote (mkSignedVote (mkVote Precommit 5 (Some 0) (Val (mkValueId (replicate 32 Byte.xff))) 9 None)
    (sig64 [])).

Lemma network_codecs_exact_witness :
  ∃ b, codec_encode (Codec := NetCodec SignedConsensusMsg_codec) toy_vote = Ok b
       ∧ codec_decode (Codec := NetCodec SignedConsensusMsg_codec) b = Ok toy_vote.
Proof. apply network_codecs_exact. split_and!; [by eexists|done|done|done]. Defined.

Lemma wal_codecs_replay_witness :
  ∃ b, codec_encode (Codec := SignedConsensusMsg_codec) toy_vote = Ok b
       ∧ codec_decode (Codec := WalCodec SignedConsensusMsg_codec) b = Ok toy_vote.
Proof.
  destruct wal_codecs_replay as [(_ & Legacy & _) _]. eexists. split; [done|].
  apply (Legacy toy_vote); [split_and!; [by eexists|done|done|done]|done|done].
Defined.
