(* ===== verification/ToyStore.v ===== *)
(** * Concrete third-party code of the consensus database

    Instances of the SSZ encoding of blocks, of payload hashes, of the conversion of rounds
    and of prost's encoding of the stored messages, with their laws; a small database, and
    the theorems on it. *)

From stdpp Require Import countable strings.
From S2P Require Import Prelude BTree Validators Proposal Codec CodecProps StoreCodec Store StoreCodecProps StoreProps StoreInv StoreQueries ToyCrypto.

#[export] Instance sig64_eq : EqDecision Sig64.
Proof.
  intros s t. destruct (decide (proj1_sig s = proj1_sig t)) as [E|N]; [left; by apply sig64_inj|].
  right. by intros ->.
Defined.
#[export] Instance sig64_countable : Countable Sig64.
Proof.
  refine (inj_countable' (@proj1_sig _ _) sig64 _). intros [b Hb]. apply sig64_inj. cbn.
  pose proof (proj1 (bool_decide_eq_true _) Hb) as L. unfold sig64_bytes.
  rewrite take_app_le by lia. by rewrite take_ge by lia.
Defined.

Definition toy_block_data : Type := Z * option Z * option Z * Z * bool * bytes * option Sig64.
#[export] Instance toy_block_countable : Countable toy_block_data := _.
#[export] Instance toy_ssz_block : SszBlockCodec := {
  ssz_block_encode d := pos_bytes (encode (A := toy_block_data) d);
  ssz_block_decode b := decode (A := toy_block_data) (bytes_pos b);
}.
#[export] Instance toy_ssz_block_laws : SszBlockLaws.
Proof. split. intros b _. cbn. by rewrite bytes_pos_bytes, decode_encode. Qed.

Definition bytes32 (b : bytes) : bytes := take 32 (b ++ replicate 32 Byte.x00).
Lemma bytes32_length b : length (bytes32 b) = 32%nat.
Proof. unfold bytes32. rewrite length_take, length_app, length_replicate. lia. Qed.
#[export] Instance toy_payload_hash : PayloadHash := { payload_block_hash := bytes32 }.
#[export] Instance toy_hash_lengths : HashLengths.
Proof. split; intros; apply bytes32_length. Qed.

#[export] Instance toy_round_from : RoundFrom := { round_from_i64 z := if decide (z < 0) then None else Some z }.
#[export] Instance toy_round_from_laws : RoundFromLaws.
Proof. split. intros z B. cbn. by rewrite decide_False by lia. Qed.

#[export] Instance pProposalParts_eq : EqDecision pProposalParts.
Proof. solve_decision. Defined.
#[export] Instance pProposalParts_countable : Countable pProposalParts.
Proof.
  refine (inj_countable' (λ r, (ppp_init r, ppp_fin r, ppp_data r))
    (λ '(x0, x1, x2), mkpProposalParts x0 x1 x2) _); by intros [].
Defined.
#[export] Instance pStoreCommitCertificate_eq : EqDecision pStoreCommitCertificate.
Proof. solve_decision. Defined.
#[export] Instance pStoreCommitCertificate_countable : Countable pStoreCommitCertificate.
Proof.
  refine (inj_countable' (λ r, (pscc_height r, pscc_round r, pscc_value_id r, pscc_signatures r, pscc_proposer r, pscc_extended r))
    (λ '(x0, x1, x2, x3, x4, x5), mkpStoreCommitCertificate x0 x1 x2 x3 x4 x5) _); by intros [].
Defined.
#[export] Instance pDoubleVote_eq : EqDecision pDoubleVote.
Proof. solve_decision. Defined.
#[export] Instance pDoubleVote_countable : Countable pDoubleVote.
Proof.
  refine (inj_countable' (λ r, (pdv_first r, pdv_second r)) (λ '(x0, x1), mkpDoubleVote x0 x1) _); by intros [].
Defined.
#[export] Instance pDoubleProposal_eq : EqDecision pDoubleProposal.
Proof. solve_decision. Defined.
#[export] Instance pDoubleProposal_countable : Countable pDoubleProposal.
Proof.
  refine (inj_countable' (λ r, (pdp_first r, pdp_second r)) (λ '(x0, x1), mkpDoubleProposal x0 x1) _); by intros [].
Defined.
#[export] Instance pValidatorEvidence_eq : EqDecision pValidatorEvidence.
Proof. solve_decision. Defined.
#[export] Instance pValidatorEvidence_countable : Countable pValidatorEvidence.
Proof.
  refine (inj_countable' (λ r, (pve_address r, pve_double_votes r, pve_double_proposals r))
    (λ '(x0, x1, x2), mkpValidatorEvidence x0 x1 x2) _); by intros [].
Defined.
#[export] Instance pMisbehaviorEvidence_eq : EqDecision pMisbehaviorEvidence.
Proof. solve_decision. Defined.
#[export] Instance pMisbehaviorEvidence_countable : Countable pMisbehaviorEvidence.
Proof.
  refine (inj_countable' (λ r, (pme_height r, pme_validators r)) (λ '(x0, x1), mkpMisbehaviorEvidence x0 x1) _);
    by intros [].
Defined.
#[export] Instance pProposalMonitorData_eq : EqDecision pProposalMonitorData.
Proof. solve_decision. Defined.
#[export] Instance pProposalMonitorData_countable : Countable pProposalMonitorData.
Proof.
  refine (inj_countable' (λ r, (ppm_height r, ppm_proposer r, ppm_start_time_ms r, ppm_receive_time_ms r, ppm_value_id r,
      ppm_successful_state r, ppm_synced r))
    (λ '(x0, x1, x2, x3, x4, x5, x6), mkpProposalMonitorData x0 x1 x2 x3 x4 x5 x6) _); by intros [].
Defined.
#[export] Instance pInvalidPayload_eq : EqDecision pInvalidPayload.
Proof. solve_decision. Defined.
#[export] Instance pInvalidPayload_countable : Countable pInvalidPayload.
Proof.
  refine (inj_countable' (λ r, (pip_height r, pip_round r, pip_proposer_address r, pip_payload r, pip_reason r))
    (λ '(x0, x1, x2, x3, x4), mkpInvalidPayload x0 x1 x2 x3 x4) _); by intros [].
Defined.
#[export] Instance pInvalidPayloads_eq : EqDecision pInvalidPayloads.
Proof. solve_decision. Defined.
#[export] Instance pInvalidPayloads_countable : Countable pInvalidPayloads.
Proof.
  refine (inj_countable' (λ r, (pips_height r, pips_payloads r)) (λ '(x0, x1), mkpInvalidPayloads x0 x1) _); by intros [].
Defined.

#[export] Instance toy_store_messages : StoreMessages := {
  sm_parts := toy_message_encoding pProposalParts;
  sm_certificate := toy_message_encoding pStoreCommitCertificate;
  sm_evidence := toy_message_encoding pMisbehaviorEvidence;
  sm_monitor := toy_message_encoding pProposalMonitorData;
  sm_invalid := toy_message_encoding pInvalidPayloads;
}.
#[export] Instance toy_store_messages_laws : StoreMessagesLaws.
Proof. split; apply toy_message_laws. Qed.

(** ** Three decided heights *)

Definition toy_hash : bytes := bytes32 [Byte.x2a].
Definition toy_cert (h : Z) (sigs : list CommitSignature) : CommitCertificate :=
  mkCommitCertificate h (Some 0) (mkValueId toy_hash) sigs.
Definition toy_ops : list StoreOp :=
  [OpDecide (toy_cert 1 []) [Byte.x2a] 9; OpDecide (toy_cert 2 []) [Byte.x2a] 9; OpDecide (toy_cert 3 []) [Byte.x2a] 9].

Definition toy_db : Db := run_ops toy_ops (mkDb empty_tables []).

Lemma toy_cert_wf h : wf_certificate (toy_cert h []).
Proof. split_and!; [by eexists|apply bytes32_length|by vm_compute|constructor]. Qed.
Lemma toy_ops_wf : Forall wf_op toy_ops.
Proof. unfold toy_ops. repeat constructor; cbn [wf_op cert_height toy_cert]; try apply toy_cert_wf; by vm_compute. Qed.
Lemma toy_db_ok : store_ok (tables toy_db).
Proof. apply run_ops_ok; [apply toy_ops_wf|apply store_ok_empty]. Qed.
Lemma toy_db_heights : (certificates (tables toy_db)).*1 = [1; 2; 3] ∧ (decided_blocks (tables toy_db)).*1 = [1; 2; 3].
Proof. by vm_compute. Qed.

(** ** The theorems on it *)

Lemma store_always_readable_witness : reads_sound toy_db ∧ (certificates (tables toy_db)).*1 = [1; 2; 3].
Proof. split; [apply (store_always_readable toy_ops [] toy_ops_wf)|by vm_compute]. Defined.

(** The second transaction of the rollback fails: height 3 is gone, 2 is still there. *)
Definition toy_faulty : Db := mkDb (tables toy_db) [false; false; true].
Lemma rollback_cuts_at_one_height_witness :
  (∃ cut, 2 ≤ cut ∧ tables (rollback_to_height 1 1 false toy_faulty).2
          = without cut (rollback_top 2 (tables toy_faulty)) (tables toy_faulty))
  ∧ (certificates (tables (rollback_to_height 1 1 false toy_faulty).2)).*1 = [1; 2]
  ∧ (certificates (tables (rollback_to_height 1 1 false toy_db).2)).*1 = [1].
Proof.
  split; [|by vm_compute].
  pose proof (rollback_cuts_at_one_height 1 1 false toy_faulty ltac:(lia) ltac:(by vm_compute)
    (ok_wf _ _ toy_db_ok)) as X. cbv zeta in X.
  destruct (rollback_to_height 1 1 false toy_faulty) as [r db']. destruct X as (cut & B & T & _).
  exists cut. split; [apply B|exact T].
Defined.

Definition toy_pruning : PruningConfig := mkPruningConfig 0 3.
Lemma pruning_keeps_window_witness :
  (∃ failed, prunes 3 pruned_tables failed toy_db (service_prune_historical_certs toy_pruning 3 toy_db).2)
  ∧ (certificates (tables (service_prune_historical_certs toy_pruning 3 toy_db).2)).*1 = [3].
Proof.
  split; [|by vm_compute].
  pose proof (pruning_keeps_window toy_pruning 3 toy_db eq_refl (ok_wf _ _ toy_db_ok)) as X. cbv zeta in X.
  destruct (service_prune_historical_certs toy_pruning 3 toy_db) as [r db']. destruct X as [failed [X _]]. by exists failed.
Defined.

Definition toy_block (h : Z) : ConsensusBlock := mkConsensusBlock h (Some 0) None 9 Valid [Byte.x2a] None.
Definition toy_pending (h : Z) : ProposalParts := mkProposalParts (mkProposalInit h (Some 0) None 9) [] (sig64 []).
Definition toy_pending_ops : list StoreOp :=
  [OpPending (toy_pending 4) 10 1; OpPending (toy_pending 5) 10 1; OpPending (toy_pending 9) 10 1].
Definition toy_pending_db : Db := run_ops toy_pending_ops (mkDb empty_tables []).
Lemma toy_pending_db_ok : store_ok (tables toy_pending_db).
Proof.
  apply run_ops_ok; [|apply store_ok_empty]. unfold toy_pending_ops.
  assert (∀ h, uint 64 h → wf_op (OpPending (toy_pending h) 10 1)) as W.
  { intros h U. split; [split; [by eexists|by vm_compute]|]. split; [done|]. split; [|done]. intros z [= <-]. lia. }
  apply Forall_cons; split; [by apply W; vm_compute|]. apply Forall_cons; split; [by apply W; vm_compute|].
  apply Forall_cons; split; [by apply W; vm_compute|].
  by apply Forall_nil.
Qed.
Lemma pending_limit_enforced_witness :
  tables (enforce_pending_proposals_limit 2 5 toy_pending_db).2
  = set_pending (tables toy_pending_db)
      (take 2 (filter (λ kv, in_window 5 6 kv.1) (pending_proposal_parts (tables toy_pending_db))))
  ∧ (key_height ∘ fst) <$> pending_proposal_parts (tables toy_pending_db) = [4; 5; 9].
Proof.
  split; [|by vm_compute].
  pose proof (pending_limit_enforced 2 5 toy_pending_db ltac:(by vm_compute) ltac:(by vm_compute)
    (ok_wf _ _ toy_pending_db_ok)) as X. cbv zeta in X.
  destruct (enforce_pending_proposals_limit 2 5 toy_pending_db) as [[removed|e] db'] eqn:E; [apply X|].
  exfalso. assert ((enforce_pending_proposals_limit 2 5 toy_pending_db).1 = Err e) as C by (by rewrite E).
  revert C. clear. intros C. apply (f_equal is_ok) in C. by vm_compute in C.
Defined.

Definition toy_extended : CommitCertificate := toy_cert 2 [mkCommitSignature 9 (sig64 [])].
Lemma certificate_extension_witness :
  stored_certificate (tables (extend_certificate toy_extended toy_db).2) 2
  = Some (mkStoredCommitCertificate toy_extended CertExtended (Some 9)).
Proof.
  assert (wf_certificate toy_extended) as W.
  { split_and!; [by eexists|apply bytes32_length|by vm_compute|by repeat constructor]. }
  pose proof (certificate_extension toy_extended toy_db W toy_db_ok) as X. cbv zeta in X.
  assert (is_ok (extend_certificate toy_extended toy_db).1 = true) as K by (by vm_compute).
  assert (cert_proposer <$> stored_certificate (tables toy_db) 2 = Some (Some 9)) as P by (by vm_compute).
  destruct (extend_certificate toy_extended toy_db) as [[u|e] db']; [|done].
  destruct X as (old & So & _ & Sn & _). change (cert_height toy_extended) with 2 in *.
  rewrite So in P. injection P as P. cbn [snd]. by rewrite Sn, P.
Defined.

Lemma range_queries_cover_window_witness :
  ∃ r, (get_misbehavior_evidence_range 2 3 toy_db).1 = Ok (Some r)
       ∧ window_result ev_height 2 3 1 3 r ∧ r = Unavailable AboveCurrentHead [4].
Proof.
  assert (∃ b1 b2, head (certificates (tables toy_db)) = Some (1, b1) ∧ last (certificates (tables toy_db)) = Some (3, b2))
    as (b1 & b2 & H & L).
  { eexists _, _. split; [vm_compute; reflexivity|vm_compute; reflexivity]. }
  destruct (range_queries_cover_window 2 3 1 3 b1 b2 toy_db) as [(r & E & X) _];
    [by vm_compute|lia|by vm_compute|done|apply toy_db_ok|done|done|].
  exists r. split_and!; [done|done|]. exact X.
Defined.
