(* ===== verification/ToyMigrations.v ===== *)
(** * A database being migrated

    The database of ToyStore without its version bytes, opened, previewed, and opened twice with
    a transaction that fails in between. *)

From S2P Require Import Prelude BTree Validators Proposal Codec CodecProps StoreCodec Store StoreCodecProps StoreProps StoreInv ToyCrypto ToyStore Migrations MigrationsProps.

Definition toy_unversioned (faults : list bool) : File :=
  mkFile (mkContents (Some (Some V0)) true (unversioned (tables toy_db))) faults.

Lemma toy_not_stuck : ¬ stuck (unversioned (tables toy_db)).
Proof. apply (bool_decide_unpack (¬ _)). by vm_compute. Qed.
Lemma toy_unversioned_wf : tables_wf (unversioned (tables toy_db)).
Proof. apply unversioned_wf, (ok_wf _ _ toy_db_ok). Qed.

Lemma migration_restores_database_witness :
  let '(r, f') := Store_open Perform true (toy_unversioned []) in
  r = Ok tt ∧ contents f' = mkContents (Some (Some V1)) true (tables toy_db).
Proof.
  pose proof (migration_restores_database (tables toy_db) (toy_unversioned []) toy_db_ok toy_not_stuck
    ltac:(right; by right) eq_refl eq_refl) as X. cbv zeta in X.
  destruct (Store_open Perform true (toy_unversioned [])) as [r f']. destruct X as (R & C & _).
  assert (r = Ok tt) as E by (apply R, not_elem_of_nil). split; [exact E|by apply C].
Defined.

Lemma dry_run_predicts_migration_witness :
  (db_migrate true (toy_unversioned [])).1 = Ok (Some (mkMigrationStats 4 6 6 0))
  ∧ (db_migrate false (toy_unversioned [])).1 = Ok (Some (mkMigrationStats 4 6 6 0)).
Proof.
  pose proof (dry_run_predicts_migration (toy_unversioned []) ltac:(right; by right) toy_unversioned_wf) as X.
  assert ((db_migrate true (toy_unversioned [])).1 = Ok (Some (mkMigrationStats 4 6 6 0))) as Y by (by vm_compute).
  destruct (db_migrate true (toy_unversioned [])) as [r1 f1]. destruct (db_migrate false (toy_unversioned [])) as [r2 f2].
  destruct X as (_ & X & _). split; [exact Y|]. apply X; [apply not_elem_of_nil|exact Y].
Defined.

(** The read of the decided blocks fails, when the certificates have been migrated. *)
Definition toy_interrupted : File := toy_unversioned [false; false; false; false; false; true].
Definition certificate_of (h : Z) (t : Tables) : option Z :=
  (λ c, cert_height (certificate c)) <$> (default None (result_ok (get_certificate (Some h) (mkDb t [])).1)).

Lemma retried_migration_prefixes_twice_witness :
  let f1 := (Db_new Perform true toy_interrupted).2 in
  let '(r2, f2) := Db_new Perform true (mkFile (contents f1) []) in
  r2 = Ok tt ∧ metadata (contents f2) = Some (Some V1)
  ∧ certificate_of 2 (tables toy_db) = Some 2 ∧ certificate_of 2 (rows (contents f2)) = None.
Proof.
  assert (Db_new Perform true toy_interrupted = (Err Storage, (Db_new Perform true toy_interrupted).2)) as E by (by vm_compute).
  pose proof (retried_migration_prefixes_twice toy_interrupted _ _ ltac:(right; by right) eq_refl toy_unversioned_wf toy_not_stuck E) as X.
  cbv zeta in *. assert (certificate_of 2 (rows (contents (Db_new Perform true (mkFile (contents (Db_new Perform true toy_interrupted).2) [])).2)) = None)
    as Y by (by vm_compute).
  destruct X as (_ & c & d & u & p & _ & X). destruct (Db_new Perform true (mkFile _ [])) as [r2 f2]. destruct X as (R & C & _).
  split; [exact R|]. split; [by rewrite C|]. split; [by vm_compute|exact Y].
Defined.
