(* ===== verification/Streaming.v ===== *)
(** * Proposal-part streams

    malachite-app/src/streaming.rs: the buffer of one stream ([StreamState]), the map
    of all active streams ([PartStreamsMap]) with its per-peer and global limits,
    eviction and closed keys, and the stream ids.

    Instants are integers in nanoseconds, passed to the operations that read the clock.
    A [BTreeMap] is its list of entries in key order; the binary heap is the list of
    its messages, drained in sequence order.  The LRU set of closed keys is third-party
    code: class [LruOps] with its laws. *)

From stdpp Require Import sorting.
From S2P Require Import Prelude BTree Validators Proposal.

Definition MAX_MESSAGES_PER_STREAM : Z := 128.
Definition MAX_STREAMS_PER_PEER : Z := 4.
Definition MAX_STREAM_AGE : Z := 60 * 1000000000.
Definition MAX_CLOSED_STREAMS : Z := 10000.
Definition STREAM_ID_LEN : Z := 8 + 4 + 4.

(** [Iterator::max_by_key] keeps the last maximum, [min_by_key] the first minimum. *)
Definition max_by_key {A} (f : A → Z) (l : list A) : option A :=
  foldl (λ acc x, match acc with
                  | None => Some x
                  | Some y => if decide (f y ≤ f x) then Some x else Some y
                  end) None l.
Definition min_by_key {A} (f : A → Z) (l : list A) : option A :=
  foldl (λ acc x, match acc with
                  | None => Some x
                  | Some y => if decide (f x < f y) then Some x else Some y
                  end) None l.

(** [Instant::duration_since] *)
Definition duration_since (later earlier : Z) : Z := Z.max 0 (later - earlier).

Definition max_total_streams (num_validators : Z) : Z :=
  Z.max (saturating_mul 64 MAX_STREAMS_PER_PEER num_validators) MAX_STREAMS_PER_PEER.

Definition is_valid_fin_sequence (sequence : Z) : bool :=
  match try_from 64 sequence with
  | Some s => bool_decide (s < MAX_MESSAGES_PER_STREAM)
  | None => false
  end.

(** ** Stream ids: 8 bytes of height, 4 of round, 4 of nonce *)

Definition new_stream_id (height : Z) (round : Round) (nonce : Z) : option bytes :=
  r ← round;
  Some (to_be_bytes 8 height ++ to_be_bytes 4 r ++ to_be_bytes 4 nonce).

Definition stream_id_height (id : bytes) : option Z :=
  if decide (length id < 8)%nat then None else Some (from_be_bytes (take 8 id)).

(** ** One stream *)

Section StreamState.
Context `{PC : ProposalCrypto}.

Record StreamState := mkStreamState {
  ss_buffer : list StreamMessage;
  seen_sequences : gset Z;
  expected_messages : Z;
  message_count : Z;
  ss_height : option Z;
  fin_received : bool;
  is_complete : bool;
  created_at : Z;
}.

Inductive StreamInsertResult :=
| Duplicate
| Incomplete (height : option Z)
| ExceededMaxMessages
| InvalidFinSequence (sequence : Z)
| ExceededMaxChunkSize (size : Z)
| StreamComplete (parts : list ProposalPart).

Definition StreamState_new (now : Z) : StreamState :=
  mkStreamState [] ∅ 0 0 None false false now.

(** The heap order: smallest sequence first. *)
Definition seq_le (a b : StreamMessage) : Prop := sequence a ≤ sequence b.
#[export] Instance seq_le_dec : RelDecision seq_le.
Proof. intros a b. unfold seq_le. apply _. Defined.

Definition drain (buffer : list StreamMessage) : list ProposalPart :=
  omap (λ m, as_data (content m)) (merge_sort seq_le buffer).

(** The size of an oversized data chunk. *)
Definition oversized (msg : StreamMessage) : option Z :=
  match as_data (content msg) with
  | Some (PartData data) =>
      let len := Z.of_nat (length data) in
      if decide (CHUNK_SIZE < len) then Some len else None
  | _ => None
  end.

Definition StreamState_insert (s : StreamState) (msg : StreamMessage)
    : StreamInsertResult * StreamState :=
  match oversized msg with
  | Some size => (ExceededMaxChunkSize size, s)
  | None =>
  if is_fin msg && negb (is_valid_fin_sequence (sequence msg))
  then (InvalidFinSequence (sequence msg), s)
  else if decide (sequence msg ∈ seen_sequences s) then (Duplicate, s)
  else
    let seen := {[sequence msg]} ∪ seen_sequences s in
    if decide (MAX_MESSAGES_PER_STREAM ≤ message_count s) then
      (ExceededMaxMessages,
       mkStreamState (ss_buffer s) seen (expected_messages s) (message_count s) (ss_height s)
         (fin_received s) (is_complete s) (created_at s))
    else
      let count := message_count s + 1 in
      let height := match as_data (content msg) ≫= as_init with
                    | Some init => Some (init_height init)
                    | None => ss_height s
                    end in
      let fin := is_fin msg || fin_received s in
      let expected := if is_fin msg then sequence msg + 1 else expected_messages s in
      let buffer := msg :: ss_buffer s in
      let complete := bool_decide (is_Some height) && fin
                      && bool_decide (Z.of_nat (length buffer) = expected) in
      if negb complete then
        (Incomplete height,
         mkStreamState buffer seen expected count height fin complete (created_at s))
      else
        (StreamComplete (drain buffer),
         mkStreamState [] seen expected count height fin complete (created_at s))
  end.
End StreamState.

(** ** The closed-keys LRU *)

Abbreviation StreamKey := (Z * bytes)%type.

Class LruOps := {
  Lru : Type;
  lru_new : Lru;
  lru_insert : Lru → StreamKey → Lru;
  lru_peek : Lru → StreamKey → bool;
}.

(** Of a map with a positive capacity: the key just inserted is present, and an
    insertion adds no other key (it may drop old ones). *)
Class LruLaws `{LO : LruOps} := {
  lru_peek_new : ∀ k, lru_peek lru_new k = false;
  lru_peek_insert : ∀ l k, lru_peek (lru_insert l k) k = true;
  lru_peek_insert_inv : ∀ l k k', lru_peek (lru_insert l k) k' = true → k' = k ∨ lru_peek l k' = true;
}.

(** ** All streams *)

Section PartStreamsMap.
Context `{PC : ProposalCrypto} `{LO : LruOps}.

Inductive InsertError :=
| InvalidStreamIdLength (actual expected : Z)
| StreamIdHeightMismatch (stream_height init_height : Z)
| AssemblyFailed (e : ProposalPartsError).

Inductive InsertResult :=
| Complete (parts : ProposalParts)
| Pending
| Stale
| Invalid_ (e : InsertError).

Record PartStreamsMap := mkPartStreamsMap {
  current_height : Z;
  max_total : Z;
  streams : list (StreamKey * StreamState);
  closed_keys : Lru;
  last_eviction : Z;
}.

Definition key_lt (a b : StreamKey) : bool :=
  bool_decide (a.1 < b.1) || (bool_decide (a.1 = b.1) && bytes_lt a.2 b.2).

Definition set_streams (m : PartStreamsMap) (s : list (StreamKey * StreamState)) : PartStreamsMap :=
  mkPartStreamsMap (current_height m) (max_total m) s (closed_keys m) (last_eviction m).

Definition PartStreamsMap_new (height num_validators now : Z) : PartStreamsMap :=
  mkPartStreamsMap height (max_total_streams num_validators) [] lru_new now.

Definition remove_stale_streams (m : PartStreamsMap) (height : Z) : PartStreamsMap :=
  set_streams m (filter (λ kv : StreamKey * StreamState,
    match stream_id_height kv.1.2 with Some h => bool_decide (height ≤ h) | None => false end = true)
    (streams m)).

Definition set_current_height (m : PartStreamsMap) (height : Z) : PartStreamsMap :=
  remove_stale_streams
    (mkPartStreamsMap height (max_total m) (streams m) (closed_keys m) (last_eviction m)) height.

Definition evict (m : PartStreamsMap) (key : StreamKey) : PartStreamsMap :=
  mkPartStreamsMap (current_height m) (max_total m) (bt_remove key (streams m))
    (lru_insert (closed_keys m) key) (last_eviction m).

Definition mark_closed (m : PartStreamsMap) (peer_id : Z) (id : bytes) : PartStreamsMap :=
  mkPartStreamsMap (current_height m) (max_total m) (streams m)
    (lru_insert (closed_keys m) (peer_id, id)) (last_eviction m).

Definition busiest_peer (m : PartStreamsMap) : option Z :=
  let counts := foldl (λ counts (kv : StreamKey * StreamState),
                  let pid := kv.1.1 in
                  bt_insert Z.ltb pid (default 0 (bt_get pid counts) + 1) counts) [] (streams m) in
  fst <$> max_by_key snd counts.

Definition peer_streams_count (m : PartStreamsMap) (peer_id : Z) : Z :=
  Z.of_nat (length (filter (λ kv : StreamKey * StreamState, kv.1.1 = peer_id) (streams m))).

Definition oldest_stream_of (m : PartStreamsMap) (peer_id : Z) : option StreamKey :=
  fst <$> min_by_key (λ kv : StreamKey * StreamState, created_at kv.2)
            (filter (λ kv : StreamKey * StreamState, kv.1.1 = peer_id) (streams m)).

Definition evict_oldest_stream (m : PartStreamsMap) : PartStreamsMap :=
  match busiest_peer m with
  | None => m
  | Some peer_id =>
      match oldest_stream_of m peer_id with
      | None => m
      | Some key => evict m key
      end
  end.

Definition evict_old_streams (m : PartStreamsMap) (now : Z) : PartStreamsMap :=
  if decide (duration_since now (last_eviction m) < MAX_STREAM_AGE) then m
  else
    let m := mkPartStreamsMap (current_height m) (max_total m) (streams m) (closed_keys m) now in
    let keys_to_remove :=
      (filter (λ kv : StreamKey * StreamState,
         MAX_STREAM_AGE < duration_since now (created_at kv.2)) (streams m)).*1 in
    foldl evict m keys_to_remove.

(** [while len > max { evict_oldest_stream() }]; one round removes one stream, so the
    number of streams is enough fuel. *)
Fixpoint evict_down (fuel : nat) (m : PartStreamsMap) : PartStreamsMap :=
  match fuel with
  | O => m
  | S fuel => if decide (max_total m < Z.of_nat (length (streams m)))
              then evict_down fuel (evict_oldest_stream m) else m
  end.

Definition set_num_validators (m : PartStreamsMap) (num_validators : Z) : PartStreamsMap :=
  let m := mkPartStreamsMap (current_height m) (max_total_streams num_validators) (streams m)
             (closed_keys m) (last_eviction m) in
  evict_down (length (streams m)) m.

(** The part of [insert] after the admission checks: the stream of [key] exists or may
    be created. *)
Definition insert_into_stream (m : PartStreamsMap) (key : StreamKey) (stream_height : Z)
    (msg : StreamMessage) (created : Z) : InsertResult * PartStreamsMap :=
  let state := default (StreamState_new created) (bt_get key (streams m)) in
  let '(result, state) := StreamState_insert state msg in
  let m := set_streams m (bt_insert key_lt key state (streams m)) in
  match result with
  | Duplicate => (Pending, m)
  | Incomplete None => (Pending, m)
  | Incomplete (Some init_height) =>
      if decide (init_height ≠ stream_height)
      then (Invalid_ (StreamIdHeightMismatch stream_height init_height), evict m key)
      else (Pending, m)
  | ExceededMaxMessages => (Pending, evict m key)
  | InvalidFinSequence _ => (Pending, evict m key)
  | ExceededMaxChunkSize _ => (Pending, evict m key)
  | StreamComplete parts =>
      let m := set_streams m (bt_remove key (streams m)) in
      match ProposalParts_new parts with
      | Ok proposal_parts =>
          let init_height := parts_height proposal_parts in
          if decide (init_height ≠ stream_height)
          then (Invalid_ (StreamIdHeightMismatch stream_height init_height), evict m key)
          else (Complete proposal_parts, m)
      | Err e => (Invalid_ (AssemblyFailed e), m)
      end
  end.

(** [now] is the clock read by the age sweep, [created] the one a new stream reads. *)
Definition insert (m : PartStreamsMap) (peer_id : Z) (msg : StreamMessage) (now created : Z)
    : InsertResult * PartStreamsMap :=
  let id := stream_id msg in
  let key := (peer_id, id) in
  let actual := Z.of_nat (length id) in
  if decide (actual ≠ STREAM_ID_LEN) then
    (Invalid_ (InvalidStreamIdLength actual STREAM_ID_LEN), set_streams m (bt_remove key (streams m)))
  else
  match stream_id_height id with
  | None =>
      (Invalid_ (InvalidStreamIdLength actual STREAM_ID_LEN), set_streams m (bt_remove key (streams m)))
  | Some stream_height =>
  if decide (stream_height < current_height m) then
    (Stale, set_streams m (bt_remove key (streams m)))
  else
  let m := evict_old_streams m now in
  if lru_peek (closed_keys m) key then (Pending, m) else
  let is_new_stream := bool_decide (bt_get key (streams m) = None) in
  if is_new_stream && bool_decide (MAX_STREAMS_PER_PEER ≤ peer_streams_count m peer_id)
  then (Pending, m)
  else
  let m := if is_new_stream && bool_decide (max_total m ≤ Z.of_nat (length (streams m)))
           then evict_oldest_stream m else m in
  insert_into_stream m key stream_height msg created
  end.

End PartStreamsMap.
