(* ===== verification/Decide.v ===== *)
(** * Deciding a height

    The handlers of the consensus engine's [Decided] and [Finalized] messages:
    malachite-app/src/handlers/decided.rs and finalized.rs, with finalize.rs, the payload
    binding of payload.rs, the parts of state.rs they change, utils/sync_state.rs,
    utils/coord_upgrade.rs, and types/src/consensus_params.rs.

    The execution layer answers through [Engine]: what its RPC calls return.  The
    application's state carries the database and a log of what the handlers send out
    ([Sent]): the acknowledgement to the sync actor, the forkchoice update, the reply to
    consensus.  Durations are milliseconds. *)

From S2P Require Import Prelude BTree Validators Proposal Codec StoreCodec Store Streaming.

(** ** Consensus parameters *)

Record Bounds := mkBounds { bounds_min : Z; bounds_max : Z; bounds_default : Z }.
Definition timeout_propose : Bounds := mkBounds 500 30000 3000.
Definition timeout_prevote : Bounds := mkBounds 250 10000 1000.
Definition timeout_precommit : Bounds := mkBounds 250 10000 1000.
Definition timeout_rebroadcast : Bounds :=
  mkBounds 1000 30000
    (bounds_default timeout_propose + bounds_default timeout_prevote + bounds_default timeout_precommit).
Definition timeout_delta : Bounds := mkBounds 50 1000 500.
Definition target_block_time_bounds : Bounds := mkBounds 0 1000 500.

(** [LinearTimeouts]; [max_timeout] is not adjusted. *)
Record LinearTimeouts := mkLinearTimeouts {
  propose : Z; propose_delta : Z; prevote : Z; prevote_delta : Z;
  precommit : Z; precommit_delta : Z; rebroadcast : Z; max_timeout : Z;
}.
Record ConsensusParams := mkConsensusParams {
  target_block_time : option Z;
  timeouts : LinearTimeouts;
}.

Definition adjust (b : Bounds) (value : Z) : Z :=
  if decide (bounds_min b ≤ value ≤ bounds_max b) then value else bounds_default b.
Definition enforce_bounds (p : ConsensusParams) : ConsensusParams :=
  let t := timeouts p in
  mkConsensusParams (adjust target_block_time_bounds <$> target_block_time p)
    (mkLinearTimeouts (adjust timeout_propose (propose t)) (adjust timeout_delta (propose_delta t))
       (adjust timeout_prevote (prevote t)) (adjust timeout_delta (prevote_delta t))
       (adjust timeout_precommit (precommit t)) (adjust timeout_delta (precommit_delta t))
       (adjust timeout_rebroadcast (rebroadcast t)) (max_timeout t)).
Definition ConsensusParams_new (target : option Z) (t : LinearTimeouts) : ConsensusParams :=
  enforce_bounds (mkConsensusParams target t).
(** [max] is the default [max_timeout] of the consensus library. *)
Definition ConsensusParams_default (max : Z) : ConsensusParams :=
  mkConsensusParams (Some (bounds_default target_block_time_bounds))
    (mkLinearTimeouts (bounds_default timeout_propose) (bounds_default timeout_delta)
       (bounds_default timeout_prevote) (bounds_default timeout_delta)
       (bounds_default timeout_precommit) (bounds_default timeout_delta)
       (bounds_default timeout_rebroadcast) max).

(** ** The execution layer *)

Record ExecutionBlock := mkExecutionBlock {
  eb_block_hash : bytes;
  eb_block_number : Z;
  eb_parent_hash : bytes;
  eb_timestamp : Z;
}.

Inductive PayloadStatusEnum := StatusValid | StatusInvalid (validation_error : string) | StatusSyncing | StatusAccepted.
Record ForkchoiceUpdated := mkForkchoiceUpdated {
  fcu_status : PayloadStatusEnum;
  fcu_latest_valid_hash : option bytes;
  fcu_payload_id : option bytes;
}.

(** What the RPC calls of the execution layer return. *)
Record Engine := mkEngine {
  forkchoice_updated : bytes → result string ForkchoiceUpdated;
  get_signing_validator_set : Z → result string ValidatorSet;
  get_consensus_params : Z → result string ConsensusParams;
  default_max_timeout : Z;
}.

Inductive AppError :=
| Report (msg : string)
| HaltAndWait (msg : string)
| AppStore (e : StoreError)
| AppPanicked (msg : string).

Definition set_latest_forkchoice_state (engine : Engine) (head_block_hash : bytes) : result AppError bytes :=
  fcu ← map_err Report (forkchoice_updated engine head_block_hash);
  match fcu_status fcu, fcu_payload_id fcu with
  | StatusValid, Some _ => Err (Report "payload ID should be None")
  | StatusValid, None =>
      ok_or (fcu_latest_valid_hash fcu) (Report "Valid status must have latest_valid_hash")
  | StatusSyncing, _ =>
      match fcu_latest_valid_hash fcu with
      | None => Err (Report "headBlockHash references an unknown payload")
      | Some _ => Err (Report "Invalid payload status")
      end
  | _, _ => Err (Report "Invalid payload status")
  end.

(** ** Synchronisation state and halting *)

Inductive SyncState := CatchingUp | InSync.
Definition is_catching_up (now latest_block_timestamp threshold : Z) : bool :=
  bool_decide (threshold ≤ saturating_sub now (1000 * latest_block_timestamp)).
Definition sync_state (now latest_block_timestamp threshold : Z) : SyncState :=
  if is_catching_up now latest_block_timestamp threshold then CatchingUp else InSync.

Definition check_halt_height (next_height : Z) (halt_height : option Z) : result AppError unit :=
  match halt_height with
  | Some height => if decide (height = next_height) then Err (HaltAndWait "reached configured halt height") else Ok tt
  | None => Ok tt
  end.

(** ** The proposal monitor *)

Definition is_successful (m : ProposalMonitor) (decided_value_id : ValueId) : bool :=
  match pm_value_id m with Some v => bool_decide (v = decided_value_id) | None => false end.
Definition mark_decided (m : ProposalMonitor) (decided_value_id : ValueId) : ProposalMonitor :=
  mkProposalMonitor (pm_height m) (pm_proposer m) (pm_start_time m) (pm_receive_time m) (pm_value_id m)
    (if is_successful m decided_value_id then Successful else Unsuccessful) (pm_synced m).

Inductive EarlyArrival := EarlySynced (t : Z) | PendingPartsTime (t : Z).

(** ** Payloads *)

(** The other fields of an execution payload the consensus layer reads. *)
Class PayloadFields `{PC : ProposalCrypto} := {
  payload_parent_hash : Payload → bytes;
  payload_block_number : Payload → Z;
  payload_timestamp : Payload → Z;
}.

Inductive PayloadBindingError :=
| HeightMismatch (expected actual : Z)
| ParentMismatch (expected actual : bytes).

Section Decide.
Context `{PC : ProposalCrypto} {SB : SignatureBytes} {SZ : SszBlockCodec} {PH : PayloadHash} {PF : PayloadFields}.
Context {SM : StoreMessages} `{!EqDecision Signature} `{LO : LruOps}.

Definition check_payload_binding (payload : Payload) (height : Z) (previous_block : option ExecutionBlock)
    : result PayloadBindingError unit :=
  if decide (payload_block_number payload ≠ height)
  then Err (HeightMismatch height (payload_block_number payload))
  else match previous_block with
       | None => Ok tt
       | Some previous =>
           if decide (checked_add 64 (eb_block_number previous) 1 ≠ Some height) then Ok tt
           else if decide (payload_parent_hash payload ≠ eb_block_hash previous)
           then Err (ParentMismatch (eb_block_hash previous) (payload_parent_hash payload))
           else Ok tt
       end.

Definition payload_execution_block (p : Payload) : ExecutionBlock :=
  mkExecutionBlock (payload_block_hash p) (payload_block_number p) (payload_parent_hash p) (payload_timestamp p).

(** ** The state of the application *)

Record NextHeightInfo := mkNextHeightInfo {
  nh_next_height : Z;
  nh_validator_set : ValidatorSet;
  nh_consensus_params : ConsensusParams;
  nh_decided_block : ExecutionBlock;
  nh_target_time : option Z;
}.
(** [Decision] *)
Inductive HeightDecision := DecisionSuccess (info : NextHeightInfo) | DecisionFailure (e : AppError).

Record HeightParams := mkHeightParams {
  hp_validator_set : ValidatorSet;
  hp_timeouts : LinearTimeouts;
  hp_target_time : option Z;
}.
Inductive Next := NextStart (h : Z) (p : HeightParams) | NextRestart (h : Z) (p : HeightParams).
Definition height_params (i : NextHeightInfo) : HeightParams :=
  mkHeightParams (nh_validator_set i) (timeouts (nh_consensus_params i)) (nh_target_time i).

(** What the handlers send, with the tables as they were when it was sent. *)
Inductive Sent :=
| SentAck (durable : Tables)
| SentForkchoice (head_block_hash : bytes) (durable : Tables)
| SentNext (next : Next) (durable : Tables)
| SentParts (messages : list StreamMessage) (durable : Tables).

(** [st_calls] counts the payloads sent to the execution layer, whose answer may differ from
    call to call. *)
Record State := mkState {
  st_current_height : Z;
  st_current_round : Round;
  st_current_proposer : option Z;
  st_decision : option HeightDecision;
  st_sync_state : SyncState;
  st_previous_block : option ExecutionBlock;
  st_consensus_params : ConsensusParams;
  st_validator_set : ValidatorSet;
  st_proposal_monitor : option ProposalMonitor;
  st_early_arrivals : list (Z * EarlyArrival);
  st_streams_map : PartStreamsMap;
  st_store : Db;
  st_sent : list Sent;
  st_network_id : bytes;
  st_stream_nonce : Z;
  st_calls : nat;
}.

(** Configuration, clock, and whether the receivers of the replies are still there. *)
Record Env := mkEnv {
  env_prune : PruningConfig;
  env_halt_height : option Z;
  env_catch_up_threshold : Z;
  env_now : Z;
  env_ack_open : bool;
  env_reply_open : bool;
}.

(** Field updates. *)
Definition with_store (db : Db) (s : State) : State :=
  mkState (st_current_height s) (st_current_round s) (st_current_proposer s) (st_decision s) (st_sync_state s)
    (st_previous_block s) (st_consensus_params s) (st_validator_set s) (st_proposal_monitor s)
    (st_early_arrivals s) (st_streams_map s) db (st_sent s) (st_network_id s)
    (st_stream_nonce s) (st_calls s).
Definition with_decision (d : option HeightDecision) (s : State) : State :=
  mkState (st_current_height s) (st_current_round s) (st_current_proposer s) d (st_sync_state s)
    (st_previous_block s) (st_consensus_params s) (st_validator_set s) (st_proposal_monitor s)
    (st_early_arrivals s) (st_streams_map s) (st_store s) (st_sent s) (st_network_id s)
    (st_stream_nonce s) (st_calls s).
Definition with_sync_state (y : SyncState) (s : State) : State :=
  mkState (st_current_height s) (st_current_round s) (st_current_proposer s) (st_decision s) y
    (st_previous_block s) (st_consensus_params s) (st_validator_set s) (st_proposal_monitor s)
    (st_early_arrivals s) (st_streams_map s) (st_store s) (st_sent s) (st_network_id s)
    (st_stream_nonce s) (st_calls s).
Definition with_previous_block (b : option ExecutionBlock) (s : State) : State :=
  mkState (st_current_height s) (st_current_round s) (st_current_proposer s) (st_decision s) (st_sync_state s)
    b (st_consensus_params s) (st_validator_set s) (st_proposal_monitor s)
    (st_early_arrivals s) (st_streams_map s) (st_store s) (st_sent s) (st_network_id s)
    (st_stream_nonce s) (st_calls s).
Definition with_monitor (m : option ProposalMonitor) (s : State) : State :=
  mkState (st_current_height s) (st_current_round s) (st_current_proposer s) (st_decision s) (st_sync_state s)
    (st_previous_block s) (st_consensus_params s) (st_validator_set s) m
    (st_early_arrivals s) (st_streams_map s) (st_store s) (st_sent s) (st_network_id s)
    (st_stream_nonce s) (st_calls s).
Definition with_sent (x : Sent) (s : State) : State :=
  mkState (st_current_height s) (st_current_round s) (st_current_proposer s) (st_decision s) (st_sync_state s)
    (st_previous_block s) (st_consensus_params s) (st_validator_set s) (st_proposal_monitor s)
    (st_early_arrivals s) (st_streams_map s) (st_store s) (st_sent s ++ [x]) (st_network_id s)
    (st_stream_nonce s) (st_calls s).

Definition modify (f : State → State) : M State AppError unit := λ s, (Ok tt, f s).
Definition send (mk : Tables → Sent) : M State AppError unit :=
  modify (λ s, with_sent (mk (tables (st_store s))) s).

(** A call of the store whose error is passed on, and one whose error is only logged. *)
Definition on_store {A} (m : M Db StoreError A) : M State AppError A := λ s,
  let '(r, db) := m (st_store s) in (map_err AppStore r, with_store db s).
Definition try_store {A} (m : M Db StoreError A) : M State AppError unit := λ s,
  (Ok tt, with_store (m (st_store s)).2 s).

(** ** Decided *)

Definition store_proposal_monitor_on_decision (decided_height : Z) (decided_value_id : ValueId)
    : M State AppError unit :=
  s <-- m_get ;;
  match st_proposal_monitor s with
  | None => m_ret tt
  | Some monitor =>
      modify (with_monitor None) ;;;
      if decide (pm_height monitor ≠ decided_height)
      then m_err (AppPanicked "assertion failed: monitor.height == decided_height")
      else try_store (insert_proposal_monitor_data (mark_decided monitor decided_value_id))
  end.

(** [EngineBlockFinalizer]: the forkchoice update is sent whatever the execution layer answers. *)
Definition finalize_decided_block (engine : Engine) (p : Payload) : M State AppError (ExecutionBlock * bytes) :=
  send (SentForkchoice (payload_block_hash p)) ;;;
  latest_valid_hash <-- m_lift (set_latest_forkchoice_state engine (payload_block_hash p)) ;;
  m_ret (payload_execution_block p, latest_valid_hash).

(** [DecidedBlock::new] panics in the caller; errors of the transaction are returned. *)
Definition store_decision (c : CommitCertificate) (block : ConsensusBlock) : M State AppError unit :=
  match DecidedBlock_new (execution_payload block) c with
  | Err _ => m_err (AppPanicked "Block hash in the execution payload does not match the hash in the commit certificate")
  | Ok _ => on_store (store_decided_block c (execution_payload block) (block_proposer block))
  end.

Definition commit (env : Env) (engine : Engine) (c : CommitCertificate) (block : ConsensusBlock)
    : M State AppError ExecutionBlock :=
  store_decision c block ;;;
  (if env_ack_open env then send SentAck else m_ret tt) ;;;
  try_store (clean_stale_consensus_data (cert_height c)) ;;;
  res <-- finalize_decided_block engine (execution_payload block) ;;
  try_store (service_prune_historical_certs (env_prune env) (cert_height c)) ;;;
  try_store prune_blocks ;;;
  m_ret res.1.

Definition decide_block (env : Env) (engine : Engine) (c : CommitCertificate)
    (previous_block : option ExecutionBlock) : M State AppError ExecutionBlock :=
  found <-- on_store (get_undecided_block_by_height_and_block_hash (cert_height c) (block_hash (cert_value_id c))) ;;
  match found with
  | None => m_err (Report "Cannot find undecided block for certificate")
  | Some block =>
      match check_payload_binding (execution_payload block) (cert_height c) previous_block with
      | Err _ => m_err (HaltAndWait "decided payload is not bound to its place in the chain")
      | Ok _ =>
          match validity block with
          | Invalid => m_err (Report "Refusing to finalize undecided block marked invalid")
          | Valid => commit env engine c block
          end
      end
  end.

Definition prepare_next_height (engine : Engine) (decided_height : Z) (decided_block : ExecutionBlock)
    (sync : SyncState) : result AppError NextHeightInfo :=
  next_height ← ok_or (height_increment decided_height) (AppPanicked "block height overflow");
  validators ← map_err Report (get_signing_validator_set engine next_height);
  let params := match get_consensus_params engine decided_height with
                | Ok params => params
                | Err _ => ConsensusParams_default (default_max_timeout engine)
                end in
  let target_time := match sync with InSync => target_block_time params | CatchingUp => None end in
  Ok (mkNextHeightInfo next_height validators params decided_block target_time).

(** [handlers::decided::handle] *)
Definition handle_decided (env : Env) (engine : Engine) (c : CommitCertificate) : M State AppError unit :=
  store_proposal_monitor_on_decision (cert_height c) (cert_value_id c) ;;;
  s <-- m_get ;;
  (λ s0, match decide_block env engine c (st_previous_block s) s0 with
         | (Ok block, s1) =>
             let sync := sync_state (env_now env) (eb_timestamp block) (env_catch_up_threshold env) in
             (modify (with_sync_state sync) ;;;
              info <-- m_lift (prepare_next_height engine (cert_height c) block sync) ;;
              modify (with_decision (Some (DecisionSuccess info)))) s1
         | (Err (HaltAndWait msg), s1) => (Err (HaltAndWait msg), s1)
         | (Err (AppPanicked msg), s1) => (Err (AppPanicked msg), s1)
         | (Err e, s1) => modify (with_decision (Some (DecisionFailure e))) s1
         end).

(** ** Finalized *)

(** Evidence from the consensus engine: per validator, pairs of conflicting messages. *)
Record MisbehaviorEvidence := mkMisbehaviorEvidence {
  me_votes : list (Z * list (SignedVote * SignedVote));
  me_proposals : list (Z * list (SignedProposal * SignedProposal));
}.
Definition evidence_is_empty (e : MisbehaviorEvidence) : bool :=
  match me_votes e, me_proposals e with [], [] => true | _, _ => false end.

Definition evidence_entry (m : list (Z * ValidatorEvidence)) (a : Z) : ValidatorEvidence :=
  default (mkValidatorEvidence a [] []) (bt_get a m).
Definition add_votes (m : list (Z * ValidatorEvidence)) (x : Z * list (SignedVote * SignedVote)) :=
  let '(a, l) := x in
  bt_insert Z.ltb a (mkValidatorEvidence (ve_address (evidence_entry m a)) ((λ p, mkDoubleVote p.1 p.2) <$> l)
                       (double_proposals (evidence_entry m a))) m.
Definition add_proposals (m : list (Z * ValidatorEvidence)) (x : Z * list (SignedProposal * SignedProposal)) :=
  let '(a, l) := x in
  bt_insert Z.ltb a (mkValidatorEvidence (ve_address (evidence_entry m a)) (double_votes (evidence_entry m a))
                       ((λ p, mkDoubleProposal p.1 p.2) <$> l)) m.
Definition from_misbehavior_evidence (height : Z) (e : MisbehaviorEvidence) : StoredMisbehaviorEvidence :=
  mkEvidence height (foldl add_proposals (foldl add_votes [] (me_votes e)) (me_proposals e)).*2.

Definition set_validator_set (vs : ValidatorSet) (s : State) : State :=
  mkState (st_current_height s) (st_current_round s) (st_current_proposer s) (st_decision s) (st_sync_state s)
    (st_previous_block s) (st_consensus_params s) vs (st_proposal_monitor s)
    (st_early_arrivals s) (set_num_validators (st_streams_map s) (set_len vs)) (st_store s) (st_sent s) (st_network_id s)
    (st_stream_nonce s) (st_calls s).
Definition set_consensus_params (p : ConsensusParams) (s : State) : State :=
  mkState (st_current_height s) (st_current_round s) (st_current_proposer s) (st_decision s) (st_sync_state s)
    (st_previous_block s) p (st_validator_set s) (st_proposal_monitor s)
    (st_early_arrivals s) (st_streams_map s) (st_store s) (st_sent s) (st_network_id s)
    (st_stream_nonce s) (st_calls s).
Definition cleanup_early_arrivals (h : Z) (s : State) : State :=
  mkState (st_current_height s) (st_current_round s) (st_current_proposer s) (st_decision s) (st_sync_state s)
    (st_previous_block s) (st_consensus_params s) (st_validator_set s) (st_proposal_monitor s)
    (filter (λ kv : Z * EarlyArrival, h ≤ kv.1) (st_early_arrivals s)) (st_streams_map s) (st_store s) (st_sent s) (st_network_id s)
    (st_stream_nonce s) (st_calls s).
Definition at_height (h : Z) (proposer : option Z) (s : State) : State :=
  mkState h None proposer (st_decision s) (st_sync_state s)
    (st_previous_block s) (st_consensus_params s) (st_validator_set s) (st_proposal_monitor s)
    (st_early_arrivals s) (st_streams_map s) (st_store s) (st_sent s) (st_network_id s)
    (st_stream_nonce s) (st_calls s).

Definition move_to_next_height (i : NextHeightInfo) (s : State) : State :=
  let s := at_height (nh_next_height i) (st_current_proposer s) s in
  let s := with_previous_block (Some (nh_decided_block i)) s in
  let s := set_validator_set (nh_validator_set i) s in
  let s := set_consensus_params (nh_consensus_params i) s in
  cleanup_early_arrivals (nh_next_height i) s.

Definition start_next_height (env : Env) (i : NextHeightInfo) : M State AppError Next :=
  modify (move_to_next_height i) ;;;
  m_lift (check_halt_height (nh_next_height i) (env_halt_height env)) ;;;
  m_ret (NextStart (nh_next_height i) (height_params i)).

(** [State::restart_height] *)
Definition state_restart_height (height : Z) (vs : ValidatorSet) (params : ConsensusParams)
    : M State AppError unit :=
  modify (λ s, set_consensus_params params (set_validator_set vs (at_height height None s))) ;;;
  previous <-- on_store (get_decided_block (height_saturating_sub height 1)) ;;
  modify (with_previous_block ((λ d, payload_execution_block (db_execution_payload d)) <$> previous)) ;;;
  on_store (clean_stale_consensus_data height).

Definition restart_height (height : Z) : M State AppError Next :=
  s <-- m_get ;;
  state_restart_height height (st_validator_set s) (st_consensus_params s) ;;;
  m_ret (NextRestart height (mkHeightParams (st_validator_set s) (timeouts (st_consensus_params s)) None)).

(** [handlers::finalized::handle] *)
Definition handle_finalized (env : Env) (c : CommitCertificate) (evidence : MisbehaviorEvidence)
    : M State AppError unit :=
  s <-- m_get ;;
  match st_decision s with
  | None => m_err (Report "Finalized: Received message without a corresponding decision in state")
  | Some d =>
      modify (with_decision None) ;;;
      (if evidence_is_empty evidence then m_ret tt
       else try_store (insert_misbehavior_evidence (from_misbehavior_evidence (cert_height c) evidence))) ;;;
      try_store (extend_certificate c) ;;;
      next <-- match d with
               | DecisionSuccess info => start_next_height env info
               | DecisionFailure _ => restart_height (cert_height c)
               end ;;
      if env_reply_open env then send (SentNext next) else m_err (Report "Finalized: Failed to send Next reply")
  end.
End Decide.
