(* ===== verification/DecideProps.v ===== *)
(** * Properties of deciding a height

    What the [Decided] handler has made durable when it tells others, and what the
    [Finalized] handler replies. *)

From S2P Require Import Prelude BTree Validators Proposal Codec CodecProps StoreCodec Store StoreCodecProps StoreProps StoreInv StoreQueries Streaming Decide.

Section DecideProps.
Context `{PC : ProposalCrypto} {PCL : ProposalCryptoLaws} {SB : SignatureBytes} {SL : SignatureLaws}.
Context {SZ : SszBlockCodec} {SZL : SszBlockLaws} {PH : PayloadHash} {HL : HashLengths} {PF : PayloadFields}.
Context {SM : StoreMessages} {SML : StoreMessagesLaws} `{!EqDecision Signature} `{LO : LruOps}.

(** The certificate and the payload of a block are in the tables. *)
Definition stored_payload (t : Tables) (h : Z) : option Payload :=
  bt_get h (decided_blocks t) ≫= λ b, result_ok (decode_execution_payload b).
Definition holds (c : CommitCertificate) (block : ConsensusBlock) (t : Tables) : Prop :=
  stored_certificate t (cert_height c) = Some (mkStoredCommitCertificate c CertMinimal (Some (block_proposer block)))
  ∧ stored_payload t (cert_height c) = Some (execution_payload block).

(** The decided tables are the same. *)
Definition same_decided (t t' : Tables) : Prop :=
  certificates t' = certificates t ∧ decided_blocks t' = decided_blocks t.

Lemma holds_same c block t t' : same_decided t t' → holds c block t → holds c block t'.
Proof. intros [E1 E2]. unfold holds, stored_certificate, stored_payload. by rewrite E1, E2. Qed.

(** ** Consensus parameters *)

Definition within (b : Bounds) (v : Z) : Prop := bounds_min b ≤ v ≤ bounds_max b.
Definition params_within (p : ConsensusParams) : Prop :=
  let t := timeouts p in
  (∀ v, target_block_time p = Some v → within target_block_time_bounds v)
  ∧ within timeout_propose (propose t) ∧ within timeout_prevote (prevote t) ∧ within timeout_precommit (precommit t)
  ∧ within timeout_rebroadcast (rebroadcast t)
  ∧ Forall (within timeout_delta) [propose_delta t; prevote_delta t; precommit_delta t].

Lemma adjust_within b v : within b (bounds_default b) → within b (adjust b v).
Proof. unfold adjust. by case_decide. Qed.

(** Whatever the contract answers, the parameters in use are within their bounds; parameters
    within them are taken as they are. *)
Lemma params_always_within target t max :
  params_within (ConsensusParams_new target t) ∧ params_within (ConsensusParams_default max)
  ∧ (params_within (mkConsensusParams target t) → ConsensusParams_new target t = mkConsensusParams target t).
Proof.
  split; [|split].
  - split; [|cbn; split_and!; try (apply adjust_within; unfold within; cbn; lia)].
    + intros v. cbn. destruct target as [x|]; cbn; [|done]. intros [= <-]. apply adjust_within. unfold within. cbn. lia.
    + repeat (apply Forall_cons; split; [apply adjust_within; unfold within; cbn; lia|]). by apply Forall_nil.
  - split; [intros v [= <-]; unfold within; cbn; lia|]. cbn. split_and!; try (unfold within; cbn; lia).
    repeat (apply Forall_cons; split; [unfold within; cbn; lia|]). by apply Forall_nil.
  - intros (T & P & V & C & R & D). cbn in *. rewrite !Forall_cons in D. destruct D as (D1 & D2 & D3 & _).
    unfold ConsensusParams_new, enforce_bounds, adjust, within in *. cbn [timeouts target_block_time].
    rewrite !decide_True by done. destruct t. cbn. f_equal. destruct target as [x|]; [|done]. cbn.
    by rewrite decide_True by (apply T; reflexivity).
Qed.

(** ** Single steps *)

Lemma clean_same_decided h db : same_decided (tables db) (tables (clean_stale_consensus_data h db).2).
Proof. unfold clean_stale_consensus_data, with_write. by destruct (next_fault db). Qed.

Lemma monitor_same_decided d db : same_decided (tables db) (tables (insert_proposal_monitor_data d db).2).
Proof.
  unfold insert_proposal_monitor_data, with_write. destruct (next_fault db); [done|].
  destruct (encode_proposal_monitor_data d); [|done]. cbn. by destruct (tables db).
Qed.

Lemma monitor_keeps_undecided d db :
  undecided_blocks (tables (insert_proposal_monitor_data d db).2) = undecided_blocks (tables db).
Proof.
  unfold insert_proposal_monitor_data, with_write. destruct (next_fault db); [done|].
  destruct (encode_proposal_monitor_data d); [|done]. cbn. by destruct (tables db).
Qed.

(** A later database of the same run: its remaining faults are among the earlier ones. *)
Lemma read_faults {A} (f : Tables → result StoreError A) db b : b ∈ faults (with_read f db).2 → b ∈ faults db.
Proof. rewrite with_read_faults. cbn. destruct (faults db); [done|]. by right. Qed.
Lemma write_faults {A} (f : Tables → result StoreError (A * Tables)) db b : b ∈ faults (with_write f db).2 → b ∈ faults db.
Proof.
  unfold with_write. destruct (next_fault db); [|destruct (f (tables db)) as [[]|]];
    (cbn; destruct (faults db); [done|]; by right).
Qed.

Lemma read_tables {A} (f : Tables → result StoreError A) db : tables (with_read f db).2 = tables db.
Proof. by rewrite with_read_faults. Qed.

(** The undecided block of a hash is the block stored for it. *)
Lemma find_undecided_found h x l b : (∀ k b, (k, b) ∈ l → undecided_row k b) →
  find_undecided h x l = Ok (Some b) →
  block_height b = h ∧ self_reported_block_hash b = x ∧ wf_block b.
Proof.
  induction l as [|[[[h' r'] x'] v] l IH]; intros R; [done|]. cbn [find_undecided]. case_decide as D.
  - destruct (R _ _ (list_elem_of_here _ _)) as (y & Dy & K & W). rewrite Dy. cbn. intros [= <-].
    destruct D as [-> ->]. injection K as -> _ ->. done.
  - apply IH. intros k' b' Hin. apply R. by right.
Qed.

Lemma get_undecided_result h x db :
  (get_undecided_block_by_height_and_block_hash h x db).1 = find_undecided h x (undecided_blocks (tables db))
  ∨ (get_undecided_block_by_height_and_block_hash h x db).1 = Err Storage ∧ true ∈ faults db.
Proof.
  unfold get_undecided_block_by_height_and_block_hash, with_read.
  destruct (next_fault db) eqn:F; [right; split; [done|by apply next_fault_in]|by left].
Qed.

Lemma get_undecided_found h x db b : store_ok (tables db) →
  (get_undecided_block_by_height_and_block_hash h x db).1 = Ok (Some b) →
  block_height b = h ∧ self_reported_block_hash b = x ∧ wf_block b.
Proof.
  intros O. unfold get_undecided_block_by_height_and_block_hash, with_read. destruct (next_fault db); [done|].
  apply find_undecided_found, (ok_undecided _ _ O).
Qed.

(** Storing a decision succeeds as a whole or changes nothing. *)
Lemma store_decided_spec c p a db : wf_certificate c → wf_address a →
  payload_block_hash p = block_hash (cert_value_id c) →
  let '(r, db') := store_decided_block c p a db in
  (r = Ok tt ∧ stored_certificate (tables db') (cert_height c) = Some (mkStoredCommitCertificate c CertMinimal (Some a))
     ∧ stored_payload (tables db') (cert_height c) = Some p)
  ∨ (r = Err Storage ∧ true ∈ faults db ∧ tables db' = tables db).
Proof.
  intros W Wa M. unfold store_decided_block, m_bind, m_lift, DecidedBlock_new. rewrite decide_True by done.
  unfold insert_decided_block, with_write. destruct (next_fault db) eqn:NF.
  { right. split_and!; [done|by apply next_fault_in|done]. }
  unfold insert_certificate, DecidedBlock_height. cbn [db_certificate db_execution_payload].
  destruct (encode_certificate_row c CertMinimal (Some a) W) as (b & E & D & _); [by intros ? [= <-]|].
  rewrite E. cbn [map_err mbind result_bind tables]. left. split; [done|].
  destruct (payload_reads_back p I) as (pb & [= <-] & Dp).
  unfold stored_certificate, stored_payload, insert_height. rewrite certificates_set, bt_get_insert. cbn.
  rewrite D. split; [done|]. destruct (tables db) as [c0 d0 e0 i0 m0 u0 q0]. cbn [set_height_table height_table decided_blocks].
  rewrite bt_get_insert. cbn [mbind option_bind]. by rewrite Dp.
Qed.
(** ** Committing *)

(** A state that differs from [s] in the database and in what was sent since. *)
Definition evolve (s : State) (db : Db) (evs : list Sent) : State :=
  mkState (st_current_height s) (st_current_round s) (st_current_proposer s) (st_decision s) (st_sync_state s)
    (st_previous_block s) (st_consensus_params s) (st_validator_set s) (st_proposal_monitor s)
    (st_early_arrivals s) (st_streams_map s) db (st_sent s ++ evs) (st_network_id s)
    (st_stream_nonce s) (st_calls s).

Lemma with_sent_evolve x s db evs : with_sent x (evolve s db evs) = evolve s db (evs ++ [x]).
Proof. unfold with_sent, evolve. cbn. by rewrite app_assoc. Qed.
Lemma with_store_evolve db' s db evs : with_store db' (evolve s db evs) = evolve s db' evs.
Proof. done. Qed.
Lemma st_store_evolve s db evs : st_store (evolve s db evs) = db.
Proof. done. Qed.
Lemma with_store_is db s : with_store db s = evolve s db [].
Proof. unfold evolve, with_store. by rewrite app_nil_r. Qed.

Definition ack_events (env : Env) (t : Tables) : list Sent := if env_ack_open env then [SentAck t] else [].

(** The answer of the execution layer decides the result of a stored decision. *)
Definition finalize_result (engine : Engine) (p : Payload) : result AppError ExecutionBlock :=
  (λ _, payload_execution_block p) <$> set_latest_forkchoice_state engine (payload_block_hash p).

Lemma commit_spec env engine c block s :
  store_ok (tables (st_store s)) → wf_certificate c → uint 64 (cert_height c) → wf_block block →
  self_reported_block_hash block = block_hash (cert_value_id c) →
  let '(r, s') := commit env engine c block s in
  (∃ db' t1 t2, store_ok (tables db') ∧ holds c block t1 ∧ holds c block t2
     ∧ s' = evolve s db' (ack_events env t1 ++ [SentForkchoice (block_hash (cert_value_id c)) t2])
     ∧ r = finalize_result engine (execution_payload block))
  ∨ (∃ db', tables db' = tables (st_store s) ∧ s' = evolve s db' [] ∧ r = Err (AppStore Storage)
       ∧ true ∈ faults (st_store s)).
Proof.
  intros O W U Wb M. unfold commit, store_decision, DecidedBlock_new. unfold self_reported_block_hash in M.
  rewrite decide_True by done. unfold m_bind at 1. unfold on_store at 1.
  assert (wf_address (block_proposer block)) as Wa by apply Wb.
  pose proof (store_decided_spec c (execution_payload block) (block_proposer block) (st_store s) W Wa M) as X.
  pose proof (db_keeps_decide c (execution_payload block) (block_proposer block) W U Wa (st_store s) O) as K.
  destruct (store_decided_block _ _ _ _) as [r1 db1]. cbn [snd] in K.
  destruct X as [(-> & C1 & P1)|(-> & F & T)]; cbn [map_err].
  2: { right. exists db1. split_and!; [done| |done|done]. apply with_store_is. }
  assert (holds c block (tables db1)) as H1 by done.
  rewrite with_store_is.
  set (s1 := evolve s db1 (ack_events env (tables db1))).
  assert (m_bind (if env_ack_open env then send SentAck else m_ret tt)
            (λ _, try_store (clean_stale_consensus_data (cert_height c))) (evolve s db1 [])
          = (Ok tt, with_store (clean_stale_consensus_data (cert_height c) db1).2 s1)) as E1.
  { unfold s1, ack_events, m_bind. destruct (env_ack_open env); [|done]. unfold send, modify.
    by rewrite with_sent_evolve. }
  unfold m_bind in E1 |- *.
  destruct ((if env_ack_open env then send SentAck else m_ret tt) (evolve s db1 [])) as [[[]|e] s0]; [|done].
  rewrite E1. unfold s1. rewrite with_store_evolve.
  pose proof (db_keeps_clean (cert_height c) db1 K) as K2. pose proof (clean_same_decided (cert_height c) db1) as S2.
  destruct (clean_stale_consensus_data (cert_height c) db1) as [r2 db2]. cbn [snd] in *.
  unfold finalize_decided_block, m_bind, send, modify, m_lift. rewrite with_sent_evolve, st_store_evolve.
  unfold finalize_result. rewrite M. set (evs := ack_events env (tables db1) ++ _).
  destruct (set_latest_forkchoice_state engine _) as [h|e]; cbn [fmap result_fmap].
  - unfold try_store, m_ret. rewrite !with_store_evolve, !st_store_evolve.
    set (db3 := (service_prune_historical_certs _ _ db2).2). set (db4 := (prune_blocks db3).2).
    left. exists db4, (tables db1), (tables db2). split_and!; [|done|by eapply holds_same|done|done].
    apply db_keeps_prune_blocks. by apply db_keeps_service_prune.
  - left. exists db2, (tables db1), (tables db2). split_and!; [done|done|by eapply holds_same|done|done].
Qed.
(** ** The Decided handler *)

Lemma set_latest_report engine h e : set_latest_forkchoice_state engine h = Err e → ∃ msg, e = Report msg.
Proof.
  unfold set_latest_forkchoice_state. destruct (forkchoice_updated engine h) as [[st lv pid]|m]; cbn; [|intros [= <-]; by eexists].
  destruct st, pid, lv; cbn; intros [= <-]; by eexists.
Qed.

(** The monitor is stored or lost; the decided tables, and all else but the monitor, stay. *)
Lemma monitor_step c s : store_ok (tables (st_store s)) → uint 64 (cert_height c) →
  (∀ m, st_proposal_monitor s = Some m → wf_monitor m ∧ pm_height m = cert_height c) →
  ∃ db', store_proposal_monitor_on_decision (cert_height c) (cert_value_id c) s
         = (Ok tt, evolve (with_monitor None s) db' [])
         ∧ store_ok (tables db') ∧ same_decided (tables (st_store s)) (tables db')
         ∧ undecided_blocks (tables db') = undecided_blocks (tables (st_store s))
         ∧ (true ∈ faults db' → true ∈ faults (st_store s)).
Proof.
  intros O U Wm. unfold store_proposal_monitor_on_decision, m_bind, m_get, modify.
  destruct (st_proposal_monitor s) as [m|] eqn:E.
  - destruct (Wm m eq_refl) as [W H]. rewrite decide_False by (intros N; by apply N). unfold try_store.
    rewrite with_store_is. eexists. split; [done|]. split; [|split; [apply monitor_same_decided|split]].
    + apply db_keeps_monitor; [done|cbn; by rewrite H|done].
    + apply monitor_keeps_undecided.
    + apply write_faults.
  - exists (st_store s). split; [|by split_and!]. unfold m_ret, evolve, with_monitor. cbn. rewrite app_nil_r.
    f_equal. destruct s. cbn in E. by subst.
Qed.

(** The undecided block that is stored for a certificate. *)
Definition undecided_for (c : CommitCertificate) (db : Db) : result StoreError (option ConsensusBlock) :=
  find_undecided (cert_height c) (block_hash (cert_value_id c)) (undecided_blocks (tables db)).

(** Why a decision is refused, and with which error: the store fails, or the undecided block of the
    certificate is missing, not bound to its place in the chain, or bound and marked invalid. *)
Inductive refusal (c : CommitCertificate) (prev : option ExecutionBlock) (db : Db) : AppError → Prop :=
| refused_fault : true ∈ faults db → refusal c prev db (AppStore Storage)
| refused_missing msg : undecided_for c db = Ok None → refusal c prev db (Report msg)
| refused_unbound block msg : undecided_for c db = Ok (Some block) →
    check_payload_binding (execution_payload block) (cert_height c) prev ≠ Ok tt → refusal c prev db (HaltAndWait msg)
| refused_invalid block msg : undecided_for c db = Ok (Some block) →
    check_payload_binding (execution_payload block) (cert_height c) prev = Ok tt → validity block = Invalid →
    refusal c prev db (Report msg).

Lemma decide_block_spec env engine c prev s :
  store_ok (tables (st_store s)) → wf_certificate c → uint 64 (cert_height c) →
  let '(r, s') := decide_block env engine c prev s in
  (∃ block db' t1 t2, undecided_for c (st_store s) = Ok (Some block) ∧ validity block = Valid
     ∧ check_payload_binding (execution_payload block) (cert_height c) prev = Ok tt
     ∧ payload_block_hash (execution_payload block) = block_hash (cert_value_id c)
     ∧ store_ok (tables db') ∧ holds c block t1 ∧ holds c block t2
     ∧ s' = evolve s db' (ack_events env t1 ++ [SentForkchoice (block_hash (cert_value_id c)) t2])
     ∧ r = finalize_result engine (execution_payload block))
  ∨ (∃ db' e, tables db' = tables (st_store s) ∧ s' = evolve s db' [] ∧ r = Err e ∧ refusal c prev (st_store s) e).
Proof.
  intros O W U. unfold decide_block, m_bind, on_store at 1.
  set (h := cert_height c). set (x := block_hash (cert_value_id c)).
  pose proof (λ b, get_undecided_found h x (st_store s) b O) as G.
  pose proof (get_undecided_result h x (st_store s)) as R.
  pose proof (find_undecided_sound h x _ (ok_undecided _ _ O)) as FS.
  change (find_undecided h x (undecided_blocks (tables (st_store s)))) with (undecided_for c (st_store s)) in R, FS.
  assert (tables (get_undecided_block_by_height_and_block_hash h x (st_store s)).2 = tables (st_store s)) as T
    by apply read_tables.
  assert (true ∈ faults (get_undecided_block_by_height_and_block_hash h x (st_store s)).2 → true ∈ faults (st_store s))
    as FR by apply read_faults.
  destruct (get_undecided_block_by_height_and_block_hash _ _ _) as [[[block|]|e] db0]; cbn [fst snd map_err] in *;
    rewrite with_store_is.
  2: { right. eexists db0, _. split_and!; [done..|]. destruct R as [R|[? _]]; [|done]. by apply refused_missing. }
  2: { right. eexists db0, _. split_and!; [done..|]. destruct R as [R|[[= ->] F]]; [by rewrite <- R in FS|]. by apply refused_fault. }
  destruct R as [R|[? _]]; [|done]. symmetry in R. destruct (G block eq_refl) as (_ & M & Wb).
  destruct (check_payload_binding _ _ _) as [[]|e] eqn:B.
  2: { right. eexists db0, _. split_and!; [done..|]. eapply refused_unbound; [exact R|]. unfold h in B. by rewrite B. }
  destruct (validity block) eqn:V.
  2: { right. eexists db0, _. split_and!; [done..|]. by eapply refused_invalid. }
  pose proof (commit_spec env engine c block (evolve s db0 [])) as X. rewrite st_store_evolve, T in X.
  specialize (X O W U Wb M). destruct (commit _ _ _ _ _) as [r s'].
  assert (∀ db evs, evolve (evolve s db0 []) db evs = evolve s db evs) as EE
    by (intros; unfold evolve; cbn; by rewrite app_nil_r).
  destruct X as [(db' & t1 & t2 & O' & H1 & H2 & -> & ->)|(db' & T' & -> & -> & F)]; rewrite EE.
  - left. exists block, db', t1, t2. by split_and!.
  - right. eexists db', _. split_and!; [done..|]. by apply refused_fault, FR.
Qed.
(** What the handler leaves when the decision was refused: nothing decided in the store, and no one
    was told.  An unbound block halts the node; every other refusal is recorded as the reason to
    restart the height. *)
Definition not_decided (c : CommitCertificate) (s s' : State) (r : result AppError unit) : Prop :=
  ∃ e, refusal c (st_previous_block s) (st_store s) e
  ∧ st_sent s' = st_sent s ∧ same_decided (tables (st_store s)) (tables (st_store s'))
  ∧ match e with
    | HaltAndWait _ => r = Err e ∧ st_decision s' = st_decision s
    | _ => r = Ok tt ∧ st_decision s' = Some (DecisionFailure e)
    end.

(** ... and when it was: the block is the undecided one of the certificate, bound and marked valid,
    and everyone who was told, was told after the decision was stored. *)
Definition decided_then_told (env : Env) (engine : Engine) (c : CommitCertificate) (s s' : State)
    (r : result AppError unit) : Prop :=
  ∃ block t1 t2, undecided_for c (st_store s) = Ok (Some block) ∧ validity block = Valid
  ∧ check_payload_binding (execution_payload block) (cert_height c) (st_previous_block s) = Ok tt
  ∧ holds c block t1 ∧ holds c block t2
  ∧ st_sent s' = st_sent s ++ ack_events env t1 ++ [SentForkchoice (block_hash (cert_value_id c)) t2]
  ∧ match finalize_result engine (execution_payload block) with
    | Err e => r = Ok tt ∧ st_decision s' = Some (DecisionFailure e)
    | Ok b =>
        eb_block_hash b = block_hash (cert_value_id c) ∧ eb_block_number b = cert_height c
        ∧ match prepare_next_height engine (cert_height c) b
                  (sync_state (env_now env) (eb_timestamp b) (env_catch_up_threshold env)) with
          | Ok info => r = Ok tt ∧ st_decision s' = Some (DecisionSuccess info)
              ∧ nh_next_height info = cert_height c + 1 ∧ nh_decided_block info = b
          | Err e => r = Err e ∧ st_decision s' = st_decision s
          end
    end.

Lemma prepare_next_ok engine h b y info : prepare_next_height engine h b y = Ok info →
  nh_next_height info = h + 1 ∧ nh_decided_block info = b.
Proof.
  unfold prepare_next_height. intros H. binds. destruct (height_increment h) as [n|] eqn:E; [|done].
  apply checked_add_inv in E as [-> _]. naive_solver.
Qed.

Lemma binding_number p h prev : check_payload_binding p h prev = Ok tt → payload_block_number p = h.
Proof.
  unfold check_payload_binding. destruct (decide (payload_block_number p ≠ h)) as [|D]; [done|]. intros _.
  by apply dec_stable.
Qed.

Lemma decided_handled env engine c s :
  store_ok (tables (st_store s)) → wf_certificate c → uint 64 (cert_height c) →
  (∀ m, st_proposal_monitor s = Some m → wf_monitor m ∧ pm_height m = cert_height c) →
  let '(r, s') := handle_decided env engine c s in
  store_ok (tables (st_store s')) ∧ (not_decided c s s' r ∨ decided_then_told env engine c s s' r).
Proof.
  intros O W U Wm. destruct (monitor_step c s O U Wm) as (db0 & E0 & O0 & S0 & U0 & F0).
  unfold handle_decided, m_bind at 1. rewrite E0. unfold m_bind at 1, m_get.
  pose proof (decide_block_spec env engine c (st_previous_block s) (evolve (with_monitor None s) db0 []) O0 W U) as X.
  change (st_previous_block (evolve (with_monitor None s) db0 [])) with (st_previous_block s).
  destruct (decide_block _ _ _ _ _) as [r1 s1].
  assert (undecided_for c (st_store (evolve (with_monitor None s) db0 [])) = undecided_for c (st_store s)) as Un
    by (unfold undecided_for; by rewrite st_store_evolve, U0).
  destruct X as [(block & db' & t1 & t2 & Fu & V & B & M & O' & H1 & H2 & -> & ->)|(db' & e & T & -> & -> & Rf)].
  - rewrite Un in Fu. assert (∀ evs, st_sent (evolve (evolve (with_monitor None s) db0 []) db' evs) = st_sent s ++ evs) as SE
      by (intros; cbn; by rewrite app_nil_r).
    destruct (finalize_result engine (execution_payload block)) as [b|e] eqn:F.
    + unfold m_bind, modify, m_lift.
      assert (b = payload_execution_block (execution_payload block)) as Eb.
      { unfold finalize_result in F. destruct (set_latest_forkchoice_state _ _); [by injection F as <-|done]. }
      assert (eb_block_hash b = block_hash (cert_value_id c) ∧ eb_block_number b = cert_height c) as [Bh Bn].
      { subst b. split; [exact M|by eapply binding_number]. }
      destruct (prepare_next_height _ _ _ _) as [info|e] eqn:P; cbn -[evolve]; (split; [exact O'|right]);
        exists block, t1, t2; rewrite F; (split_and!; [done..|apply SE|done|done|]); rewrite P; [|done].
      destruct (prepare_next_ok _ _ _ _ _ P) as [? ?]. by split_and!.
    + unfold finalize_result in F. destruct (set_latest_forkchoice_state _ _) as [|e'] eqn:L; [done|].
      injection F as <-. destruct (set_latest_report _ _ _ L) as [msg ->]. cbn -[evolve]. split; [exact O'|right].
      exists block, t1, t2. unfold finalize_result. rewrite L.
      split_and!; [done..|apply SE|]. by split.
  - assert (same_decided (tables (st_store s)) (tables db')) as S' by (by rewrite T).
    assert (store_ok (tables db')) as O' by (by rewrite T).
    assert (refusal c (st_previous_block s) (st_store s) e) as Rf'.
    { destruct Rf; rewrite ?Un in *; [apply refused_fault; by apply F0|by apply refused_missing|by eapply refused_unbound|by eapply refused_invalid]. }
    destruct e as [msg|msg|e|msg]; [| | |by inversion Rf']; (split; [exact O'|left]); eexists;
      (split; [exact Rf'|]); (split; [cbn; by rewrite !app_nil_r|]); (split; [exact S'|done]).
Qed.

(** C4: When consensus decides a height, nobody learns of it before it is durable.  The sync actor
    is acknowledged, and the execution layer told to move its head, only when the database
    holds the certificate and the decided payload together; the payload is that of the undecided
    block stored for the certificate, which is marked valid and extends the previous block; the head
    is that block, and the acknowledgement comes first.  A decision is refused only if that block is
    missing, unbound or marked invalid, or the store fails; then nothing is sent and no
    certificate is written.  An unbound block halts the node; every other refusal, and an execution
    layer that does not accept the head, is recorded as the reason to restart the height.  Success
    is recorded only after the execution layer accepted the block, with the next height and this
    block as its parent.  The database stays sound throughout. *)
Theorem decided_durable_before_told env engine c s :
  store_ok (tables (st_store s)) → wf_certificate c → uint 64 (cert_height c) →
  (∀ m, st_proposal_monitor s = Some m → wf_monitor m ∧ pm_height m = cert_height c) →
  let '(r, s') := handle_decided env engine c s in
  store_ok (tables (st_store s')) ∧ (not_decided c s s' r ∨ decided_then_told env engine c s s' r).
Proof. exact (decided_handled env engine c s). Qed.
(** ** Evidence *)

Definition wf_misbehavior (e : MisbehaviorEvidence) : Prop :=
  Forall (λ x, wf_address x.1 ∧ Forall (λ p, wf_signed_vote p.1 ∧ wf_signed_vote p.2) x.2) (me_votes e)
  ∧ Forall (λ x, wf_address x.1 ∧ Forall (λ p, wf_signed_proposal p.1 ∧ wf_signed_proposal p.2) x.2) (me_proposals e).

Definition wf_evidence_map (m : list (Z * ValidatorEvidence)) : Prop :=
  ∀ a v, (a, v) ∈ m → wf_validator_evidence v.

Lemma evidence_entry_wf m a : wf_evidence_map m → wf_address a → wf_validator_evidence (evidence_entry m a).
Proof.
  intros W Wa. unfold evidence_entry. destruct (bt_get a m) as [v|] eqn:G; cbn.
  - apply bt_get_Some in G. by eapply W.
  - split_and!; [done|constructor|constructor].
Qed.
Lemma wf_evidence_insert m a v : wf_evidence_map m → wf_validator_evidence v → wf_evidence_map (bt_insert Z.ltb a v m).
Proof.
  intros W Wv a' v' Hin. revert Hin. induction m as [|[k w] m IH]; cbn.
  - by intros [= -> ->]%list_elem_of_singleton.
  - assert (wf_evidence_map m) as Wm by (intros ? ? ?; eapply W; by right).
    pose proof (W k w (list_elem_of_here _ _)) as Wk.
    case_decide; [|destruct (a <? k)]; rewrite !elem_of_cons; intros Hin; naive_solver.
Qed.

Lemma Forall_fmap_wf {A B} (P : B → Prop) (Q : A → Prop) (f : A → B) l :
  (∀ x, Q x → P (f x)) → Forall Q l → Forall P (f <$> l).
Proof. intros H F. apply Forall_fmap. eapply Forall_impl; [done|]. exact H. Qed.

Lemma from_misbehavior_wf h e : wf_misbehavior e → wf_evidence (from_misbehavior_evidence h e).
Proof.
  intros [Wv Wp]. unfold wf_evidence, from_misbehavior_evidence. cbn [ev_validators].
  assert (∀ l m, Forall (λ x, wf_address x.1 ∧ Forall (λ p, wf_signed_vote p.1 ∧ wf_signed_vote p.2) x.2) l →
    wf_evidence_map m → wf_evidence_map (foldl add_votes m l)) as V.
  { induction l as [|[a l0] l IH]; intros m F W; [done|]. apply Forall_cons in F as [[Wa Wl] F]. cbn.
    apply IH; [done|]. apply wf_evidence_insert; [done|].
    destruct (evidence_entry_wf m a W Wa) as (E1 & _ & E3). split_and!; [done| |done].
    eapply Forall_fmap_wf; [|exact Wl]. by intros []. }
  assert (∀ l m, Forall (λ x, wf_address x.1 ∧ Forall (λ p, wf_signed_proposal p.1 ∧ wf_signed_proposal p.2) x.2) l →
    wf_evidence_map m → wf_evidence_map (foldl add_proposals m l)) as Q.
  { induction l as [|[a l0] l IH]; intros m F W; [done|]. apply Forall_cons in F as [[Wa Wl] F]. cbn.
    apply IH; [done|]. apply wf_evidence_insert; [done|].
    destruct (evidence_entry_wf m a W Wa) as (E1 & E2 & _). split_and!; [done|done|].
    eapply Forall_fmap_wf; [|exact Wl]. by intros []. }
  apply Forall_forall. intros v ([a v'] & -> & Hin)%list_elem_of_fmap.
  assert (wf_evidence_map []) as W0 by (intros ? ? ?%elem_of_nil; done).
  exact (Q _ _ Wp (V _ _ Wv W0) a v' Hin).
Qed.

(** ** The Finalized handler *)

(** Every stored certificate is still there, with at least its signatures. *)
Definition certificates_grow (t t' : Tables) : Prop :=
  ∀ h old, stored_certificate t h = Some old →
  ∃ new, stored_certificate t' h = Some new ∧ extends (certificate old) (certificate new).

Lemma extends_refl c : extends c c.
Proof. split_and!; [done..|]. by apply Forall_forall. Qed.
Lemma certificates_grow_same t t' : certificates t' = certificates t → certificates_grow t t'.
Proof. intros E h old S. exists old. unfold stored_certificate. rewrite E. split; [exact S|apply extends_refl]. Qed.

(** A step of the store that keeps it sound, loses no certificate and adds no fault. *)
Definition benign (db db' : Db) : Prop :=
  store_ok (tables db) → store_ok (tables db') ∧ certificates_grow (tables db) (tables db')
  ∧ decided_blocks (tables db') = decided_blocks (tables db) ∧ (true ∈ faults db' → true ∈ faults db).

Lemma benign_refl db : benign db db.
Proof. intros O. split_and!; [done|by apply certificates_grow_same|done..]. Qed.
Lemma extends_trans a b c : extends a b → extends b c → extends a c.
Proof.
  intros (H1 & R1 & V1 & S1) (H2 & R2 & V2 & S2). split_and!; [congruence..|].
  rewrite Forall_forall in *. auto.
Qed.
Lemma benign_trans a b c : benign a b → benign b c → benign a c.
Proof.
  intros H1 H2 O. destruct (H1 O) as (O1 & G1 & D1 & F1). destruct (H2 O1) as (O2 & G2 & D2 & F2).
  split_and!; [done| |congruence|auto]. intros h old S. destruct (G1 h old S) as (m & Sm & E1).
  destruct (G2 h m Sm) as (n & Sn & E2). exists n. split; [done|by eapply extends_trans].
Qed.

Lemma benign_extend c db : wf_certificate c → uint 64 (cert_height c) → benign db (extend_certificate c db).2.
Proof.
  intros W U O. split; [by apply db_keeps_extend|]. pose proof (extend_certificate_spec c db W O) as X. cbv zeta in X.
  assert (true ∈ faults (extend_certificate c db).2 → true ∈ faults db) as F by apply write_faults.
  destruct (extend_certificate c db) as [[u|e] db']; cbn [snd] in *.
  - destruct X as (old & So & E & Sn & Sd & H & _). split_and!; [|by apply (H DECIDED_BLOCKS_TABLE)|done].
    intros h x Sx. destruct (decide (h = cert_height c)) as [->|N].
    + rewrite So in Sx. injection Sx as <-. by eexists.
    + exists x. rewrite (Sd h N). split; [done|apply extends_refl].
  - destruct X as [-> _]. split_and!; [by apply certificates_grow_same|done|done].
Qed.

Lemma benign_evidence e db : wf_evidence e → uint 64 (ev_height e) → benign db (insert_misbehavior_evidence e db).2.
Proof.
  intros W U O. split; [by apply db_keeps_evidence|].
  assert (true ∈ faults (insert_misbehavior_evidence e db).2 → true ∈ faults db) as F by apply write_faults.
  assert (same_decided (tables db) (tables (insert_misbehavior_evidence e db).2)) as [E1 E2].
  { unfold insert_misbehavior_evidence, with_write. destruct (next_fault db); [done|].
    destruct (encode_misbehavior_evidence e); [|done]. cbn. by destruct (tables db). }
  split_and!; [by apply certificates_grow_same|done|done].
Qed.

Lemma benign_clean h db : benign db (clean_stale_consensus_data h db).2.
Proof.
  intros O. split; [by apply db_keeps_clean|]. destruct (clean_same_decided h db) as [E1 E2].
  split_and!; [by apply certificates_grow_same|done|apply write_faults].
Qed.

(** The block decided at a height, as the database has it. *)
Definition decided_at (t : Tables) (h : Z) : option ExecutionBlock :=
  match stored_payload t h, stored_certificate t h with
  | Some p, Some _ => Some (payload_execution_block p)
  | _, _ => None
  end.
Lemma decided_at_same h t t' : same_decided t t' → decided_at t' h = decided_at t h.
Proof. intros [E1 E2]. unfold decided_at, stored_payload, stored_certificate. by rewrite E1, E2. Qed.
Lemma get_decided_result h db : store_ok (tables db) →
  match (get_decided_block h db).1 with
  | Ok d => (λ d, payload_execution_block (db_execution_payload d)) <$> d = decided_at (tables db) h
  | Err e => e = Storage ∧ true ∈ faults db
  end.
Proof.
  intros O. unfold get_decided_block, with_read. destruct (next_fault db) eqn:NF; cbn [fst].
  { split; [done|by apply next_fault_in]. }
  pose proof (get_decided_block_sound (tables db) h O) as G. revert G.
  unfold decided_at, stored_payload, stored_certificate, read_payload.
  destruct (bt_get h (decided_blocks (tables db))) as [pb|]; cbn; [|done].
  destruct (decode_execution_payload pb) as [p|]; cbn; [|done].
  destruct (bt_get h (certificates (tables db))) as [cb|]; cbn; [|done].
  destruct (decode_certificate cb) as [c|]; cbn; [|done].
  unfold DecidedBlock_new. by case_decide.
Qed.

(** Nothing undecided or pending is left at the height or below. *)
Definition cleaned (h : Z) (t : Tables) : Prop :=
  Forall (λ kv, h < key_height kv.1) (undecided_blocks t) ∧ Forall (λ kv, h < key_height kv.1) (pending_proposal_parts t).
Lemma clean_result h db :
  let '(r, db') := clean_stale_consensus_data h db in
  (r = Ok tt ∧ cleaned h (tables db')) ∨ (r = Err Storage ∧ true ∈ faults db).
Proof.
  unfold clean_stale_consensus_data, with_write. destruct (next_fault db) eqn:NF.
  { right. split; [done|by apply next_fault_in]. }
  left. split; [done|]. split; apply Forall_forall; by intros kv [? _]%list_elem_of_filter.
Qed.

(** At the start of height [h] again, with the validators and parameters it had. *)
Definition restarted (h : Z) (s s' : State) : Prop :=
  st_current_height s' = h ∧ st_current_round s' = None ∧ st_current_proposer s' = None
  ∧ st_validator_set s' = st_validator_set s ∧ st_consensus_params s' = st_consensus_params s.
Definition restart_reply (h : Z) (s : State) : Next :=
  NextRestart h (mkHeightParams (st_validator_set s) (timeouts (st_consensus_params s)) None).

Lemma restart_spec h s : store_ok (tables (st_store s)) →
  let '(r, s') := restart_height h s in
  restarted h s s' ∧ st_sent s' = st_sent s ∧ st_decision s' = st_decision s ∧ benign (st_store s) (st_store s')
  ∧ ((r = Err (AppStore Storage) ∧ true ∈ faults (st_store s))
     ∨ (r = Ok (restart_reply h s) ∧ cleaned h (tables (st_store s'))
        ∧ st_previous_block s' = decided_at (tables (st_store s')) (height_saturating_sub h 1))).
Proof.
  intros O. unfold restart_height, state_restart_height, m_bind, m_get, modify, on_store, m_ret.
  cbn -[restarted benign cleaned get_decided_block clean_stale_consensus_data height_saturating_sub set_num_validators].
  set (p := height_saturating_sub h 1).
  pose proof (get_decided_result p (st_store s) O) as G.
  assert (tables (get_decided_block p (st_store s)).2 = tables (st_store s)) as T by apply read_tables.
  assert (benign (st_store s) (get_decided_block p (st_store s)).2) as B1.
  { intros _. rewrite T. split_and!; [done|by apply certificates_grow_same|done|apply read_faults]. }
  destruct (get_decided_block p (st_store s)) as [[d|e] db1]; cbn [fst snd map_err] in *.
  2: { destruct G as [-> F]. split; [by split_and!|]. split; [done|]. split; [done|]. split; [exact B1|]. by left. }
  cbn -[restarted benign cleaned clean_stale_consensus_data set_num_validators].
  pose proof (clean_result h db1) as C. pose proof (benign_clean h db1) as B2. pose proof (clean_same_decided h db1) as S2.
  destruct (clean_stale_consensus_data h db1) as [r2 db2]. cbn [snd] in B2, S2.
  assert (benign (st_store s) db2) as B by (by eapply benign_trans).
  destruct C as [[-> C]|[-> F]]; cbn [map_err];
    (split; [by split_and!|]); (split; [done|]); (split; [done|]); (split; [exact B|]).
  - right. split; [done|]. split; [exact C|]. cbn [st_previous_block st_store with_store with_previous_block].
    rewrite G, <- T. symmetry. by apply decided_at_same.
  - left. split; [done|]. by apply B1.
Qed.

(** At the start of the next height, on top of the decided block. *)
Definition moved (i : NextHeightInfo) (s' : State) : Prop :=
  st_current_height s' = nh_next_height i ∧ st_current_round s' = None
  ∧ st_previous_block s' = Some (nh_decided_block i)
  ∧ st_validator_set s' = nh_validator_set i ∧ st_consensus_params s' = nh_consensus_params i
  ∧ Forall (λ kv : Z * EarlyArrival, nh_next_height i ≤ kv.1) (st_early_arrivals s').

(** The one reply to consensus, if it still listens. *)
Definition replied (env : Env) (next : Next) (s s' : State) (r : result AppError unit) : Prop :=
  if env_reply_open env then r = Ok tt ∧ st_sent s' = st_sent s ++ [SentNext next (tables (st_store s'))]
  else (∃ msg, r = Err (Report msg)) ∧ st_sent s' = st_sent s.

Lemma reply_step env next s :
  let '(r, s') := (if env_reply_open env then send (SentNext next)
                   else m_err (Report "Finalized: Failed to send Next reply")) s in
  replied env next s s' r ∧ st_store s' = st_store s ∧ (∃ l, s' = evolve s (st_store s) l).
Proof.
  unfold replied. destruct (env_reply_open env); cbn -[evolve].
  - split; [done|]. split; [done|]. by eexists [_].
  - split; [split; [by eexists|done]|]. split; [done|]. exists []. unfold evolve. rewrite app_nil_r. by destruct s.
Qed.

(** What the handler does before it looks at the decision. *)
Lemma record_step c ev s : wf_certificate c → uint 64 (cert_height c) → wf_misbehavior ev →
  ∃ db', ((if evidence_is_empty ev then m_ret tt
           else try_store (insert_misbehavior_evidence (from_misbehavior_evidence (cert_height c) ev))) ;;;
          try_store (extend_certificate c)) s = (Ok tt, with_store db' s)
         ∧ benign (st_store s) db'.
Proof.
  intros W U We. unfold m_bind, m_ret, try_store. destruct (evidence_is_empty ev).
  - eexists. split; [done|]. by apply benign_extend.
  - eexists. split; [done|]. eapply benign_trans; [|by apply benign_extend].
    by apply benign_evidence; [apply from_misbehavior_wf|].
Qed.

Lemma start_spec env i s :
  let '(r, s') := start_next_height env i s in
  moved i s' ∧ st_sent s' = st_sent s ∧ st_decision s' = st_decision s ∧ st_store s' = st_store s
  ∧ (if decide (env_halt_height env = Some (nh_next_height i)) then ∃ msg, r = Err (HaltAndWait msg)
     else r = Ok (NextStart (nh_next_height i) (height_params i))).
Proof.
  unfold start_next_height, check_halt_height, m_bind, modify, m_lift.
  assert (moved i (move_to_next_height i s)) as Mv.
  { split_and!; [done..|]. apply Forall_forall. by intros kv [? _]%list_elem_of_filter. }
  destruct (decide (env_halt_height env = Some (nh_next_height i))) as [E|N].
  - rewrite E. rewrite decide_True by done. split; [done|]. split_and!; [done..|by eexists].
  - destruct (env_halt_height env) as [h|]; [|split; [done|by split_and!]].
    rewrite decide_False by congruence. split; [done|]. by split_and!.
Qed.

Lemma finalized_handled env c ev s :
  store_ok (tables (st_store s)) → wf_certificate c → uint 64 (cert_height c) → wf_misbehavior ev →
  let '(r, s') := handle_finalized env c ev s in
  benign (st_store s) (st_store s') ∧ st_decision s' = None
  ∧ match st_decision s with
    | None => (∃ msg, r = Err (Report msg)) ∧ s' = s
    | Some (DecisionSuccess i) => moved i s'
        ∧ if decide (env_halt_height env = Some (nh_next_height i))
          then (∃ msg, r = Err (HaltAndWait msg)) ∧ st_sent s' = st_sent s
          else replied env (NextStart (nh_next_height i) (height_params i)) s s' r
    | Some (DecisionFailure _) => restarted (cert_height c) s s'
        ∧ ((r = Err (AppStore Storage) ∧ true ∈ faults (st_store s) ∧ st_sent s' = st_sent s)
           ∨ (replied env (restart_reply (cert_height c) s) s s' r ∧ cleaned (cert_height c) (tables (st_store s'))
              ∧ st_previous_block s' = decided_at (tables (st_store s')) (height_saturating_sub (cert_height c) 1)))
    end.
Proof.
  intros O W U We. unfold handle_finalized, m_bind at 1, m_get.
  destruct (st_decision s) as [d|] eqn:D; [|split; [apply benign_refl|by split; [|split; [by eexists|]]]].
  unfold m_bind at 1, modify. destruct (record_step c ev (with_decision None s) W U We) as (db1 & E1 & B1).
  rewrite m_bind_assoc. unfold m_bind at 1. rewrite E1.
  assert (store_ok (tables db1)) as O1 by (by apply B1).
  set (s1 := with_store db1 (with_decision None s)) in *.
  destruct d as [i|e].
  - pose proof (start_spec env i s1) as X. unfold m_bind at 1.
    destruct (start_next_height env i s1) as [r2 s2]. destruct X as (Mv & Se & De & St & R).
    destruct (decide (env_halt_height env = Some (nh_next_height i))) as [H|H].
    + destruct R as [msg ->]. rewrite St. split; [done|]. split; [by rewrite De|]. split; [done|]. split; [by eexists|done].
    + rewrite R. pose proof (reply_step env (NextStart (nh_next_height i) (height_params i)) s2) as Y.
      destruct (_ s2) as [r3 s3]. destruct Y as (Rp & St3 & l & ->).
      split; [by rewrite St3, St|]. split; [cbn; by rewrite De|]. split; [done|].
      unfold replied in *. rewrite Se in Rp. exact Rp.
  - pose proof (restart_spec (cert_height c) s1 O1) as X. unfold m_bind at 1.
    destruct (restart_height (cert_height c) s1) as [r2 s2]. destruct X as (Rs & Se & De & B2 & R).
    assert (benign (st_store s) (st_store s2)) as B by (by eapply benign_trans).
    destruct R as [[-> F]|(-> & C & P)].
    + split; [done|]. split; [by rewrite De|]. split; [done|]. left. split; [done|]. split; [by apply B1|done].
    + pose proof (reply_step env (restart_reply (cert_height c) s1) s2) as Y.
      destruct (_ s2) as [r3 s3]. destruct Y as (Rp & St3 & l & ->).
      split; [by rewrite St3|]. split; [cbn; by rewrite De|]. split; [done|]. right. split; [|by rewrite St3].
      unfold replied in *. rewrite Se in Rp. exact Rp.
Qed.

(** C33: The [Finalized] message always consumes the decision of its height and is answered at
    most once.  After a successful decision the node is at the next height with the decided
    block as its parent, the next validators and parameters and no leftovers of earlier
    heights, and replies with the start of that height, unless it is the configured halt
    height or consensus has closed the reply channel.  After a failed decision it is back at the start of the height, its parent is
    the block the database holds for the height below, the undecided and pending data up to
    the height are gone, and it replies with a restart; only a failing store or a closed
    reply channel prevents that.  Without a decision nothing changes.  In all cases the database stays sound, every
    stored certificate keeps its signatures, and decided blocks stay. *)
Theorem finalized_replies_once env c ev s :
  store_ok (tables (st_store s)) → wf_certificate c → uint 64 (cert_height c) → wf_misbehavior ev →
  let '(r, s') := handle_finalized env c ev s in
  benign (st_store s) (st_store s') ∧ st_decision s' = None
  ∧ match st_decision s with
    | None => (∃ msg, r = Err (Report msg)) ∧ s' = s
    | Some (DecisionSuccess i) => moved i s'
        ∧ if decide (env_halt_height env = Some (nh_next_height i))
          then (∃ msg, r = Err (HaltAndWait msg)) ∧ st_sent s' = st_sent s
          else replied env (NextStart (nh_next_height i) (height_params i)) s s' r
    | Some (DecisionFailure _) => restarted (cert_height c) s s'
        ∧ ((r = Err (AppStore Storage) ∧ true ∈ faults (st_store s) ∧ st_sent s' = st_sent s)
           ∨ (replied env (restart_reply (cert_height c) s) s s' r ∧ cleaned (cert_height c) (tables (st_store s'))
              ∧ st_previous_block s' = decided_at (tables (st_store s')) (height_saturating_sub (cert_height c) 1)))
    end.
Proof. exact (finalized_handled env c ev s). Qed.
End DecideProps.
