(* ===== verification/Ingest.v ===== *)
(** * Proposals from the network

    How a block proposed by a peer gets a verdict and a vote: malachite-app/src/payload.rs
    (binding rules, the engine's verdict, forensic records), handlers/skew_gate.rs,
    handlers/received_proposal_part.rs, handlers/process_synced_value.rs and
    handlers/started_round.rs, with the proposal monitor of types/src/proposal_monitor.rs and
    state.rs, and eth-engine/src/rpc/errors.rs.

    A handler's reply is its result.  [AppPanicked] is a panic, every other error is an
    [eyre::Report].  The n-th payload sent to the execution layer is answered by
    [new_payload n]; the answer to the same payload may change.  Metrics, logs and the wait
    for the execution layer's persistence, which have no effect on the state, are left out. *)

From stdpp Require Import pretty.
From S2P Require Import Prelude BTree Validators Proposal ConsensusSpec Codec StoreCodec Store Streaming Decide.

(** ** Errors of the Engine API *)

Definition INTERNAL_ERROR_CODE : Z := -32603.
Definition UNKNOWN_PAYLOAD_CODE : Z := -38001.
Definition UNSUPPORTED_FORK_CODE : Z := -38005.

Record EngineApiRpcError := mkEngineApiRpcError { err_code : Z; err_message : string; err_data : option string }.
Inductive EngineRpcErrorKind := KindInternal | KindUnknownPayload | KindUnsupportedFork | KindOther.
#[export] Instance error_kind_eq : EqDecision EngineRpcErrorKind.
Proof. solve_decision. Defined.

Definition kind (e : EngineApiRpcError) : EngineRpcErrorKind :=
  if decide (err_code e = INTERNAL_ERROR_CODE) then KindInternal
  else if decide (err_code e = UNKNOWN_PAYLOAD_CODE) then KindUnknownPayload
  else if decide (err_code e = UNSUPPORTED_FORK_CODE) then KindUnsupportedFork
  else KindOther.
Definition is_internal_error (e : EngineApiRpcError) : bool := bool_decide (kind e = KindInternal).
Definition rpc_error_to_string (e : EngineApiRpcError) : string :=
  match err_data e with
  | Some d => "Code " +:+ pretty (err_code e) +:+ ": " +:+ err_message e +:+ ": " +:+ d
  | None => "Code " +:+ pretty (err_code e) +:+ ": " +:+ err_message e
  end.

(** A report that carries an Engine API error, or any other. *)
Inductive CallError := ApiCallError (e : EngineApiRpcError) | OtherCallError (msg : string).

(** ** Validity *)

Definition is_valid (v : Validity) : bool := match v with Valid => true | Invalid => false end.
#[export] Instance validity_eq : EqDecision Validity.
Proof. solve_decision. Defined.

Inductive PayloadValidationResult := PayloadValid | PayloadInvalid (reason : string).

(** [validate_payload], from the execution layer's answer. *)
Definition validate_payload (answer : result CallError PayloadStatusEnum) : result AppError PayloadValidationResult :=
  match answer with
  | Ok StatusValid => Ok PayloadValid
  | Ok (StatusInvalid validation_error) => Ok (PayloadInvalid validation_error)
  | Ok StatusSyncing | Ok StatusAccepted => Err (Report "unexpected status from engine")
  | Err (ApiCallError e) =>
      if is_internal_error e then Err (Report "call to EngineAPI::new_payload failed when validating block")
      else Ok (PayloadInvalid (rpc_error_to_string e))
  | Err (OtherCallError _) => Err (Report "call to EngineAPI::new_payload failed when validating block")
  end.

Inductive BlockVerdict := Unbound (e : PayloadBindingError) | EngineVerdict (v : Validity).
Definition verdict_validity (v : BlockVerdict) : Validity :=
  match v with Unbound _ => Invalid | EngineVerdict validity => validity end.

(** ** The clock-skew gate *)

Definition ARC_PROPOSER_CLOCK_SKEW_THRESHOLD_SECS : Z := 30.
Definition header_timestamp_exceeds_skew (header_timestamp local_time : Z) : bool :=
  bool_decide (saturating_add 64 local_time ARC_PROPOSER_CLOCK_SKEW_THRESHOLD_SECS < header_timestamp).
Definition apply_skew (execution_validity : Validity) (header_timestamp local_time : Z) : Validity :=
  if is_valid execution_validity && header_timestamp_exceeds_skew header_timestamp local_time then Invalid
  else execution_validity.

(** ** The proposal monitor *)

Definition set_receive_time (m : ProposalMonitor) (t : Z) : ProposalMonitor :=
  mkProposalMonitor (pm_height m) (pm_proposer m) (pm_start_time m) (Some t) (pm_value_id m) (pm_successful m) (pm_synced m).
Definition mark_synced (m : ProposalMonitor) : ProposalMonitor :=
  mkProposalMonitor (pm_height m) (pm_proposer m) (pm_start_time m) (pm_receive_time m) (pm_value_id m) (pm_successful m) true.
Definition record_proposal (m : ProposalMonitor) (value_id : ValueId) (now : Z) : ProposalMonitor :=
  match pm_value_id m, pm_synced m with
  | Some _, false => m
  | _, _ => mkProposalMonitor (pm_height m) (pm_proposer m) (pm_start_time m) (Some now) (Some value_id)
              (pm_successful m) false
  end.
Definition attach_assembled_value_id (m : ProposalMonitor) (value_id : ValueId) : ProposalMonitor :=
  if pm_synced m then m
  else match pm_value_id m with
       | None => mkProposalMonitor (pm_height m) (pm_proposer m) (pm_start_time m) (pm_receive_time m) (Some value_id)
                   (pm_successful m) (pm_synced m)
       | Some _ => m
       end.

Definition apply_early_arrival (m : ProposalMonitor) (early : EarlyArrival) : ProposalMonitor :=
  match early with
  | EarlySynced t => mark_synced (set_receive_time m t)
  | PendingPartsTime t => set_receive_time m t
  end.
Definition build_monitor (height proposer start_time : Z) (early : option EarlyArrival) : ProposalMonitor :=
  let monitor := ProposalMonitor_new height proposer start_time in
  match early with Some early => apply_early_arrival monitor early | None => monitor end.

(** [supersedes] is the closure of the source. *)
Definition stash_early_arrival (early_arrivals : list (Z * EarlyArrival)) (height : Z) (arrival : EarlyArrival)
    : list (Z * EarlyArrival) :=
  let supersedes existing := match arrival, existing with PendingPartsTime _, EarlySynced _ => true | _, _ => false end in
  if match bt_get height early_arrivals with None => true | Some existing => supersedes existing end
  then bt_insert Z.ltb height arrival early_arrivals else early_arrivals.

Definition record_synced (monitor : option ProposalMonitor) (early_arrivals : list (Z * EarlyArrival)) (height now : Z)
    : option ProposalMonitor * list (Z * EarlyArrival) :=
  let stashed := (monitor, stash_early_arrival early_arrivals height (EarlySynced now)) in
  match monitor with
  | Some m =>
      if decide (pm_height m = height)
      then match pm_receive_time m with
           | Some _ => (monitor, early_arrivals)
           | None => (Some (mark_synced (set_receive_time m now)), early_arrivals)
           end
      else stashed
  | None => stashed
  end.

Definition attach_value_id_to_monitor (height : Z) (value_id : ValueId) (monitor : option ProposalMonitor)
    : option ProposalMonitor :=
  match monitor with
  | None => None
  | Some m => if decide (pm_height m ≠ height) then Some m else Some (attach_assembled_value_id m value_id)
  end.

(** ** Handlers *)

(** The block hash recomputed from the contents of a payload; [None] is its [PayloadError]. *)
Class CanonicalHash `{PC : ProposalCrypto} := { canonical_block_hash : Payload → option bytes }.
(** Texts of third-party values: hashes and SSZ decoding errors. *)
Class Texts := { show_hash : bytes → string; ssz_error : bytes → string }.

Section Ingest.
Context `{PC : ProposalCrypto} {SB : SignatureBytes} {SZ : SszBlockCodec} {PH : PayloadHash} {PF : PayloadFields}.
Context {SM : StoreMessages} `{!EqDecision Signature} `{LO : LruOps} {CH : CanonicalHash} {TX : Texts} {RL : RlpEncode}.
Context {RF : RoundFrom}.

Definition self_reported_hash_is_canonical (b : ConsensusBlock) : bool :=
  match canonical_block_hash (execution_payload b) with
  | Some canonical => bool_decide (canonical = self_reported_block_hash b)
  | None => false
  end.
Definition may_be_stored_as_undecided (b : ConsensusBlock) : bool :=
  is_valid (validity b) || self_reported_hash_is_canonical b.

Definition to_proposed_value_with_validity (b : ConsensusBlock) (v : Validity) : ProposedValue :=
  mkProposedValue (block_height b) (block_round b) (valid_round b) (block_proposer b)
    (mkValue (self_reported_block_hash b)) v.
(** [ProposedValue::from(&block)] *)
Definition proposed_value_from (b : ConsensusBlock) : ProposedValue := to_proposed_value_with_validity b (validity b).

Definition set_validity (b : ConsensusBlock) (v : Validity) : ConsensusBlock :=
  mkConsensusBlock (block_height b) (block_round b) (valid_round b) (block_proposer b) v (execution_payload b)
    (block_signature b).

Definition validity_for (b : ConsensusBlock) (local_time : option Z) : Validity :=
  match local_time with
  | None => validity b
  | Some now => apply_skew (validity b) (payload_timestamp (execution_payload b)) now
  end.

Definition binding_error_to_string (e : PayloadBindingError) : string :=
  match e with
  | HeightMismatch expected actual =>
      "payload block number " +:+ pretty actual +:+ " does not match consensus height " +:+ pretty expected
  | ParentMismatch expected actual =>
      "payload parent hash " +:+ show_hash actual +:+ " is not the block finalized at the previous height ("
      +:+ show_hash expected +:+ ")"
  end.

(** What a node is configured with, the execution layer, and the clocks a handler reads. *)
Record Node := mkNode {
  new_payload : nat → Payload → result CallError PayloadStatusEnum;
  nd_spec : ConsensusSpec;
  nd_genesis_hash : bytes;
  nd_parallel_requests : Z;
  nd_batch_size : Z;
}.
Record Clock := mkClock {
  ck_now : Z;
  ck_created : Z;
  ck_system : Z;
  ck_local_secs : option Z;
}.

(** Field updates. *)
Definition with_calls (n : nat) (s : State) : State :=
  mkState (st_current_height s) (st_current_round s) (st_current_proposer s) (st_decision s) (st_sync_state s)
    (st_previous_block s) (st_consensus_params s) (st_validator_set s) (st_proposal_monitor s)
    (st_early_arrivals s) (st_streams_map s) (st_store s) (st_sent s) (st_network_id s) (st_stream_nonce s) n.
Definition with_streams (m : PartStreamsMap) (s : State) : State :=
  mkState (st_current_height s) (st_current_round s) (st_current_proposer s) (st_decision s) (st_sync_state s)
    (st_previous_block s) (st_consensus_params s) (st_validator_set s) (st_proposal_monitor s)
    (st_early_arrivals s) m (st_store s) (st_sent s) (st_network_id s) (st_stream_nonce s) (st_calls s).
Definition with_early_arrivals (l : list (Z * EarlyArrival)) (s : State) : State :=
  mkState (st_current_height s) (st_current_round s) (st_current_proposer s) (st_decision s) (st_sync_state s)
    (st_previous_block s) (st_consensus_params s) (st_validator_set s) (st_proposal_monitor s)
    l (st_streams_map s) (st_store s) (st_sent s) (st_network_id s) (st_stream_nonce s) (st_calls s).
Definition with_network_id (i : bytes) (s : State) : State :=
  mkState (st_current_height s) (st_current_round s) (st_current_proposer s) (st_decision s) (st_sync_state s)
    (st_previous_block s) (st_consensus_params s) (st_validator_set s) (st_proposal_monitor s)
    (st_early_arrivals s) (st_streams_map s) (st_store s) (st_sent s) i (st_stream_nonce s) (st_calls s).
Definition with_round (round : Round) (proposer : Z) (s : State) : State :=
  mkState (st_current_height s) round (Some proposer) (st_decision s) (st_sync_state s)
    (st_previous_block s) (st_consensus_params s) (st_validator_set s) (st_proposal_monitor s)
    (st_early_arrivals s) (st_streams_map s) (st_store s) (st_sent s) (st_network_id s) (st_stream_nonce s) (st_calls s).

(** ** Verdicts *)

Definition notify_new_block (nd : Node) (p : Payload) : M State AppError (result CallError PayloadStatusEnum) := λ s,
  (Ok (new_payload nd (st_calls s) p), with_calls (S (st_calls s)) s).

Definition persist_invalid_payload_best_effort (p : InvalidPayload) : M State AppError unit :=
  try_store (append_invalid_payload p).

Definition validate_consensus_block (nd : Node) (block : ConsensusBlock) : M State AppError Validity :=
  answer <-- notify_new_block nd (execution_payload block) ;;
  res <-- m_lift (validate_payload answer) ;;
  match res with
  | PayloadValid => m_ret Valid
  | PayloadInvalid reason =>
      persist_invalid_payload_best_effort (InvalidPayload_new_from_block block reason) ;;;
      m_ret Invalid
  end.

Definition establish_block_validity (nd : Node) (block : ConsensusBlock) (previous_block : option ExecutionBlock)
    : M State AppError BlockVerdict :=
  match check_payload_binding (execution_payload block) (block_height block) previous_block with
  | Err error =>
      persist_invalid_payload_best_effort (InvalidPayload_new_from_block block (binding_error_to_string error)) ;;;
      m_ret (Unbound error)
  | Ok _ =>
      v <-- validate_consensus_block nd block ;;
      m_ret (EngineVerdict v)
  end.

(** ** ReceivedProposalPart *)

Definition max_pending_proposals (nd : Node) : result AppError Z :=
  limit ← ok_or (checked_mul 64 (nd_parallel_requests nd) (nd_batch_size nd)) (AppPanicked "max_pending_proposals overflow");
  if decide (0 < limit) then Ok limit else Err (AppPanicked "max_pending_proposals must be greater than 0").

Inductive PartsOutcome :=
| OutcomeBlock (b : ConsensusBlock)
| StoredPending
| IgnoredPastHeight
| RejectedInvalid
| OutcomeAssemblyFailed
| OutcomeDeferred.
Definition is_terminal (o : PartsOutcome) : bool := match o with OutcomeDeferred => false | _ => true end.

Definition maybe_store_pending_proposal (current_height max_pending : Z) (parts : ProposalParts)
    : M State AppError bool :=
  max_future_height <-- m_lift (ok_or (height_increment_by current_height (max_pending - 1))
                                      (AppPanicked "block height overflow")) ;;
  if decide (max_future_height < parts_height parts) then m_ret false
  else
    stored <-- on_store (insert_pending_proposal_parts parts max_pending current_height) ;;
    _ <-- on_store get_pending_proposal_parts_count ;;
    m_ret stored.

(** The reason recorded when the parts do not decode. *)
Definition assembly_error (parts : ProposalParts) : string :=
  "Failed to decode execution payload: " +:+ ssz_error (foldl (λ bs part, bs ++ part) [] (parts_data parts)).

Definition process_proposal_parts (current_height : Z) (current_round : Round) (validator_set : ValidatorSet)
    (max_pending : Z) (parts : ProposalParts) : M State AppError PartsOutcome :=
  if decide (parts_height parts < current_height) then m_ret IgnoredPastHeight
  else if decide (current_height < parts_height parts ∨ round_as_i64 current_round < round_as_i64 (parts_round parts))
  then
    stored <-- maybe_store_pending_proposal current_height max_pending parts ;;
    m_ret (if stored : bool then StoredPending else OutcomeDeferred)
  else
    expected_proposer <-- m_lift (ok_or (resolve_expected_proposer validator_set parts) (AppPanicked "select_proposer")) ;;
    if negb (validate_proposal_parts parts expected_proposer) then m_ret RejectedInvalid
    else match assemble_block_from_parts parts with
         | Some block => m_ret (OutcomeBlock block)
         | None =>
             persist_invalid_payload_best_effort (InvalidPayload_new_from_parts parts (assembly_error parts)) ;;;
             m_ret OutcomeAssemblyFailed
         end.

Inductive Disposition :=
| DispAssembled (v : ProposedValue)
| DispBufferedPending (h : Z)
| DispTerminal
| DispDeferred.

(** [validate_block] of the handler: the block with its verdict. *)
Definition validate_block (nd : Node) (block : ConsensusBlock) (previous_block : option ExecutionBlock)
    : M State AppError ConsensusBlock :=
  verdict <-- establish_block_validity nd block previous_block ;;
  m_ret (set_validity block (verdict_validity verdict)).

Definition handle_complete_parts (nd : Node) (ck : Clock) (s0 : State) (max_pending : Z) (parts : ProposalParts)
    : M State AppError Disposition :=
  outcome <-- process_proposal_parts (st_current_height s0) (st_current_round s0) (st_validator_set s0) max_pending parts ;;
  match outcome with
  | OutcomeBlock block =>
      block <-- validate_block nd block (st_previous_block s0) ;;
      if negb (may_be_stored_as_undecided block) then m_ret DispTerminal
      else
        let proposed_value := to_proposed_value_with_validity block (validity_for block (ck_local_secs ck)) in
        on_store (store_undecided_block block) ;;;
        m_ret (DispAssembled proposed_value)
  | StoredPending =>
      if decide (st_current_height s0 < parts_height parts ∧ round_as_i64 (parts_round parts) = 0)
      then m_ret (DispBufferedPending (parts_height parts)) else m_ret DispTerminal
  | _ => m_ret (if is_terminal outcome then DispTerminal else DispDeferred)
  end.

Inductive ReceivedPart := PartAssembled (v : ProposedValue) | PartBufferedPending (h : Z) | PartNone.

(** The stream key is closed on every disposition but [DispDeferred], also on an error. *)
Definition on_received_proposal_part (nd : Node) (ck : Clock) (s0 : State) (max_pending : Z) (from : Z)
    (part : StreamMessage) : M State AppError ReceivedPart := λ s,
  let '(r, m) := insert (st_streams_map s) from part (ck_now ck) (ck_created ck) in
  let s := with_streams m s in
  match r with
  | Complete parts =>
      let close s := with_streams (mark_closed (st_streams_map s) from (stream_id part)) s in
      match handle_complete_parts nd ck s0 max_pending parts s with
      | (Err (AppPanicked msg), s) => (Err (AppPanicked msg), s)
      | (Ok DispDeferred, s) => (Ok PartNone, s)
      | (Ok DispTerminal, s) => (Ok PartNone, close s)
      | (Ok (DispAssembled v), s) => (Ok (PartAssembled v), close s)
      | (Ok (DispBufferedPending h), s) => (Ok (PartBufferedPending h), close s)
      | (Err e, s) => (Err e, close s)
      end
  | Pending | Stale | Invalid_ _ => (Ok PartNone, s)
  end.

Definition record_proposal_in_monitor (monitor : option ProposalMonitor) (current_round : Round) (v : ProposedValue)
    (now : Z) : option ProposalMonitor :=
  if negb (is_valid (pval_validity v)) then monitor
  else if decide (round_as_i64 current_round ≠ 0) then monitor
  else match monitor with
       | None => None
       | Some m =>
           if decide (pm_height m ≠ pval_height v ∨ pm_proposer m ≠ pval_proposer v) then Some m
           else if decide (round_as_i64 (pval_round v) ≠ 0) then Some m
           else Some (record_proposal m (value_id_of (pval_value v)) now)
       end.

(** [handlers::received_proposal_part::handle] *)
Definition handle_received_proposal_part (nd : Node) (ck : Clock) (from : Z) (part : StreamMessage)
    : M State AppError (option ProposedValue) :=
  max_pending <-- m_lift (max_pending_proposals nd) ;;
  s0 <-- m_get ;;
  outcome <-- (λ s, match on_received_proposal_part nd ck s0 max_pending from part s with
                    | (Ok o, s) => (Ok o, s)
                    | (Err (AppPanicked msg), s) => (Err (AppPanicked msg), s)
                    | (Err _, s) => (Ok PartNone, s)
                    end) ;;
  match outcome with
  | PartAssembled v =>
      modify (λ s, with_monitor (record_proposal_in_monitor (st_proposal_monitor s) (st_current_round s) v (ck_system ck)) s) ;;;
      m_ret (Some v)
  | PartBufferedPending h =>
      modify (λ s, with_early_arrivals (stash_early_arrival (st_early_arrivals s) h (PendingPartsTime (ck_system ck))) s) ;;;
      m_ret None
  | PartNone => m_ret None
  end.

(** ** ProcessSyncedValue *)

Inductive SyncedValueOutcome := SyncVerdict (v : ProposedValue) | PeerFault | LocalTransientError.

(** The assertion on the dedup path is a [debug_assert], which a release build drops; the wait for
    the execution layer to persist the block, at most 30 seconds, never changes the answer. *)
Definition on_process_synced_value (nd : Node) (height : Z) (round : Round) (proposer : Z) (value_bytes : bytes)
    (previous_block : option ExecutionBlock) : M State AppError (option ProposedValue) :=
  match from_ssz_bytes value_bytes with
  | None =>
      persist_invalid_payload_best_effort
        (InvalidPayload_new_without_payload height round proposer (ssz_error value_bytes)) ;;;
      m_ret None
  | Some payload =>
      let block := mkConsensusBlock height round None proposer Valid payload None in
      verdict <-- establish_block_validity nd block previous_block ;;
      let block := set_validity block (verdict_validity verdict) in
      if negb (may_be_stored_as_undecided block) then m_ret None
      else
        existing <-- match verdict with
                     | Unbound _ => m_ret None
                     | EngineVerdict _ => on_store (get_undecided_block height round (self_reported_block_hash block))
                     end ;;
        match existing with
        | Some existing => m_ret (Some (proposed_value_from existing))
        | None =>
            on_store (store_undecided_block block) ;;;
            m_ret (Some (proposed_value_from block))
        end
  end.

(** [State::mark_height_synced] *)
Definition mark_height_synced (height now : Z) (s : State) : State :=
  let '(monitor, early) := record_synced (st_proposal_monitor s) (st_early_arrivals s) height now in
  with_early_arrivals early (with_monitor monitor s).

(** [handlers::process_synced_value::handle]; no step of it panics. *)
Definition handle_process_synced_value (nd : Node) (ck : Clock) (height : Z) (round : Round) (proposer : Z)
    (value_bytes : bytes) (s : State) : SyncedValueOutcome * State :=
  match on_process_synced_value nd height round proposer value_bytes (st_previous_block s) s with
  | (Ok (Some proposal), s) =>
      (SyncVerdict proposal,
       if is_valid (pval_validity proposal) then mark_height_synced height (ck_system ck) s else s)
  | (Ok None, s) => (PeerFault, s)
  | (Err _, s) => (LocalTransientError, s)
  end.

(** ** StartedRound *)

(** The proposers of the rounds [missed_round .. new_round - 1]; [None] is a panic of
    [select_proposer]. *)
Fixpoint missed_proposers (fuel : nat) (validator_set : ValidatorSet) (height missed_round new_round : Z)
    : option (list Z) :=
  match fuel with
  | O => Some []
  | S fuel =>
      if decide (missed_round < new_round) then
        v ← select_proposer validator_set height (Some missed_round);
        rest ← missed_proposers fuel validator_set height (missed_round + 1) new_round;
        Some (address v :: rest)
      else Some []
  end.
(** [record_missed_rounds]: the validators whose counter is incremented, in order.  The loop
    runs [new_round - prev_round] times. *)
Definition record_missed_rounds (validator_set : ValidatorSet) (height : Z) (prev_round new_round : Round)
    : option (list Z) :=
  let missed_round := default 0 prev_round in
  missed_proposers (Z.to_nat (round_as_i64 new_round - missed_round)) validator_set height missed_round
    (round_as_i64 new_round).

(** One element of the loop of [process_pending_proposal_parts]. *)
Definition process_pending_part (nd : Node) (validator_set : ValidatorSet) (previous_block : option ExecutionBlock)
    (parts : ProposalParts) : M State AppError unit :=
  expected_proposer <-- m_lift (ok_or (resolve_expected_proposer validator_set parts) (AppPanicked "select_proposer")) ;;
  if negb (validate_proposal_parts parts expected_proposer) then m_ret tt
  else match assemble_block_from_parts parts with
       | None => persist_invalid_payload_best_effort (InvalidPayload_new_from_parts parts (assembly_error parts))
       | Some block => λ s,
           match establish_block_validity nd block previous_block s with
           | (Ok verdict, s) =>
               on_store (remove_pending_parts_and_store_undecided_block parts
                           (set_validity block (verdict_validity verdict))) s
           | (Err _, s) => (Ok tt, s)
           end
       end.
Fixpoint process_pending_proposal_parts (nd : Node) (pending_parts : list ProposalParts) (validator_set : ValidatorSet)
    (previous_block : option ExecutionBlock) : M State AppError unit :=
  match pending_parts with
  | [] => m_ret tt
  | parts :: pending_parts =>
      process_pending_part nd validator_set previous_block parts ;;;
      process_pending_proposal_parts nd pending_parts validator_set previous_block
  end.

(** One element of the loop of [validate_undecided_blocks]: the block with the verdict kept. *)
Definition revalidate_block (nd : Node) (previous_block : option ExecutionBlock) (block : ConsensusBlock)
    : M State AppError ConsensusBlock :=
  match check_payload_binding (execution_payload block) (block_height block) previous_block with
  | Err error =>
      if is_valid (validity block) then
        let block := set_validity block Invalid in
        persist_invalid_payload_best_effort (InvalidPayload_new_from_block block (binding_error_to_string error)) ;;;
        on_store (store_undecided_block block) ;;;
        m_ret block
      else m_ret block
  | Ok _ => λ s,
      match validate_consensus_block nd block s with
      | (Ok new_validity, s) =>
          if decide (new_validity = validity block) then (Ok block, s)
          else (on_store (store_undecided_block (set_validity block new_validity)) ;;;
                m_ret (set_validity block new_validity)) s
      | (Err _, s) => (Ok block, s)
      end
  end.
Fixpoint revalidate_blocks (nd : Node) (previous_block : option ExecutionBlock) (blocks : list ConsensusBlock)
    : M State AppError (list ConsensusBlock) :=
  match blocks with
  | [] => m_ret []
  | block :: blocks =>
      b <-- revalidate_block nd previous_block block ;;
      validated <-- revalidate_blocks nd previous_block blocks ;;
      m_ret (b :: validated)
  end.
Definition validate_undecided_blocks (nd : Node) (height : Z) (round : Round) (previous_block : option ExecutionBlock)
    : M State AppError (list ConsensusBlock) :=
  blocks <-- on_store (get_undecided_blocks height round) ;;
  revalidate_blocks nd previous_block blocks.

Definition fetch_and_process_pending_proposals (nd : Node) (ck : Clock) (height : Z) (round : Round)
    (validator_set : ValidatorSet) (previous_block : option ExecutionBlock) : M State AppError (list ProposedValue) :=
  pending_parts <-- on_store (get_pending_proposal_parts height round) ;;
  process_pending_proposal_parts nd pending_parts validator_set previous_block ;;;
  blocks <-- validate_undecided_blocks nd height round previous_block ;;
  m_ret ((λ b, to_proposed_value_with_validity b (validity_for b (ck_local_secs ck))) <$> blocks).

(** [State::started_height], [recompute_network_id] and [init_proposal_monitor] *)
Definition started_height (nd : Node) (ck : Clock) (height : Z) (proposer : Z) (s : State) : State :=
  let s := with_streams (set_current_height (st_streams_map s) height) s in
  let s := with_network_id (NetworkId_new (spec_chain_id (nd_spec nd)) (nd_genesis_hash nd)
                              (fork_version_at (nd_spec nd) (st_current_height s))) s in
  let h := st_current_height s in
  with_early_arrivals (bt_remove h (st_early_arrivals s))
    (with_monitor (Some (build_monitor h proposer (ck_system ck) (bt_get h (st_early_arrivals s)))) s).

Definition attach_valid_proposal_value_ids (monitor : option ProposalMonitor) (height : Z) (round : Round)
    (proposals : list ProposedValue) : option ProposalMonitor :=
  if decide (round_as_i64 round ≠ 0) then monitor
  else foldl (λ m p, attach_value_id_to_monitor height (value_id_of (pval_value p)) m) monitor
         (filter (λ p, is_valid (pval_validity p) = true) proposals).

Definition on_started_round (nd : Node) (ck : Clock) (height : Z) (round : Round) (proposer : Z)
    : M State AppError (list ProposedValue) :=
  (if decide (round_as_i64 round = 0) then modify (started_height nd ck height proposer) else m_ret tt) ;;;
  s <-- m_get ;;
  if decide (st_current_height s ≠ height) then m_err (AppPanicked "Consensus height mismatch")
  else if decide (round = None) then m_err (AppPanicked "Round cannot be Nil")
  else if decide (round_as_i64 round < round_as_i64 (st_current_round s))
  then m_err (AppPanicked "Round cannot go backwards")
  else
    _ <-- m_lift (ok_or (record_missed_rounds (st_validator_set s) height (st_current_round s) round)
                        (AppPanicked "select_proposer")) ;;
    modify (with_round round proposer) ;;;
    proposals <-- fetch_and_process_pending_proposals nd ck height round (st_validator_set s) (st_previous_block s) ;;
    modify (λ s, with_monitor (attach_valid_proposal_value_ids (st_proposal_monitor s) height round proposals) s) ;;;
    m_ret proposals.

(** [handlers::started_round::handle]: an error is answered with no proposals. *)
Definition handle_started_round (nd : Node) (ck : Clock) (height : Z) (round : Round) (proposer : Z)
    : M State AppError (list ProposedValue) := λ s,
  match on_started_round nd ck height round proposer s with
  | (Ok proposals, s) => (Ok proposals, s)
  | (Err (AppPanicked msg), s) => (Err (AppPanicked msg), s)
  | (Err _, s) => (Ok [], s)
  end.
End Ingest.
