(* ===== verification/Serve.v ===== *)
(** * Serving history

    handlers/get_decided_values.rs and get_history_min_height.rs: which decided values a node
    hands to a peer that is catching up, and the lowest height it advertises.

    The execution layer's answers are parameters ([History]); the conversion of a certificate to
    its extended form without vote extensions belongs to the consensus library
    ([ExtendCertificate]). *)

From S2P Require Import Prelude BTree Validators Proposal Codec CodecProps StoreCodec Store StoreCodecProps StoreProps StoreInv StoreQueries Streaming Decide DecideProps.

Class ExtendCertificate `{PC : ProposalCrypto} := {
  extend_without_extensions : CommitCertificate → ExtendedCommitCertificate;
}.

Section Serve.
Context `{PC : ProposalCrypto} {SB : SignatureBytes} {SZ : SszBlockCodec} {PH : PayloadHash}.
Context {SM : StoreMessages} `{!EqDecision Signature} {EX : ExtendCertificate} {MR : ProstMessage pSyncResponse}.

Record History := mkHistory {
  get_execution_payloads : list Z → result string (list (option Payload));
  get_earliest_block : result string (option ExecutionBlock);
}.

(** [AppPanicked] is the assertion on the available range. *)
Definition get_clamped_request_range (range : Z * Z) (earliest_height latest_height batch_size : Z)
    : result AppError (option (Z * Z)) :=
  if decide (¬ earliest_height ≤ latest_height)
  then Err (AppPanicked "Earliest height must always be less than or equal to latest height")
  else
  let '(start, end_) := range in
  if decide (end_ < start) then Ok None
  else if decide (end_ < earliest_height ∨ latest_height < start) then Ok None
  else
  let start := if decide (start < earliest_height) then earliest_height else start in
  let end_ := if decide (latest_height < end_) then latest_height else end_ in
  if decide (batch_size = 0) then Ok None
  else
  match checked_add 64 (end_ - start) 1 with
  | None => Ok None
  | Some requested_count =>
      if decide (batch_size < requested_count)
      then end_ ← ok_or (height_increment_by start (saturating_sub batch_size 1)) (AppPanicked "block height overflow");
           Ok (Some (start, end_))
      else Ok (Some (start, end_))
  end.

(** The value of one height and its encoded size; a payload that is not the certificate's
    panics. *)
Definition get_raw_decided_value (payload : Payload) (height : Z) : M Db AppError (RawDecidedValue * Z) := λ db,
  let '(stored, db) := get_certificate (Some height) db in
  (stored ← map_err AppStore stored;
   stored ← ok_or stored (Report "No certificate found at height");
   d ← map_err (λ _, AppPanicked "Block hash in the execution payload does not match the hash in the commit certificate")
         (DecidedBlock_new payload (certificate stored));
   let raw_value := mkRawDecidedValue (as_ssz_bytes (db_execution_payload d))
                      (extend_without_extensions (db_certificate d)) in
   raw_bytes_len ← map_err (λ _, Report "Failed to determine encoded length of value")
                     (Response_encoded_len (mkValueResponse height [raw_value]));
   Ok (raw_value, raw_bytes_len), db).

(** The loop of [get_decided_values]: a height without a value is skipped, the first value that
    does not fit ends it. *)
Fixpoint collect_values (heights : list Z) (payloads : list (option Payload)) (total_bytes max_response_size : Z)
    : M Db AppError (list RawDecidedValue) :=
  match heights, payloads with
  | height :: heights, payload :: payloads =>
      match payload with
      | None => collect_values heights payloads total_bytes max_response_size
      | Some payload => λ db,
          match get_raw_decided_value payload height db with
          | (Err (AppPanicked msg), db) => (Err (AppPanicked msg), db)
          | (Err _, db) => collect_values heights payloads total_bytes max_response_size db
          | (Ok (raw_value, raw_bytes_len), db) =>
              if decide (max_response_size < raw_bytes_len ∨ max_response_size - raw_bytes_len < total_bytes) then (Ok [], db)
              else (values <-- collect_values heights payloads (total_bytes + raw_bytes_len) max_response_size ;;
                    m_ret (raw_value :: values)) db
          end
      end
  | _, _ => m_ret []
  end.

Definition heights_of (range : Z * Z) : list Z := seqZ range.1 (range.2 - range.1 + 1).

Definition get_decided_values (el : History) (requested available : Z * Z) (batch_size max_response_size : Z)
    : M Db AppError (list RawDecidedValue) :=
  range <-- m_lift (get_clamped_request_range requested available.1 available.2 batch_size) ;;
  match range with
  | None => m_ret []
  | Some range =>
      let heights := heights_of range in
      payloads <-- m_lift (map_err Report (get_execution_payloads el heights)) ;;
      collect_values heights payloads 0 max_response_size
  end.

(** [handlers::get_decided_values::handle]. The values are collected by a spawned task: its errors
    are answered with no value, and when it panics the reply is dropped unanswered ([None]). *)
Definition handle_get_decided_values (enabled : bool) (el : History) (requested : Z * Z)
    (batch_size max_response_size : Z) : M Db StoreError (option (list RawDecidedValue)) :=
  if negb enabled then m_ret (Some [])
  else
  latest <-- max_height ;;
  earliest <-- min_height ;;
  λ db,
    match get_decided_values el requested (default 0 earliest, default 0 latest) batch_size max_response_size db with
    | (Ok values, db) => (Ok (Some values), db)
    | (Err (AppPanicked _), db) => (Ok None, db)
    | (Err _, db) => (Ok (Some []), db)
    end.

Definition get_history_min_height (cl_earliest el_earliest cl_latest : Z) (target_halt_height : option Z) : Z :=
  let floor := Z.max cl_earliest el_earliest in
  match target_halt_height with
  | Some halt_height => if decide (halt_height < cl_latest) then Z.max floor halt_height else floor
  | None => floor
  end.

(** [handlers::get_history_min_height::handle] *)
Definition handle_get_history_min_height (el : History) (halt_height : option Z) : M Db StoreError Z :=
  earliest <-- min_height ;;
  latest <-- max_height ;;
  let cl_earliest := default 0 earliest in
  let el_earliest := match get_earliest_block el with
                     | Ok (Some block) => eb_block_number block
                     | Ok None | Err _ => cl_earliest
                     end in
  m_ret (get_history_min_height cl_earliest el_earliest (default 0 latest) halt_height).
End Serve.
