(* ===== verification/ServeProps.v ===== *)
(** * What a syncing peer is served

    The range a request is clamped to, and the values the node answers with: the longest run of
    servable values, in height order, that fits the size and batch limits. *)

From stdpp Require Import sorting.
From S2P Require Import Prelude BTree Validators Proposal Codec CodecProps StoreCodec Store StoreCodecProps StoreProps StoreInv StoreQueries Streaming Decide DecideProps Serve.

(** ** The clamped range *)

(** The request cut to the available heights and to the batch size. *)
Definition clamped_range (requested : Z * Z) (earliest latest batch_size : Z) : option (Z * Z) :=
  let start := Z.max requested.1 earliest in
  let end_ := Z.min requested.2 latest in
  if decide (start ≤ end_ ∧ batch_size ≠ 0 ∧ end_ - start + 1 < 2 ^ 64)
  then Some (start, Z.min end_ (start + batch_size - 1)) else None.

Lemma get_clamped_request_range_spec requested earliest latest batch_size :
  uint 64 requested.1 → uint 64 requested.2 → uint 64 earliest → uint 64 latest → 0 ≤ batch_size → earliest ≤ latest →
  get_clamped_request_range requested earliest latest batch_size = Ok (clamped_range requested earliest latest batch_size).
Proof.
  destruct requested as [a b]. unfold uint, get_clamped_request_range, clamped_range. cbn [fst snd]. intros A B C D E F.
  rewrite decide_False by lia. case_decide; [rewrite decide_False by lia; done|].
  case_decide; [rewrite decide_False by lia; done|].
  assert ((if decide (a < earliest) then earliest else a) = Z.max a earliest) as -> by (case_decide; lia).
  assert ((if decide (latest < b) then latest else b) = Z.min b latest) as -> by (case_decide; lia).
  set (s := Z.max a earliest). set (e := Z.min b latest). assert (0 ≤ s ≤ e ∧ e < 2 ^ 64) as [S T] by lia.
  case_decide; [rewrite decide_False by lia; done|].
  destruct (checked_add 64 (e - s) 1) as [n|] eqn:N.
  - apply checked_add_inv in N as [-> N]. unfold uint in N. rewrite (decide_True (P := s ≤ e ∧ _)) by lia. case_decide.
    + unfold height_increment_by, checked_add, saturating_sub. rewrite try_from_Some by (unfold uint; lia). cbn. do 3 f_equal. lia.
    + do 3 f_equal. lia.
  - rewrite decide_False; [done|]. intros X. unfold checked_add in N. rewrite try_from_Some in N by (unfold uint; lia). done.
Qed.

Section ServeProps.
Context `{PC : ProposalCrypto} {PCL : ProposalCryptoLaws} {SB : SignatureBytes} {SL : SignatureLaws}.
Context {SZ : SszBlockCodec} {SZL : SszBlockLaws} {PH : PayloadHash} {HL : HashLengths} {PF : PayloadFields}.
Context {SM : StoreMessages} {SML : StoreMessagesLaws} `{!EqDecision Signature} {RF : RoundFrom}.
Context {EX : ExtendCertificate} {MR : ProstMessage pSyncResponse}.

(** ** One height *)

(** The value served for a height, with its encoded size. *)
Definition candidate (t : Tables) (hp : Z * option Payload) : option (Z * RawDecidedValue * Z) :=
  p ← hp.2;
  c ← stored_certificate t hp.1;
  if decide (payload_block_hash p = block_hash (cert_value_id (certificate c))) then
    let v := mkRawDecidedValue (as_ssz_bytes p) (extend_without_extensions (certificate c)) in
    n ← result_ok (Response_encoded_len (mkValueResponse hp.1 [v]));
    Some (hp.1, v, n)
  else None.

(** The execution layer's block for the height is not the one the certificate is for. *)
Definition contradicts (t : Tables) (hp : Z * option Payload) : Prop :=
  ∃ p c, hp.2 = Some p ∧ stored_certificate t hp.1 = Some c
         ∧ payload_block_hash p ≠ block_hash (cert_value_id (certificate c)).

Lemma candidate_inv t hp h v n : candidate t hp = Some (h, v, n) →
  ∃ p c, hp = (h, Some p) ∧ stored_certificate t h = Some c
    ∧ payload_block_hash p = block_hash (cert_value_id (certificate c))
    ∧ v = mkRawDecidedValue (as_ssz_bytes p) (extend_without_extensions (certificate c))
    ∧ Response_encoded_len (mkValueResponse h [v]) = Ok n.
Proof.
  destruct hp as [k [p|]]; unfold candidate; cbn [fst snd mbind option_bind]; [|done].
  destruct (stored_certificate t k) as [c|] eqn:C; cbn [mbind option_bind]; [|done]. case_decide as D; [|done].
  destruct (Response_encoded_len _) as [m|] eqn:R; cbn; [|done]. intros [= <- <- <-]. by exists p, c.
Qed.

Lemma candidate_size t hp h v n : candidate t hp = Some (h, v, n) → 0 ≤ n.
Proof.
  intros (p & c & _ & _ & _ & _ & R)%candidate_inv. unfold Response_encoded_len in R. binds. simplify_eq/=. lia.
Qed.

Lemma get_raw_decided_value_spec p h db :
  let '(r, db') := get_raw_decided_value p h db in
  tables db' = tables db ∧ (∀ b, b ∈ faults db' → b ∈ faults db)
  ∧ match r with
    | Ok (v, n) => candidate (tables db) (h, Some p) = Some (h, v, n)
    | Err (AppPanicked _) => contradicts (tables db) (h, Some p)
    | Err _ => true ∈ faults db ∨ candidate (tables db) (h, Some p) = None
    end.
Proof.
  unfold get_raw_decided_value, get_certificate.
  pose proof (read_tables (λ t, Ok (bt_get h (certificates t) ≫= λ b, result_ok (decode_certificate b))) db) as T.
  pose proof (read_faults (λ t, Ok (bt_get h (certificates t) ≫= λ b, result_ok (decode_certificate b))) db) as F.
  unfold with_read in *. destruct (next_fault db) eqn:N; cbn [map_err mbind result_bind].
  { split_and!; [done|exact F|]. left. by apply next_fault_in. }
  split_and!; [done|exact F|]. clear T F. fold (stored_certificate (tables db) h). unfold candidate, contradicts. cbn [fst snd].
  destruct (stored_certificate (tables db) h) as [c|] eqn:C; cbn [ok_or mbind option_bind result_bind]; [|by right].
  unfold DecidedBlock_new. case_decide as D; cbn [map_err mbind result_bind db_execution_payload db_certificate]; [|by exists p, c]. destruct (Response_encoded_len _); cbn; [done|by right].
Qed.

(** ** The answer *)

Definition total_size (l : list (Z * RawDecidedValue * Z)) : Z := foldr (λ x n, x.2 + n) 0 l.
(** [picked] is the longest prefix of [cs] that fits. *)
Definition longest_fit (budget : Z) (cs picked : list (Z * RawDecidedValue * Z)) : Prop :=
  ∃ rest, cs = picked ++ rest ∧ total_size picked ≤ budget
    ∧ match rest with [] => True | x :: _ => budget < total_size picked + x.2 end.

Lemma longest_fit_nil budget cs : 0 ≤ budget → match cs with [] => True | x :: _ => budget < x.2 end → longest_fit budget cs [].
Proof. intros B H. exists cs. split; [done|]. split; [done|]. destruct cs; [done|]. cbn. lia. Qed.
Lemma longest_fit_cons budget x cs picked : longest_fit (budget - x.2) cs picked → longest_fit budget (x :: cs) (x :: picked).
Proof. intros (rest & -> & F & R). exists rest. unfold total_size in *. cbn [foldr]. split; [done|]. split; [lia|]. destruct rest; [done|lia]. Qed.

Lemma collect_values_spec heights : ∀ payloads total max_size db, 0 ≤ total ≤ max_size →
  let '(r, db') := collect_values heights payloads total max_size db in
  tables db' = tables db
  ∧ match r with
    | Err (AppPanicked _) => ∃ hp, hp ∈ zip heights payloads ∧ contradicts (tables db) hp
    | Err _ => False
    | Ok values => ∃ cs picked,
        cs `sublist_of` omap (candidate (tables db)) (zip heights payloads)
        ∧ (true ∉ faults db → cs = omap (candidate (tables db)) (zip heights payloads))
        ∧ longest_fit (max_size - total) cs picked ∧ values = (λ x, x.1.2) <$> picked
    end.
Proof.
  induction heights as [|h heights IH]; intros payloads total mx db B.
  { split; [done|]. exists [], []. split_and!; [done..| |done]. apply longest_fit_nil; [lia|done]. }
  destruct payloads as [|[p|] payloads]; cbn [collect_values zip zip_with omap list_omap].
  { split; [done|]. exists [], []. split_and!; [done..| |done]. apply longest_fit_nil; [lia|done]. }
  2: { specialize (IH payloads total mx db B). change (candidate (tables db) (h, None)) with (@None (Z * RawDecidedValue * Z)).
       destruct (collect_values _ _ _ _ _) as [[vs|[]] db']; try exact IH. destruct IH as (T & hp & I & C).
       split; [done|]. exists hp. split; [by right|done]. }
  pose proof (get_raw_decided_value_spec p h db) as R. destruct (get_raw_decided_value p h db) as [[[v n]|e] db1].
  - destruct R as (T & F & R). pose proof (candidate_size _ _ _ _ _ R) as Sz. rewrite R. case_decide as D.
    + split; [done|]. eexists _, []. split; [reflexivity|]. split; [done|]. split; [|done]. apply longest_fit_nil; cbn; lia.
    + specialize (IH payloads (total + n) mx db1 ltac:(lia)). unfold m_bind. rewrite T in IH.
      destruct (collect_values _ _ _ _ db1) as [[vs|[]] db2]; destruct IH as (T2 & IH); try done;
        (split; [done|]); cbn [m_ret]; [|destruct IH as (hp & I & C); exists hp; split; [by right|done]].
      destruct IH as (cs & picked & S & E & L & ->). exists ((h, v, n) :: cs), ((h, v, n) :: picked).
      split; [by apply sublist_skip|]. split; [intros NF; rewrite E; [done|auto]|]. split; [|done].
      apply longest_fit_cons. cbn. by replace (mx - total - n) with (mx - (total + n)) by lia.
  - destruct R as (T & F & R). specialize (IH payloads total mx db1 B). rewrite T in IH.
    destruct e; try (split; [done|]; exists (h, Some p); split; [by left|exact R]);
      (destruct (collect_values _ _ _ _ db1) as [[vs|[]] db2]; destruct IH as (T2 & IH); try done;
       (split; [done|]); [|destruct IH as (hp & I & C); exists hp; split; [by right|done]];
       destruct IH as (cs & picked & S & E & L & ->); exists cs, picked; destruct R as [NF|R];
       [split_and!; [destruct (candidate _ _); [by apply sublist_cons|done]|done..]|rewrite R; split_and!; auto]).
Qed.

(** The range of the certificates in the store. *)
Definition tip_range (t : Tables) : Z * Z :=
  (default 0 (fst <$> head (certificates t)), default 0 (fst <$> last (certificates t))).

Lemma tip_range_ok t : store_ok t → uint 64 (tip_range t).1 ∧ uint 64 (tip_range t).2 ∧ (tip_range t).1 ≤ (tip_range t).2.
Proof.
  intros O. destruct (ok_wf _ _ O) as [W _]. destruct (W CERTIFICATES_TABLE) as [S F]. cbn [height_table] in S, F.
  unfold tip_range. destruct (certificates t) as [|x l] eqn:C; [by vm_compute|].
  destruct (last (x :: l)) as [[k v]|] eqn:L; [|by apply last_None in L]. cbn [head fmap option_fmap option_map default fst snd].
  rewrite Forall_forall in F. split; [apply F; by left|]. split.
  - apply (F (k, v)). apply last_Some in L as [l' ->]. apply elem_of_app. right. by left.
  - apply (sorted_le_last (x :: l) k v); [done..|]. by left.
Qed.

(** The heights of the answer with the payloads of the execution layer. *)
Definition offered (el : History) (range : Z * Z) : list (Z * option Payload) :=
  match get_execution_payloads el (heights_of range) with
  | Ok payloads => zip (heights_of range) payloads
  | Err _ => []
  end.

Lemma get_decided_values_spec el requested available batch mx db :
  uint 64 requested.1 → uint 64 requested.2 → uint 64 available.1 → uint 64 available.2 → available.1 ≤ available.2 →
  0 ≤ batch → 0 ≤ mx →
  let '(r, db') := get_decided_values el requested available batch mx db in
  let offers := default [] (offered el <$> clamped_range requested available.1 available.2 batch) in
  tables db' = tables db
  ∧ match r with
    | Err (AppPanicked _) => ∃ hp, hp ∈ offers ∧ contradicts (tables db) hp
    | Err _ => offers = []
    | Ok values => ∃ cs picked,
        cs `sublist_of` omap (candidate (tables db)) offers
        ∧ (true ∉ faults db → cs = omap (candidate (tables db)) offers)
        ∧ longest_fit mx cs picked ∧ values = (λ x, x.1.2) <$> picked
    end.
Proof.
  intros A B C D E F G. unfold get_decided_values. rewrite get_clamped_request_range_spec by done.
  unfold m_bind at 1, m_lift at 1. destruct (clamped_range _ _ _ _) as [range|]; cbn [fmap option_fmap option_map default].
  2: { split; [done|]. exists [], []. split; [done|]. split; [done|]. split; [by apply longest_fit_nil|done]. }
  unfold m_bind, m_lift, offered. destruct (get_execution_payloads el (heights_of range)) as [payloads|e]; cbn [map_err]; [|done].
  pose proof (collect_values_spec (heights_of range) payloads 0 mx db ltac:(lia)) as X.
  rewrite Z.sub_0_r in X. destruct (collect_values _ _ _ _ _) as [[vs|[]] db']; [exact X|destruct X as [_ []]..|exact X].
Qed.

Lemma seqZ_sorted m n : StronglySorted Z.lt (seqZ m n).
Proof.
  remember (Z.to_nat n) as k eqn:K. revert m n K. induction k as [|k IH]; intros m n K.
  - rewrite seqZ_nil by lia. constructor.
  - rewrite seqZ_cons by lia. constructor; [apply IH; lia|]. apply Forall_forall. intros x X%elem_of_seqZ. lia.
Qed.

Lemma candidates_heights t l : (omap (candidate t) l).*1.*1 `sublist_of` l.*1.
Proof.
  induction l as [|hp l IH]; [done|]. cbn. destruct (candidate t hp) as [[[h v] n]|] eqn:C; cbn.
  - apply candidate_inv in C as (p & c & -> & _). by apply sublist_skip.
  - by apply sublist_cons.
Qed.

Lemma offered_heights el range : (offered el range).*1 `sublist_of` heights_of range.
Proof.
  unfold offered. destruct (get_execution_payloads _ _) as [ps|]; [|apply sublist_nil_l].
  generalize (heights_of range). intros l. revert ps. induction l as [|h l IH]; intros ps; [done|].
  destruct ps as [|p ps]; cbn; [apply sublist_nil_l|]. by apply sublist_skip.
Qed.

Lemma candidates_in_range t el requested available batch range cs :
  clamped_range requested available.1 available.2 batch = Some range →
  cs `sublist_of` omap (candidate t) (offered el range) → 0 ≤ batch →
  StronglySorted Z.lt cs.*1.*1 ∧ Z.of_nat (length cs) ≤ batch
  ∧ Forall (λ h, requested.1 ≤ h ≤ requested.2 ∧ available.1 ≤ h ≤ available.2) cs.*1.*1.
Proof.
  intros R S B. assert (cs.*1.*1 `sublist_of` heights_of range) as X.
  { etrans; [|apply (offered_heights el)]. etrans; [|apply (candidates_heights t)]. by do 2 apply fmap_sublist. }
  unfold clamped_range in R. case_decide as D; [|done]. injection R as <-. split; [eapply StronglySorted_sublist; [done|apply seqZ_sorted]|].
  split.
  - apply sublist_length in X. rewrite !length_fmap in X. unfold heights_of in X. cbn [fst snd] in X. rewrite length_seqZ in X. lia.
  - apply Forall_forall. intros h Hh. apply (sublist_elem_of _ _ _ X), elem_of_seqZ in Hh. cbn [fst snd] in Hh. lia.
Qed.

(** ** The theorem *)

(** What is served for a height: the payload the certificate of that height is for, with that
    certificate. *)
Definition authentic (t : Tables) (h : Z) (v : RawDecidedValue) : Prop :=
  ∃ p c, stored_certificate t h = Some c ∧ payload_block_hash p = block_hash (cert_value_id (certificate c))
    ∧ value_bytes v = as_ssz_bytes p ∧ rdv_certificate v = extend_without_extensions (certificate c).

Lemma picked_sound t el requested available batch mx cs picked : 0 ≤ batch →
  let offers := default [] (offered el <$> clamped_range requested available.1 available.2 batch) in
  cs `sublist_of` omap (candidate t) offers → longest_fit mx cs picked →
  StronglySorted Z.lt picked.*1.*1 ∧ Z.of_nat (length picked) ≤ batch ∧ total_size picked ≤ mx
  ∧ Forall (λ x, requested.1 ≤ x.1.1 ≤ requested.2 ∧ available.1 ≤ x.1.1 ≤ available.2
                 ∧ authentic t x.1.1 x.1.2
                 ∧ Response_encoded_len (mkValueResponse x.1.1 [x.1.2]) = Ok x.2) picked.
Proof.
  intros B offers S (rest & -> & F & _). assert (picked `sublist_of` omap (candidate t) offers) as P.
  { etrans; [|exact S]. apply sublist_inserts_r. done. }
  clear S. subst offers. destruct (clamped_range _ _ _ _) as [range|] eqn:R; cbn [fmap option_fmap option_map default] in P.
  2: { apply sublist_nil_r in P as ->. split; [constructor|]. done. }
  destruct (candidates_in_range t el requested available batch range picked R P B) as (So & Le & In).
  split_and!; [done..|]. rewrite Forall_forall in *. intros [[h v] n] Hx. cbn [fst snd].
  pose proof (sublist_elem_of _ _ _ P Hx) as (hp & _ & C)%list_elem_of_omap.
  apply candidate_inv in C as (p & c & _ & St & Eq & Ev & Rl). rewrite Forall_forall in In.
  assert (h ∈ picked.*1.*1) as Hh by (apply (list_elem_of_fmap_2 fst _ (h, v)), (list_elem_of_fmap_2 fst _ (h, v, n)), Hx).
  subst v.
  destruct (In h Hh) as [I1 I2]. split; [exact I1|]. split; [exact I2|]. split; [by exists p, c|done].
Qed.

Lemma heights_read (min : bool) db :
  match limit_height min db with
  | (Ok h, db') => h = fst <$> (if min then head (certificates (tables db)) else last (certificates (tables db)))
                   ∧ tables db' = tables db ∧ (∀ b, b ∈ faults db' → b ∈ faults db)
  | (Err _, db') => true ∈ faults db ∧ tables db' = tables db
  end.
Proof.
  unfold limit_height. pose proof (read_faults (λ t, Ok (fst <$> (if min then head (certificates t) else last (certificates t)))) db) as F.
  unfold with_read in *. destruct (next_fault db) eqn:N; [split; [by apply next_fault_in|done]|]. done.
Qed.

(** C12: What a syncing peer is served.  The reply never changes the store.  The values are in
    increasing order of height, within the requested and the stored heights, at most a batch and
    within the response size by the sum of their encoded lengths; each is the payload its stored
    certificate is for, with that certificate.  When the store works, the answer is complete: it
    is the longest prefix of everything servable in the clamped range that fits.  The handler
    fails only when the store does, and drops the reply only when the execution layer has
    another block than the certificate for one of the heights. *)
Theorem decided_values_served enabled el requested batch mx db :
  store_ok (tables db) → uint 64 requested.1 → uint 64 requested.2 → 0 ≤ batch → 0 ≤ mx →
  let '(r, db') := handle_get_decided_values enabled el requested batch mx db in
  let offers := default [] (offered el <$> clamped_range requested (tip_range (tables db)).1 (tip_range (tables db)).2 batch) in
  tables db' = tables db
  ∧ match r with
    | Err _ => true ∈ faults db
    | Ok None => ∃ hp, hp ∈ offers ∧ contradicts (tables db) hp
    | Ok (Some values) => ∃ picked,
        values = (λ x, x.1.2) <$> picked
        ∧ StronglySorted Z.lt picked.*1.*1
        ∧ Z.of_nat (length values) ≤ batch ∧ total_size picked ≤ mx
        ∧ Forall (λ x, requested.1 ≤ x.1.1 ≤ requested.2
                       ∧ (tip_range (tables db)).1 ≤ x.1.1 ≤ (tip_range (tables db)).2
                       ∧ authentic (tables db) x.1.1 x.1.2
                       ∧ Response_encoded_len (mkValueResponse x.1.1 [x.1.2]) = Ok x.2) picked
        ∧ (enabled = true → true ∉ faults db → longest_fit mx (omap (candidate (tables db)) offers) picked)
    end.
Proof.
  intros O A B C D. destruct (tip_range_ok _ O) as (T1 & T2 & T3). unfold handle_get_decided_values.
  destruct enabled; cbn [negb].
  2: { split; [done|]. exists []. split_and!; [done|constructor|done..]. }
  unfold max_height, min_height. unfold m_bind at 1. pose proof (heights_read false db) as L.
  destruct (limit_height false db) as [[latest|e] db1]; [|by destruct L]. destruct L as (-> & E1 & F1).
  unfold m_bind at 1. pose proof (heights_read true db1) as L. rewrite E1 in L.
  destruct (limit_height true db1) as [[earliest|e] db2]; [|destruct L as [L ->]; split; [done|by apply F1]].
  destruct L as (-> & E2 & F2). fold (tip_range (tables db)).
  pose proof (get_decided_values_spec el requested (tip_range (tables db)) batch mx db2 A B T1 T2 T3 C D) as X.
  rewrite E2 in X. change (default 0 _, default 0 _) with (tip_range (tables db)). destruct (get_decided_values _ _ _ _ _ db2) as [[values|e] db3].
  - destruct X as (E3 & cs & picked & S & Full & Fit & ->). split; [congruence|]. exists picked.
    destruct (picked_sound _ _ _ _ _ _ _ _ C S Fit) as (So & Le & Sz & Fa). rewrite length_fmap.
    split_and!; [done..|]. intros _ NF. rewrite <- Full; [done|]. intros I. by apply NF, F1, F2.
  - destruct X as (E3 & X). destruct e; (split; [congruence|]); try done; (exists []; split_and!; [done|constructor|done..|]).
    all: intros _ _; rewrite X; by apply longest_fit_nil.
Qed.
End ServeProps.
