(* ===== verification/Propose.v ===== *)
(** * Proposing

    handlers/get_value.rs and restream_proposal.rs, with the block building of payload.rs and
    eth-engine/src/engine.rs and the stream ids of state.rs: how a proposer finds or builds its
    block, signs it, stores it and streams it.

    The answers of the execution layer while a block is built are those of a [Builder]; the
    attempts of a build are numbered.  The proposal streamed on the network is part of the log
    of what the node sent ([SentParts]), with the tables at that time. *)

From S2P Require Import Prelude BTree Validators Proposal ConsensusSpec Codec StoreCodec Store Streaming Decide Ingest.

Definition is_unknown_payload (e : EngineApiRpcError) : bool := bool_decide (kind e = KindUnknownPayload).

Section Propose.
Context `{PC : ProposalCrypto} {SB : SignatureBytes} {SZ : SszBlockCodec} {PH : PayloadHash} {PF : PayloadFields}.
Context {SM : StoreMessages} `{!EqDecision Signature} `{LO : LruOps} {RF : RoundFrom}.

(** When the outer timeout fires, the build may have run to its end or not have started. *)
Inductive BuildTimeout := InTime | TimesOut (ran : bool).
Record Builder := mkBuilder {
  (** [forkchoice_updated] with payload attributes, per attempt *)
  build_forkchoice : nat → bytes → Z → Z → result CallError ForkchoiceUpdated;
  build_get_payload : nat → bytes → result CallError Payload;
  build_now : nat → Z;
  build_timeout : BuildTimeout;
}.

(** [Engine::generate_block] *)
Definition generate_block (bd : Builder) (attempt : nat) (latest_block : ExecutionBlock) (timestamp fee_recipient : Z)
    : result CallError Payload :=
  let block_hash := eb_block_hash latest_block in
  fcu ← build_forkchoice bd attempt block_hash timestamp fee_recipient;
  match fcu_status fcu with
  | StatusValid =>
      payload_id ← ok_or (fcu_payload_id fcu) (OtherCallError "payload ID must be Some");
      if decide (fcu_latest_valid_hash fcu ≠ Some block_hash)
      then Err (OtherCallError "latest_valid_hash must be the parent block hash")
      else build_get_payload bd attempt payload_id
  | StatusSyncing =>
      match fcu_latest_valid_hash fcu with
      | None => Err (OtherCallError "headBlockHash references an unknown payload")
      | Some _ => Err (OtherCallError "Invalid payload status")
      end
  | _ => Err (OtherCallError "Invalid payload status")
  end.

Definition MAX_RETRIES : nat := 5.
(** The first call and at most [retries] more, while the engine does not know the payload. *)
Fixpoint generate_attempts (bd : Builder) (retries attempt : nat) (previous_block : ExecutionBlock) (fee_recipient : Z)
    : result CallError Payload :=
  let timestamp := Z.max (eb_timestamp previous_block) (build_now bd attempt) in
  match generate_block bd attempt previous_block timestamp fee_recipient, retries with
  | Err (ApiCallError e), S retries =>
      if is_unknown_payload e then generate_attempts bd retries (S attempt) previous_block fee_recipient
      else Err (ApiCallError e)
  | r, _ => r
  end.
Definition generate_payload_with_retry (bd : Builder) (previous_block : ExecutionBlock) (fee_recipient : Z)
    : result CallError Payload := generate_attempts bd MAX_RETRIES 0 previous_block fee_recipient.

Definition build_block (bd : Builder) (height : Z) (round : Round) (proposer : Z) (previous_block : ExecutionBlock)
    (fee_recipient : Z) : result AppError ConsensusBlock :=
  payload ← map_err (λ _, Report "generate_block failed") (generate_payload_with_retry bd previous_block fee_recipient);
  Ok (mkConsensusBlock height round None proposer Valid payload None).

Definition build_and_validate_block (nd : Node) (bd : Builder) (height : Z) (round : Round) (proposer : Z)
    (previous_block : ExecutionBlock) (fee_recipient : Z) : M State AppError ConsensusBlock :=
  block <-- m_lift (build_block bd height round proposer previous_block fee_recipient) ;;
  m_lift (map_err (λ _, Report "Engine returned a payload built on another block")
            (check_payload_binding (execution_payload block) height (Some previous_block))) ;;;
  v <-- validate_consensus_block nd block ;;
  if is_valid v then m_ret block else m_err (Report "Self-built block is invalid").

Definition check_previous_block_is_predecessor (previous_block : ExecutionBlock) (height : Z) : result AppError unit :=
  if decide (checked_add 64 (eb_block_number previous_block) 1 = Some height) then Ok tt
  else Err (HaltAndWait "previous block is not the predecessor of the height").
Definition check_reused_block_binding (block : ConsensusBlock) (height : Z) (previous_block : option ExecutionBlock)
    : result AppError unit :=
  map_err (λ _, HaltAndWait "previously built block is not bound to its place in the chain")
    (check_payload_binding (execution_payload block) height previous_block).

Definition get_previously_built_block (proposer height : Z) (round : Round) : M State AppError (option ConsensusBlock) :=
  blocks <-- on_store (get_undecided_blocks height round) ;;
  match filter (λ b, block_proposer b = proposer) blocks with
  | [] => m_ret None
  | [b] => m_ret (Some b)
  | _ => m_err (Report "Multiple undecided blocks found for proposer")
  end.

(** ** GetValue *)

Record LocallyProposedValue := mkLocallyProposedValue { lpv_height : Z; lpv_round : Round; lpv_value : Value }.
Definition locally_proposed_from (b : ConsensusBlock) : LocallyProposedValue :=
  mkLocallyProposedValue (block_height b) (block_round b) (mkValue (self_reported_block_hash b)).

Definition set_signature (b : ConsensusBlock) (sig : Signature) : ConsensusBlock :=
  mkConsensusBlock (block_height b) (block_round b) (valid_round b) (block_proposer b) (validity b) (execution_payload b)
    (Some sig).

(** The block to propose: the stored one, or a new one; [None] when the build timed out. *)
Definition block_to_propose (nd : Node) (bd : Builder) (height : Z) (round : Round) (address : Z)
    (previous_block : option ExecutionBlock) (fee_recipient : Z) : M State AppError (option ConsensusBlock) :=
  found <-- get_previously_built_block address height round ;;
  match found with
  | Some block =>
      m_lift (check_reused_block_binding block height previous_block) ;;;
      m_ret (Some block)
  | None =>
      previous <-- m_lift (ok_or previous_block (Report "No previous block available to build new block")) ;;
      m_lift (check_previous_block_is_predecessor previous height) ;;;
      let task := build_and_validate_block nd bd height round address previous fee_recipient in
      match build_timeout bd with
      | InTime => block <-- task ;; m_ret (Some block)
      | TimesOut false => m_ret None
      | TimesOut true => λ s, (Ok None, (task s).2)
      end
  end.

Definition on_get_value (nd : Node) (bd : Builder) (height : Z) (round : Round) (address : Z)
    (previous_block : option ExecutionBlock) (fee_recipient : Z) (id : bytes)
    : M State AppError (option LocallyProposedValue) :=
  found <-- block_to_propose nd bd height round address previous_block fee_recipient ;;
  match found with
  | None => m_ret None
  | Some block =>
      let proposed_value := locally_proposed_from block in
      stream <-- m_lift (map_err (λ _, Report "Proposer failed to prepare stream") (prepare_stream id block)) ;;
      on_store (store_undecided_block (set_signature block stream.2)) ;;;
      send (SentParts stream.1) ;;;
      m_ret (Some proposed_value)
  end.

Definition with_nonce (n : Z) (s : State) : State :=
  mkState (st_current_height s) (st_current_round s) (st_current_proposer s) (st_decision s) (st_sync_state s)
    (st_previous_block s) (st_consensus_params s) (st_validator_set s) (st_proposal_monitor s)
    (st_early_arrivals s) (st_streams_map s) (st_store s) (st_sent s) (st_network_id s) n (st_calls s).

(** [State::next_stream_id]; a release build wraps the nonce. *)
Definition next_stream_id (height : Z) (round : Round) : M State AppError bytes :=
  s <-- m_get ;;
  modify (with_nonce ((st_stream_nonce s + 1) mod 2 ^ 32)) ;;;
  m_lift (ok_or (new_stream_id height round (st_stream_nonce s)) (AppPanicked "expected non-Nil round")).

(** [handlers::get_value::handle]; [None] sends no reply. *)
Definition handle_get_value (nd : Node) (ck : Clock) (bd : Builder) (address fee_recipient : Z) (height : Z) (round : Round)
    : M State AppError (option LocallyProposedValue) :=
  id <-- next_stream_id height round ;;
  s <-- m_get ;;
  proposed <-- on_get_value nd bd height round address (st_previous_block s) fee_recipient id ;;
  match proposed with
  | None => m_ret None
  | Some v =>
      (if decide (round_as_i64 round = 0)
       then modify (λ s, with_monitor ((λ m, record_proposal m (value_id_of (lpv_value v)) (ck_system ck)) <$> st_proposal_monitor s) s)
       else m_ret tt) ;;;
      m_ret (Some v)
  end.

(** ** RestreamProposal *)

Definition get_block_to_restream (height : Z) (hash : bytes) : M State AppError (option ConsensusBlock) :=
  on_store (get_undecided_block_by_height_and_block_hash height hash).

Definition restream_proposal (id : bytes) (block : ConsensusBlock) : M State AppError unit :=
  match block_signature block with
  | None => m_err (Report "Refusing to restream block without a signature")
  | Some _ =>
      stream <-- m_lift (map_err (λ _, Report "Failed to prepare proposal parts for restreaming") (prepare_stream id block)) ;;
      send (SentParts stream.1)
  end.

(** [handlers::restream_proposal::handle] *)
Definition handle_restream_proposal (height : Z) (value_id : ValueId) : M State AppError unit :=
  found <-- get_block_to_restream height (block_hash value_id) ;;
  match found with
  | Some block =>
      id <-- next_stream_id (block_height block) (block_round block) ;;
      restream_proposal id block
  | None => m_err (Report "No block found to restream")
  end.
End Propose.
