(* ===== verification/IngestProps.v ===== *)
(** * Properties of ingesting proposals

    What a vote of the node rests on, what each handler writes, and how the three ways a
    block reaches the undecided table differ. *)

From S2P Require Import Prelude BTree Validators Proposal ConsensusSpec Codec CodecProps StoreCodec Store StoreCodecProps StoreProps StoreInv StoreQueries Streaming Decide DecideProps Ingest.

Section IngestProps.
Context `{PC : ProposalCrypto} {PCL : ProposalCryptoLaws} {SB : SignatureBytes} {SL : SignatureLaws}.
Context {SZ : SszBlockCodec} {SZL : SszBlockLaws} {PH : PayloadHash} {HL : HashLengths} {PF : PayloadFields}.
Context {SM : StoreMessages} {SML : StoreMessagesLaws} `{!EqDecision Signature} `{LO : LruOps}.
Context {CH : CanonicalHash} {TX : Texts} {RL : RlpEncode} {RF : RoundFrom}.

(** ** Verdicts *)

Definition engine_validity (r : PayloadValidationResult) : Validity :=
  match r with PayloadValid => Valid | PayloadInvalid _ => Invalid end.

(** The verdict on a block: the binding rules first, then the n-th answer of the engine. *)
Definition verdict_of (nd : Node) (n : nat) (b : ConsensusBlock) (prev : option ExecutionBlock) : result AppError BlockVerdict :=
  match check_payload_binding (execution_payload b) (block_height b) prev with
  | Err e => Ok (Unbound e)
  | Ok _ => (λ r, EngineVerdict (engine_validity r)) <$> validate_payload (new_payload nd n (execution_payload b))
  end.

Lemma verdict_valid nd n b prev v : verdict_of nd n b prev = Ok v → verdict_validity v = Valid →
  check_payload_binding (execution_payload b) (block_height b) prev = Ok tt
  ∧ validate_payload (new_payload nd n (execution_payload b)) = Ok PayloadValid.
Proof.
  unfold verdict_of. destruct (check_payload_binding _ _ _) as [[]|e]; [|by intros [= <-]].
  destruct (validate_payload _) as [[|reason]|e]; cbn; by intros [= <-].
Qed.

(** A forensic record changes none of the tables consensus reads. *)
Definition forensic (db db' : Db) : Prop :=
  benign db db' ∧ undecided_blocks (tables db') = undecided_blocks (tables db)
  ∧ pending_proposal_parts (tables db') = pending_proposal_parts (tables db).

Lemma forensic_refl db : forensic db db.
Proof. split; [apply benign_refl|done]. Qed.

Lemma append_tables p db :
  let t' := tables (append_invalid_payload p db).2 in
  same_decided (tables db) t' ∧ undecided_blocks t' = undecided_blocks (tables db)
  ∧ pending_proposal_parts t' = pending_proposal_parts (tables db).
Proof.
  cbv zeta. unfold append_invalid_payload, with_write. destruct (next_fault db); [done|].
  rewrite stored_invalid_read. destruct (stored_invalid _ _) as [x|e]; [|done]. cbn [map_err mbind result_bind].
  destruct (encode_invalid_payloads _) as [b|e]; [|done]. cbn. by destruct (tables db).
Qed.

Lemma forensic_append p db : wf_invalid_payload p → uint 64 (ip_height p) → forensic db (append_invalid_payload p db).2.
Proof.
  intros W U. destruct (append_tables p db) as ([E1 E2] & E3 & E4). split; [|done]. intros O.
  split; [by apply db_keeps_append|]. split_and!; [by apply certificates_grow_same|done|apply write_faults].
Qed.

(** A state that differs from [s] in the database and the number of engine calls. *)
Definition progress (s : State) (db : Db) (n : nat) : State := with_calls n (with_store db s).
Lemma progress_progress s db n db' n' : progress (progress s db n) db' n' = progress s db' n'.
Proof. done. Qed.
Lemma progress_same s : progress s (st_store s) (st_calls s) = s.
Proof. by destruct s. Qed.

(** A block the stores can hold, with a round. *)
Definition wf_incoming (b : ConsensusBlock) : Prop := wf_block b ∧ is_Some (block_round b).

Lemma record_block b reason db : wf_incoming b →
  forensic db (append_invalid_payload (InvalidPayload_new_from_block b reason) db).2.
Proof. intros ((Uh & _ & _ & Wa) & R). by apply forensic_append. Qed.

Lemma validate_spec nd b s : wf_incoming b →
  ∃ db, validate_consensus_block nd b s
        = (engine_validity <$> validate_payload (new_payload nd (st_calls s) (execution_payload b)),
           progress s db (S (st_calls s)))
        ∧ forensic (st_store s) db.
Proof.
  intros W. unfold validate_consensus_block, m_bind, notify_new_block, m_lift.
  destruct (validate_payload _) as [[|reason]|e]; cbn -[append_invalid_payload with_store with_calls].
  - exists (st_store s). split; [|apply forensic_refl]. by destruct s.
  - eexists. split; [done|]. by apply record_block.
  - exists (st_store s). split; [|apply forensic_refl]. by destruct s.
Qed.

Lemma establish_spec nd b prev s : wf_incoming b →
  ∃ db n, establish_block_validity nd b prev s = (verdict_of nd (st_calls s) b prev, progress s db n)
          ∧ forensic (st_store s) db.
Proof.
  intros W. unfold establish_block_validity, verdict_of.
  destruct (check_payload_binding _ _ _) as [[]|e].
  - destruct (validate_spec nd b s W) as (db & E & F). unfold m_bind. rewrite E. exists db, (S (st_calls s)).
    split; [|done]. by destruct (validate_payload _) as [[]|].
  - eexists _, (st_calls s). split; [|by apply record_block]. unfold m_bind, persist_invalid_payload_best_effort, try_store.
    by destruct s.
Qed.

(** ** Writing an undecided block *)

Definition block_key (b : ConsensusBlock) : BlockKey := (block_height b, block_round b, self_reported_block_hash b).
Definition stored_block (b : ConsensusBlock) (t : Tables) : Prop :=
  ∃ v, bt_get (block_key b) (undecided_blocks t) = Some v ∧ decode_block v = Ok b.

Lemma decode_encode_block b : wf_block b → decode_block (encode_block b) = Ok b.
Proof. intros W. by destruct (block_reads_back b W) as (x & [= <-] & D). Qed.

Lemma insert_undecided_tables b t :
  same_decided t (insert_undecided_block b t)
  ∧ undecided_blocks (insert_undecided_block b t) = bt_insert block_key_lt (block_key b) (encode_block b) (undecided_blocks t)
  ∧ pending_proposal_parts (insert_undecided_block b t) = pending_proposal_parts t.
Proof. by destruct t. Qed.

Lemma stored_after_insert b t : wf_block b → stored_block b (insert_undecided_block b t).
Proof.
  intros W. exists (encode_block b). destruct (insert_undecided_tables b t) as (_ & -> & _). rewrite bt_get_insert.
  split; [done|by apply decode_encode_block].
Qed.
Lemma stored_other b b' t : block_key b ≠ block_key b' → stored_block b t → stored_block b (insert_undecided_block b' t).
Proof.
  intros N (v & G & D). exists v. destruct (insert_undecided_tables b' t) as (_ & -> & _).
  by rewrite bt_get_insert_ne.
Qed.

(** The block was stored, or the store failed and nothing changed. *)
Lemma store_undecided_spec b db : wf_block b →
  let '(r, db') := store_undecided_block b db in
  benign db db' ∧
  ((r = Ok tt ∧ tables db' = insert_undecided_block b (tables db))
   ∨ (r = Err Storage ∧ true ∈ faults db ∧ tables db' = tables db)).
Proof.
  intros W. pose proof (db_keeps_store_undecided b W db) as K.
  assert (true ∈ faults (store_undecided_block b db).2 → true ∈ faults db) as F by apply write_faults.
  revert K F. unfold store_undecided_block, with_write. destruct (next_fault db) eqn:NF; cbn [snd]; intros K F.
  - split; [|right; split_and!; [done|by apply next_fault_in|done]]. intros O.
    split_and!; [done|by apply certificates_grow_same|done|done].
  - split; [|by left]. intros O. destruct (insert_undecided_tables b (tables db)) as ([E1 E2] & _).
    split_and!; [by apply K|by apply certificates_grow_same|done|done].
Qed.

(** ** Received proposal parts *)

Definition undecided_kept (db db' : Db) : Prop :=
  benign db db' ∧ undecided_blocks (tables db') = undecided_blocks (tables db).
Lemma undecided_kept_refl db : undecided_kept db db.
Proof. split; [apply benign_refl|done]. Qed.
Lemma undecided_kept_trans a b c : undecided_kept a b → undecided_kept b c → undecided_kept a c.
Proof. intros [B1 E1] [B2 E2]. split; [by eapply benign_trans|congruence]. Qed.
Lemma forensic_kept db db' : forensic db db' → undecided_kept db db'.
Proof. by intros (? & ? & _). Qed.
Lemma read_kept {A} (f : Tables → result StoreError A) db : undecided_kept db (with_read f db).2.
Proof.
  split; [|by rewrite read_tables]. intros O. rewrite read_tables.
  split_and!; [done|by apply certificates_grow_same|done|apply read_faults].
Qed.

Lemma insert_pending_kept p max cur db : wf_pending p → undecided_kept db (insert_pending_proposal_parts p max cur db).2.
Proof.
  intros W. pose proof (db_keeps_insert_pending p max cur W db) as K.
  assert (true ∈ faults (insert_pending_proposal_parts p max cur db).2 → true ∈ faults db) as F.
  { unfold insert_pending_proposal_parts, m_bind, m_lift. destruct (max_allowed_height _ _ _); [|done].
    case_decide; [done|]. destruct (map_err _ _); [|done]. apply write_faults. }
  assert (same_decided (tables db) (tables (insert_pending_proposal_parts p max cur db).2)
          ∧ undecided_blocks (tables (insert_pending_proposal_parts p max cur db).2) = undecided_blocks (tables db)) as [[E1 E2] E3].
  { unfold insert_pending_proposal_parts, m_bind, m_lift. destruct (max_allowed_height _ _ _); [|done].
    case_decide; [done|]. destruct (map_err _ _); [|done]. unfold with_write. destruct (next_fault db); [done|].
    case_decide; [|done]. cbn. by destruct (tables db). }
  split; [|done]. intros O. split_and!; [by apply K|by apply certificates_grow_same|done|done].
Qed.

(** The parts of the current height: signed by the proposer of their round, assembled. *)
Definition assembled (s0 : State) (parts : ProposalParts) (b : ConsensusBlock) : Prop :=
  parts_height parts = st_current_height s0
  ∧ round_as_i64 (parts_round parts) ≤ round_as_i64 (st_current_round s0)
  ∧ (∃ v, resolve_expected_proposer (st_validator_set s0) parts = Some v ∧ validate_proposal_parts parts v = true)
  ∧ assemble_block_from_parts parts = Some b.

Lemma resolve_some vs parts v : resolve_expected_proposer vs parts = Some v → is_Some (parts_round parts).
Proof.
  unfold resolve_expected_proposer, select_proposer. case_decide; [done|]. case_decide as D; [done|]. intros _.
  destruct (parts_round parts) as [r|]; [by eexists|]. exfalso. naive_solver.
Qed.

Lemma assembled_wf parts b : wf_pending parts → assemble_block_from_parts parts = Some b → wf_incoming b.
Proof.
  intros ((R & Wa) & U & Wr & Wp). unfold assemble_block_from_parts.
  destruct (from_ssz_bytes _) as [p|]; cbn; [|done]. intros [= <-]. split; [|exact R].
  split; [exact U|]. split; [intros r E; exact (Wr r E)|]. split; [intros r E; exact (Wp r E)|exact Wa].
Qed.

Lemma parts_spec s0 max parts s : wf_pending parts →
  let '(r, s') := process_proposal_parts (st_current_height s0) (st_current_round s0) (st_validator_set s0) max parts s in
  (∃ db, s' = progress s db (st_calls s) ∧ undecided_kept (st_store s) db)
  ∧ (∀ b, r = Ok (OutcomeBlock b) → assembled s0 parts b).
Proof.
  intros W. unfold process_proposal_parts.
  assert (∃ db, s = progress s db (st_calls s) ∧ undecided_kept (st_store s) db) as Same.
  { exists (st_store s). split; [by rewrite progress_same|apply undecided_kept_refl]. }
  destruct (decide (parts_height parts < st_current_height s0)) as [|Hh]; [by split|].
  destruct (decide (st_current_height s0 < parts_height parts ∨ _)) as [|Hf].
  { unfold m_bind, maybe_store_pending_proposal, m_bind, m_lift, on_store, m_ret.
    destruct (ok_or _ _) as [mf|e]; [|by split]. case_decide; [by split|].
    pose proof (insert_pending_kept parts max (st_current_height s0) (st_store s) W) as K1.
    destruct (insert_pending_proposal_parts _ _ _ _) as [[stored|e] db1]; cbn -[get_pending_proposal_parts_count] in *;
      [|split; [by exists db1|done]].
    pose proof (read_kept (λ t, Ok (Z.of_nat (length (pending_proposal_parts t)))) db1) as K2.
    unfold get_pending_proposal_parts_count.
    destruct (with_read _ db1) as [[n|e] db2]; cbn in *;
      (split; [exists db2; split; [done|by eapply undecided_kept_trans]|]); [by destruct stored|done]. }
  unfold m_bind, m_lift. destruct (resolve_expected_proposer _ _) as [v|] eqn:Rs; cbn [ok_or]; [|by split].
  destruct (validate_proposal_parts parts v) eqn:V; cbn [negb]; [|by split].
  destruct (assemble_block_from_parts parts) as [b|] eqn:A.
  - split; [done|]. intros b' [= <-]. split; [lia|]. split; [lia|]. split; [by exists v|done].
  - split; [|done]. eexists. split; [reflexivity|]. apply forensic_kept, forensic_append.
    + destruct W as ((R & Wa) & _). by split.
    + apply W.
Qed.

(** A proposal the node votes on, stored in [t]: its block [b] carries the verdict reached
    with the engine's [n]-th answer, and the vote is that verdict, gated by the clock. *)
Definition voted (nd : Node) (ck : Clock) (prev : option ExecutionBlock) (n : nat) (b : ConsensusBlock) (v : ProposedValue)
    (t : Tables) : Prop :=
  (∃ verdict, verdict_of nd n b prev = Ok verdict ∧ validity b = verdict_validity verdict)
  ∧ may_be_stored_as_undecided b = true ∧ stored_block b t
  ∧ v = to_proposed_value_with_validity b (validity_for b (ck_local_secs ck)).

(** A vote for a block: the block is bound, the engine accepted it and its time is not ahead. *)
Definition earned (nd : Node) (ck : Clock) (prev : option ExecutionBlock) (n : nat) (b : ConsensusBlock) : Prop :=
  check_payload_binding (execution_payload b) (block_height b) prev = Ok tt
  ∧ validate_payload (new_payload nd n (execution_payload b)) = Ok PayloadValid
  ∧ ∀ now, ck_local_secs ck = Some now → payload_timestamp (execution_payload b) ≤ saturating_add 64 now 30.

Lemma vote_gate b local : validity_for b local = Valid →
  validity b = Valid ∧ ∀ now, local = Some now → payload_timestamp (execution_payload b) ≤ saturating_add 64 now 30.
Proof.
  unfold validity_for, apply_skew, header_timestamp_exceeds_skew. destruct local as [now|]; [|intros H; split; [exact H|done]].
  destruct (validity b); cbn [is_valid andb]; [|done].
  destruct (bool_decide_reflect (saturating_add 64 now ARC_PROPOSER_CLOCK_SKEW_THRESHOLD_SECS
    < payload_timestamp (execution_payload b))) as [|N]; [done|]. intros _. split; [done|]. intros ? [= <-].
  unfold ARC_PROPOSER_CLOCK_SKEW_THRESHOLD_SECS in N. lia.
Qed.

Lemma voted_earned nd ck prev n b v t : voted nd ck prev n b v t → pval_validity v = Valid → earned nd ck prev n b.
Proof.
  intros ((verdict & Vd & Vb) & _ & _ & ->) Hv. apply vote_gate in Hv as [Hb Hs]. rewrite Vb in Hb.
  destruct (verdict_valid _ _ _ _ _ Vd Hb) as [? ?]. by split_and!.
Qed.

Lemma verdict_of_set nd n b prev v : verdict_of nd n (set_validity b v) prev = verdict_of nd n b prev.
Proof. done. Qed.
Lemma set_validity_wf b v : wf_block b → wf_block (set_validity b v).
Proof. done. Qed.

Lemma complete_spec nd ck s0 max parts s : wf_pending parts →
  let '(r, s') := handle_complete_parts nd ck s0 max parts s in
  ∃ db n, s' = progress s db n ∧ benign (st_store s) db ∧
  match r with
  | Ok (DispAssembled v) => ∃ b, assembled s0 parts (set_validity b Valid)
      ∧ voted nd ck (st_previous_block s0) (st_calls s) b v (tables db)
  | _ => undecided_blocks (tables db) = undecided_blocks (tables (st_store s))
  end.
Proof.
  intros W. unfold handle_complete_parts. unfold m_bind at 1.
  pose proof (parts_spec s0 max parts s W) as P. destruct (process_proposal_parts _ _ _ _ _ _) as [r1 s1].
  destruct P as [(db1 & -> & [B1 E1]) Hb].
  destruct r1 as [[b| | | | |]|e]; cbn [is_terminal];
    try (exists db1, (st_calls s); split; [done|]; split; [done|exact E1]).
  2: { case_decide; (exists db1, (st_calls s); split; [done|]; split; [done|exact E1]). }
  pose proof (Hb b eq_refl) as As. assert (wf_incoming b) as Wb by (by eapply assembled_wf, As).
  assert (set_validity b Valid = b) as Sv.
  { destruct As as (_ & _ & _ & A). unfold assemble_block_from_parts in A.
    destruct (from_ssz_bytes _); cbn in A; [|done]. by injection A as <-. }
  unfold m_bind, validate_block, m_bind.
  destruct (establish_spec nd b (st_previous_block s0) (progress s db1 (st_calls s)) Wb) as (db2 & n & Es & Fo). rewrite Es.
  change (st_calls (progress s db1 (st_calls s))) with (st_calls s) in *.
  assert (undecided_kept (st_store s) db2) as [B2 E2].
  { eapply undecided_kept_trans; [split; [exact B1|exact E1]|by apply forensic_kept]. }
  destruct (verdict_of nd (st_calls s) b (st_previous_block s0)) as [verdict|e] eqn:Vd; [|by exists db2, n].
  cbn [m_ret]. set (b' := set_validity b (verdict_validity verdict)).
  destruct (may_be_stored_as_undecided b') eqn:May; cbn [negb]; [|by exists db2, n].
  unfold on_store. pose proof (store_undecided_spec b' db2 (proj1 Wb)) as St.
  change (st_store (progress (progress s db1 (st_calls s)) db2 n)) with db2.
  destruct (store_undecided_block b' db2) as [r3 db3]. destruct St as [B3 [[-> T3]|(-> & _ & T3)]];
    (exists db3, n; split; [done|]; split; [by eapply benign_trans|]); [|cbn [map_err]; by rewrite T3].
  exists b'. split; [by rewrite <- Sv in As|]. split; [by exists verdict|]. split; [done|]. split; [|done].
  rewrite T3. apply stored_after_insert. exact (proj1 Wb).
Qed.

Lemma received_handled `{!LruLaws} nd ck from part s :
  (∀ parts m, insert (st_streams_map s) from part (ck_now ck) (ck_created ck) = (Complete parts, m) → wf_pending parts) →
  let '(r, s') := handle_received_proposal_part nd ck from part s in
  benign (st_store s) (st_store s')
  ∧ match r with
    | Ok (Some v) => ∃ parts b,
        (insert (st_streams_map s) from part (ck_now ck) (ck_created ck)).1 = Complete parts
        ∧ assembled s parts (set_validity b Valid)
        ∧ voted nd ck (st_previous_block s) (st_calls s) b v (tables (st_store s'))
        ∧ (pval_validity v = Valid → earned nd ck (st_previous_block s) (st_calls s) b)
        ∧ lru_peek (closed_keys (st_streams_map s')) (from, stream_id part) = true
    | _ => undecided_blocks (tables (st_store s')) = undecided_blocks (tables (st_store s))
    end.
Proof.
  intros Wf. unfold handle_received_proposal_part, m_bind, m_lift, m_get.
  destruct (max_pending_proposals nd) as [max|e]; [|split; [apply benign_refl|done]].
  unfold on_received_proposal_part.
  destruct (insert (st_streams_map s) from part (ck_now ck) (ck_created ck)) as [ir m].
  destruct ir as [parts| | |e]; try (split; [apply benign_refl|done]).
  pose proof (complete_spec nd ck s max parts (with_streams m s) (Wf parts m eq_refl)) as C.
  destruct (handle_complete_parts _ _ _ _ _ _) as [rc s1]. destruct C as (db & n & -> & B & X).
  change (st_store (with_streams m s)) with (st_store s) in *.
  change (st_calls (with_streams m s)) with (st_calls s) in *.
  destruct rc as [[v|h| |]|[msg|msg|se|msg]]; try (split; [exact B|exact X]).
  destruct X as (b & As & Vo). split; [exact B|]. exists parts, b. split; [done|]. split; [done|]. split; [exact Vo|].
  split; [by eapply voted_earned|]. cbn. apply lru_peek_insert.
Qed.

(** C6: A vote on a received proposal is earned.  The handler answers with a value only when
    the message completes a stream whose parts are for the current height and a round not
    ahead of the node's, carry the signature of that round's proposer and decode to a block;
    the block is then in the database with its verdict, and its stream stays closed.  The
    answer is a vote for the block only if, besides, the block is bound to its place in the
    chain, the execution layer accepted it, and its time is at most 30 seconds ahead of the
    local clock.  In every other case the undecided blocks do not change; decided blocks and
    certificates never do. *)
Theorem received_votes_are_earned `{!LruLaws} nd ck from part s :
  (∀ parts m, insert (st_streams_map s) from part (ck_now ck) (ck_created ck) = (Complete parts, m) → wf_pending parts) →
  let '(r, s') := handle_received_proposal_part nd ck from part s in
  benign (st_store s) (st_store s')
  ∧ match r with
    | Ok (Some v) => ∃ parts b,
        (insert (st_streams_map s) from part (ck_now ck) (ck_created ck)).1 = Complete parts
        ∧ assembled s parts (set_validity b Valid)
        ∧ voted nd ck (st_previous_block s) (st_calls s) b v (tables (st_store s'))
        ∧ (pval_validity v = Valid → earned nd ck (st_previous_block s) (st_calls s) b)
        ∧ lru_peek (closed_keys (st_streams_map s')) (from, stream_id part) = true
    | _ => undecided_blocks (tables (st_store s')) = undecided_blocks (tables (st_store s))
    end.
Proof. exact (received_handled nd ck from part s). Qed.

(** ** Synced values *)

Definition synced_block (h : Z) (r : Round) (a : Z) (p : Payload) : ConsensusBlock :=
  mkConsensusBlock h r None a Valid p None.

Lemma synced_wf h r a p : uint 64 h → is_Some r → wf_round r → wf_address a → wf_incoming (synced_block h r a p).
Proof.
  intros U R Wr Wa. split; [|exact R]. split; [exact U|]. split; [intros z E; exact (Wr z E)|]. split; [done|exact Wa].
Qed.

(** The row of a key, as the deduplicating read returns it. *)
Lemma get_undecided_spec h r x db : store_ok (tables db) →
  match (get_undecided_block h r x db).1 with
  | Ok (Some old) => stored_block old (tables db) ∧ block_key old = (h, r, x)
  | Ok None => bt_get (h, r, x) (undecided_blocks (tables db)) = None
  | Err e => e = Storage ∧ true ∈ faults db
  end.
Proof.
  intros O. unfold get_undecided_block, with_read. destruct (next_fault db) eqn:NF; cbn [fst].
  { split; [done|by apply next_fault_in]. }
  destruct (bt_get (h, r, x) (undecided_blocks (tables db))) as [v|] eqn:G; [|done].
  destruct (ok_undecided _ _ O _ _ (bt_get_Some _ _ _ G)) as (old & D & K & _). cbn. rewrite D. cbn.
  split; [|by rewrite K]. exists v. unfold block_key. by rewrite <- K.
Qed.

(** What the outcome of a synced value says. *)
Definition synced_ok (nd : Node) (h : Z) (r : Round) (a : Z) (bs : bytes) (s s' : State) (o : SyncedValueOutcome) : Prop :=
  let kept := undecided_blocks (tables (st_store s')) = undecided_blocks (tables (st_store s)) in
  let verdict p := verdict_of nd (st_calls s) (synced_block h r a p) (st_previous_block s) in
  match o with
  | PeerFault => kept ∧
      (from_ssz_bytes bs = None
       ∨ ∃ p v, from_ssz_bytes bs = Some p ∧ verdict p = Ok v ∧ verdict_validity v = Invalid
           ∧ self_reported_hash_is_canonical (synced_block h r a p) = false)
  | LocalTransientError => kept ∧ ∃ p, from_ssz_bytes bs = Some p ∧ (is_ok (verdict p) = false ∨ true ∈ faults (st_store s))
  | SyncVerdict pv => ∃ p v, from_ssz_bytes bs = Some p ∧ verdict p = Ok v ∧
      let b := set_validity (synced_block h r a p) (verdict_validity v) in
      may_be_stored_as_undecided b = true
      ∧ ((pv = proposed_value_from b ∧ stored_block b (tables (st_store s')))
         ∨ (kept ∧ ∃ old e, v = EngineVerdict e ∧ stored_block old (tables (st_store s))
              ∧ block_key old = block_key b ∧ pv = proposed_value_from old))
  end.

(** The last step: the block is stored and answered, or the store failed. *)
Lemma sync_store_step s db n b : store_ok (tables (st_store s)) → wf_block b → undecided_kept (st_store s) db →
  let '(res, s') := ((on_store (store_undecided_block b) ;;; m_ret (Some (proposed_value_from b)))
                     : M State AppError (option ProposedValue)) (progress s db n) in
  benign (st_store s) (st_store s')
  ∧ match res with
    | Ok pv => pv = Some (proposed_value_from b) ∧ stored_block b (tables (st_store s'))
    | Err _ => undecided_blocks (tables (st_store s')) = undecided_blocks (tables (st_store s)) ∧ true ∈ faults (st_store s)
    end.
Proof.
  intros O W [B E]. unfold m_bind, on_store. change (st_store (progress s db n)) with db.
  pose proof (store_undecided_spec b db W) as St. destruct (store_undecided_block b db) as [r3 db3].
  destruct St as [B3 [[-> T3]|(-> & F & T3)]]; (split; [exact (benign_trans _ _ _ B B3)|]).
  - split; [done|]. cbn -[stored_block]. rewrite T3. by apply stored_after_insert.
  - cbn. rewrite T3, E. split; [done|]. by apply B.
Qed.

Lemma on_synced_spec nd h r a bs s :
  store_ok (tables (st_store s)) → uint 64 h → is_Some r → wf_round r → wf_address a →
  let '(res, s') := on_process_synced_value nd h r a bs (st_previous_block s) s in
  benign (st_store s) (st_store s')
  ∧ synced_ok nd h r a bs s s' (match res with Ok (Some pv) => SyncVerdict pv | Ok None => PeerFault | Err _ => LocalTransientError end).
Proof.
  intros O U R Wr Wa. unfold on_process_synced_value, synced_ok. destruct (from_ssz_bytes bs) as [p|].
  2: { unfold m_bind, persist_invalid_payload_best_effort, try_store, m_ret.
       destruct (forensic_append (InvalidPayload_new_without_payload h r a (ssz_error bs)) (st_store s)) as (B & E & _);
         [by split|done|]. split; [exact B|]. split; [exact E|by left]. }
  pose proof (synced_wf h r a p U R Wr Wa) as Wb. fold (synced_block h r a p). unfold m_bind at 1.
  destruct (establish_spec nd (synced_block h r a p) (st_previous_block s) s Wb) as (db1 & n & Es & B1 & E1 & _).
  rewrite Es. assert (store_ok (tables db1)) as O1 by (by apply B1).
  destruct (verdict_of nd (st_calls s) (synced_block h r a p) (st_previous_block s)) as [v|e] eqn:Vd.
  2: { split; [exact B1|]. split; [exact E1|]. exists p. split; [done|]. left. by rewrite Vd. }
  cbv zeta. set (b := set_validity (synced_block h r a p) (verdict_validity v)).
  destruct (may_be_stored_as_undecided b) eqn:May; cbn [negb].
  2: { split; [exact B1|]. split; [exact E1|]. right. exists p, v. apply orb_false_iff in May as [M1 M2].
       split; [done|]. split; [done|]. cbn in M1. split; [by destruct (verdict_validity v)|exact M2]. }
  pose proof (λ db2 K, sync_store_step s db2 n b O (proj1 Wb)
    (undecided_kept_trans _ _ _ (conj B1 E1 : undecided_kept (st_store s) db1) K)) as Store.
  unfold m_bind at 1. destruct v as [e|e].
  { unfold m_ret at 1. specialize (Store db1 (undecided_kept_refl db1)).
    destruct (m_bind _ _ (progress s db1 n)) as [res s']. destruct Store as [B X]. split; [exact B|].
    destruct res as [pv|e']; [|destruct X as [K F]; split; [exact K|]; exists p; split; [done|by right]].
    destruct X as [-> X]. exists p, (Unbound e). by split_and!; [..|left]. }
  unfold on_store at 1. change (st_store (progress s db1 n)) with db1.
  pose proof (get_undecided_spec h r (self_reported_block_hash b) db1 O1) as G.
  pose proof (read_kept (λ t, transpose ((λ b, map_err StoreDecode (decode_block b))
    <$> bt_get (h, r, self_reported_block_hash b) (undecided_blocks t))) db1) as K2.
  unfold get_undecided_block in *. destruct (with_read _ db1) as [[[old|]|e'] db2]; cbn [fst snd map_err] in *.
  - destruct K2 as [B2 E2]. split; [exact (benign_trans _ _ _ B1 B2)|]. exists p, (EngineVerdict e).
    split; [done|]. split; [done|]. split; [exact May|]. right. destruct G as [(x & Gx & D) K].
    split; [cbn; by rewrite E2|]. exists old, e. split; [done|]. split; [exists x; by rewrite <- E1|]. split; [exact K|done].
  - specialize (Store db2 K2). change (with_store db2 (progress s db1 n)) with (progress s db2 n).
    destruct (m_bind _ _ (progress s db2 n)) as [res s']. destruct Store as [B X]. split; [exact B|].
    destruct res as [pv|e']; [|destruct X as [K F]; split; [exact K|]; exists p; split; [done|by right]].
    destruct X as [-> X]. exists p, (EngineVerdict e). by split_and!; [..|left].
  - destruct K2 as [B2 E2]. split; [exact (benign_trans _ _ _ B1 B2)|]. split; [cbn; by rewrite E2|].
    exists p. split; [done|]. right. destruct G as [_ F]. by apply B1.
Qed.

(** What the answer to a synced value says.  A peer is blamed only for bytes that do not
    decode, or for a rejected payload whose self-reported hash is not its own; then no
    block is stored.  The error is local only when the execution layer gave no verdict or the
    store failed; then no block is stored either.  Otherwise the value has a verdict, from the
    binding rules or from the execution layer, and either the block with that verdict is now
    stored and answered, or a block was already stored for the same height, round and hash
    and its recorded verdict is answered instead.  Decided blocks and certificates never
    change. *)
Theorem synced_value_outcomes nd ck h r a bs s :
  store_ok (tables (st_store s)) → uint 64 h → is_Some r → wf_round r → wf_address a →
  let '(o, s') := handle_process_synced_value nd ck h r a bs s in
  benign (st_store s) (st_store s') ∧ synced_ok nd h r a bs s s' o.
Proof.
  intros O U R Wr Wa. unfold handle_process_synced_value.
  pose proof (on_synced_spec nd h r a bs s O U R Wr Wa) as X.
  destruct (on_process_synced_value _ _ _ _ _ _ _) as [[[pv|]|e] s1]; [|exact X..].
  destruct (is_valid (pval_validity pv)); [|exact X]. unfold mark_height_synced.
  by destruct (record_synced _ _ _ _) as [m l].
Qed.

(** ** Where valid verdicts come from *)

Lemma stored_unique b c t : stored_block b t → stored_block c t → block_key b = block_key c → b = c.
Proof. intros (v & G & D) (w & G' & D') K. rewrite K, G' in G. injection G as ->. congruence. Qed.
Lemma stored_other_iff b b' t : block_key b ≠ block_key b' →
  stored_block b t ↔ stored_block b (insert_undecided_block b' t).
Proof.
  intros N. split; [by apply stored_other|]. intros (v & G & D). exists v.
  destruct (insert_undecided_tables b' t) as (_ & E & _). rewrite E, bt_get_insert_ne in G by done. done.
Qed.
Lemma stored_same_undecided b t t' : undecided_blocks t' = undecided_blocks t → stored_block b t ↔ stored_block b t'.
Proof. intros E. unfold stored_block. by rewrite E. Qed.

(** The execution layer accepted the payload in one of the calls from [lo] up to [hi]. *)
Definition accepted_within (nd : Node) (lo hi : nat) (p : Payload) : Prop :=
  ∃ n, (lo ≤ n < hi)%nat ∧ validate_payload (new_payload nd n p) = Ok PayloadValid.
(** Every block stored as valid was stored so before, or was accepted since. *)
Definition sourced (nd : Node) (before : Tables) (lo hi : nat) (t : Tables) : Prop :=
  ∀ b, stored_block b t → validity b = Valid → stored_block b before ∨ accepted_within nd lo hi (execution_payload b).
Lemma accepted_within_widen nd lo hi lo' hi' p : (lo' ≤ lo)%nat → (hi ≤ hi')%nat → accepted_within nd lo hi p → accepted_within nd lo' hi' p.
Proof. intros H1 H2 (n & Hn & A). exists n. split; [lia|done]. Qed.
Lemma sourced_kept nd t t' lo hi : undecided_blocks t' = undecided_blocks t → sourced nd t lo hi t'.
Proof. intros E b Sb _. left. by apply (stored_same_undecided b _ _ E). Qed.
Lemma sourced_trans nd t t1 t2 lo mid hi : (lo ≤ mid ≤ hi)%nat → sourced nd t lo mid t1 → sourced nd t1 mid hi t2 → sourced nd t lo hi t2.
Proof.
  intros L S1 S2 b Sb V. destruct (S2 b Sb V) as [Sb1|A]; [|right; by eapply accepted_within_widen; [..|exact A]; lia].
  destruct (S1 b Sb1 V) as [|A]; [by left|right; eapply accepted_within_widen; [..|exact A]; lia].
Qed.
Lemma establish_calls nd b prev s : let n := st_calls (establish_block_validity nd b prev s).2 in
  (st_calls s ≤ n)%nat
  ∧ ∀ v, verdict_of nd (st_calls s) b prev = Ok v → verdict_validity v = Valid → accepted_within nd (st_calls s) n (execution_payload b).
Proof.
  assert (st_calls (establish_block_validity nd b prev s).2
    = if check_payload_binding (execution_payload b) (block_height b) prev then S (st_calls s) else st_calls s) as ->.
  { unfold establish_block_validity. destruct (check_payload_binding _ _ _); [|done].
    unfold m_bind, validate_consensus_block, m_bind, notify_new_block, m_lift. by destruct (validate_payload _) as [[]|]. }
  split; [destruct (check_payload_binding _ _ _); lia|]. intros v E V. destruct (verdict_valid _ _ _ _ _ E V) as [-> A].
  exists (st_calls s). split; [lia|done].
Qed.

(** ** Pending parts *)

(** Storing a verdict for pending parts: the row replaces the parts. *)
Lemma promote_spec parts b db : wf_block b →
  let '(r, db') := remove_pending_parts_and_store_undecided_block parts b db in
  benign db db' ∧
  ((r = Ok tt ∧ undecided_blocks (tables db') = undecided_blocks (insert_undecided_block b (tables db)))
   ∨ (r = Err Storage ∧ true ∈ faults db ∧ tables db' = tables db)).
Proof.
  intros W. pose proof (db_keeps_promote parts b W db) as K.
  assert (true ∈ faults (remove_pending_parts_and_store_undecided_block parts b db).2 → true ∈ faults db) as F by apply write_faults.
  revert K F. unfold remove_pending_parts_and_store_undecided_block, with_write.
  destruct (next_fault db) eqn:NF; cbn [snd]; intros K F.
  - split; [|right; split_and!; [done|by apply next_fault_in|done]]. intros O.
    split_and!; [done|by apply certificates_grow_same|done|done].
  - split; [|left; split; [done|by destruct (tables db)]]. intros O.
    split_and!; [by apply K|apply certificates_grow_same; by destruct (tables db)|by destruct (tables db)|done].
Qed.

(** A failure of the store, or a panic. *)
Definition store_or_panic (db : Db) (e : AppError) : Prop :=
  (e = AppStore Storage ∧ true ∈ faults db) ∨ ∃ msg, e = AppPanicked msg.

Lemma pending_part_spec nd vs prev parts s : store_ok (tables (st_store s)) → wf_pending parts →
  let '(r, s') := process_pending_part nd vs prev parts s in
  ∃ db n, s' = progress s db n ∧ benign (st_store s) db ∧ (∀ e, r = Err e → store_or_panic (st_store s) e)
    ∧ (st_calls s ≤ n)%nat ∧ sourced nd (tables (st_store s)) (st_calls s) n (tables db).
Proof.
  intros O W. unfold process_pending_part, m_bind, m_lift.
  assert (∃ db n, s = progress s db n ∧ benign (st_store s) db ∧ (st_calls s ≤ n)%nat
    ∧ sourced nd (tables (st_store s)) (st_calls s) n (tables db)) as (db0 & n0 & E0 & B0 & L0 & S0).
  { exists (st_store s), (st_calls s). split; [by rewrite progress_same|]. split; [apply benign_refl|]. split; [done|by apply sourced_kept]. }
  destruct (resolve_expected_proposer vs parts) as [v|]; cbn [ok_or].
  2: { exists db0, n0. split_and!; [done..| |done|done]. intros e [= <-]. right. by eexists. }
  destruct (validate_proposal_parts parts v); cbn [negb]; [|exists db0, n0; by split_and!].
  destruct (assemble_block_from_parts parts) as [b|] eqn:A.
  2: { assert (forensic (st_store s) (append_invalid_payload (InvalidPayload_new_from_parts parts (assembly_error parts)) (st_store s)).2) as Fo
         by (apply forensic_append; [by split; apply W|apply W]).
       eexists _, (st_calls s). split; [reflexivity|]. split_and!; [apply Fo|done|done|apply sourced_kept, Fo]. }
  pose proof (assembled_wf _ _ W A) as Wb. pose proof (establish_calls nd b prev s) as Ec.
  destruct (establish_spec nd b prev s Wb) as (db1 & n & Es & B1 & E1 & _). rewrite Es in *. cbn [snd st_calls progress with_calls] in Ec.
  destruct Ec as [Le Ac]. change (st_calls (progress s db1 n)) with n in *.
  destruct (verdict_of nd (st_calls s) b prev) as [verdict|e]; [|exists db1, n; split_and!; [done..|by apply sourced_kept]].
  unfold on_store. change (st_store (progress s db1 n)) with db1. set (b' := set_validity b (verdict_validity verdict)).
  pose proof (promote_spec parts b' db1 (proj1 Wb)) as P.
  destruct (remove_pending_parts_and_store_undecided_block parts b' db1) as [r2 db2]. destruct P as [B2 P].
  exists db2, n. split; [done|]. split; [exact (benign_trans _ _ _ B1 B2)|]. split; [|split; [done|]].
  - intros e. destruct P as [[-> _]|(-> & F & _)]; [done|]. intros [= <-]. left. split; [done|]. by apply B1.
  - destruct P as [[_ E2]|(_ & _ & T)]; [|apply sourced_kept; by rewrite T]. intros c Sc V.
    apply (stored_same_undecided c _ _ E2) in Sc. destruct (decide (block_key c = block_key b')) as [K|K].
    + rewrite (stored_unique c b' _ Sc (stored_after_insert b' _ (proj1 Wb)) K) in *. right. by apply (Ac verdict).
    + apply stored_other_iff in Sc; [|done]. left. by apply (stored_same_undecided c _ _ E1).
Qed.

(** Without store failures, rejected pending parts leave their block as a row. *)
Lemma pending_part_stores nd vs prev parts v b verdict s :
  store_ok (tables (st_store s)) → true ∉ faults (st_store s) → wf_pending parts →
  resolve_expected_proposer vs parts = Some v → validate_proposal_parts parts v = true →
  assemble_block_from_parts parts = Some b → verdict_of nd (st_calls s) b prev = Ok verdict →
  ∃ db n, process_pending_part nd vs prev parts s = (Ok tt, progress s db n)
          ∧ store_ok (tables db) ∧ true ∉ faults db
          ∧ stored_block (set_validity b (verdict_validity verdict)) (tables db).
Proof.
  intros O NF W Rs V A Vd. pose proof (assembled_wf _ _ W A) as Wb.
  unfold process_pending_part, m_bind, m_lift. rewrite Rs. cbn [ok_or]. rewrite V, A. cbn [negb].
  destruct (establish_spec nd b prev s Wb) as (db1 & n & Es & B1 & E1 & _). rewrite Es, Vd.
  unfold on_store. change (st_store (progress s db1 n)) with db1. set (b' := set_validity b (verdict_validity verdict)).
  pose proof (promote_spec parts b' db1 (proj1 Wb)) as P.
  destruct (remove_pending_parts_and_store_undecided_block parts b' db1) as [r2 db2]. destruct P as [B2 P].
  pose proof (benign_trans _ _ _ B1 B2 O) as (O2 & _ & _ & F2).
  destruct P as [[-> E2]|(_ & F & _)]; [|destruct (B1 O) as (_ & _ & _ & F1); by apply F1 in F].
  exists db2, n. split; [done|]. split; [done|]. split; [by intros ?%F2|].
  destruct (stored_after_insert b' (tables db1) (proj1 Wb)) as (x & G & D). exists x. by rewrite E2.
Qed.

(** A stored row answers for a synced value of the same height, round and hash. *)
Lemma row_answers_sync nd ck h r a bs p old s :
  store_ok (tables (st_store s)) → true ∉ faults (st_store s) →
  uint 64 h → is_Some r → wf_round r → wf_address a → from_ssz_bytes bs = Some p →
  stored_block old (tables (st_store s)) → block_key old = (h, r, payload_block_hash p) →
  verdict_of nd (st_calls s) (synced_block h r a p) (st_previous_block s) = Ok (EngineVerdict Valid) →
  (handle_process_synced_value nd ck h r a bs s).1 = SyncVerdict (proposed_value_from old).
Proof.
  intros O NF U R Wr Wa Hp (x & G & D) K Vd. unfold handle_process_synced_value, on_process_synced_value. rewrite Hp.
  pose proof (synced_wf h r a p U R Wr Wa) as Wb. fold (synced_block h r a p). unfold m_bind at 1.
  destruct (establish_spec nd (synced_block h r a p) (st_previous_block s) s Wb) as (db1 & n & Es & B1 & E1 & _).
  rewrite Es, Vd. cbn [verdict_validity]. cbv zeta. set (b := set_validity _ Valid).
  change (may_be_stored_as_undecided b) with true. cbn [negb]. unfold m_bind at 1, on_store at 1.
  change (st_store (progress s db1 n)) with db1. change (self_reported_block_hash b) with (payload_block_hash p).
  assert ((get_undecided_block h r (payload_block_hash p) db1).1 = Ok (Some old)) as Get.
  { unfold get_undecided_block, with_read. destruct (next_fault db1) eqn:F; cbn [fst].
    - apply next_fault_in in F. destruct (B1 O) as (_ & _ & _ & F1). by apply F1 in F.
    - assert (bt_get (h, r, payload_block_hash p) (undecided_blocks (tables (st_store s))) = Some x) as G'
        by (rewrite <- K; exact G).
      rewrite E1, G'. cbn. by rewrite D. }
  destruct (get_undecided_block _ _ _ _) as [res db2]. cbn [fst] in Get. subst res. by cbn.
Qed.

(** C34: A forged early proposal blocks the real one.  Parts that arrive before their round are
    filed without the check the other two paths make.  If the proposer of a round sends, ahead of
    time, a payload that claims the hash of another block, the round's start stores it, rejected,
    under the claimed hash, although a rejected block whose hash is not its own must not be
    stored.  When the real block with that hash is then synced, and the execution layer accepts
    it, the node answers with the verdict of the forgery: invalid. *)
Theorem early_forgery_answers_sync nd nd' ck vs prev parts v b verdict a bs p s :
  store_ok (tables (st_store s)) → true ∉ faults (st_store s) → wf_pending parts → wf_address a →
  resolve_expected_proposer vs parts = Some v → validate_proposal_parts parts v = true →
  assemble_block_from_parts parts = Some b → self_reported_hash_is_canonical b = false →
  verdict_of nd (st_calls s) b prev = Ok verdict → verdict_validity verdict = Invalid →
  from_ssz_bytes bs = Some p → payload_block_hash p = self_reported_block_hash b →
  let forged := set_validity b Invalid in
  let s1 := (process_pending_part nd vs prev parts s).2 in
  verdict_of nd' (st_calls s1) (synced_block (block_height b) (block_round b) a p) (st_previous_block s1)
    = Ok (EngineVerdict Valid) →
  stored_block forged (tables (st_store s1)) ∧ may_be_stored_as_undecided forged = false
  ∧ (handle_process_synced_value nd' ck (block_height b) (block_round b) a bs s1).1 = SyncVerdict (proposed_value_from forged)
  ∧ pval_validity (proposed_value_from forged) = Invalid.
Proof.
  intros O NF W Wa Rs V A NC Vd VI Hp Hh forged s1. subst s1.
  destruct (pending_part_stores nd vs prev parts v b verdict s O NF W Rs V A Vd) as (db & n & E & O1 & NF1 & St).
  rewrite E. cbn [snd]. rewrite VI in St. intros Vd'. split; [exact St|]. split; [exact NC|]. split; [|done].
  pose proof (assembled_wf _ _ W A) as ((Uh & Ur & _) & Rn).
  apply (row_answers_sync nd' ck _ _ _ _ p); [done|done|done|done|exact Ur|done|done|exact St|by rewrite Hh|exact Vd'].
Qed.
End IngestProps.
