(* ===== verification/RoundProps.v ===== *)
(** * Properties of starting a round

    handlers/started_round.rs: what the proposals it hands to consensus rest on, and that
    every undecided block of the round is among them. *)

From S2P Require Import Prelude BTree Validators Proposal ConsensusSpec Codec CodecProps StoreCodec Store StoreCodecProps StoreProps StoreInv StoreQueries Streaming Decide DecideProps Ingest IngestProps.

Section RoundProps.
Context `{PC : ProposalCrypto} {PCL : ProposalCryptoLaws} {SB : SignatureBytes} {SL : SignatureLaws}.
Context {SZ : SszBlockCodec} {SZL : SszBlockLaws} {PH : PayloadHash} {HL : HashLengths} {PF : PayloadFields}.
Context {SM : StoreMessages} {SML : StoreMessagesLaws} `{!EqDecision Signature} `{LO : LruOps}.
Context {CH : CanonicalHash} {TX : Texts} {RL : RlpEncode} {RF : RoundFrom} {RFL : RoundFromLaws}.

(** ** The undecided blocks of a round *)

Lemma read_rows (l : list (BlockKey * bytes)) : (∀ k b, (k, b) ∈ l → undecided_row k b) →
  ∃ bs, mapM (λ kv, map_err StoreDecode (decode_block kv.2)) l = Ok bs
        ∧ Forall2 (λ kv b, decode_block kv.2 = Ok b ∧ kv.1 = block_key b ∧ wf_block b) l bs.
Proof.
  induction l as [|[k v] l IH]; intros R; [by exists []|].
  destruct (R k v (list_elem_of_here _ _)) as (x & D & K & W).
  destruct IH as (bs & E & F); [intros k' b' ?; apply R; by right|].
  exists (x :: bs). rewrite mapM_cons, E. cbn. rewrite D. split; [done|]. by constructor.
Qed.

Lemma rows_keys l bs : Forall2 (λ (kv : BlockKey * bytes) b, decode_block kv.2 = Ok b ∧ kv.1 = block_key b ∧ wf_block b) l bs →
  l.*1 = block_key <$> bs.
Proof. induction 1 as [|kv b l bs (_ & K & _) F IH]; [done|]. cbn. by rewrite K, IH. Qed.

(** The key of a block of round [r] lies in the range that is read. *)
Lemma key_in_round h r x v : 0 ≤ r → r + 1 < 2 ^ 32 → length x = 32%nat →
  key_in (h, Some r, ZERO_HASH) (h, round_from_i64 (round_as_i64 (Some r) + 1), ZERO_HASH) ((h, Some r, x), v) = true.
Proof.
  intros H0 H1 L. change (round_as_i64 (Some r)) with r. rewrite round_from_i64_nat by lia. unfold key_in. cbn [fst].
  apply andb_true_iff. split.
  - apply negb_true_iff, not_true_is_false. rewrite block_key_lt_spec. unfold ZERO_HASH. rewrite bytes_lt_zero by done. lia.
  - apply block_key_lt_spec. right. split; [done|]. left. cbn. lia.
Qed.

Definition round_blocks (h : Z) (r : Round) (t : Tables) (bs : list ConsensusBlock) : Prop :=
  NoDup (block_key <$> bs)
  ∧ Forall (λ b, stored_block b t ∧ wf_block b ∧ block_height b = h ∧ block_round b = r) bs
  ∧ ∀ b, stored_block b t → block_height b = h → block_round b = r → b ∈ bs.

Lemma get_undecided_blocks_spec h r db : store_ok (tables db) → 0 ≤ r → r + 1 < 2 ^ 32 →
  match (get_undecided_blocks h (Some r) db).1 with
  | Ok bs => round_blocks h (Some r) (tables db) bs
  | Err e => e = Storage ∧ true ∈ faults db
  end.
Proof.
  intros O H0 H1. unfold get_undecided_blocks, with_read. destruct (next_fault db) eqn:NF; cbn [fst].
  { split; [done|by apply next_fault_in]. }
  cbv zeta. set (l := filter (λ kv, kv.1.1 = (h, Some r)) _). destruct (ok_wf _ _ O) as (_ & [Srt Wk] & _).
  assert (∀ k v, (k, v) ∈ l → (k, v) ∈ undecided_blocks (tables db) ∧ k.1 = (h, Some r)) as Sub.
  { intros k v [E [_ Hin]%list_elem_of_filter]%list_elem_of_filter. done. }
  assert (NoDup l.*1) as N.
  { apply bt_sorted_NoDup with (lt := block_key_lt); [apply block_key_lt_irrefl|]. by apply bt_sorted_filter, bt_sorted_filter. }
  destruct (read_rows l) as (bs & -> & F); [intros k v Hin; apply (ok_undecided _ _ O), Sub, Hin|].
  split; [by rewrite <- (rows_keys _ _ F)|]. split.
  - apply Forall_forall. intros b Hb. apply list_elem_of_lookup in Hb as [i Hi].
    destruct (Forall2_lookup_r _ _ _ _ _ F Hi) as ([k v] & Hkv & D & K & W). cbn in D, K.
    destruct (Sub k v (list_elem_of_lookup_2 _ _ _ Hkv)) as [Hin E]. subst k. cbn in E. injection E as <- E.
    split; [|done]. exists v. split; [|done]. by eapply (bt_get_sorted block_key_lt); [apply block_key_lt_irrefl|..].
  - intros b (v & G & D) <- Hr. apply bt_get_Some in G. rewrite Forall_forall in Wk.
    assert ((block_key b, v) ∈ l) as Hin.
    { apply list_elem_of_filter. split; [by unfold block_key; cbn; rewrite Hr|]. apply list_elem_of_filter. split; [|done].
      unfold block_key. rewrite Hr. apply key_in_round; [done..|]. apply payload_hash_length. }
    apply list_elem_of_lookup in Hin as [i Hi]. destruct (Forall2_lookup_l _ _ _ _ _ F Hi) as (b' & Hb & D' & _).
    cbn in D'. rewrite D in D'. injection D' as <-. by eapply list_elem_of_lookup_2.
Qed.

(** ** Revalidation *)

(** Why a revalidated block is still, or now, valid: it is bound, and in one of the calls from [lo] up
    to [hi] the engine accepts it, or has no verdict and it was valid before. *)
Definition grounds (nd : Node) (prev : option ExecutionBlock) (lo hi : nat) (b b' : ConsensusBlock) : Prop :=
  validity b' = Valid →
  check_payload_binding (execution_payload b) (block_height b) prev = Ok tt
  ∧ (accepted_within nd lo hi (execution_payload b)
     ∨ validity b = Valid ∧ ∃ n, (lo ≤ n < hi)%nat ∧ is_ok (validate_payload (new_payload nd n (execution_payload b))) = false).
Lemma grounds_widen nd prev lo hi lo' hi' b b' : (lo' ≤ lo)%nat → (hi ≤ hi')%nat → grounds nd prev lo hi b b' → grounds nd prev lo' hi' b b'.
Proof.
  intros L H G V. destruct (G V) as [Bd [A|(Vb & n & Hn & E)]]; (split; [done|]);
    [left; by eapply accepted_within_widen|right; split; [done|]; exists n; split; [lia|done]].
Qed.

(** One revalidated block: the row of its key holds it, the other rows are as before. *)
Definition refreshed (nd : Node) (prev : option ExecutionBlock) (lo hi : nat) (b b' : ConsensusBlock) (t t' : Tables) : Prop :=
  b' = set_validity b (validity b') ∧ stored_block b' t' ∧ grounds nd prev lo hi b b'
  ∧ ∀ c, block_key c ≠ block_key b → stored_block c t ↔ stored_block c t'.

Lemma rewrite_step nd prev lo b v s db n : store_ok (tables (st_store s)) → wf_block b → undecided_kept (st_store s) db →
  grounds nd prev lo n b (set_validity b v) →
  let '(r, s') := ((on_store (store_undecided_block (set_validity b v)) ;;; m_ret (set_validity b v))
                   : M State AppError ConsensusBlock) (progress s db n) in
  ∃ db', s' = progress s db' n ∧ benign (st_store s) db' ∧
  match r with
  | Ok b' => refreshed nd prev lo n b b' (tables (st_store s)) (tables db')
  | Err e => e = AppStore Storage ∧ true ∈ faults (st_store s)
  end.
Proof.
  intros O W [B E] Gr. unfold m_bind, on_store. change (st_store (progress s db n)) with db.
  pose proof (store_undecided_spec (set_validity b v) db W) as St.
  destruct (store_undecided_block _ db) as [r2 db2]. destruct St as [B2 St].
  destruct St as [[-> T]|(-> & F & T)]; cbn [map_err]; exists db2; (split; [done|]); (split; [exact (benign_trans _ _ _ B B2)|]).
  - split; [done|]. split; [rewrite T; by apply stored_after_insert|]. split; [exact Gr|]. intros c N.
    rewrite T, <- stored_other_iff by exact N. by apply stored_same_undecided.
  - split; [done|]. by apply B.
Qed.

Lemma revalidate_spec nd prev b s :
  store_ok (tables (st_store s)) → wf_incoming b → stored_block b (tables (st_store s)) →
  let '(r, s') := revalidate_block nd prev b s in
  ∃ db n, s' = progress s db n ∧ benign (st_store s) db ∧ (st_calls s ≤ n)%nat ∧
  match r with
  | Ok b' => refreshed nd prev (st_calls s) n b b' (tables (st_store s)) (tables db)
  | Err e => e = AppStore Storage ∧ true ∈ faults (st_store s)
  end.
Proof.
  intros O W St. assert (set_validity b (validity b) = b) as Sv by (by destruct b).
  assert (∀ db n, (st_calls s ≤ n)%nat → undecided_kept (st_store s) db → grounds nd prev (st_calls s) n b b →
    ∃ db' n', progress s db n = progress s db' n' ∧ benign (st_store s) db' ∧ (st_calls s ≤ n')%nat
      ∧ refreshed nd prev (st_calls s) n' b b (tables (st_store s)) (tables db')) as Keep.
  { intros db n L [B E] Gr. exists db, n. split; [done|]. split; [done|]. split; [done|]. split; [done|].
    split; [by apply (stored_same_undecided b _ _ E)|]. split; [done|]. intros c _. by apply stored_same_undecided. }
  unfold revalidate_block. destruct (check_payload_binding _ _ _) as [[]|e] eqn:Bd.
  - destruct (validate_spec nd b s W) as (db1 & -> & Fo). apply forensic_kept in Fo.
    destruct (validate_payload _) as [res|e] eqn:Vp; cbn [fmap result_fmap].
    + assert (grounds nd prev (st_calls s) (S (st_calls s)) b (set_validity b (engine_validity res))) as Gr.
      { intros Hv. split; [done|]. left. exists (st_calls s). split; [lia|]. rewrite Vp. by destruct res. }
      destruct (decide (engine_validity res = validity b)) as [D|D].
      * rewrite D, Sv in Gr. apply Keep; [lia|done..].
      * pose proof (rewrite_step nd prev (st_calls s) b (engine_validity res) s db1 (S (st_calls s)) O (proj1 W) Fo Gr) as R.
        destruct (m_bind _ _ _) as [r2 s2]. destruct R as (db' & -> & B & R). exists db', (S (st_calls s)). split_and!; [done..|lia|done].
    + apply Keep; [lia|done|]. intros Hv. split; [done|]. right. split; [done|]. exists (st_calls s). split; [lia|]. by rewrite Vp.
  - assert (∀ b', validity b' = Invalid → grounds nd prev (st_calls s) (st_calls s) b b') as Gr by (intros b' H; unfold grounds; by rewrite H).
    destruct (validity b) eqn:V; cbn [is_valid].
    + unfold m_bind at 1, persist_invalid_payload_best_effort, try_store.
      pose proof (record_block (set_validity b Invalid) (binding_error_to_string e) (st_store s) W) as Fo.
      apply forensic_kept in Fo.
      pose proof (rewrite_step nd prev (st_calls s) b Invalid s _ (st_calls s) O (proj1 W) Fo (Gr (set_validity b Invalid) eq_refl)) as R.
      change (with_store (append_invalid_payload _ (st_store s)).2 s) with
        (progress s (append_invalid_payload (InvalidPayload_new_from_block (set_validity b Invalid)
           (binding_error_to_string e)) (st_store s)).2 (st_calls s)).
      destruct (m_bind _ _ _) as [r2 s2]. destruct R as (db' & -> & B & R). by exists db', (st_calls s).
    + pose proof (Keep (st_store s) (st_calls s) (le_n _) (undecided_kept_refl _) (Gr _ V)) as K.
      by rewrite progress_same in K.
Qed.

Lemma revalidate_blocks_spec nd prev bs s :
  store_ok (tables (st_store s)) → NoDup (block_key <$> bs) →
  Forall (λ b, wf_incoming b ∧ stored_block b (tables (st_store s))) bs →
  let '(r, s') := revalidate_blocks nd prev bs s in
  ∃ db n, s' = progress s db n ∧ benign (st_store s) db ∧ (st_calls s ≤ n)%nat ∧
  match r with
  | Ok bs' =>
      Forall2 (λ b b', b' = set_validity b (validity b') ∧ stored_block b' (tables db) ∧ grounds nd prev (st_calls s) n b b') bs bs'
      ∧ ∀ c, block_key c ∉ block_key <$> bs → stored_block c (tables (st_store s)) ↔ stored_block c (tables db)
  | Err e => store_or_panic (st_store s) e
  end.
Proof.
  revert s. induction bs as [|b bs IH]; intros s O N F.
  { cbn. exists (st_store s), (st_calls s). rewrite progress_same. split; [done|]. split; [apply benign_refl|].
    split; [done|]. by split; [constructor|]. }
  cbn [fmap list_fmap] in N. apply NoDup_cons in N as [Nb N]. apply Forall_cons in F as [[W St] F].
  cbn [revalidate_blocks]. unfold m_bind at 1. pose proof (revalidate_spec nd prev b s O W St) as R.
  destruct (revalidate_block nd prev b s) as [[b'|e] s1]; destruct R as (db1 & n1 & -> & B1 & L1 & R).
  2: { exists db1, n1. split_and!; [done..|]. by left. }
  destruct R as (E & Sb & Gr & Oth). assert (store_ok (tables db1)) as O1 by (by apply B1).
  specialize (IH (progress s db1 n1) O1 N). change (st_store (progress s db1 n1)) with db1 in IH.
  unfold m_bind at 1. destruct (revalidate_blocks nd prev bs (progress s db1 n1)) as [r2 s2].
  destruct IH as (db2 & n2 & -> & B2 & L2 & R2).
  { rewrite Forall_forall in *. intros c Hc. destruct (F c Hc) as [Wc Sc]. split; [done|]. apply Oth; [|done].
    intros Kc. apply Nb. rewrite <- Kc. by apply list_elem_of_fmap_2. }
  change (st_calls (progress s db1 n1)) with n1 in *.
  destruct r2 as [bs'|e]; (exists db2, n2; split; [done|]; split; [exact (benign_trans _ _ _ B1 B2)|]; split; [lia|]).
  - destruct R2 as [F2 Oth2]. assert (block_key b' = block_key b) as Kb by (by rewrite E).
    split; [constructor|].
    + split; [done|]. split; [apply Oth2; [by rewrite Kb|done]|by eapply grounds_widen; [..|exact Gr]].
    + eapply Forall2_impl; [exact F2|]. intros c c' (Ec & Sc & Gc). split_and!; [done..|by eapply grounds_widen; [..|exact Gc]].
    + intros c Hc. cbn in Hc. apply not_elem_of_cons in Hc as [Hc1 Hc2]. rewrite (Oth c Hc1). by apply Oth2.
  - destruct R2 as [[-> Fl]|P]; [|by right]. left. split; [done|]. by apply B1.
Qed.

(** ** The round *)

Lemma pending_loop_spec nd vs prev ps s : store_ok (tables (st_store s)) → Forall wf_pending ps →
  let '(r, s') := process_pending_proposal_parts nd ps vs prev s in
  ∃ db n, s' = progress s db n ∧ benign (st_store s) db ∧ (∀ e, r = Err e → store_or_panic (st_store s) e)
    ∧ (st_calls s ≤ n)%nat ∧ sourced nd (tables (st_store s)) (st_calls s) n (tables db).
Proof.
  revert s. induction ps as [|p ps IH]; intros s O F.
  { cbn. exists (st_store s), (st_calls s). rewrite progress_same. split_and!; [done|apply benign_refl|done|done|by apply sourced_kept]. }
  apply Forall_cons in F as [W F]. cbn [process_pending_proposal_parts]. unfold m_bind.
  pose proof (pending_part_spec nd vs prev p s O W) as P.
  destruct (process_pending_part nd vs prev p s) as [[u|e] s1]; destruct P as (db1 & n1 & -> & B1 & P & L1 & S1); [|by exists db1, n1].
  assert (store_ok (tables db1)) as O1 by (by apply B1).
  specialize (IH (progress s db1 n1) O1 F). change (st_store (progress s db1 n1)) with db1 in IH.
  destruct (process_pending_proposal_parts _ _ _ _ _) as [r2 s2]. destruct IH as (db2 & n2 & -> & B2 & R & L2 & S2).
  change (st_calls (progress s db1 n1)) with n1 in *.
  exists db2, n2. split; [done|]. split; [exact (benign_trans _ _ _ B1 B2)|]. split; [|split; [lia|by eapply sourced_trans; [|exact S1|exact S2]]].
  intros e Er. destruct (R e Er) as [[-> Fl]|Pa]; [|by right]. left. split; [done|]. by apply B1.
Qed.

Lemma read_parts (l : list (BlockKey * bytes)) : (∀ k b, (k, b) ∈ l → pending_row k b) →
  ∃ ps, mapM (λ kv, map_err StoreDecode (decode_parts kv.2)) l = Ok ps ∧ Forall wf_pending ps.
Proof.
  induction l as [|[k v] l IH]; intros R; [by exists []|]. destruct (R k v (list_elem_of_here _ _)) as (p & D & _ & W).
  destruct IH as (ps & E & F); [intros k' v' ?; apply R; by right|].
  exists (p :: ps). rewrite mapM_cons, E. cbn. rewrite D. split; [done|by constructor].
Qed.

Lemma get_pending_spec h r db : store_ok (tables db) →
  match (get_pending_proposal_parts h r db).1 with
  | Ok ps => Forall wf_pending ps
  | Err e => e = Storage ∧ true ∈ faults db
  end.
Proof.
  intros O. unfold get_pending_proposal_parts, with_read. destruct (next_fault db) eqn:NF; cbn [fst].
  { split; [done|by apply next_fault_in]. }
  set (l := filter _ _). destruct (read_parts l) as (ps & -> & F); [|done].
  intros k v [_ Hin]%list_elem_of_filter. by apply (ok_pending _ _ O).
Qed.

(** The proposal of a block that is handed to consensus. *)
Definition proposal_of (ck : Clock) (b : ConsensusBlock) : ProposedValue :=
  to_proposed_value_with_validity b (validity_for b (ck_local_secs ck)).

(** A block is voted for only on good grounds: its stored verdict is valid, it is bound to its place
    in the chain, its time is not ahead, and the engine accepted it in one of the calls of this round
    start, from [lo] up to [hi], or had no verdict on it in one of them and it was stored as valid before. *)
Definition supported (nd : Node) (ck : Clock) (h : Z) (prev : option ExecutionBlock) (before : Tables) (lo hi : nat) (b : ConsensusBlock) : Prop :=
  pval_validity (proposal_of ck b) = Valid →
  validity b = Valid ∧ check_payload_binding (execution_payload b) h prev = Ok tt
  ∧ (∀ now, ck_local_secs ck = Some now → payload_timestamp (execution_payload b) ≤ saturating_add 64 now 30)
  ∧ (accepted_within nd lo hi (execution_payload b)
     ∨ stored_block b before
       ∧ ∃ n, (lo ≤ n < hi)%nat ∧ is_ok (validate_payload (new_payload nd n (execution_payload b))) = false).

(** The proposals of a round: one for each undecided block of the round, and each supported. *)
Definition round_votes (nd : Node) (ck : Clock) (h : Z) (r : Round) (prev : option ExecutionBlock) (before after : Tables) (lo hi : nat)
    (vs : list ProposedValue) : Prop :=
  ∃ bs, vs = proposal_of ck <$> bs ∧ round_blocks h r after bs ∧ Forall (supported nd ck h prev before lo hi) bs.

Lemma refreshed_supported nd ck h prev before t lo mid hi b b' :
  (lo ≤ mid ≤ hi)%nat → sourced nd before lo mid t → stored_block b t → block_height b = h →
  b' = set_validity b (validity b') → grounds nd prev mid hi b b' → supported nd ck h prev before lo hi b'.
Proof.
  intros L So Sb <- E Gr Hv. apply vote_gate in Hv as [Hv Hs]. destruct (Gr Hv) as [Bd A]. rewrite Hv in E.
  rewrite E in *. cbn [execution_payload set_validity] in *. split; [done|]. split; [done|]. split; [done|].
  destruct A as [A|(Vb & n & Hn & En)]; [left; eapply accepted_within_widen; [..|exact A]; lia|].
  destruct (So b Sb Vb) as [Sb0|A]; [right|left; eapply accepted_within_widen; [..|exact A]; lia].
  replace (set_validity b Valid) with b by (rewrite <- Vb; by destruct b). split; [done|]. exists n. split; [lia|done].
Qed.

(** The revalidated blocks are the blocks of the round afterwards. *)
Lemma votes_of_blocks nd ck h r prev before t t' lo mid hi bs bs' :
  (lo ≤ mid ≤ hi)%nat → sourced nd before lo mid t → round_blocks h r t bs →
  Forall2 (λ b b', b' = set_validity b (validity b') ∧ stored_block b' t' ∧ grounds nd prev mid hi b b') bs bs' →
  (∀ c, block_key c ∉ block_key <$> bs → stored_block c t ↔ stored_block c t') →
  round_votes nd ck h r prev before t' lo hi (proposal_of ck <$> bs').
Proof.
  intros L So (N & F & All) F2 Oth. rewrite Forall_forall in F.
  assert (∀ b', b' ∈ bs' → ∃ b, b ∈ bs ∧ b' = set_validity b (validity b') ∧ stored_block b' t' ∧ grounds nd prev mid hi b b') as Of.
  { intros b' [i Hi]%list_elem_of_lookup. destruct (Forall2_lookup_r _ _ _ _ _ F2 Hi) as (b & Hb & X).
    apply list_elem_of_lookup_2 in Hb. by exists b. }
  exists bs'. split; [done|]. split; [split; [|split]|].
  - replace (block_key <$> bs') with (block_key <$> bs); [done|]. clear -F2.
    induction F2 as [|b b' bs bs' (E & _) F2 IH]; [done|]. cbn. rewrite IH. f_equal. by rewrite E.
  - apply Forall_forall. intros b' Hb. destruct (Of b' Hb) as (b & Hin & E & St & _). destruct (F b Hin) as (_ & Wb & Hh & Hr).
    split; [done|]. rewrite E. by split_and!.
  - intros c Sc Hh Hr. destruct (decide (block_key c ∈ block_key <$> bs)) as [Hin|Hout].
    + apply list_elem_of_fmap in Hin as (b & K & [i Hi]%list_elem_of_lookup).
      destruct (Forall2_lookup_l _ _ _ _ _ F2 Hi) as (b' & Hb & E & St & _).
      rewrite (stored_unique c b' t' Sc St); [by eapply list_elem_of_lookup_2|]. rewrite K. by rewrite E.
    + exfalso. apply Hout. apply list_elem_of_fmap_2, All; [by apply Oth|done|done].
  - apply Forall_forall. intros b' Hb. destruct (Of b' Hb) as (b & Hin & E & _ & Gr). destruct (F b Hin) as (Sb & _ & Hh & _).
    by eapply refreshed_supported.
Qed.

Lemma fetch_spec nd ck h r vs prev s : store_ok (tables (st_store s)) → 0 ≤ r → r + 1 < 2 ^ 32 →
  let '(res, s') := fetch_and_process_pending_proposals nd ck h (Some r) vs prev s in
  ∃ db n, s' = progress s db n ∧ benign (st_store s) db ∧
  match res with
  | Ok pvs => round_votes nd ck h (Some r) prev (tables (st_store s)) (tables db) (st_calls s) n pvs
  | Err e => store_or_panic (st_store s) e
  end.
Proof.
  intros O H0 H1. unfold fetch_and_process_pending_proposals. unfold m_bind at 1, on_store at 1.
  pose proof (get_pending_spec h (Some r) (st_store s) O) as G.
  assert (undecided_kept (st_store s) (get_pending_proposal_parts h (Some r) (st_store s)).2) as [B1 E1] by apply read_kept.
  destruct (get_pending_proposal_parts h (Some r) (st_store s)) as [[ps|e] db1]; cbn [fst snd map_err] in *.
  2: { exists db1, (st_calls s). destruct G as [-> F]. split_and!; [done..|]. by left. }
  assert (store_ok (tables db1)) as O1 by (by apply B1).
  change (with_store db1 s) with (progress s db1 (st_calls s)).
  unfold m_bind at 1. pose proof (pending_loop_spec nd vs prev ps (progress s db1 (st_calls s)) O1 G) as P.
  destruct (process_pending_proposal_parts _ _ _ _ _) as [rp s2]. destruct P as (db2 & n2 & -> & B2 & P & L2 & S2).
  change (st_calls (progress s db1 (st_calls s))) with (st_calls s) in *.
  change (st_store (progress s db1 (st_calls s))) with db1 in *. rewrite progress_progress.
  pose proof (benign_trans _ _ _ B1 B2) as B12. assert (store_ok (tables db2)) as O2 by (by apply B12).
  assert (∀ db e, benign (st_store s) db → store_or_panic db e → store_or_panic (st_store s) e) as Back.
  { intros db e B [[-> F]|Pa]; [left; split; [done|by apply B]|by right]. }
  destruct rp as [u|e]; [|exists db2, n2; split_and!; [done..|]; by eapply Back, P].
  unfold m_bind at 1, validate_undecided_blocks. unfold m_bind at 1, on_store.
  change (st_store (progress s db2 n2)) with db2.
  pose proof (get_undecided_blocks_spec h r db2 O2 H0 H1) as Gu.
  assert (undecided_kept db2 (get_undecided_blocks h (Some r) db2).2) as [B3 E3] by apply read_kept.
  destruct (get_undecided_blocks h (Some r) db2) as [[bs|e] db3]; cbn [fst snd map_err] in *;
    pose proof (benign_trans _ _ _ B12 B3) as B13.
  2: { exists db3, n2. destruct Gu as [-> F]. split_and!; [done..|]. eapply (Back db2); [done|by left]. }
  destruct Gu as (N & F & All). change (with_store db3 (progress s db2 n2)) with (progress s db3 n2).
  pose proof (revalidate_blocks_spec nd prev bs (progress s db3 n2)) as R.
  change (st_store (progress s db3 n2)) with db3 in R.
  destruct (revalidate_blocks nd prev bs (progress s db3 n2)) as [rv s4].
  destruct R as (db4 & n4 & -> & B4 & L4 & R); [by apply B13|done| |].
  { eapply Forall_impl; [exact F|]. intros b (Sb & Wb & _ & Hr). split; [split; [done|by rewrite Hr]|].
    by apply (stored_same_undecided b _ _ E3). }
  destruct rv as [bs'|e]; (exists db4, n4; split; [done|]; split; [exact (benign_trans _ _ _ B13 B4)|]);
    [|by eapply Back].
  destruct R as [F2 Oth]. change (st_calls (progress s db3 n2)) with n2 in *.
  apply (votes_of_blocks nd ck h (Some r) prev (tables (st_store s)) (tables db2) (tables db4) (st_calls s) n2 n4 bs bs');
    [lia| |by split_and!|done|].
  - eapply sourced_trans; [|by apply sourced_kept|exact S2]. lia.
  - intros c Hc. rewrite <- (Oth c Hc). by apply stored_same_undecided.
Qed.

Lemma started_handled nd ck h r a s :
  store_ok (tables (st_store s)) → 0 ≤ r → r + 1 < 2 ^ 32 →
  let '(res, s') := handle_started_round nd ck h (Some r) a s in
  benign (st_store s) (st_store s')
  ∧ match res with
    | Ok vs =>
        st_current_height s = h ∧ st_current_round s' = Some r ∧ st_current_proposer s' = Some a
        ∧ (round_votes nd ck h (Some r) (st_previous_block s) (tables (st_store s)) (tables (st_store s')) (st_calls s) (st_calls s') vs
           ∨ (vs = [] ∧ true ∈ faults (st_store s)))
    | Err e => ∃ msg, e = AppPanicked msg
    end.
Proof.
  intros O H0 H1. unfold handle_started_round, on_started_round. unfold m_bind at 1.
  assert (∃ s1, (if decide (round_as_i64 (Some r) = 0) then modify (started_height nd ck h a) else m_ret tt) s = (Ok tt, s1)
    ∧ st_store s1 = st_store s ∧ st_previous_block s1 = st_previous_block s ∧ st_current_height s1 = st_current_height s
    ∧ st_calls s1 = st_calls s) as (s1 & -> & E1 & E2 & E3 & E4) by (case_decide; eexists; done).
  unfold m_bind at 1, m_get. rewrite <- E1 in *. rewrite <- E2, <- E3, <- E4.
  assert (∀ msg, benign (st_store s1) (st_store s1) ∧ ∃ m, AppPanicked msg = AppPanicked m) as Panic
    by (intros; split; [apply benign_refl|by eexists]).
  destruct (decide (st_current_height s1 ≠ h)) as [|Hh]; [apply Panic|]. apply dec_stable in Hh.
  destruct (decide (Some r = None)) as [|_]; [done|]. case_decide; [apply Panic|].
  unfold m_bind at 1, m_lift. destruct (record_missed_rounds _ _ _ _) as [missed|]; cbn [ok_or]; [|apply Panic].
  unfold m_bind at 1, modify at 1. unfold m_bind at 1.
  pose proof (fetch_spec nd ck h r (st_validator_set s1) (st_previous_block s1) (with_round (Some r) a s1) O H0 H1) as F.
  destruct (fetch_and_process_pending_proposals _ _ _ _ _ _ _) as [res s2]. destruct F as (db & n & -> & B & F).
  change (st_store (with_round (Some r) a s1)) with (st_store s1) in *.
  destruct res as [vs|e].
  - split; [exact B|]. split; [done|]. split; [done|]. split; [done|]. by left.
  - destruct F as [[-> Fl]|[msg ->]]; [|split; [exact B|by eexists]]. split; [exact B|].
    split; [done|]. split; [done|]. split; [done|]. by right.
Qed.

(** C10: Starting a round hands consensus one proposal for each undecided block of that height and
    round, and for nothing else, each with the block's stored verdict unless its time is ahead of
    the clock.  A block is voted for only if its stored verdict is valid, it is bound to its place in
    the chain, its time is at most 30 seconds ahead of the local clock, and the execution layer
    accepted it during this round start, or gave no verdict on it and the very same block was stored
    as valid before: no transient error makes a block valid.  If the store fails, the answer is
    empty.  The handler panics only when consensus is at another height, the round goes back,
    or no proposer can be selected; otherwise the node is in the new round with its proposer.
    The database stays sound and keeps its decided blocks and certificates. *)
Theorem started_round_votes nd ck h r a s :
  store_ok (tables (st_store s)) → 0 ≤ r → r + 1 < 2 ^ 32 →
  let '(res, s') := handle_started_round nd ck h (Some r) a s in
  benign (st_store s) (st_store s')
  ∧ match res with
    | Ok vs =>
        st_current_height s = h ∧ st_current_round s' = Some r ∧ st_current_proposer s' = Some a
        ∧ (round_votes nd ck h (Some r) (st_previous_block s) (tables (st_store s)) (tables (st_store s')) (st_calls s) (st_calls s') vs
           ∨ (vs = [] ∧ true ∈ faults (st_store s)))
    | Err e => ∃ msg, e = AppPanicked msg
    end.
Proof. exact (started_handled nd ck h r a s). Qed.
End RoundProps.
