(* ===== verification/Startup.v ===== *)
(** * Starting a node

    The handler of the consensus engine's [ConsensusReady] message,
    malachite-app/src/handlers/consensus_ready.rs, with the capability check of
    eth-engine/src/capabilities.rs: the handshake with the execution layer, the replay of the
    decided blocks it lacks, the checkpoint sync when such a block has been pruned, and the
    height consensus starts at.

    What the execution layer answers is a parameter ([Execution]).  The persistence meter is
    not part of the model: a wait for it that fails is only logged. *)

From S2P Require Import Prelude BTree Validators Proposal ConsensusSpec Codec StoreCodec Store Streaming Decide Ingest.

(** ** The execution layer at startup *)

Record EngineCapabilities := mkEngineCapabilities {
  new_payload_v1 : bool;
  new_payload_v2 : bool;
  new_payload_v3 : bool;
  new_payload_v4 : bool;
  forkchoice_updated_v1 : bool;
  forkchoice_updated_v2 : bool;
  forkchoice_updated_v3 : bool;
  get_payload_bodies_by_hash_v1 : bool;
  get_payload_bodies_by_range_v1 : bool;
  get_payload_v1 : bool;
  get_payload_v2 : bool;
  get_payload_v3 : bool;
  get_payload_v4 : bool;
  get_payload_v5 : bool;
  get_client_version_v1 : bool;
  get_blobs_v1 : bool;
}.
(** [EngineCapabilities::all] *)
Definition all_capabilities : EngineCapabilities :=
  mkEngineCapabilities true true true true true true true true true true true true true true true true.

(** The latest block, the block of a height at the n-th time it is asked for, and the
    milliseconds that passed at the n-th poll beyond the sleeps between the polls. *)
Record Execution := mkExecution {
  exchange_capabilities : result string EngineCapabilities;
  latest_block : result string (option ExecutionBlock);
  block_by_number : nat → Z → result string (option ExecutionBlock);
  latency : nat → N;
}.

Definition check_capabilities (el : Execution) : result AppError unit :=
  caps ← map_err Report (exchange_capabilities el);
  if negb (forkchoice_updated_v3 caps) then Err (Report "Engine does not support forkchoiceUpdatedV3")
  else if negb (get_payload_v4 caps) then Err (Report "Engine does not support getPayloadV4")
  else if negb (new_payload_v4 caps) then Err (Report "Engine does not support newPayloadV4")
  else Ok tt.

(** ** Checkpoint sync *)

Definition DEFAULT_TIMEOUT : Z := 3600000.
Definition POLL_INTERVAL : Z := 2000.

(** What [start.elapsed()] is at the n-th poll, after n + 1 sleeps. *)
Definition elapsed (el : Execution) (n : nat) : Z := POLL_INTERVAL * (Z.of_nat n + 1) + Z.of_N (latency el n).

(** The loop from its n-th poll on; [None] when the fuel is used up. *)
Fixpoint poll_block (fuel n : nat) (el : Execution) (target_block_hash : bytes) (target_block_height timeout : Z)
    : option (result AppError ExecutionBlock) :=
  match fuel with
  | O => None
  | S fuel =>
      if decide (timeout < elapsed el n) then Some (Err (Report "Checkpoint sync: timed out"))
      else match block_by_number el n target_block_height with
           | Err e => Some (Err (Report e))
           | Ok (Some b) =>
               if decide (eb_block_hash b = target_block_hash) then Some (Ok b)
               else Some (Err (Report "Checkpoint sync: block hash mismatch"))
           | Ok None => poll_block fuel (S n) el target_block_hash target_block_height timeout
           end
  end.

Definition poll_fuel (timeout : Z) : nat := S (Z.to_nat (timeout / POLL_INTERVAL)).

(** An execution layer that never produces the block is left at the timeout. *)
Lemma poll_returns fuel : ∀ n el hash height timeout,
  timeout < POLL_INTERVAL * (Z.of_nat n + Z.of_nat fuel) → (0 < fuel)%nat →
  (∃ msg, poll_block fuel n el hash height timeout = Some (Err (Report msg)))
  ∨ ∃ b k, poll_block fuel n el hash height timeout = Some (Ok b) ∧ block_by_number el k height = Ok (Some b)
      ∧ eb_block_hash b = hash.
Proof.
  induction fuel as [|fuel IH]; intros n el hash height timeout T F; [lia|]. cbn [poll_block].
  case_decide as E; [left; by eexists|].
  destruct (block_by_number el n height) as [[b|]|e] eqn:B; [|clear B|left; by eexists].
  - case_decide; [right; by exists b, n|left; by eexists].
  - apply IH; unfold elapsed, POLL_INTERVAL in *; lia.
Qed.
Lemma poll_fuel_enough timeout : 0 ≤ timeout → timeout < POLL_INTERVAL * (Z.of_nat 0 + Z.of_nat (poll_fuel timeout)).
Proof.
  intros T. unfold poll_fuel, POLL_INTERVAL. pose proof (Z.div_pos timeout 2000).
  pose proof (Z.mod_pos_bound timeout 2000). pose proof (Z.div_mod timeout 2000). lia.
Qed.

Inductive ReplayBlockError :=
| PayloadMissing (height : Z)
| ReplayOther (e : AppError).

Section Startup.
Context `{PC : ProposalCrypto} {SB : SignatureBytes} {SZ : SszBlockCodec} {PH : PayloadHash} {PF : PayloadFields}.
Context {SM : StoreMessages} `{!EqDecision Signature} `{LO : LruOps}.
Context {CH : CanonicalHash} {TX : Texts} {RL : RlpEncode} {RF : RoundFrom}.

Definition checkpoint_sync (engine : Engine) (el : Execution) (target_block_hash : bytes) (target_block_height : Z)
    (timeout : option Z) : M State AppError ExecutionBlock :=
  let timeout := default DEFAULT_TIMEOUT timeout in
  send (SentForkchoice target_block_hash) ;;;
  fcu_result <-- m_lift (map_err Report (forkchoice_updated engine target_block_hash)) ;;
  match fcu_status fcu_result with
  | StatusSyncing =>
      match poll_block (poll_fuel timeout) 0 el target_block_hash target_block_height timeout with
      | Some r => m_lift r
      | None => m_err (AppPanicked "out of fuel")
      end
  | StatusValid =>
      block <-- m_lift (map_err Report (block_by_number el 0 target_block_height)) ;;
      m_lift (ok_or block (Report "Checkpoint sync: no block at height after Valid FCU"))
  | _ => m_err (Report "Checkpoint sync: unexpected FCU status")
  end.

(** ** Replay *)

(** [From<eyre::Report>] at a [?]. *)
Definition other {A} (m : M State AppError A) : M State ReplayBlockError A := λ s,
  let '(r, s') := m s in (map_err ReplayOther r, s').

Definition replay_block (nd : Node) (engine : Engine) (height : Z) (previous_block : ExecutionBlock)
    : M State ReplayBlockError ExecutionBlock :=
  found <-- other (on_store (get_payload height)) ;;
  payload <-- m_lift (ok_or found (PayloadMissing height)) ;;
  match check_payload_binding payload height (Some previous_block) with
  | Err _ => m_err (ReplayOther (Report "Replay: payload is not bound to its place in the chain"))
  | Ok _ =>
      answer <-- other (notify_new_block nd payload) ;;
      result <-- other (m_lift (validate_payload answer)) ;;
      match result with
      | PayloadInvalid _ => m_err (ReplayOther (Report "Replay: Execution payload validation failed"))
      | PayloadValid =>
          new_latest <-- other (finalize_decided_block engine payload) ;;
          m_ret new_latest.1
      end
  end.

(** [n] is the number of heights from [replay_height] to [latest_height_cons]. *)
Fixpoint replay_blocks (n : nat) (nd : Node) (engine : Engine) (el : Execution) (latest_height_cons replay_height : Z)
    (latest : ExecutionBlock) : M State AppError ExecutionBlock :=
  match n with
  | O => m_ret latest
  | S n => λ s,
      match replay_block nd engine replay_height latest s with
      | (Ok block, s) =>
          (replay_height <-- m_lift (ok_or (height_increment replay_height) (AppPanicked "block height overflow")) ;;
           replay_blocks n nd engine el latest_height_cons replay_height block) s
      | (Err (PayloadMissing _), s) =>
          (found <-- on_store (get_certificate (Some latest_height_cons)) ;;
           c <-- m_lift (ok_or found (Report "Handshake: no certificate")) ;;
           checkpoint_sync engine el (block_hash (cert_value_id (certificate c))) latest_height_cons None) s
      | (Err (ReplayOther e), s) => (Err e, s)
      end
  end.

Record HandshakeResult := mkHandshakeResult {
  hr_previous_block : ExecutionBlock;
  hr_latest_height : Z;
  hr_next_height : Z;
}.

Definition handshake_and_replay (nd : Node) (engine : Engine) (el : Execution) : M State AppError HandshakeResult :=
  m_lift (check_capabilities el) ;;;
  latest <-- m_lift (map_err Report (latest_block el)) ;;
  latest <-- m_lift (ok_or latest (Report "Handshake: Could not get latest block from execution client")) ;;
  found <-- on_store max_height ;;
  let latest_height_cons := default 0 found in
  if decide (latest_height_cons < eb_block_number latest)
  then m_err (Report (if decide (latest_height_cons = 0)
                      then "Handshake: EL has blocks but CL has no committed state"
                      else "Handshake: inconsistent state"))
  else
    replay_height <-- m_lift (ok_or (height_increment (eb_block_number latest)) (AppPanicked "block height overflow")) ;;
    latest <-- replay_blocks (Z.to_nat (latest_height_cons - eb_block_number latest)) nd engine el latest_height_cons
                 replay_height latest ;;
    next_height <-- m_lift (ok_or (height_increment (eb_block_number latest)) (AppPanicked "block height overflow")) ;;
    m_ret (mkHandshakeResult latest latest_height_cons next_height).

(** ** The handler *)

(** [enforce_pending_proposals_limit] of the handler. *)
Definition enforce_limit_on_startup (max_pending_proposals current_height : Z) : M State AppError unit :=
  on_store (enforce_pending_proposals_limit max_pending_proposals current_height) ;;;
  on_store get_pending_proposal_parts_count ;;;
  m_ret tt.

Definition on_consensus_ready (nd : Node) (engine : Engine) (el : Execution) (max_pending_proposals : Z)
    : M State AppError (Z * ValidatorSet * ConsensusParams * ExecutionBlock) :=
  h <-- handshake_and_replay nd engine el ;;
  enforce_limit_on_startup max_pending_proposals (hr_next_height h) ;;;
  validator_set <-- m_lift (map_err Report (get_signing_validator_set engine (hr_next_height h))) ;;
  let consensus_params := match get_consensus_params engine (hr_latest_height h) with
                          | Ok params => params
                          | Err _ => ConsensusParams_default (default_max_timeout engine)
                          end in
  m_ret (hr_next_height h, validator_set, consensus_params, hr_previous_block h).

Definition with_current_height (h : Z) (s : State) : State :=
  mkState h (st_current_round s) (st_current_proposer s) (st_decision s) (st_sync_state s)
    (st_previous_block s) (st_consensus_params s) (st_validator_set s) (st_proposal_monitor s)
    (st_early_arrivals s) (st_streams_map s) (st_store s) (st_sent s) (st_network_id s)
    (st_stream_nonce s) (st_calls s).

(** [handlers::consensus_ready::handle]; the reply is the start of a height. *)
Definition handle_consensus_ready (env : Env) (nd : Node) (engine : Engine) (el : Execution) : M State AppError unit :=
  max_pending <-- m_lift (max_pending_proposals nd) ;;
  ready <-- on_consensus_ready nd engine el max_pending ;;
  let '(next_height, next_validator_set, next_consensus_params, previous_block) := ready in
  modify (λ s, set_consensus_params next_consensus_params (set_validator_set next_validator_set
                 (with_current_height next_height (with_previous_block (Some previous_block) s)))) ;;;
  if env_reply_open env
  then send (SentNext (NextStart next_height
                         (mkHeightParams next_validator_set (timeouts next_consensus_params) None)))
  else m_ret tt.

End Startup.
