(* ===== verification/StartupProps.v ===== *)
(** * Properties of starting a node

    Where a started node stands, what it told the execution layer to get there, and that a
    node whose execution layer is behind catches up. *)

From S2P Require Import Prelude BTree Validators Proposal ConsensusSpec Codec CodecProps StoreCodec Store StoreCodecProps StoreProps StoreInv StoreQueries Streaming Decide DecideProps Ingest Startup.

Section StartupProps.
Context `{PC : ProposalCrypto} {PCL : ProposalCryptoLaws} {SB : SignatureBytes} {SL : SignatureLaws}.
Context {SZ : SszBlockCodec} {SZL : SszBlockLaws} {PH : PayloadHash} {HL : HashLengths} {PF : PayloadFields}.
Context {SM : StoreMessages} {SML : StoreMessagesLaws} `{!EqDecision Signature} `{LO : LruOps}.
Context {CH : CanonicalHash} {TX : Texts} {RL : RlpEncode} {RF : RoundFrom}.

(** ** Steps of the handshake *)

(** The block of a stored payload, or of a stored certificate. *)
Definition backed (t : Tables) (x : bytes) : Prop :=
  (∃ h p, stored_payload t h = Some p ∧ payload_block_hash p = x)
  ∨ ∃ h c, stored_certificate t h = Some c ∧ block_hash (cert_value_id (certificate c)) = x.

(** The database and the position of the node are the same; the heads [hs], all of stored
    blocks, were sent. *)
Definition told (t : Tables) (hs : list bytes) : list Sent := (λ h, SentForkchoice h t) <$> hs.
Definition same_position (s s' : State) : Prop :=
  st_current_height s' = st_current_height s ∧ st_previous_block s' = st_previous_block s
  ∧ st_validator_set s' = st_validator_set s.
Definition ran (s s' : State) (hs : list bytes) : Prop :=
  tables (st_store s') = tables (st_store s) ∧ st_sent s' = st_sent s ++ told (tables (st_store s)) hs
  ∧ same_position s s' ∧ (true ∈ faults (st_store s') → true ∈ faults (st_store s))
  ∧ Forall (backed (tables (st_store s))) hs.

Lemma ran_refl s : ran s s [].
Proof. split_and!; [done| |done..]. symmetry. apply app_nil_r. Qed.
Lemma ran_trans s s1 s2 h1 h2 : ran s s1 h1 → ran s1 s2 h2 → ran s s2 (h1 ++ h2).
Proof.
  intros (T1 & S1 & (P1 & Q1 & V1) & F1 & B1) (T2 & S2 & (P2 & Q2 & V2) & F2 & B2).
  split_and!; [congruence| |split_and!; congruence|auto|apply Forall_app; by rewrite T1 in B2].
  rewrite S2, S1, T1. unfold told. by rewrite fmap_app, app_assoc.
Qed.
Lemma ran_read {A} (f : Tables → result StoreError A) s : ran s (with_store (with_read f (st_store s)).2 s) [].
Proof. split_and!; [apply read_tables|symmetry; apply app_nil_r|done..|apply read_faults|done]. Qed.
Lemma ran_sent h s : backed (tables (st_store s)) h → ran s (with_sent (SentForkchoice h (tables (st_store s))) s) [h].
Proof. intros B. split_and!; [done..|]. by apply Forall_singleton. Qed.
Lemma ran_calls n s : ran s (with_calls n s) [].
Proof. split_and!; [done| |done..]. symmetry. apply app_nil_r. Qed.

Lemma run_read {A} (f : Tables → result StoreError A) s r s' : on_store (with_read f) s = (r, s') →
  ran s s' [] ∧ (r = Err (AppStore Storage) ∧ true ∈ faults (st_store s) ∨ r = map_err AppStore (f (tables (st_store s)))).
Proof.
  pose proof (ran_read f s) as R. unfold on_store. unfold with_read in *.
  destruct (next_fault (st_store s)) eqn:F; cbn [snd] in R; intros [= <- <-]; (split; [exact R|]).
  - left. split; [done|by apply next_fault_in].
  - by right.
Qed.

Lemma finalize_run engine h p s r s' : stored_payload (tables (st_store s)) h = Some p →
  finalize_decided_block engine p s = (r, s') →
  ran s s' [payload_block_hash p]
  ∧ r = (λ h, (payload_execution_block p, h)) <$> set_latest_forkchoice_state engine (payload_block_hash p).
Proof.
  intros St. unfold finalize_decided_block, m_bind, send, modify, m_lift, m_ret.
  destruct (set_latest_forkchoice_state _ _); intros [= <- <-]; (split; [apply ran_sent; left; by eexists _, _|done]).
Qed.

(** ** Replaying one block *)

(** The payload [p] is stored for the height after [prev], extends it, and the execution layer
    accepted it and made it its head. *)
Definition replayable (nd : Node) (engine : Engine) (t : Tables) (prev : ExecutionBlock) (p : Payload) : Prop :=
  stored_payload t (eb_block_number prev + 1) = Some p
  ∧ payload_block_number p = eb_block_number prev + 1 ∧ payload_parent_hash p = eb_block_hash prev
  ∧ (∃ n, new_payload nd n p = Ok StatusValid)
  ∧ is_ok (set_latest_forkchoice_state engine (payload_block_hash p)) = true.

Definition fuel_error : AppError := AppPanicked "out of fuel".

Lemma binding_chains p prev h : height_increment (eb_block_number prev) = Some h →
  check_payload_binding p h (Some prev) = Ok tt ↔ payload_block_number p = h ∧ payload_parent_hash p = eb_block_hash prev.
Proof.
  unfold height_increment, check_payload_binding. intros ->.
  destruct (decide (payload_block_number p ≠ h)) as [|n]; [naive_solver|]. rewrite decide_False by naive_solver.
  destruct (decide (payload_parent_hash p ≠ eb_block_hash prev)) as [|D]; [naive_solver|]. apply dec_stable in D, n. naive_solver.
Qed.
Lemma validate_accepts a : validate_payload a = Ok PayloadValid ↔ a = Ok StatusValid.
Proof. destruct a as [[]|[]]; cbn; try case_match; naive_solver. Qed.
Lemma validate_no_fuel a e : validate_payload a = Err e → e ≠ fuel_error.
Proof. destruct a as [[]|[]]; cbn; try case_match; naive_solver. Qed.

Definition replay_outcome (nd : Node) (engine : Engine) (prev : ExecutionBlock) (s s' : State)
    (r : result ReplayBlockError ExecutionBlock) : Prop :=
  match r with
  | Ok b => ∃ p, replayable nd engine (tables (st_store s)) prev p ∧ b = payload_execution_block p
              ∧ ran s s' [payload_block_hash p]
  | Err (PayloadMissing _) => bt_get (eb_block_number prev + 1) (decided_blocks (tables (st_store s))) = None ∧ ran s s' []
  | Err (ReplayOther e) => e ≠ fuel_error ∧ ∃ hs, ran s s' hs
  end.

Lemma replay_block_run nd engine h prev s r s' : height_increment (eb_block_number prev) = Some h →
  replay_block nd engine h prev s = (r, s') → replay_outcome nd engine prev s s' r.
Proof.
  intros I H. pose proof I as [-> _]%checked_add_inv. unfold replay_block in H.
  apply m_bind_cases in H as [(found & s1 & G & H)|(e & G & ->)]; unfold other in G;
    destruct (on_store (get_payload _) s) as [rg sg] eqn:E; apply run_read in E as [R E].
  2: { injection G as G <-. destruct E as [[-> _]|E]; [by destruct e; cbn in *; simplify_eq; eauto|].
       rewrite E in G. destruct (read_payload _ _) as [|x]; [done|]. cbn in G. injection G as <-. cbn. eauto. }
  injection G as G <-. destruct E as [[-> _]|E]; [done|]. rewrite E in G.
  unfold read_payload in G. destruct (bt_get _ (decided_blocks _)) as [b|] eqn:B; cbn in G.
  2: { injection G as <-. cbn in H. unfold m_bind, m_lift in H. cbn in H. injection H as <- <-. by split. }
  destruct (decode_execution_payload b) as [p|] eqn:D; [|done]. cbn in G. injection G as <-.
  unfold m_bind at 1, m_lift at 1 in H. cbn [ok_or] in H.
  destruct (check_payload_binding p _ _) as [[]|] eqn:C; [|injection H as <- <-; cbn; eauto].
  apply (binding_chains _ _ _ I) in C as [N P].
  unfold m_bind at 1, other at 1, notify_new_block in H. cbn [map_err] in H.
  pose proof (ran_trans _ _ _ _ _ R (ran_calls (S (st_calls sg)) sg)) as R1. cbn [app] in R1.
  set (s1 := with_calls _ sg) in *. unfold m_bind at 1, other at 1, m_lift in H.
  destruct (validate_payload _) as [[|m]|e] eqn:V; cbn [map_err] in H.
  2: { injection H as <- <-. cbn. eauto. }
  2: { injection H as <- <-. cbn. split; [by eapply validate_no_fuel|eauto]. }
  apply validate_accepts in V. unfold m_bind, other in H.
  assert (stored_payload (tables (st_store s1)) (eb_block_number prev + 1) = Some p) as St.
  { rewrite (proj1 R1). unfold stored_payload. rewrite B. cbn. by rewrite D. }
  destruct (finalize_decided_block engine p s1) as [rf sf] eqn:F. apply (finalize_run _ _ _ _ _ _ St) in F as [R2 ->].
  pose proof (ran_trans _ _ _ _ _ R1 R2) as R3. cbn [app] in R3.
  destruct (set_latest_forkchoice_state engine _) as [x|e] eqn:L; cbn in H; injection H as <- <-; cbn.
  - exists p. rewrite (proj1 R1) in St. split; [|by split]. split_and!; [done..|eauto|by rewrite L].
  - apply set_latest_report in L as [m ->]. eauto.
Qed.

(** ** Checkpoint sync *)

(** The execution layer reports block [b] at [h]; it is the target unless the execution layer
    answered at once that it has it. *)
Definition reported (engine : Engine) (el : Execution) (target : bytes) (h : Z) (b : ExecutionBlock) : Prop :=
  (∃ k, block_by_number el k h = Ok (Some b))
  ∧ (eb_block_hash b = target ∨ fcu_status <$> result_ok (forkchoice_updated engine target) = Some StatusValid).

Lemma checkpoint_run engine el target h s r s' : backed (tables (st_store s)) target →
  checkpoint_sync engine el target h None s = (r, s') →
  ran s s' [target]
  ∧ match r with Ok b => reported engine el target h b | Err e => e ≠ fuel_error end.
Proof.
  intros Bk. unfold checkpoint_sync, m_bind at 1, send, modify. set (s1 := with_sent _ s).
  assert (ran s s1 [target]) as R by (by apply ran_sent). unfold m_bind at 1, m_lift at 1, reported.
  destruct (forkchoice_updated engine target) as [fcu|e]; cbn [map_err result_ok fmap option_fmap option_map];
    [|by intros [= <- <-]].
  destruct (fcu_status fcu); [|by intros [= <- <-]| |by intros [= <- <-]].
  - unfold m_bind, m_lift. destruct (block_by_number el 0 h) as [[b|]|e] eqn:B; cbn; intros [= <- <-]; [|done..]. eauto.
  - cbn [default].
    destruct (poll_returns (poll_fuel DEFAULT_TIMEOUT) 0 el target h DEFAULT_TIMEOUT) as [(m & ->)|(b & k & -> & B & E)];
      [by apply poll_fuel_enough|unfold poll_fuel; lia| |]; intros [= <- <-]; eauto.
Qed.

(** ** Replaying the missing blocks *)

Fixpoint chained (nd : Node) (engine : Engine) (t : Tables) (prev : ExecutionBlock) (ps : list Payload) : Prop :=
  match ps with
  | [] => True
  | p :: ps => replayable nd engine t prev p ∧ chained nd engine t (payload_execution_block p) ps
  end.
Definition tip (prev : ExecutionBlock) (ps : list Payload) : ExecutionBlock :=
  foldl (λ _ p, payload_execution_block p) prev ps.

(** From [prev], the payloads [ps] were replayed; they reach [cons], or the next one is not
    stored and the execution layer was sent after the block of the certificate of [cons]. *)
Definition caught_up (nd : Node) (engine : Engine) (el : Execution) (t : Tables) (cons : Z)
    (prev : ExecutionBlock) (ps : list Payload) (b : ExecutionBlock) (checkpoint : list bytes) : Prop :=
  chained nd engine t prev ps
  ∧ (b = tip prev ps ∧ eb_block_number b = cons ∧ checkpoint = []
     ∨ ∃ c, eb_block_number (tip prev ps) < cons
         ∧ bt_get (eb_block_number (tip prev ps) + 1) (decided_blocks t) = None
         ∧ stored_certificate t cons = Some c ∧ checkpoint = [block_hash (cert_value_id (certificate c))]
         ∧ reported engine el (block_hash (cert_value_id (certificate c))) cons b).

(** The parent a node resumes on, for an execution layer whose head was [head]: that head, if it was at the
    height [top] already; the block of the payload stored for [top]; or the block reported at [top] after
    the execution layer was sent after the hash of its certificate. *)
Definition resumed_on (engine : Engine) (el : Execution) (t : Tables) (top : Z) (head prev : ExecutionBlock) : Prop :=
  if decide (eb_block_number head = top) then prev = head
  else (∃ p, stored_payload t top = Some p ∧ prev = payload_execution_block p)
       ∨ ∃ c, stored_certificate t top = Some c ∧ reported engine el (block_hash (cert_value_id (certificate c))) top prev.

Lemma tip_stored nd engine t prev ps : chained nd engine t prev ps → ps ≠ [] →
  eb_block_number prev < eb_block_number (tip prev ps)
  ∧ ∃ p, stored_payload t (eb_block_number (tip prev ps)) = Some p ∧ tip prev ps = payload_execution_block p.
Proof.
  revert prev. induction ps as [|p [|q ps] IH]; intros prev C N; [done| |].
  - destruct C as [(St & Np & _) _]. cbn. rewrite Np. split; [lia|]. by exists p.
  - destruct C as [(_ & Np & _) C]. destruct (IH _ C) as [L X]; [done|]. split; [|exact X]. cbn in *. lia.
Qed.
Lemma caught_up_parent nd engine el t top head ps prev ck : eb_block_number head ≤ top →
  caught_up nd engine el t top head ps prev ck → resumed_on engine el t top head prev.
Proof.
  intros L [C U]. unfold resumed_on.
  destruct (decide (ps = [])) as [->|N].
  - destruct U as [(-> & E & _)|(c & Lt & _ & St & _ & R)]; cbn in *; [by rewrite decide_True|].
    rewrite decide_False by lia. right. by exists c.
  - destruct (tip_stored _ _ _ _ _ C N) as [Lt (p & St & E)].
    destruct U as [(-> & <- & _)|(c & Lc & _ & Sc & _ & R)]; (rewrite decide_False by lia); [left; by exists p|right; by exists c].
Qed.

Definition replays_outcome (nd : Node) (engine : Engine) (el : Execution) (cons : Z) (prev : ExecutionBlock)
    (s s' : State) (r : result AppError ExecutionBlock) : Prop :=
  match r with
  | Ok b => ∃ ps ck, caught_up nd engine el (tables (st_store s)) cons prev ps b ck
              ∧ ran s s' ((payload_block_hash <$> ps) ++ ck)
  | Err e => e ≠ fuel_error ∧ ∃ hs, ran s s' hs
  end.

Lemma missing_run nd engine el cons prev s r s' :
  eb_block_number prev < cons →
  bt_get (eb_block_number prev + 1) (decided_blocks (tables (st_store s))) = None →
  (found <-- on_store (get_certificate (Some cons)) ;;
   c <-- m_lift (ok_or found (Report "Handshake: no certificate")) ;;
   checkpoint_sync engine el (block_hash (cert_value_id (certificate c))) cons None) s = (r, s') →
  replays_outcome nd engine el cons prev s s' r.
Proof.
  intros L M H. unfold get_certificate in H. unfold m_bind at 1 in H.
  destruct (on_store _ s) as [rg s1] eqn:E. apply run_read in E as [R E].
  destruct E as [[-> _]| ->]; cbn [map_err] in H; [injection H as <- <-; cbn; eauto|].
  fold (stored_certificate (tables (st_store s)) cons) in H. unfold m_bind, m_lift in H.
  destruct (stored_certificate _ cons) as [c|] eqn:C; cbn [ok_or] in H; [|injection H as <- <-; cbn; eauto].
  apply checkpoint_run in H as [R2 H]; [|right; rewrite (proj1 R); by eexists _, _]. pose proof (ran_trans _ _ _ _ _ R R2) as R3. cbn [app] in R3.
  destruct r as [b|e]; cbn; [|by eauto]. eexists [], _. split; [|exact R3].
  split; [done|]. right. exists c. by split_and!.
Qed.

Lemma replay_blocks_run nd engine el cons n : ∀ h prev s r s',
  height_increment (eb_block_number prev) = Some h → eb_block_number prev + Z.of_nat n = cons →
  replay_blocks n nd engine el cons h prev s = (r, s') → replays_outcome nd engine el cons prev s s' r.
Proof.
  induction n as [|n IH]; intros h prev s r s' I N H; cbn [replay_blocks] in H.
  { injection H as <- <-. exists [], []. split; [|apply ran_refl]. split; [done|]. left. cbn. by rewrite <- N, Z.add_0_r. }
  destruct (replay_block nd engine h prev s) as [rb s1] eqn:E. pose proof I as [-> _]%checked_add_inv.
  apply (replay_block_run _ _ _ _ _ _ _ I) in E. destruct rb as [b|[h'|e]]; cbn in E.
  - destruct E as (p & P & -> & R). pose proof P as (_ & Np & _). unfold m_bind, m_lift in H. rewrite <- Np in H.
    destruct (height_increment (payload_block_number p)) as [h'|] eqn:I'; cbn [ok_or] in H;
      [|injection H as <- <-; cbn; eauto].
    apply IH in H; [|exact I'|cbn; lia]. pose proof R as (T & _). destruct r as [b|e]; cbn in H |- *.
    + destruct H as (ps & ck & (C & U) & R2). rewrite T in C, U. exists (p :: ps), ck. split; [by split|].
      cbn. apply (ran_trans _ _ _ [_] _ R R2).
    + destruct H as (F & hs & R2). split; [done|]. eexists. apply (ran_trans _ _ _ _ _ R R2).
  - destruct E as (M & R). eapply missing_run in H; [| |rewrite (proj1 R); exact M]; [|lia]. pose proof R as (T & _).
    destruct r as [b|e]; cbn in *.
    + destruct H as (ps & ck & U & R2). rewrite T in U. exists ps, ck. split; [exact U|]. apply (ran_trans _ _ _ [] _ R R2).
    + destruct H as (F & hs & R2). split; [done|]. exists hs. apply (ran_trans _ _ _ [] _ R R2).
  - injection H as <- <-. exact E.
Qed.

(** ** The handshake *)

(** The highest decided height of the database. *)
Definition decided_height (t : Tables) : Z := default 0 (fst <$> last (certificates t)).

Definition handshake_outcome (nd : Node) (engine : Engine) (el : Execution) (s s' : State)
    (r : result AppError HandshakeResult) : Prop :=
  let t := tables (st_store s) in
  match r with
  | Ok h => ∃ b ps ck, latest_block el = Ok (Some b) ∧ eb_block_number b ≤ decided_height t
      ∧ caught_up nd engine el t (decided_height t) b ps (hr_previous_block h) ck
      ∧ hr_latest_height h = decided_height t
      ∧ height_increment (eb_block_number (hr_previous_block h)) = Some (hr_next_height h)
      ∧ ran s s' ((payload_block_hash <$> ps) ++ ck)
  | Err e => e ≠ fuel_error ∧ ∃ hs, ran s s' hs
      ∧ ∀ b, latest_block el = Ok (Some b) → decided_height t < eb_block_number b → hs = []
  end.

Lemma capabilities_no_fuel el e : check_capabilities el = Err e → e ≠ fuel_error.
Proof. unfold check_capabilities. destruct (exchange_capabilities el); cbn; repeat case_match; naive_solver. Qed.

Lemma handshake_run nd engine el s r s' : handshake_and_replay nd engine el s = (r, s') →
  handshake_outcome nd engine el s s' r.
Proof.
  intros H. pose proof (ran_refl s) as R0. unfold handshake_and_replay in H. unfold m_bind at 1, m_lift at 1 in H.
  destruct (check_capabilities el) as [[]|e] eqn:C.
  2: { injection H as <- <-. split; [by eapply capabilities_no_fuel|]. by exists []. }
  unfold m_bind at 1, m_lift at 1 in H. destruct (latest_block el) as [ob|e] eqn:B; cbn [map_err] in H;
    [|injection H as <- <-; split; [done|by exists []]].
  unfold m_bind at 1, m_lift at 1 in H. destruct ob as [b|]; cbn [ok_or] in H;
    [|injection H as <- <-; split; [done|by exists []]].
  unfold m_bind at 1, max_height, limit_height in H. destruct (on_store _ s) as [rg s1] eqn:E.
  apply run_read in E as [R E].
  assert (∀ e, e ≠ fuel_error → handshake_outcome nd engine el s s1 (Err e)) as Q by (intros e F; split; [done|by exists []]).
  destruct E as [[-> _]| ->]; cbn [map_err] in H; [injection H as <- <-; by apply Q|].
  cbv zeta in H. fold (decided_height (tables (st_store s))) in H. case_decide as D.
  { injection H as <- <-. by apply Q. }
  unfold m_bind at 1, m_lift at 1 in H. destruct (height_increment (eb_block_number b)) as [h|] eqn:I; cbn [ok_or] in H;
    [|injection H as <- <-; by apply Q].
  unfold m_bind at 1 in H. destruct (replay_blocks _ _ _ _ _ _ _ s1) as [rb s2] eqn:E.
  apply replay_blocks_run in E; [|exact I|lia]. pose proof R as (T & _).
  destruct rb as [b'|e]; cbn in E.
  2: { injection H as <- <-. destruct E as (F & hs & R2). split; [done|]. exists hs.
       split; [exact (ran_trans _ _ _ [] _ R R2)|]. intros x Bx. rewrite B in Bx. injection Bx as <-. lia. }
  destruct E as (ps & ck & U & R2). rewrite T in U. pose proof (ran_trans _ _ _ [] _ R R2) as R3. cbn [app] in R3.
  unfold m_bind, m_lift, m_ret in H. destruct (height_increment (eb_block_number b')) as [h'|] eqn:I'; cbn [ok_or] in H;
    injection H as <- <-.
  - exists b, ps, ck. split_and!; [done|lia|exact U|done|exact I'|exact R3].
  - split; [done|]. eexists. split; [exact R3|]. intros x Bx. rewrite B in Bx. injection Bx as <-. lia.
Qed.

(** ** The handler *)

(** At most the allowed number of pending proposals is left, none below [h] or too far above. *)
Definition pending_limited (max h : Z) (t : Tables) : Prop :=
  Z.of_nat (length (pending_proposal_parts t)) ≤ max
  ∧ Forall (λ kv : BlockKey * bytes, in_window h (h + max - 1) kv.1) (pending_proposal_parts t).

(** Nothing but the pending proposals changed. *)
Definition trimmed (s s' : State) : Prop :=
  store_ok (tables (st_store s')) ∧ same_decided (tables (st_store s)) (tables (st_store s'))
  ∧ st_sent s' = st_sent s ∧ same_position s s'.

Lemma enforce_run max h s r s' : uint 64 max → uint 64 h → store_ok (tables (st_store s)) →
  enforce_limit_on_startup max h s = (r, s') →
  trimmed s s'
  ∧ match r with
    | Ok _ => pending_limited max h (tables (st_store s'))
    | Err e => e ≠ fuel_error ∧ (true ∈ faults (st_store s) ∨ max = 0 ∨ uint_max 64 < h + max - 1)
    end.
Proof.
  intros Um Uh O H. unfold enforce_limit_on_startup, m_bind at 1, on_store at 1 in H.
  pose proof (pending_limit_enforced max h (st_store s) Um Uh (ok_wf _ _ O)) as X.
  pose proof (db_keeps_enforce max h (st_store s) O) as K.
  assert (true ∈ faults (enforce_pending_proposals_limit max h (st_store s)).2 → true ∈ faults (st_store s)) as F
    by apply write_faults.
  destruct (enforce_pending_proposals_limit max h (st_store s)) as [[removed|e] db]; cbn [map_err snd] in *.
  2: { injection H as <- <-. destruct X as [T X]. split; [split_and!; [exact K|cbn; by rewrite T|done..]|].
       split; [done|]. destruct X as [[_ X]|[_ X]]; [by left|by right]. }
  destruct X as (T & L & _). unfold m_bind, m_ret in H.
  destruct (on_store get_pending_proposal_parts_count _) as [rc s2] eqn:E.
  apply run_read in E as [(T2 & S2 & P2 & _) E]. cbn in T2, S2, E. rewrite app_nil_r in S2.
  assert (trimmed s s2) as Tr.
  { split_and!; [rewrite T2; exact K| |exact S2|exact P2]. rewrite T2, T. by destruct (tables (st_store s)). }
  destruct E as [[-> Fc]| ->]; cbn in H; injection H as <- <-.
  - split; [exact Tr|]. split; [done|]. left. auto.
  - split; [exact Tr|]. unfold pending_limited. rewrite T2, T. destruct (tables (st_store s)) as [c0 d0 e0 i0 m0 u0 q0]. cbn in *.
    split; [exact L|]. apply Forall_take, Forall_forall. by intros kv [? _]%list_elem_of_filter.
Qed.

Definition startup_params (engine : Engine) (top : Z) : ConsensusParams :=
  match get_consensus_params engine top with
  | Ok params => params
  | Err _ => ConsensusParams_default (default_max_timeout engine)
  end.
Definition startup_reply (env : Env) (top : Z) (s : State) : list Sent :=
  if env_reply_open env
  then [SentNext (NextStart (top + 1) (mkHeightParams (st_validator_set s) (timeouts (st_consensus_params s)) None))
          (tables (st_store s))]
  else [].

(** The node is at the height after the decided ones, on top of the last of them. *)
Definition started (env : Env) (nd : Node) (engine : Engine) (prev : ExecutionBlock) (hs : list bytes) (s s' : State) : Prop :=
  let t := tables (st_store s) in
  let top := decided_height t in
  eb_block_number prev = top ∧ st_previous_block s' = Some prev ∧ st_current_height s' = top + 1
  ∧ get_signing_validator_set engine (top + 1) = Ok (st_validator_set s')
  ∧ st_consensus_params s' = startup_params engine top
  ∧ (∃ max, max_pending_proposals nd = Ok max ∧ pending_limited max (top + 1) (tables (st_store s')))
  ∧ st_sent s' = st_sent s ++ told t hs ++ startup_reply env top s'.

Lemma max_pending_uint nd max : max_pending_proposals nd = Ok max → uint 64 max ∧ 0 < max.
Proof.
  unfold max_pending_proposals. destruct (checked_mul _ _ _) as [m|] eqn:E; cbn; [|done].
  case_decide; [|done]. intros [= <-]. by apply try_from_inv in E as [-> ?].
Qed.
Lemma max_pending_no_fuel nd e : max_pending_proposals nd = Err e → e ≠ fuel_error.
Proof. unfold max_pending_proposals. destruct (checked_mul _ _ _); cbn; [case_decide|]; naive_solver. Qed.

(** A failed start: nothing of the decided blocks or of the position changed. *)
Definition start_failed (el : Execution) (s s' : State) (e : AppError) : Prop :=
  e ≠ fuel_error ∧ same_position s s'
  ∧ ∃ hs, st_sent s' = st_sent s ++ told (tables (st_store s)) hs ∧ Forall (backed (tables (st_store s))) hs
      ∧ ∀ b, latest_block el = Ok (Some b) → decided_height (tables (st_store s)) < eb_block_number b → hs = [].

Lemma caught_up_number nd engine el t top b ps prev ck :
  (∀ n h x, block_by_number el n h = Ok (Some x) → eb_block_number x = h) →
  caught_up nd engine el t top b ps prev ck → eb_block_number prev = top.
Proof. intros A (_ & [(_ & E & _)|(c & _ & _ & _ & _ & (k & B) & _)]); [exact E|by eapply A]. Qed.

Lemma caught_up_backed nd engine el t top b ps prev ck :
  caught_up nd engine el t top b ps prev ck → Forall (backed t) ((payload_block_hash <$> ps) ++ ck).
Proof.
  intros [C U]. apply Forall_app. split.
  - clear U. revert b C. induction ps as [|p ps IH]; intros b C; [constructor|]. destruct C as [(St & _) C].
    constructor; [left; by eexists _, p|by eapply IH].
  - destruct U as [(_ & _ & ->)|(c & _ & _ & St & -> & _)]; [constructor|]. apply Forall_singleton. right. by eexists _, c.
Qed.

Definition ready_outcome (nd : Node) (engine : Engine) (el : Execution) (max : Z) (s s' : State)
    (r : result AppError (Z * ValidatorSet * ConsensusParams * ExecutionBlock)) : Prop :=
  let t := tables (st_store s) in
  let top := decided_height t in
  store_ok (tables (st_store s')) ∧ same_decided t (tables (st_store s'))
  ∧ match r with
    | Ok (h, vs, params, prev) => ∃ b ps ck,
        latest_block el = Ok (Some b) ∧ eb_block_number b ≤ top ∧ caught_up nd engine el t top b ps prev ck
        ∧ eb_block_number prev = top ∧ h = top + 1 ∧ get_signing_validator_set engine (top + 1) = Ok vs
        ∧ params = startup_params engine top ∧ pending_limited max (top + 1) (tables (st_store s'))
        ∧ st_sent s' = st_sent s ++ told t ((payload_block_hash <$> ps) ++ ck)
    | Err e => start_failed el s s' e
    end.

Lemma ready_run nd engine el max s r s' : uint 64 max → store_ok (tables (st_store s)) →
  (∀ n h b, block_by_number el n h = Ok (Some b) → eb_block_number b = h) →
  on_consensus_ready nd engine el max s = (r, s') → ready_outcome nd engine el max s s' r.
Proof.
  intros Um O A H. unfold on_consensus_ready, m_bind at 1 in H.
  destruct (handshake_and_replay nd engine el s) as [rh s1] eqn:E. apply handshake_run in E.
  destruct rh as [h|e]; cbn in E.
  2: { injection H as <- <-. destruct E as (F & hs & (T & S & P & _ & Bk) & N). unfold ready_outcome. rewrite T.
       split; [exact O|]. split; [done|]. split; [exact F|]. split; [exact P|]. by exists hs. }
  destruct E as (b & ps & ck & B & L & U & HL' & I & (T & S & P & _ & Bk)).
  pose proof (caught_up_number _ _ _ _ _ _ _ _ _ A U) as N. rewrite N in I. apply checked_add_inv in I as [I Uh].
  unfold m_bind at 1 in H. destruct (enforce_limit_on_startup max (hr_next_height h) s1) as [re s2] eqn:E.
  apply enforce_run in E as ((O2 & D2 & S2 & P2) & E); [|done..|by rewrite T].
  rewrite T in D2. rewrite S in S2.
  assert (same_position s s2) as Q by (destruct P as (? & ? & ?), P2 as (? & ? & ?); split_and!; congruence).
  assert (∀ e, e ≠ fuel_error → start_failed el s s2 e) as X.
  { intros e F. split_and!; [done|exact Q|]. eexists. split; [exact S2|]. split; [exact Bk|].
    intros x Bx. rewrite B in Bx. injection Bx as <-. lia. }
  destruct re as [[]|e].
  2: { injection H as <- <-. split_and!; [exact O2|exact D2|]. apply X, E. }
  unfold m_bind, m_lift, m_ret in H. rewrite I in H, E. rewrite HL' in H.
  destruct (get_signing_validator_set engine _) as [vs|e] eqn:V; cbn [map_err] in H; injection H as <- <-.
  - split_and!; [exact O2|exact D2|]. exists b, ps, ck. by split_and!.
  - split_and!; [exact O2|exact D2|]. by apply X.
Qed.

Lemma startup_handled env nd engine el s :
  store_ok (tables (st_store s)) →
  (∀ n h b, block_by_number el n h = Ok (Some b) → eb_block_number b = h) →
  let '(r, s') := handle_consensus_ready env nd engine el s in
  let t := tables (st_store s) in
  store_ok (tables (st_store s')) ∧ same_decided t (tables (st_store s'))
  ∧ match r with
    | Ok _ => ∃ b ps ck prev,
        latest_block el = Ok (Some b) ∧ eb_block_number b ≤ decided_height t
        ∧ caught_up nd engine el t (decided_height t) b ps prev ck
        ∧ started env nd engine prev ((payload_block_hash <$> ps) ++ ck) s s'
    | Err e => start_failed el s s' e
    end.
Proof.
  intros O A. unfold handle_consensus_ready, m_bind at 1, m_lift.
  destruct (max_pending_proposals nd) as [max|e] eqn:Mx.
  2: { split_and!; [exact O|done..|]. split_and!; [by eapply max_pending_no_fuel|done|]. exists []. split; [|done].
       symmetry. apply app_nil_r. }
  pose proof (max_pending_uint _ _ Mx) as [Um _]. unfold m_bind at 1.
  destruct (on_consensus_ready nd engine el max s) as [r s1] eqn:E. apply ready_run in E; [|done..].
  destruct E as (O1 & D1 & E). destruct r as [[[[h vs] params] prev]|e]; [|done].
  destruct E as (b & ps & ck & B & L & U & N & -> & V & -> & Pl & S). unfold m_bind, modify, send.
  unfold started, startup_reply. destruct (env_reply_open env); cbn -[told caught_up startup_params];
    (split_and!; [exact O1|exact D1|]); exists b, ps, ck, prev; (split_and!; [done..|by eexists|]); rewrite S.
  - by rewrite <- !app_assoc.
  - by rewrite app_nil_r.
Qed.

(** C11: A node resumes exactly after what it decided.  When startup succeeds, the execution layer
    was not ahead of the decided heights, and the node starts at the height after the last
    decided one, with the validators and parameters for it, and tells consensus so once.  Its
    parent has the last decided height: it is the block of the payload stored for that height; or, after a
    checkpoint sync, the block the execution layer reports there, whose hash is the one in the certificate
    unless the execution layer answered that it has that hash already; or the head of the execution layer,
    as it reports it, if that is at the last decided height at startup.  On the way there the execution layer is
    given, in order, the stored payloads of the heights it lacks, each accepted by it and
    extending the one before; from the first height whose payload is not stored on, instead,
    the hash in the certificate of the last decided height.  The wait for that sync always ends.
    When startup fails the position of the node is as it was and nothing is said to consensus;
    the execution layer was only told of blocks whose payload or certificate is stored, and one
    that is ahead is not touched.  The decided blocks and certificates never
    change, and at most the allowed number of pending proposals is kept. *)
Theorem startup_resumes_after_decided env nd engine el s :
  store_ok (tables (st_store s)) →
  (∀ n h b, block_by_number el n h = Ok (Some b) → eb_block_number b = h) →
  let '(r, s') := handle_consensus_ready env nd engine el s in
  let t := tables (st_store s) in
  store_ok (tables (st_store s')) ∧ same_decided t (tables (st_store s'))
  ∧ match r with
    | Ok _ => ∃ b ps ck prev,
        latest_block el = Ok (Some b) ∧ eb_block_number b ≤ decided_height t
        ∧ caught_up nd engine el t (decided_height t) b ps prev ck
        ∧ resumed_on engine el t (decided_height t) b prev
        ∧ started env nd engine prev ((payload_block_hash <$> ps) ++ ck) s s'
    | Err e => start_failed el s s' e
    end.
Proof.
  intros O A. pose proof (startup_handled env nd engine el s O A) as H.
  destruct (handle_consensus_ready _ _ _ _ _) as [[[]|e] s']; [|exact H].
  destruct H as (O' & D & b & ps & ck & prev & B & L & U & S). split; [done|]. split; [done|]. exists b, ps, ck, prev.
  split_and!; [done..|by eapply caught_up_parent|done].
Qed.

(** ** Catching up *)

Lemma run_read_ok {A} (f : Tables → result StoreError A) s a : true ∉ faults (st_store s) →
  f (tables (st_store s)) = Ok a → ∃ s1, on_store (with_read f) s = (Ok a, s1) ∧ ran s s1 [].
Proof.
  intros F E. destruct (on_store (with_read f) s) as [r s1] eqn:H. apply run_read in H as [R [[_ ?]| ->]]; [done|].
  rewrite E. by exists s1.
Qed.

(** The execution layer accepts the payload whenever it is given. *)
Definition accepted (nd : Node) (p : Payload) : Prop := ∀ n, new_payload nd n p = Ok StatusValid.

Lemma replay_block_ok nd engine prev p s : true ∉ faults (st_store s) →
  uint 64 (eb_block_number prev) → uint 64 (eb_block_number prev + 1) →
  replayable nd engine (tables (st_store s)) prev p → accepted nd p →
  ∃ s', replay_block nd engine (eb_block_number prev + 1) prev s = (Ok (payload_execution_block p), s')
    ∧ ran s s' [payload_block_hash p].
Proof.
  intros F U U1 (St & N & Pa & _ & L) Ac.
  assert (height_increment (eb_block_number prev) = Some (eb_block_number prev + 1)) as I.
  { by apply try_from_Some. }
  destruct (run_read_ok (λ t, read_payload t (eb_block_number prev + 1)) s (Some p)) as (s1 & E & R1); [done| |].
  { unfold stored_payload in St. unfold read_payload. destruct (bt_get _ _) as [b|]; [|done]. cbn in *.
    by destruct (decode_execution_payload b); simplify_eq/=. }
  destruct (replay_block nd engine (eb_block_number prev + 1) prev s) as [r s'] eqn:H. pose proof H as Q.
  apply (replay_block_run _ _ _ _ _ _ _ I) in Q. unfold replay_block, get_payload in H.
  unfold m_bind at 1, other at 1 in H. rewrite E in H. cbn [map_err] in H. unfold m_bind at 1, m_lift at 1 in H. cbn [ok_or] in H.
  rewrite (proj2 (binding_chains p prev _ I) (conj N Pa)) in H.
  unfold m_bind at 1, other at 1, notify_new_block in H. cbn [map_err] in H. rewrite Ac in H.
  unfold m_bind, other, m_lift, m_ret in H. cbn [validate_payload map_err] in H.
  destruct (finalize_decided_block engine p _) as [rf sf] eqn:Fi. apply (finalize_run _ (eb_block_number prev + 1)) in Fi as [_ ->];
    [|cbn; by rewrite (proj1 R1)].
  destruct (set_latest_forkchoice_state engine _); [|done]. cbn in H. injection H as <- <-.
  eexists. split; [done|]. destruct Q as (p' & (St' & _) & _ & R). rewrite St in St'. by injection St' as <-.
Qed.

Lemma replay_blocks_ok nd engine el cons ps : ∀ prev s, true ∉ faults (st_store s) →
  uint 64 (eb_block_number prev) → eb_block_number prev + Z.of_nat (length ps) = cons → cons < uint_max 64 →
  chained nd engine (tables (st_store s)) prev ps → Forall (accepted nd) ps →
  ∃ s', replay_blocks (length ps) nd engine el cons (eb_block_number prev + 1) prev s = (Ok (tip prev ps), s')
    ∧ ran s s' (payload_block_hash <$> ps).
Proof.
  induction ps as [|p ps IH]; intros prev s F U N B C Ac; cbn [length replay_blocks tip foldl].
  { exists s. split; [done|apply ran_refl]. }
  destruct C as [P C]. apply Forall_cons in Ac as [Ap Ac]. cbn [length] in N.
  destruct (replay_block_ok nd engine prev p s F U) as (s1 & -> & R); [ints|done..|]. pose proof P as (_ & Np & _).
  unfold m_bind, m_lift.
  assert (height_increment (eb_block_number prev + 1) = Some (payload_block_number p + 1)) as ->.
  { unfold height_increment, checked_add. rewrite Np. apply try_from_Some. ints. }
  cbn [ok_or]. destruct R as (T & R). edestruct (IH (payload_execution_block p) s1) as (s2 & E2 & R2).
  - intros X. by apply F, R.
  - cbn. rewrite Np. ints.
  - cbn. lia.
  - done.
  - by rewrite T.
  - done.
  - exists s2. split; [exact E2|]. apply (ran_trans _ _ _ [_] _ (conj T R) R2).
Qed.

Lemma tip_number nd engine t ps : ∀ prev, chained nd engine t prev ps →
  eb_block_number (tip prev ps) = eb_block_number prev + Z.of_nat (length ps).
Proof.
  induction ps as [|p ps IH]; intros prev C; cbn; [lia|]. destruct C as [(_ & N & _) C].
  pose proof (IH _ C) as E. unfold tip in E. rewrite E. cbn. lia.
Qed.

Lemma handshake_ok nd engine el s b ps : true ∉ faults (st_store s) → check_capabilities el = Ok tt →
  latest_block el = Ok (Some b) → uint 64 (eb_block_number b) →
  let top := decided_height (tables (st_store s)) in
  chained nd engine (tables (st_store s)) b ps → Forall (accepted nd) ps →
  eb_block_number b + Z.of_nat (length ps) = top → top < uint_max 64 →
  ∃ s', handshake_and_replay nd engine el s = (Ok (mkHandshakeResult (tip b ps) top (top + 1)), s')
    ∧ ran s s' (payload_block_hash <$> ps).
Proof.
  intros F C B U top Ch Ac N T. unfold handshake_and_replay. unfold m_bind at 1, m_lift at 1. rewrite C.
  unfold m_bind at 1, m_lift at 1. rewrite B. cbn [map_err]. unfold m_bind at 1, m_lift at 1. cbn [ok_or].
  destruct (run_read_ok (λ t, Ok (fst <$> last (certificates t))) s (fst <$> last (certificates (tables (st_store s))))
    F eq_refl) as (s1 & E & R). unfold m_bind at 1, max_height, limit_height. rewrite E. cbv zeta.
  fold (decided_height (tables (st_store s))). fold top. rewrite decide_False by lia.
  assert (height_increment (eb_block_number b) = Some (eb_block_number b + 1)) as -> by (apply try_from_Some; ints).
  unfold m_bind at 1, m_lift at 1. cbn [ok_or]. replace (Z.to_nat (top - eb_block_number b)) with (length ps) by lia.
  pose proof R as (Tt & _ & _ & Fs & _).
  destruct (replay_blocks_ok nd engine el top ps b s1) as (s2 & E2 & R2); [auto|done..|by rewrite Tt|done|].
  unfold m_bind at 1. rewrite E2. rewrite (tip_number _ _ _ _ _ Ch), N.
  assert (height_increment top = Some (top + 1)) as -> by (apply try_from_Some; ints).
  exists s2. split; [done|]. exact (ran_trans _ _ _ [] _ R R2).
Qed.

(** C37: A node whose execution layer is behind catches up.  If the execution layer can be
    reached and accepts blocks, the payloads of the heights it lacks are stored and form a
    chain on its head, the database does not fail and the next height is in range, then
    startup succeeds: every one of these payloads is made the head in turn, no checkpoint is
    needed, and the node starts at the height after the last decided one on top of the last
    payload. *)
Theorem startup_catches_up env nd engine el s b ps max vs :
  store_ok (tables (st_store s)) → true ∉ faults (st_store s) →
  check_capabilities el = Ok tt → latest_block el = Ok (Some b) → uint 64 (eb_block_number b) →
  let t := tables (st_store s) in
  chained nd engine t b ps → Forall (accepted nd) ps →
  eb_block_number b + Z.of_nat (length ps) = decided_height t →
  max_pending_proposals nd = Ok max → decided_height t + max ≤ uint_max 64 →
  get_signing_validator_set engine (decided_height t + 1) = Ok vs →
  let '(r, s') := handle_consensus_ready env nd engine el s in
  r = Ok tt ∧ started env nd engine (tip b ps) (payload_block_hash <$> ps) s s'.
Proof.
  intros O F C B U t Ch Ac N Mx T V. pose proof (max_pending_uint _ _ Mx) as [Um Pm].
  assert (decided_height t < uint_max 64) as Lt by lia.
  destruct (handshake_ok nd engine el s b ps F C B U Ch Ac N Lt) as (s1 & E & (T1 & S1 & P1 & F1)). fold t in E, T1, S1.
  pose proof (tip_number _ _ _ _ _ Ch) as Nt. rewrite N in Nt.
  assert (uint 64 (decided_height t + 1)) as Ut by ints.
  destruct (enforce_limit_on_startup max (decided_height t + 1) s1) as [re s2] eqn:L. pose proof L as X.
  apply enforce_run in X as ((_ & _ & S2 & _) & X); [|done..|by rewrite T1].
  destruct re as [[]|e]; [|destruct X as (_ & [X|[X|X]]); [by apply F1, F in X|lia|lia]].
  unfold handle_consensus_ready, on_consensus_ready, m_bind, m_lift, m_ret, modify, send. rewrite Mx, E.
  cbn [hr_next_height hr_latest_height hr_previous_block]. rewrite L, V. cbn [map_err].
  fold (startup_params engine (decided_height t)). unfold started, startup_reply. fold t. rewrite S1 in S2.
  destruct (env_reply_open env); cbn -[told startup_params]; (split; [done|]); (split_and!; [done..|by eexists|]); rewrite S2.
  - by rewrite <- !app_assoc.
  - by rewrite app_nil_r.
Qed.

End StartupProps.
