(* ===== verification/ProposeProps.v ===== *)
(** * Properties of proposing

    A proposal is durable before it leaves the node, and asking again for the same height and
    round gives the same proposal. *)

From S2P Require Import Prelude BTree Validators Proposal ConsensusSpec Codec CodecProps StoreCodec Store StoreCodecProps StoreProps StoreInv StoreQueries Streaming Decide DecideProps Ingest Propose IngestProps RoundProps.

Section ProposeProps.
Context `{PC : ProposalCrypto} {PCL : ProposalCryptoLaws} {SB : SignatureBytes} {SL : SignatureLaws}.
Context {SZ : SszBlockCodec} {SZL : SszBlockLaws} {PH : PayloadHash} {HL : HashLengths} {PF : PayloadFields}.
Context {SM : StoreMessages} {SML : StoreMessagesLaws} `{!EqDecision Signature} `{LO : LruOps}.
Context {RF : RoundFrom} {RFL : RoundFromLaws}.

(** ** The proposer's own block of a round *)

Definition own (a h : Z) (r : Round) (b : ConsensusBlock) : Prop :=
  block_height b = h ∧ block_round b = r ∧ block_proposer b = a.
Definition no_own (a h : Z) (r : Round) (t : Tables) : Prop := ∀ c, stored_block c t → ¬ own a h r c.
Definition sole_own (a h : Z) (r : Round) (b : ConsensusBlock) (t : Tables) : Prop :=
  stored_block b t ∧ own a h r b ∧ ∀ c, stored_block c t → own a h r c → c = b.

Lemma own_filter a h r t bs : round_blocks h r t bs →
  match filter (λ b, block_proposer b = a) bs with
  | [] => no_own a h r t
  | [b] => sole_own a h r b t ∧ wf_block b
  | b :: c :: _ => stored_block b t ∧ stored_block c t ∧ own a h r b ∧ own a h r c ∧ b ≠ c
  end.
Proof.
  intros (N & F & All). rewrite Forall_forall in F.
  assert (∀ c, c ∈ filter (λ b, block_proposer b = a) bs → stored_block c t ∧ own a h r c ∧ wf_block c) as In.
  { intros c [P Hin]%list_elem_of_filter. destruct (F c Hin) as (S & W & Hh & Hr). by split_and!. }
  assert (∀ c, stored_block c t → own a h r c → c ∈ filter (λ b, block_proposer b = a) bs) as Out.
  { intros c S (Hh & Hr & P). apply list_elem_of_filter. split; [done|]. by apply All. }
  assert (NoDup (filter (λ b, block_proposer b = a) bs)) as ND.
  { apply NoDup_filter. by eapply NoDup_fmap_1. }
  destruct (filter _ bs) as [|b [|c l]].
  - intros c S O. by apply Out, elem_of_nil in O.
  - destruct (In b) as (S & O & W); [by left|]. split; [|done]. split_and!; [done..|].
    intros c Sc Oc. by apply Out, list_elem_of_singleton in Oc.
  - destruct (In b) as (Sb & Ob & _); [by left|]. destruct (In c) as (Sc & Oc & _); [by right; left|].
    split; [done|]. split; [done|]. split; [done|]. split; [done|]. intros ->. inversion ND as [|? ? Nin]. apply Nin. by left.
Qed.

Lemma previously_spec a h r s : store_ok (tables (st_store s)) → 0 ≤ r → r + 1 < 2 ^ 32 →
  let '(res, s') := get_previously_built_block a h (Some r) s in
  ∃ db, s' = progress s db (st_calls s) ∧ undecided_kept (st_store s) db ∧
  match res with
  | Ok None => no_own a h (Some r) (tables (st_store s))
  | Ok (Some b) => sole_own a h (Some r) b (tables (st_store s)) ∧ wf_block b
  | Err e => true ∈ faults (st_store s) ∨ ∀ b, ¬ sole_own a h (Some r) b (tables (st_store s))
  end.
Proof.
  intros O H0 H1. unfold get_previously_built_block, m_bind, on_store.
  pose proof (get_undecided_blocks_spec h r (st_store s) O H0 H1) as G.
  assert (undecided_kept (st_store s) (get_undecided_blocks h (Some r) (st_store s)).2) as K by apply read_kept.
  destruct (get_undecided_blocks h (Some r) (st_store s)) as [[bs|e] db]; cbn [fst snd map_err] in *.
  2: { exists db. split_and!; [done..|]. left. apply G. }
  pose proof (own_filter a h (Some r) _ bs G) as Of.
  destruct (filter _ bs) as [|b [|c l]]; exists db; (split; [done|]); (split; [done|]); [done|done|].
  right. intros d (_ & _ & U). destruct Of as (Sb & Sc & Ob & Oc & N). apply N. by rewrite (U b Sb Ob), (U c Sc Oc).
Qed.

(** ** Signing *)

Lemma prepare_signed id b msgs sig : prepare_stream id b = Ok (msgs, sig) →
  prepare_stream id (set_signature b sig) = Ok (msgs, sig).
Proof.
  unfold prepare_stream, make_proposal_parts. cbn.
  destruct (block_signature b) as [s0|]; cbn; [by intros [= <- <-]|].
  destruct (sign_bytes _) as [s0|e]; cbn; [by intros [= <- <-]|done].
Qed.
Lemma prepare_with_signature id b sig : block_signature b = Some sig → ∃ msgs, prepare_stream id b = Ok (msgs, sig).
Proof. intros E. unfold prepare_stream, make_proposal_parts. cbn. rewrite E. cbn. by eexists. Qed.
Lemma set_signature_same b sig : block_signature b = Some sig → set_signature b sig = b.
Proof. intros E. unfold set_signature. rewrite <- E. by destruct b. Qed.

(** ** The block to propose *)

(** A new block: the engine built it on the previous block and accepted it. *)
Definition newly_built (nd : Node) (n : nat) (b : ConsensusBlock) : Prop :=
  validity b = Valid ∧ block_signature b = None
  ∧ validate_payload (new_payload nd n (execution_payload b)) = Ok PayloadValid.

Lemma build_spec nd bd h r a prev fee s : uint 64 h → 0 ≤ r < 2 ^ 32 → wf_address a →
  let '(res, s') := build_and_validate_block nd bd h (Some r) a prev fee s in
  (∃ db n, s' = progress s db n ∧ undecided_kept (st_store s) db) ∧
  match res with
  | Ok b => wf_block b ∧ own a h (Some r) b ∧ newly_built nd (st_calls s) b
      ∧ check_payload_binding (execution_payload b) h (Some prev) = Ok tt
  | Err _ => True
  end.
Proof.
  intros U Hr Wa. unfold build_and_validate_block, m_bind, m_lift.
  assert (∃ db n, s = progress s db n ∧ undecided_kept (st_store s) db) as Same.
  { exists (st_store s), (st_calls s). split; [by rewrite progress_same|apply undecided_kept_refl]. }
  unfold build_block. destruct (generate_payload_with_retry bd prev fee) as [p|e]; cbn [map_err mbind result_bind]; [|by split].
  set (b := mkConsensusBlock h (Some r) None a Valid p None).
  assert (wf_incoming b) as W.
  { split; [|by eexists]. split; [exact U|]. split; [intros z [= <-]; exact Hr|]. split; [done|exact Wa]. }
  destruct (check_payload_binding _ _ _) as [[]|e] eqn:Bd; cbn [map_err]; [|by split].
  destruct (validate_spec nd b s W) as (db & -> & Fo). apply forensic_kept in Fo.
  destruct (validate_payload _) as [[|reason]|e] eqn:V; cbn; (split; [by eexists _, _|]); [|done|done].
  split; [exact (proj1 W)|]. split; [done|]. split; [done|exact Bd].
Qed.

Lemma to_propose_spec nd bd h r a prev fee s :
  store_ok (tables (st_store s)) → uint 64 h → 0 ≤ r → r + 1 < 2 ^ 32 → wf_address a →
  let '(res, s') := block_to_propose nd bd h (Some r) a prev fee s in
  (∃ db n, s' = progress s db n ∧ undecided_kept (st_store s) db) ∧
  match res with
  | Ok (Some b) => wf_block b ∧ own a h (Some r) b ∧ check_payload_binding (execution_payload b) h prev = Ok tt
      ∧ (sole_own a h (Some r) b (tables (st_store s))
         ∨ (no_own a h (Some r) (tables (st_store s)) ∧ newly_built nd (st_calls s) b))
  | _ => True
  end.
Proof.
  intros O U H0 H1 Wa. unfold block_to_propose. unfold m_bind at 1.
  pose proof (previously_spec a h r s O H0 H1) as P.
  destruct (get_previously_built_block a h (Some r) s) as [[[b|]|e] s1]; destruct P as (db & -> & K & P);
    [| |by split; [eexists _, _|]].
  - destruct P as [So W]. unfold m_bind, m_lift, check_reused_block_binding.
    destruct (check_payload_binding _ _ _) as [[]|e] eqn:Bd; cbn [map_err]; (split; [by eexists _, _|]); [|done].
    split; [exact W|]. split; [apply So|]. split; [done|by left].
  - assert (∃ db' n, progress s db (st_calls s) = progress s db' n ∧ undecided_kept (st_store s) db') as Same by (by eexists _, _).
    unfold m_bind at 1, m_lift at 1. destruct prev as [pb|]; cbn [ok_or]; [|by split].
    unfold m_bind at 1, m_lift. destruct (check_previous_block_is_predecessor pb h) as [[]|e]; [|by split].
    pose proof (build_spec nd bd h r a pb fee (progress s db (st_calls s)) U ltac:(lia) Wa) as B.
    destruct (build_timeout bd) as [|[]]; [| |by split].
    + unfold m_bind. destruct (build_and_validate_block _ _ _ _ _ _ _ _) as [res s2]. destruct B as [(db2 & n & -> & K2) B].
      assert (∃ db' n', progress (progress s db (st_calls s)) db2 n = progress s db' n' ∧ undecided_kept (st_store s) db') as Same2.
      { exists db2, n. split; [done|]. by eapply undecided_kept_trans. }
      destruct res as [b|e]; [|by split]. destruct B as (W & Ow & Nb & Bd). split; [done|]. by split_and!; [..|right].
    + destruct (build_and_validate_block _ _ _ _ _ _ _ _) as [res s2]. destruct B as [(db2 & n & -> & K2) _].
      split; [|done]. exists db2, n. split; [done|]. by eapply undecided_kept_trans.
Qed.

Lemma sole_after_store a h r b t : wf_block b → own a h r b →
  (sole_own a h r b t ∨ no_own a h r t
   ∨ ∃ b0, sole_own a h r b0 t ∧ block_key b0 = block_key b) →
  sole_own a h r b (insert_undecided_block b t).
Proof.
  intros W Ow Pr. pose proof (stored_after_insert b t W) as St. split_and!; [done..|]. intros c Sc Oc.
  destruct (decide (block_key c = block_key b)) as [K|N]; [by eapply stored_unique|].
  apply stored_other_iff in Sc; [|done]. destruct Pr as [(_ & _ & Un)|[No|(b0 & (_ & _ & Un) & K0)]].
  - by rewrite (Un c Sc Oc) in N.
  - by apply No in Oc.
  - by rewrite (Un c Sc Oc), K0 in N.
Qed.

(** What a proposal rests on: the proposer's only block of the round, signed and bound,
    stored in [t], and streamed in [msgs]. *)
Definition proposed (a h : Z) (r : Round) (prev : option ExecutionBlock) (b : ConsensusBlock) (id : bytes)
    (msgs : list StreamMessage) (v : LocallyProposedValue) (t : Tables) : Prop :=
  sole_own a h r b t ∧ check_payload_binding (execution_payload b) h prev = Ok tt
  ∧ v = locally_proposed_from b
  ∧ ∃ sig, block_signature b = Some sig ∧ prepare_stream id b = Ok (msgs, sig).

(** From the block to the reply. *)
Lemma stream_step a h r prev b0 id s db n :
  wf_block b0 → own a h r b0 → check_payload_binding (execution_payload b0) h prev = Ok tt →
  (sole_own a h r b0 (tables (st_store s)) ∨ no_own a h r (tables (st_store s))) →
  undecided_kept (st_store s) db →
  let '(res, s') := ((stream <-- m_lift (map_err (λ _, Report "Proposer failed to prepare stream") (prepare_stream id b0)) ;;
                      on_store (store_undecided_block (set_signature b0 stream.2)) ;;;
                      send (SentParts stream.1) ;;;
                      m_ret (Some (locally_proposed_from b0))) : M State AppError (option LocallyProposedValue)) (progress s db n) in
  match res with
  | Ok None => False
  | Ok (Some v) => ∃ db' b msgs, s' = with_sent (SentParts msgs (tables db')) (progress s db' n)
      ∧ benign (st_store s) db' ∧ proposed a h r prev b id msgs v (tables db')
      ∧ ∃ sig, prepare_stream id b0 = Ok (msgs, sig) ∧ b = set_signature b0 sig
  | Err e => st_sent s' = st_sent s ∧ ((∃ e', prepare_stream id b0 = Err e') ∨ true ∈ faults db)
  end.
Proof.
  intros W Ow Bd Pr [B E]. unfold m_bind, m_lift. destruct (prepare_stream id b0) as [[msgs sig]|e] eqn:Ps; cbn [map_err].
  2: { split; [done|]. left. by eexists. }
  unfold on_store. change (st_store (progress s db n)) with db. cbn [fst snd]. set (b := set_signature b0 sig).
  pose proof (store_undecided_spec b db W) as St. destruct (store_undecided_block b db) as [r3 db3].
  destruct St as [B3 [[-> T3]|(-> & F & T3)]]; cbn [map_err]; [|by split; [|right]].
  unfold send, modify, m_ret. exists db3, b, msgs. split; [done|]. split; [exact (benign_trans _ _ _ B B3)|]. split; [|by exists sig].
  split.
  - assert (sole_own a h r b (insert_undecided_block b (tables (st_store s)))) as (Sx & Ox & Ux).
    { apply sole_after_store; [done|done|]. destruct Pr as [Pr|Pr]; [right; right; by exists b0|right; by left]. }
    assert (∀ c, stored_block c (insert_undecided_block b (tables (st_store s))) ↔ stored_block c (tables db3)) as Eq.
    { intros c. rewrite T3. apply stored_same_undecided. destruct (insert_undecided_tables b (tables db)) as (_ & -> & _).
      destruct (insert_undecided_tables b (tables (st_store s))) as (_ & -> & _). by rewrite E. }
    split_and!; [by apply Eq|done|]. intros c Sc Oc. apply Ux; [by apply Eq|done].
  - split; [done|]. split; [done|]. exists sig. split; [done|]. by apply prepare_signed.
Qed.

Lemma get_value_spec nd ck bd a fee h r s v s' :
  store_ok (tables (st_store s)) → uint 64 h → 0 ≤ r → r + 1 < 2 ^ 32 → wf_address a →
  handle_get_value nd ck bd a fee h (Some r) s = (Ok (Some v), s') →
  ∃ b id msgs, proposed a h (Some r) (st_previous_block s) b id msgs v (tables (st_store s'))
    ∧ st_sent s' = st_sent s ++ [SentParts msgs (tables (st_store s'))]
    ∧ benign (st_store s) (st_store s') ∧ st_previous_block s' = st_previous_block s.
Proof.
  intros O U H0 H1 Wa. unfold handle_get_value, next_stream_id. unfold m_bind at 1, m_bind at 1, m_get at 1.
  unfold m_bind at 1, modify at 1, m_lift at 1. cbn [new_stream_id mbind option_bind ok_or].
  set (id := _ ++ _ ++ _). set (s0 := with_nonce _ s). unfold m_bind at 1, m_get, on_get_value. unfold m_bind at 1.
  unfold m_bind at 1.
  pose proof (to_propose_spec nd bd h r a (st_previous_block s0) fee s0 O U H0 H1 Wa) as P.
  destruct (block_to_propose _ _ _ _ _ _ _ s0) as [[[b0|]|e] s1]; [|done|done].
  destruct P as [(db & n & -> & K) (W & Ow & Bd & Pr)].
  pose proof (stream_step a h (Some r) (st_previous_block s0) b0 id s0 db n W Ow Bd) as St.
  destruct (m_bind (m_lift _) _ (progress s0 db n)) as [[[v0|]|e] s2]; [|done|done].
  destruct St as (db' & b & msgs & -> & B & Pp & _); [tauto|done|].
  case_decide; cbn [m_bind m_ret modify]; intros [= <- <-]; exists b, id, msgs; (split; [exact Pp|done]).
Qed.

(** Asked again while the block is stored, the proposer streams it under its stored signature, or
    fails and sends nothing. *)
Definition repeats (a h : Z) (r : Round) (b : ConsensusBlock) (sig : Signature) (s s' : State)
    (res : result AppError (option LocallyProposedValue)) : Prop :=
  (res = Ok (Some (locally_proposed_from b))
   ∧ ∃ id msgs, prepare_stream id b = Ok (msgs, sig) ∧ st_sent s' = st_sent s ++ [SentParts msgs (tables (st_store s'))])
  ∨ (is_ok res = false ∧ st_sent s' = st_sent s
     ∧ (true ∈ faults (st_store s) ∨ ¬ sole_own a h r b (tables (st_store s))
        ∨ check_payload_binding (execution_payload b) h (st_previous_block s) ≠ Ok tt)).

Lemma get_value_again nd ck bd a fee h r s b sig :
  store_ok (tables (st_store s)) → 0 ≤ r → r + 1 < 2 ^ 32 →
  stored_block b (tables (st_store s)) → own a h (Some r) b → block_signature b = Some sig →
  let '(res, s') := handle_get_value nd ck bd a fee h (Some r) s in repeats a h (Some r) b sig s s' res.
Proof.
  intros O H0 H1 Stb Owb Sg. unfold handle_get_value, next_stream_id. unfold m_bind at 1, m_bind at 1, m_get at 1.
  unfold m_bind at 1, modify at 1, m_lift at 1. cbn [new_stream_id mbind option_bind ok_or].
  set (id := _ ++ _ ++ _). set (s0 := with_nonce _ s). unfold m_bind at 1, m_get, on_get_value. unfold m_bind at 1.
  unfold m_bind at 1, block_to_propose. unfold m_bind at 1.
  pose proof (previously_spec a h r s0 O H0 H1) as P.
  destruct (get_previously_built_block a h (Some r) s0) as [[[b0|]|e] s1]; destruct P as (db & -> & K & P).
  2: { by apply P in Owb. }
  2: { right. split; [done|]. split; [done|]. destruct P as [F|P]; [by left|right; left; apply P]. }
  destruct P as [[_ [Ow U]] W]. assert (b0 = b) as -> by (symmetry; by apply U).
  unfold m_bind at 1, m_lift at 1, check_reused_block_binding.
  change (st_previous_block s0) with (st_previous_block s).
  destruct (check_payload_binding _ _ _) as [[]|e] eqn:Bd; cbn [map_err m_ret].
  2: { right. split; [done|]. split; [done|]. right; right. by rewrite Bd. }
  destruct (prepare_with_signature id b sig Sg) as [msgs Ps].
  pose proof (stream_step a h (Some r) (st_previous_block s) b id s0 db (st_calls s0) W Ow Bd
    (or_introl (conj Stb (conj Ow U))) K) as X.
  destruct (m_bind (m_lift _) _ (progress s0 db (st_calls s0))) as [[[v0|]|e] s2]; [|done|].
  2: { destruct X as [Se [[e' X]|F]]; [by rewrite Ps in X|]. right. split; [done|]. split; [exact Se|].
       left. destruct K as [K _]. by apply K in F. }
  destruct X as (db' & b' & msgs' & -> & _ & (_ & _ & -> & _) & sig' & Ps' & ->).
  rewrite Ps in Ps'. injection Ps' as <- <-. rewrite (set_signature_same b sig Sg).
  case_decide; cbn [m_bind m_ret modify]; left; (split; [done|]); exists id, msgs; by split.
Qed.

(** C5: A proposer does not equivocate while its block is stored.  A proposal leaves the node, to
    consensus and to the network, only after its signed block is durable; the block is the
    proposer's only one for that height and round and is bound to its place in the chain, and what
    is streamed is that block under that signature.  Whenever consensus asks again for the same
    height and round and that block is still stored, in whatever other state, also after a crash and
    whatever the execution layer would build now, the node answers with the same value and streams the
    same block under the same signature, or it answers with an error and streams nothing; it
    fails only if the store does, if another block of the proposer for that round was stored, or if
    the block does not extend the previous block. *)
Theorem proposer_never_equivocates nd ck bd a fee h r s v s1 :
  store_ok (tables (st_store s)) → uint 64 h → 0 ≤ r → r + 1 < 2 ^ 32 → wf_address a →
  handle_get_value nd ck bd a fee h (Some r) s = (Ok (Some v), s1) →
  store_ok (tables (st_store s1))
  ∧ ∃ b id msgs sig,
      proposed a h (Some r) (st_previous_block s) b id msgs v (tables (st_store s1))
      ∧ block_signature b = Some sig
      ∧ st_sent s1 = st_sent s ++ [SentParts msgs (tables (st_store s1))]
      ∧ ∀ nd' ck' bd' fee' s2,
          store_ok (tables (st_store s2)) → stored_block b (tables (st_store s2)) →
          let '(res, s3) := handle_get_value nd' ck' bd' a fee' h (Some r) s2 in repeats a h (Some r) b sig s2 s3 res.
Proof.
  intros O U H0 H1 Wa E. destruct (get_value_spec _ _ _ _ _ _ _ _ _ _ O U H0 H1 Wa E) as (b & id & msgs & Pp & Se & B & _).
  split; [by apply B|]. pose proof Pp as (So & Bd & -> & sig & Sg & _). exists b, id, msgs, sig.
  split; [exact Pp|]. split; [done|]. split; [done|]. intros nd' ck' bd' fee' s2 O2 St.
  apply get_value_again; [done..|apply So|done].
Qed.
End ProposeProps.
