(* ===== verification/ToyStreams.v ===== *)
(** * Concrete third-party code of the proposal streams

    An instance of the closed-keys LRU ([LruOps]): a list of at most
    [MAX_CLOSED_STREAMS] keys, most recent first, with its laws. *)

From S2P Require Import Prelude BTree Validators Proposal Streaming.

#[export] Instance toy_lru : LruOps := {
  Lru := list StreamKey;
  lru_new := [];
  lru_insert l k := take (Z.to_nat MAX_CLOSED_STREAMS) (k :: filter (λ k', k' ≠ k) l);
  lru_peek l k := bool_decide (k ∈ l);
}.

#[export] Instance toy_lru_laws : LruLaws.
Proof.
  assert (Z.to_nat MAX_CLOSED_STREAMS = S (Z.to_nat (MAX_CLOSED_STREAMS - 1))) as E
    by (unfold MAX_CLOSED_STREAMS; lia).
  split; cbn [lru_peek lru_insert lru_new Lru toy_lru].
  - done.
  - intros l k. rewrite E. cbn [take]. apply bool_decide_eq_true. left.
  - intros l k k'. rewrite !bool_decide_eq_true. rewrite E. cbn [take].
    intros [->|H]%elem_of_cons; [by left|right].
    apply elem_of_take in H as (i & H & _). apply list_elem_of_lookup_2 in H.
    by apply list_elem_of_filter in H as [_ ?].
Qed.
