(* ===== verification/ToyDecide.v ===== *)
(** * A node deciding a height

    The fields of a concrete execution payload, a node whose database holds three decided
    heights and an undecided block for the fourth, and the theorems on it. *)

From S2P Require Import Prelude BTree Validators Proposal Codec CodecProps StoreCodec Store StoreCodecProps StoreProps StoreInv StoreQueries ToyCrypto ToyStore Streaming ToyStreams Decide DecideProps.

(** The first byte of a payload is its block number. *)
#[export] Instance toy_payload_fields : PayloadFields := {
  payload_parent_hash p := bytes32 [];
  payload_block_number p := match p with b :: _ => Z.of_N (Byte.to_N b) | [] => 0 end;
  payload_timestamp p := 7;
}.

Definition toy_undecided : ConsensusBlock := mkConsensusBlock 4 (Some 0) None 9 Valid [Byte.x04] None.
Definition toy_decide_ops : list StoreOp := toy_ops ++ [OpUndecided toy_undecided].
Definition toy_decide_db : Db := run_ops toy_decide_ops (mkDb empty_tables []).
Lemma toy_decide_db_ok : store_ok (tables toy_decide_db).
Proof.
  apply run_ops_ok; [|apply store_ok_empty]. apply Forall_app. split; [apply toy_ops_wf|].
  apply Forall_cons. split; [|by apply Forall_nil].
  split; [by vm_compute|]. split; [intros r [= <-]; by vm_compute|]. split; [done|by vm_compute].
Qed.

Definition toy_height4 : CommitCertificate := mkCommitCertificate 4 (Some 0) (mkValueId (bytes32 [Byte.x04])) [].
Lemma toy_height4_wf : wf_certificate toy_height4.
Proof. split_and!; [by eexists|apply bytes32_length|by vm_compute|constructor]. Qed.

Definition toy_params : ConsensusParams := ConsensusParams_default 60000.
Definition toy_engine : Engine :=
  mkEngine (λ h, Ok (mkForkchoiceUpdated StatusValid (Some h) None)) (λ _, Ok (mkValidatorSet [])) (λ _, Ok toy_params) 60000.
Definition toy_env : Env := mkEnv (mkPruningConfig 0 0) (Some 9) 1000 7500 true true.
Definition toy_state (d : option HeightDecision) : State :=
  mkState 4 (Some 0) None d InSync (Some (mkExecutionBlock (bytes32 []) 3 (bytes32 []) 6)) toy_params (mkValidatorSet [])
    None [] (PartStreamsMap_new 4 1 0) toy_decide_db [] [] 0 0.

(** ** The theorems on it *)

Definition next_of (d : option HeightDecision) : option Z :=
  match d with Some (DecisionSuccess info) => Some (nh_next_height info) | _ => None end.

Lemma decided_durable_before_told_witness :
  let '(r, s') := handle_decided toy_env toy_engine toy_height4 (toy_state None) in
  is_ok r = true ∧ next_of (st_decision s') = Some 5
  ∧ ∃ block t1 t2, st_sent s' = [SentAck t1; SentForkchoice (bytes32 [Byte.x04]) t2]
      ∧ holds toy_height4 block t1 ∧ holds toy_height4 block t2.
Proof.
  pose proof (decided_durable_before_told toy_env toy_engine toy_height4 (toy_state None)
    toy_decide_db_ok toy_height4_wf ltac:(by vm_compute) ltac:(done)) as X.
  assert (let '(r, s') := handle_decided toy_env toy_engine toy_height4 (toy_state None) in
          (is_ok r, next_of (st_decision s'), length (st_sent s')) = (true, Some 5, 2%nat)) as Y by (by vm_compute).
  destruct (handle_decided _ _ _ _) as [r s']. injection Y as Y1 Y2 Y3.
  destruct X as (_ & [(e & _ & S & _)|(block & t1 & t2 & _ & _ & _ & H1 & H2 & S & _)]); [by rewrite S in Y3|].
  split; [done|]. split; [done|]. exists block, t1, t2. split; [exact S|]. split; [exact H1|exact H2].
Defined.

(** A failed decision: the height is restarted on top of the block decided at height 3. *)
Definition toy_failed : State := toy_state (Some (DecisionFailure (Report "engine unavailable"))).
Lemma finalized_replies_once_witness :
  let '(r, s') := handle_finalized toy_env toy_height4 (mkMisbehaviorEvidence [] []) toy_failed in
  is_ok r = true ∧ st_decision s' = None ∧ cleaned 4 (tables (st_store s'))
  ∧ st_sent s' = [SentNext (restart_reply 4 toy_failed) (tables (st_store s'))]
  ∧ eb_block_number <$> st_previous_block s' = Some 42.
Proof.
  pose proof (finalized_replies_once toy_env toy_height4 (mkMisbehaviorEvidence [] []) toy_failed
    toy_decide_db_ok toy_height4_wf ltac:(by vm_compute) ltac:(by split; constructor)) as X.
  assert (let '(r, s') := handle_finalized toy_env toy_height4 (mkMisbehaviorEvidence [] []) toy_failed in
          (is_ok r, eb_block_number <$> st_previous_block s') = (true, Some 42)) as Y by (by vm_compute).
  destruct (handle_finalized _ _ _ _) as [r s']. injection Y as Y1 Y2.
  destruct X as (_ & D & _ & [(-> & _)|((_ & S) & C & _)]); [done|].
  split; [done|]. split; [exact D|]. split; [exact C|]. split; [exact S|done].
Defined.
