(* ===== verification/ToyIngest.v ===== *)
(** * A node receiving proposals

    Concrete third-party code of the ingestion handlers (canonical hashes, texts, RLP), an
    execution layer that accepts payloads of one byte, an honest and a forged proposal for
    height 4, and the theorems on them. *)

From S2P Require Import Prelude BTree Validators Proposal ConsensusSpec Codec CodecProps StoreCodec Store StoreCodecProps StoreProps StoreInv StoreQueries ToyCrypto ToyStore Streaming ToyStreams Decide DecideProps ToyDecide Ingest IngestProps RoundProps.

(** Payloads of one byte carry their own hash; the hash of a longer one reads it backwards. *)
#[export] Instance toy_canonical_hash : CanonicalHash := {
  canonical_block_hash p := Some (bytes32 (rev p));
}.
#[export] Instance toy_texts : Texts := { show_hash _ := "0x"; ssz_error _ := "invalid" }.
#[export] Instance toy_rlp : RlpEncode := { rlp_encode x := let '(c, h, v) := x in to_be_bytes 8 c ++ h ++ to_be_bytes 4 v }.

Definition toy_node : Node :=
  mkNode (λ _ p, match p with [_] => Ok StatusValid | _ => Ok (StatusInvalid "block hash mismatch") end)
    (for_chain_id Localdev) (bytes32 []) 2 5.
Definition toy_clock : Clock := mkClock 10 10 8000 (Some 8).

Definition toy_signed (d : bytes) : ProposalParts :=
  let init := mkProposalInit 4 (Some 0) None 9 in
  mkProposalParts init [d] (sig64 (parts_hash (mkProposalParts init [d] (sig64 [])))).
Definition toy_validators : ValidatorSet := mkValidatorSet [mkValidator 9 7 1].

(** The node of [ToyDecide], without the undecided block, with the streams [m] and pending parts. *)
Definition toy_node_state (m : PartStreamsMap) (db : Db) : State :=
  mkState 4 (Some 0) None None InSync (Some (mkExecutionBlock (bytes32 []) 3 (bytes32 []) 6)) toy_params toy_validators
    None [] m db [] [] 0 0.

Lemma toy_signed_wf d : wf_pending (toy_signed d).
Proof.
  split; [split; [by eexists|by vm_compute]|]. split; [by vm_compute|]. split; [|done]. intros z [= <-]. by vm_compute.
Qed.

(** ** A proposal received in parts *)

Definition toy_stream_id : bytes := default [] (new_stream_id 4 (Some 0) 1).
Definition toy_messages (parts : ProposalParts) : list StreamMessage :=
  number_parts toy_stream_id 0 (PartInit (parts_init parts) :: (PartData <$> parts_data parts) ++ [PartFin (parts_fin parts)]).
Definition toy_streams : PartStreamsMap :=
  foldl (λ m msg, (insert m 9 msg 10 10).2) (PartStreamsMap_new 4 1 0) (take 3 (toy_messages (toy_signed [Byte.x04]))).
Definition toy_last : StreamMessage := mkStreamMessage toy_stream_id 3 StreamFin.

Lemma toy_completes : (insert toy_streams 9 toy_last 10 10).1 = Complete (toy_signed [Byte.x04]).
Proof. by vm_compute. Qed.

Definition toy_receiving : State := toy_node_state toy_streams toy_db.
Lemma received_votes_are_earned_witness :
  let '(r, s') := handle_received_proposal_part toy_node toy_clock 9 toy_last toy_receiving in
  ∃ v b, r = Ok (Some v) ∧ pval_validity v = Valid ∧ stored_block b (tables (st_store s'))
         ∧ earned toy_node toy_clock (st_previous_block toy_receiving) 0 b.
Proof.
  pose proof (received_votes_are_earned toy_node toy_clock 9 toy_last toy_receiving) as X.
  assert (let '(r, s') := handle_received_proposal_part toy_node toy_clock 9 toy_last toy_receiving in
          match r with Ok (Some v) => is_valid (pval_validity v) | _ => false end = true) as Y by (by vm_compute).
  destruct (handle_received_proposal_part _ _ _ _ _) as [[[v|]|e] s']; [|done..].
  destruct X as (_ & parts & b & _ & _ & Vo & Er & _).
  { intros parts m E. pose proof toy_completes as C. change (st_streams_map toy_receiving) with toy_streams in E.
    change (ck_now toy_clock) with 10 in E. change (ck_created toy_clock) with 10 in E.
    rewrite E in C. cbn in C. injection C as ->. apply toy_signed_wf. }
  assert (pval_validity v = Valid) as Hv by (by destruct (pval_validity v)).
  exists v, b. split; [done|]. split; [done|]. split; [apply Vo|]. by apply Er.
Defined.

(** ** A synced value *)

Lemma synced_value_outcomes_witness :
  let '(o, s') := handle_process_synced_value toy_node toy_clock 4 (Some 0) 9 [Byte.x04; Byte.x00] toy_receiving in
  o = PeerFault ∧ undecided_blocks (tables (st_store s')) = [].
Proof.
  pose proof (synced_value_outcomes toy_node toy_clock 4 (Some 0) 9 [Byte.x04; Byte.x00] toy_receiving toy_db_ok
    ltac:(by vm_compute) ltac:(by eexists) ltac:(intros z [= <-]; lia) ltac:(by vm_compute)) as X.
  assert (match (handle_process_synced_value toy_node toy_clock 4 (Some 0) 9 [Byte.x04; Byte.x00] toy_receiving).1 with
          | PeerFault => true | _ => false end = true) as Y by (by vm_compute).
  destruct (handle_process_synced_value _ _ _ _ _ _ _) as [[v| |] s']; [done| |done].
  split; [done|]. destruct X as (_ & E & _). rewrite E. by vm_compute.
Defined.

(** ** A round with a pending proposal *)

Definition toy_early_db (d : bytes) : Db := run_ops (toy_ops ++ [OpPending (toy_signed d) 10 4]) (mkDb empty_tables []).
Lemma toy_early_db_ok d : store_ok (tables (toy_early_db d)).
Proof.
  apply run_ops_ok; [|apply store_ok_empty]. apply Forall_app. split; [apply toy_ops_wf|].
  apply Forall_cons. split; [apply toy_signed_wf|by apply Forall_nil].
Qed.
Definition toy_early (d : bytes) : State := toy_node_state (PartStreamsMap_new 4 1 0) (toy_early_db d).

Lemma started_round_votes_witness :
  let '(res, s') := handle_started_round toy_node toy_clock 4 (Some 0) 9 (toy_early [Byte.x04]) in
  ∃ v, res = Ok [v] ∧ pval_validity v = Valid
       ∧ ∃ b, v = proposal_of toy_clock b ∧ stored_block b (tables (st_store s'))
              ∧ check_payload_binding (execution_payload b) 4 (st_previous_block (toy_early [Byte.x04])) = Ok tt.
Proof.
  pose proof (started_round_votes toy_node toy_clock 4 0 9 (toy_early [Byte.x04]) (toy_early_db_ok _) ltac:(lia) ltac:(lia)) as X.
  assert (match (handle_started_round toy_node toy_clock 4 (Some 0) 9 (toy_early [Byte.x04])).1 with
          | Ok [v] => is_valid (pval_validity v) | _ => false end = true) as Y by (by vm_compute).
  destruct (handle_started_round _ _ _ _ _ _) as [[[|v [|w vs]]|e] s']; [done| |done|done].
  assert (pval_validity v = Valid) as V by (cbn [fst] in Y; by destruct (pval_validity v)).
  destruct X as (_ & _ & _ & _ & [(bs & Ev & (_ & F & _) & Ea)|[? _]]); [|done].
  destruct bs as [|b [|c bs]]; [done| |done]. injection Ev as ->. apply Forall_cons in F as [F _], Ea as [Ea _].
  exists (proposal_of toy_clock b). split; [done|]. split; [done|]. exists b. split; [done|]. split; [apply F|by apply Ea].
Defined.

(** ** A forged early proposal *)

(** The forgery claims the hash of [[Byte.x04]]. *)
Definition toy_forged : bytes := [Byte.x04; Byte.x00].
Lemma early_forgery_answers_sync_witness :
  let s1 := (process_pending_part toy_node toy_validators (st_previous_block (toy_early toy_forged)) (toy_signed toy_forged)
               (toy_early toy_forged)).2 in
  match (handle_process_synced_value toy_node toy_clock 4 (Some 0) 9 [Byte.x04] s1).1 with
  | SyncVerdict v => pval_validity v = Invalid
  | _ => False
  end.
Proof.
  set (b := mkConsensusBlock 4 (Some 0) None 9 Valid (toy_forged : @Payload toy_crypto)
    (Some (parts_fin (toy_signed toy_forged)))).
  assert (validate_proposal_parts (toy_signed toy_forged) (mkValidator 9 7 1) = true) as V by (by vm_compute).
  assert (true ∉ faults (st_store (toy_early toy_forged))) as NF.
  { assert (faults (st_store (toy_early toy_forged)) = []) as -> by (by vm_compute). apply not_elem_of_nil. }
  destruct (early_forgery_answers_sync toy_node toy_node toy_clock toy_validators (st_previous_block (toy_early toy_forged))
    (toy_signed toy_forged) (mkValidator 9 7 1) b (EngineVerdict Invalid) 9 [Byte.x04] [Byte.x04] (toy_early toy_forged)
    (toy_early_db_ok _) NF (toy_signed_wf _) ltac:(by vm_compute) eq_refl V) as (_ & _ & E & _);
    [reflexivity|by vm_compute|by vm_compute|done|done|by vm_compute|by vm_compute|].
  change (block_height b) with 4 in E. change (block_round b) with (Some 0) in E. cbv zeta. by rewrite E.
Defined.
