(* ===== verification/ToyPropose.v ===== *)
(** * A node proposing

    An execution layer that builds a payload of one byte for height 4, and the theorem on the
    proposer with it: the node proposes, then loses its memory and faces an execution layer that
    would build another block. *)

From S2P Require Import Prelude BTree Validators Proposal ConsensusSpec Codec CodecProps StoreCodec Store StoreCodecProps StoreProps StoreInv StoreQueries ToyCrypto ToyStore Streaming ToyStreams Decide DecideProps ToyDecide Ingest Propose ToyIngest ProposeProps.

(** The first attempt finds the engine without the payload; the second one succeeds. *)
Definition toy_builder (payload : bytes) : Builder :=
  mkBuilder (λ _ h _ _, Ok (mkForkchoiceUpdated StatusValid (Some h) (Some [Byte.x01])))
    (λ attempt _, match attempt with
                  | O => Err (ApiCallError (mkEngineApiRpcError (-38001) "Unknown payload" None))
                  | S _ => Ok payload
                  end)
    (λ _, 8) InTime.
Definition toy_proposing : State := toy_node_state (PartStreamsMap_new 4 1 0) toy_db.
Definition toy_proposed : State :=
  (handle_get_value toy_node toy_clock (toy_builder [Byte.x04]) 9 0 4 (Some 0) toy_proposing).2.
(** After a restart: nothing sent, the stream nonce lost, the store as it was. *)
Definition toy_restarted : State := toy_node_state (PartStreamsMap_new 4 1 0) (st_store toy_proposed).
Definition toy_value : LocallyProposedValue := mkLocallyProposedValue 4 (Some 0) (mkValue (bytes32 [Byte.x04])).

Lemma toy_proposes_value :
  (handle_get_value toy_node toy_clock (toy_builder [Byte.x04]) 9 0 4 (Some 0) toy_proposing).1 = Ok (Some toy_value).
Proof. vm_compute. reflexivity. Qed.
Lemma toy_proposes :
  handle_get_value toy_node toy_clock (toy_builder [Byte.x04]) 9 0 4 (Some 0) toy_proposing
  = (Ok (Some toy_value), toy_proposed).
Proof.
  unfold toy_proposed. pose proof toy_proposes_value as E.
  destruct (handle_get_value _ _ _ _ _ _ _ _) as [r s]. cbn in E. by rewrite E.
Qed.
Lemma toy_proposed_faults : faults (st_store toy_proposed) = [].
Proof. by vm_compute. Qed.

Lemma proposer_never_equivocates_witness :
  ∃ s3, handle_get_value toy_node toy_clock (toy_builder [Byte.x09]) 9 0 4 (Some 0) toy_restarted
        = (Ok (Some toy_value), s3)
        ∧ length (st_sent s3) = 1%nat.
Proof.
  destruct (proposer_never_equivocates toy_node toy_clock (toy_builder [Byte.x04]) 9 0 4 0 toy_proposing toy_value
    toy_proposed toy_db_ok ltac:(by vm_compute) ltac:(lia) ltac:(lia) ltac:(by vm_compute) toy_proposes)
    as (O & b & id & msgs & sig & Pp & _ & _ & Again).
  pose proof (Again toy_node toy_clock (toy_builder [Byte.x09]) 0 toy_restarted O) as X. specialize (X ltac:(apply Pp)).
  destruct (handle_get_value _ _ _ _ _ _ _ _) as [res s3] eqn:E. destruct X as [(-> & id' & msgs' & _ & Se)|(Er & _)].
  - exists s3. split; [|by rewrite Se]. destruct Pp as (_ & _ & -> & _). reflexivity.
  - exfalso. assert (is_ok (handle_get_value toy_node toy_clock (toy_builder [Byte.x09]) 9 0 4 (Some 0) toy_restarted).1 = true) as Y by (by vm_compute).
    rewrite E in Y. cbn in Y. congruence.
Defined.
