(* ===== verification/ToyServe.v ===== *)
(** * A node serving its history

    The conversion of certificates and an execution layer that has the blocks of heights 1 to 3
    but the second, and the theorem on the node of [ToyStore] with them. *)

From S2P Require Import Prelude BTree Validators Proposal Codec CodecProps StoreCodec Store StoreCodecProps StoreProps StoreInv StoreQueries ToyCrypto ToyStore Streaming Decide DecideProps ToyDecide Serve ServeProps.

#[export] Instance toy_extend : ExtendCertificate := {
  extend_without_extensions c := mkExtendedCommitCertificate (cert_height c) (cert_round c) (cert_value_id c) [];
}.
Definition toy_history : History :=
  mkHistory (λ heights, Ok ((λ h, if decide (h = 2) then None else Some [Byte.x2a]) <$> heights)) (Ok None).

Definition served_heights (r : result StoreError (option (list RawDecidedValue))) : list Z :=
  match r with Ok (Some values) => (λ v, ecert_height (rdv_certificate v)) <$> values | _ => [] end.

Lemma decided_values_served_witness :
  let r := (handle_get_decided_values true toy_history (0, 9) 10 1000000 toy_db).1 in
  served_heights r = [1; 3]
  ∧ ∃ picked, r = Ok (Some ((λ x : Z * RawDecidedValue * Z, x.1.2) <$> picked)) ∧ total_size picked ≤ 1000000.
Proof.
  pose proof (decided_values_served true toy_history (0, 9) 10 1000000 toy_db toy_db_ok
    ltac:(by vm_compute) ltac:(by vm_compute) ltac:(lia) ltac:(lia)) as X.
  assert (served_heights (handle_get_decided_values true toy_history (0, 9) 10 1000000 toy_db).1 = [1; 3]) as Y
    by (vm_compute; reflexivity).
  destruct (handle_get_decided_values _ _ _ _ _ _) as [r db']. cbn [fst] in *. split; [exact Y|].
  destruct r as [[values|]|e]; [|discriminate Y..].
  destruct X as (_ & picked & -> & _ & _ & Sz & _). exists picked. split; [reflexivity|exact Sz].
Defined.
