(* ===== verification/ToyStartup.v ===== *)
(** * A node starting

    A database with the decision of height 4 alone, as after pruning, an execution layer that
    is one block behind and one that has lost its blocks, and the theorems on them. *)

From S2P Require Import Prelude BTree Validators Proposal ConsensusSpec Codec CodecProps StoreCodec Store StoreCodecProps StoreProps StoreInv StoreQueries ToyCrypto ToyStore Streaming ToyStreams Decide DecideProps ToyDecide Ingest ToyIngest Startup StartupProps.

Definition toy_pruned_db : Db := run_ops [OpDecide toy_height4 [Byte.x04] 9] (mkDb empty_tables []).
Lemma toy_pruned_ok : store_ok (tables toy_pruned_db).
Proof.
  apply run_ops_ok; [|apply store_ok_empty]. apply Forall_cons. split; [|by apply Forall_nil].
  split; [apply toy_height4_wf|]. by vm_compute.
Qed.
Definition toy_boot : State := toy_node_state (PartStreamsMap_new 4 1 0) toy_pruned_db.

(** The execution layer has its head at [n]; the block of a height is there from the third poll on. *)
Definition toy_execution (n : Z) : Execution :=
  mkExecution (Ok all_capabilities) (Ok (Some (mkExecutionBlock (bytes32 []) n (bytes32 []) 6)))
    (λ k h, if decide (k < 2)%nat then Ok None else Ok (Some (mkExecutionBlock (bytes32 [Byte.x04]) h (bytes32 []) 7)))
    (λ _, 3%N).
Definition toy_syncing : Engine :=
  mkEngine (λ h, Ok (mkForkchoiceUpdated StatusSyncing None None)) (λ _, Ok toy_validators) (λ _, Err "unavailable") 60000.

Lemma toy_boot_top : decided_height (tables (st_store toy_boot)) = 4.
Proof. by vm_compute. Qed.

(** The payloads from height 1 on are gone: a checkpoint sync leads to height 4. *)
Lemma startup_resumes_after_decided_witness :
  let '(r, s') := handle_consensus_ready toy_env toy_node toy_syncing (toy_execution 0) toy_boot in
  is_ok r = true ∧ st_current_height s' = 5 ∧ eb_block_number <$> st_previous_block s' = Some 4
  ∧ same_decided (tables toy_pruned_db) (tables (st_store s')) ∧ length (st_sent s') = 2%nat.
Proof.
  pose proof (startup_resumes_after_decided toy_env toy_node toy_syncing (toy_execution 0) toy_boot toy_pruned_ok) as X.
  assert (let '(r, s') := handle_consensus_ready toy_env toy_node toy_syncing (toy_execution 0) toy_boot in
          (is_ok r, length (st_sent s')) = (true, 2%nat)) as Y by (by vm_compute).
  destruct (handle_consensus_ready _ _ _ _ _) as [r s']. injection Y as Y1 Y2.
  destruct X as (_ & D & X). { intros n h b. cbn. case_decide; [done|]. by intros [= <-]. }
  destruct r as [[]|e]; [|done]. destruct X as (b & ps & ck & prev & _ & _ & _ & _ & (N & P & H & _)).
  rewrite toy_boot_top in N, H. split; [done|]. split; [exact H|]. split; [rewrite P; cbn; by rewrite N|].
  split; [exact D|exact Y2].
Defined.

(** An execution layer at height 3 is given the payload of height 4. *)
Lemma startup_catches_up_witness :
  let '(r, s') := handle_consensus_ready toy_env toy_node toy_engine (toy_execution 3) toy_boot in
  r = Ok tt ∧ st_current_height s' = 5 ∧ eb_block_hash <$> st_previous_block s' = Some (bytes32 [Byte.x04]).
Proof.
  pose proof (startup_catches_up toy_env toy_node toy_engine (toy_execution 3) toy_boot
    (mkExecutionBlock (bytes32 []) 3 (bytes32 []) 6) [[Byte.x04]] 10 (mkValidatorSet []) toy_pruned_ok) as X.
  cbv zeta in X. rewrite toy_boot_top in X.
  destruct (handle_consensus_ready _ _ _ _ _) as [r s'].
  destruct X as (R & (_ & P & H & _)); [by apply not_elem_of_nil|done|done|done| | |done|by vm_compute|by vm_compute|done|].
  - split; [|done]. split; [by vm_compute|]. split; [done|]. split; [done|]. split; [by exists 0%nat|done].
  - repeat constructor.
  - rewrite toy_boot_top in H. split; [exact R|]. split; [exact H|]. by rewrite P.
Defined.
