(* ===== verification/StreamingProps.v ===== *)
(** * Properties of the proposal-part streams

    The shape of the stream map and the limits that hold in every reachable state. *)

From stdpp Require Import sorting.
From S2P Require Import Prelude BTree Validators Proposal Codec CodecProps ToyCrypto Streaming ToyStreams.

(** ** The key order *)

Section KeyOrder.
Lemma key_lt_irrefl k : key_lt k k = false.
Proof. unfold key_lt. rewrite bytes_lt_irrefl, andb_false_r, orb_false_r. apply bool_decide_eq_false. lia. Qed.

Lemma key_lt_iff a b : key_lt a b = true ↔ a.1 < b.1 ∨ (a.1 = b.1 ∧ bytes_lt a.2 b.2 = true).
Proof. unfold key_lt. by rewrite orb_true_iff, andb_true_iff, !bool_decide_eq_true. Qed.

Lemma key_lt_trans a b c : key_lt a b = true → key_lt b c = true → key_lt a c = true.
Proof.
  rewrite !key_lt_iff. intros [H1|[H1 L1]] [H2|[H2 L2]]; [left; lia..|right].
  split; [lia|]. by eapply bytes_lt_trans.
Qed.

Lemma key_lt_total a b : a ≠ b → key_lt a b = false → key_lt b a = true.
Proof.
  intros N H. rewrite <- not_true_iff_false, key_lt_iff in H. rewrite key_lt_iff.
  destruct (decide (a.1 = b.1)) as [E|]; [|left; lia].
  right. split; [done|]. apply bytes_lt_total.
  - intros E2. apply N. destruct a, b. cbn in *. congruence.
  - apply not_true_iff_false. intros L. apply H. auto.
Qed.
End KeyOrder.

(** ** Extremal elements *)

Lemma max_by_key_spec {A} (f : A → Z) l :
  match max_by_key f l with
  | Some x => x ∈ l ∧ ∀ y, y ∈ l → f y ≤ f x
  | None => l = []
  end.
Proof.
  induction l as [|z l IH] using rev_ind; [done|].
  unfold max_by_key in *. rewrite foldl_app. cbn.
  destruct (foldl _ None l) as [x|]; [|subst l; set_solver by lia].
  destruct IH as [Hx Hmax]. case_decide; (split; [set_solver|]); intros y [Hy| ->%list_elem_of_singleton]%elem_of_app;
    try (specialize (Hmax y Hy)); lia.
Qed.

Lemma min_by_key_spec {A} (f : A → Z) l :
  match min_by_key f l with
  | Some x => x ∈ l ∧ ∀ y, y ∈ l → f x ≤ f y
  | None => l = []
  end.
Proof.
  induction l as [|z l IH] using rev_ind; [done|].
  unfold min_by_key in *. rewrite foldl_app. cbn.
  destruct (foldl _ None l) as [x|]; [|subst l; set_solver by lia].
  destruct IH as [Hx Hmin]. case_decide; (split; [set_solver|]); intros y [Hy| ->%list_elem_of_singleton]%elem_of_app;
    try (specialize (Hmin y Hy)); lia.
Qed.

(** ** The stream to evict *)

Section Eviction.
Context `{PC : ProposalCrypto} `{LO : LruOps}.
Implicit Types m : PartStreamsMap.

Lemma bt_get_counts (l : list (StreamKey * StreamState)) p :
  bt_get p (foldl (λ counts (kv : StreamKey * StreamState),
              bt_insert Z.ltb kv.1.1 (default 0 (bt_get kv.1.1 counts) + 1) counts) [] l)
  = let c := Z.of_nat (length (filter (λ kv : StreamKey * StreamState, kv.1.1 = p) l)) in
    if decide (c = 0) then None else Some c.
Proof.
  induction l as [|kv l IH] using rev_ind; [done|].
  rewrite foldl_app, filter_app, length_app. cbn [foldl]. cbn zeta in IH.
  destruct (decide (kv.1.1 = p)) as [E|N].
  - rewrite filter_cons_True, filter_nil by done. cbn [length]. rewrite E, bt_get_insert, IH.
    repeat case_decide; cbn; try lia; f_equal; lia.
  - rewrite filter_cons_False, filter_nil, bt_get_insert_ne by done. rewrite IH. cbn [length].
    by rewrite Nat.add_0_r.
Qed.

Lemma counts_sorted (l : list (StreamKey * StreamState)) :
  bt_sorted Z.ltb (foldl (λ counts (kv : StreamKey * StreamState),
    bt_insert Z.ltb kv.1.1 (default 0 (bt_get kv.1.1 counts) + 1) counts) [] l).
Proof.
  induction l as [|kv l IH] using rev_ind; [constructor|]. rewrite foldl_app. cbn [foldl].
  apply bt_insert_sorted; [apply Z.ltb_irrefl|lia|lia|done].
Qed.

(** A map with a stream evicts one, of a peer that holds the most streams. *)
Lemma evict_oldest_spec m :
  streams m ≠ [] →
  ∃ k s, (k, s) ∈ streams m ∧ evict_oldest_stream m = evict m k
    ∧ (∀ p, peer_streams_count m p ≤ peer_streams_count m k.1)
    ∧ (∀ k' s', (k', s') ∈ streams m → k'.1 = k.1 → created_at s ≤ created_at s').
Proof.
  intros Hne. unfold evict_oldest_stream, busiest_peer.
  set (counts := foldl _ [] (streams m)).
  pose proof (max_by_key_spec snd counts) as HM.
  assert (∀ p, bt_get p counts = if decide (peer_streams_count m p = 0) then None
                                  else Some (peer_streams_count m p)) as HC by apply bt_get_counts.
  destruct (max_by_key snd counts) as [[p c]|]; cbn.
  2: { exfalso. destruct (streams m) as [|[k s] l] eqn:E; [done|]. specialize (HC k.1). rewrite HM in HC.
       unfold peer_streams_count in HC. rewrite E, filter_cons_True in HC by done. cbn [length] in HC.
       rewrite decide_False in HC by lia. done. }
  destruct HM as [Hp Hmax].
  assert (∀ q d, (q, d) ∈ counts → bt_get q counts = Some d) as HB
    by (intros q d; apply (bt_get_sorted Z.ltb); [apply Z.ltb_irrefl|by apply counts_sorted]).
  assert (c = peer_streams_count m p ∧ 0 < c) as [-> Hpos].
  { specialize (HB _ _ Hp). rewrite HC in HB. unfold peer_streams_count in *.
    case_decide; simplify_eq. split; [done|lia]. }
  unfold oldest_stream_of.
  pose proof (min_by_key_spec (λ kv : StreamKey * StreamState, created_at kv.2)
    (filter (λ kv : StreamKey * StreamState, kv.1.1 = p) (streams m))) as Hmin.
  destruct (min_by_key _ _) as [[k s]|]; cbn.
  2: { unfold peer_streams_count in Hpos. rewrite Hmin in Hpos. cbn in Hpos. lia. }
  destruct Hmin as [[Hk Hin]%list_elem_of_filter Hold]. cbn in Hk. exists k, s.
  split; [done|]. split; [done|]. split.
  - intros q. rewrite Hk. specialize (HC q). case_decide as Z0; [lia|].
    apply (Hmax (q, peer_streams_count m q)). by apply bt_get_Some.
  - intros k' s' Hin' E. apply (Hold (k', s')). apply list_elem_of_filter. split; [cbn; congruence|done].
Qed.
End Eviction.

(** ** Limits of the stream map *)

Section Limits.
Context `{PC : ProposalCrypto} `{LO : LruOps}.
Implicit Types m : PartStreamsMap.

(** A buffered stream: the messages have distinct sequences, exactly those recorded as
    seen, at most 128 of them, no oversized chunk; the height is that of an [Init] of the
    buffer; the expected count comes from a [Fin] of the buffer. *)
Record stream_wf (s : StreamState) : Prop := {
  wf_count : message_count s = Z.of_nat (length (ss_buffer s));
  wf_limit : message_count s ≤ MAX_MESSAGES_PER_STREAM;
  wf_nodup : NoDup (sequence <$> ss_buffer s);
  wf_seen : ∀ q, q ∈ seen_sequences s ↔ q ∈ sequence <$> ss_buffer s;
  wf_sizes : Forall (λ msg, oversized msg = None) (ss_buffer s);
  wf_height : ∀ h, ss_height s = Some h →
    ∃ msg i, msg ∈ ss_buffer s ∧ as_data (content msg) = Some (PartInit i) ∧ init_height i = h;
  wf_fin : fin_received s = true →
    ∃ msg, msg ∈ ss_buffer s ∧ is_fin msg = true ∧ expected_messages s = sequence msg + 1
           ∧ sequence msg < MAX_MESSAGES_PER_STREAM;
}.

(** A tracked stream: a 16-byte id of a height that is not stale, and an [Init], once
    seen, of the same height. *)
Record entry_wf (height : Z) (kv : StreamKey * StreamState) : Prop := {
  wf_stream : stream_wf kv.2;
  wf_id : Z.of_nat (length kv.1.2) = STREAM_ID_LEN;
  wf_current : ∃ h, stream_id_height kv.1.2 = Some h ∧ height ≤ h
                    ∧ (ss_height kv.2 = None ∨ ss_height kv.2 = Some h);
}.

Record map_wf m : Prop := {
  wf_sorted : bt_sorted key_lt (streams m);
  wf_cap : MAX_STREAMS_PER_PEER ≤ max_total m;
  wf_total : Z.of_nat (length (streams m)) ≤ max_total m;
  wf_peer : ∀ p, peer_streams_count m p ≤ MAX_STREAMS_PER_PEER;
  wf_entries : Forall (entry_wf (current_height m)) (streams m);
}.

Lemma wf_shrink m m' :
  map_wf m → streams m' `sublist_of` streams m → current_height m' = current_height m →
  MAX_STREAMS_PER_PEER ≤ max_total m' → Z.of_nat (length (streams m')) ≤ max_total m' → map_wf m'.
Proof.
  intros [S C T P E] Sub H C' T'. split; [by eapply StronglySorted_sublist|done..| |].
  - intros p. etrans; [|apply (P p)]. apply inj_le, sublist_length. by apply sublist_filter_mono.
  - rewrite H. rewrite Forall_forall in *. intros kv Hin. apply E. by eapply sublist_elem_of.
Qed.

Lemma wf_fewer m m' :
  map_wf m → streams m' `sublist_of` streams m → current_height m' = current_height m →
  max_total m' = max_total m → map_wf m'.
Proof.
  intros W Sub H C. pose proof (sublist_length _ _ Sub). destruct W as [? ? T ? ?] eqn:E.
  eapply wf_shrink; [done..|lia|lia].
Qed.

Lemma evict_wf m k : map_wf m → map_wf (evict m k).
Proof. intros W. eapply wf_fewer; [done|apply filter_sublist|done..]. Qed.

Lemma remove_wf m k : map_wf m → map_wf (set_streams m (bt_remove k (streams m))).
Proof. intros W. eapply wf_fewer; [done|apply filter_sublist|done..]. Qed.

Lemma evict_oldest_wf m : map_wf m → map_wf (evict_oldest_stream m).
Proof.
  intros W. unfold evict_oldest_stream. destruct (busiest_peer m); [|done].
  destruct (oldest_stream_of m _); [by apply evict_wf|done].
Qed.

Lemma foldl_evict_wf keys m : map_wf m → map_wf (foldl evict m keys).
Proof. revert m. induction keys as [|k keys IH]; intros m W; [done|]. cbn. by apply IH, evict_wf. Qed.

Lemma foldl_evict_frame keys m :
  streams (foldl evict m keys) `sublist_of` streams m
  ∧ current_height (foldl evict m keys) = current_height m.
Proof.
  revert m. induction keys as [|k keys IH]; intros m; [done|]. cbn [foldl].
  destruct (IH (evict m k)) as [S H]. split; [|done]. etrans; [exact S|apply filter_sublist].
Qed.

Lemma evict_old_frame m now :
  streams (evict_old_streams m now) `sublist_of` streams m
  ∧ current_height (evict_old_streams m now) = current_height m.
Proof. unfold evict_old_streams. case_decide; [done|]. cbn zeta. set (m1 := mkPartStreamsMap _ _ _ _ _). exact (foldl_evict_frame _ m1). Qed.

Lemma evict_old_wf m now : map_wf m → map_wf (evict_old_streams m now).
Proof.
  intros W. unfold evict_old_streams. case_decide; [done|]. apply foldl_evict_wf.
  by eapply wf_fewer.
Qed.

Lemma new_wf height n now : map_wf (PartStreamsMap_new height n now).
Proof.
  split; cbn; [constructor| | |intros p; by vm_compute|by constructor];
    unfold max_total_streams, MAX_STREAMS_PER_PEER; lia.
Qed.

Lemma mark_closed_wf m p id : map_wf m → map_wf (mark_closed m p id).
Proof. intros W. by eapply wf_fewer. Qed.

Lemma set_height_wf m height : map_wf m → map_wf (set_current_height m height).
Proof.
  intros [S C T P E]. unfold set_current_height, remove_stale_streams. cbn.
  set (f := filter _ (streams m)).
  assert (f `sublist_of` streams m) as Sub by apply filter_sublist.
  pose proof (sublist_length _ _ Sub). split; cbn; [by eapply StronglySorted_sublist|done|lia| |].
  - intros p. etrans; [|apply (P p)]. apply inj_le, sublist_length. by apply sublist_filter_mono.
  - rewrite Forall_forall in *. intros kv Hin. pose proof (sublist_elem_of _ _ _ Sub Hin) as Hin'.
    apply list_elem_of_filter in Hin as [Hh _]. destruct (E kv Hin') as [Ws Wi (h & Eh & _ & Wh)].
    split; [done..|]. exists h. rewrite Eh in Hh. apply bool_decide_eq_true in Hh. auto.
Qed.

(** One round of [evict_oldest_stream] removes a stream. *)
Lemma evict_oldest_shorter m :
  streams m ≠ [] → (length (streams (evict_oldest_stream m)) < length (streams m))%nat.
Proof.
  intros Hne. destruct (evict_oldest_spec m Hne) as (k & s & Hin & -> & _). cbn. unfold bt_remove.
  apply list_elem_of_split in Hin as (l1 & l2 & ->). rewrite filter_app, filter_cons_False by (intros N; by apply N).
  rewrite !length_app. cbn [length].
  pose proof (length_filter (λ kv : StreamKey * StreamState, kv.1 ≠ k) l1).
  pose proof (length_filter (λ kv : StreamKey * StreamState, kv.1 ≠ k) l2). lia.
Qed.

Lemma evict_oldest_frame m :
  streams (evict_oldest_stream m) `sublist_of` streams m
  ∧ current_height (evict_oldest_stream m) = current_height m
  ∧ max_total (evict_oldest_stream m) = max_total m.
Proof.
  unfold evict_oldest_stream. destruct (busiest_peer m); [|done].
  destruct (oldest_stream_of m _); [|done]. split_and!; [apply filter_sublist|done..].
Qed.

Lemma evict_down_spec fuel m :
  (length (streams m) ≤ fuel)%nat → MAX_STREAMS_PER_PEER ≤ max_total m →
  let m' := evict_down fuel m in
  streams m' `sublist_of` streams m ∧ current_height m' = current_height m
  ∧ max_total m' = max_total m ∧ Z.of_nat (length (streams m')) ≤ max_total m.
Proof.
  unfold MAX_STREAMS_PER_PEER. revert m. induction fuel as [|fuel IH]; intros m Hf Hc; cbn.
  - split_and!; [done..|lia].
  - case_decide as D; [|split_and!; [done..|lia]].
    assert (streams m ≠ []) as Hne by (intros E; rewrite E in D; cbn in D; lia).
    pose proof (evict_oldest_shorter m Hne). destruct (evict_oldest_frame m) as (F1 & F2 & F3).
    destruct (IH (evict_oldest_stream m)) as (G1 & G2 & G3 & G4); [lia|by rewrite F3|].
    split_and!; [by etrans|congruence|congruence|lia].
Qed.

Lemma set_num_validators_wf m n :
  map_wf m →
  map_wf (set_num_validators m n) ∧ max_total (set_num_validators m n) = max_total_streams n.
Proof.
  intros W. unfold set_num_validators. set (m1 := mkPartStreamsMap _ _ _ _ _).
  assert (MAX_STREAMS_PER_PEER ≤ max_total m1) as C by (cbn; unfold max_total_streams; lia).
  destruct (evict_down_spec (length (streams m1)) m1 ltac:(done) C) as (S & H & X & L).
  split; [|done]. eapply wf_shrink; [done|done|by rewrite H|by rewrite X|lia].
Qed.

Lemma valid_fin_sequence q : is_valid_fin_sequence q = true → 0 ≤ q < MAX_MESSAGES_PER_STREAM.
Proof.
  unfold is_valid_fin_sequence. destruct (try_from 64 q) eqn:D; [|done].
  apply try_from_inv in D as [-> [? _]]. rewrite bool_decide_eq_true. lia.
Qed.

Lemma StreamState_new_wf now : stream_wf (StreamState_new now).
Proof. split; cbn; [done|done|by apply NoDup_nil|set_solver|by apply Forall_nil|done|done]. Qed.

(** What a well-formed stream becomes when a message is buffered. *)
Lemma buffered_wf s msg :
  stream_wf s → oversized msg = None →
  (is_fin msg = true → is_valid_fin_sequence (sequence msg) = true) →
  sequence msg ∉ seen_sequences s → message_count s < MAX_MESSAGES_PER_STREAM →
  ∀ complete, stream_wf (mkStreamState (msg :: ss_buffer s) ({[sequence msg]} ∪ seen_sequences s)
    (if is_fin msg then sequence msg + 1 else expected_messages s) (message_count s + 1)
    (match as_data (content msg) ≫= as_init with Some i => Some (init_height i) | None => ss_height s end)
    (is_fin msg || fin_received s) complete (created_at s)).
Proof.
  intros [Wc Wl Wn Ws Wz Wh Wf] O F N L complete. split; cbn.
  - lia.
  - lia.
  - apply NoDup_cons. by rewrite <- Ws.
  - intros q. rewrite elem_of_union, elem_of_singleton, elem_of_cons. by rewrite Ws.
  - by constructor.
  - intros h Hh. destruct (as_data (content msg)) as [[i| |]|] eqn:E; cbn in Hh;
      try (destruct (Wh h Hh) as (x & i' & ? & ?); exists x, i'; split; [by right|done]).
    exists msg, i. split; [left|]. by simplify_eq.
  - destruct (is_fin msg) eqn:E; cbn.
    + intros _. exists msg. split_and!; [left|done..|]. apply valid_fin_sequence. auto.
    + intros Hf. destruct (Wf Hf) as (x & ? & ?). exists x. split; [by right|done].
Qed.

Lemma stream_insert_wf s msg :
  stream_wf s →
  let '(r, s') := StreamState_insert s msg in
  match r with
  | Duplicate => s' = s
  | Incomplete h => stream_wf s' ∧ h = ss_height s' ∧ created_at s' = created_at s
  | _ => True
  end.
Proof.
  intros W. unfold StreamState_insert.
  destruct (oversized msg) eqn:O; [done|].
  destruct (is_fin msg && negb (is_valid_fin_sequence (sequence msg))) eqn:F; [done|].
  case_decide as D; [done|]. case_decide as L; [done|].
  destruct (negb (_ && _)); [|done]. split; [|done]. apply buffered_wf; [done|done| |done|lia].
  intros Hf. rewrite Hf in F. by apply negb_false_iff in F.
Qed.

Lemma peer_count_perm m p (l : list (StreamKey * StreamState)) :
  streams m ≡ₚ l →
  peer_streams_count m p = Z.of_nat (length (filter (λ kv : StreamKey * StreamState, kv.1.1 = p) l)).
Proof. intros P. unfold peer_streams_count. by rewrite P. Qed.

(** Storing the state of a stream that is tracked already, or for which there is room. *)
Lemma store_wf m key s :
  map_wf m → entry_wf (current_height m) (key, s) →
  (bt_get key (streams m) = None → peer_streams_count m key.1 < MAX_STREAMS_PER_PEER
                                   ∧ Z.of_nat (length (streams m)) < max_total m) →
  map_wf (set_streams m (bt_insert key_lt key s (streams m))).
Proof.
  intros [S C T P E] We Room.
  pose proof (bt_insert_perm key_lt key_lt_irrefl key_lt_trans key s (streams m) S) as Perm.
  assert (∀ p, peer_streams_count (set_streams m (bt_insert key_lt key s (streams m))) p
    ≤ MAX_STREAMS_PER_PEER ∧ Z.of_nat (length (bt_insert key_lt key s (streams m))) ≤ max_total m) as B.
  { intros p. erewrite peer_count_perm by exact Perm. rewrite Perm. unfold peer_streams_count in *.
    destruct (bt_get key (streams m)) as [s0|] eqn:G.
    - apply bt_get_Some in G. apply elem_of_Permutation in G as [l Pl].
      pose proof (P p) as Pp. unfold bt_remove. rewrite Pl in Pp, T |- *.
      rewrite (filter_cons_False (λ kv, kv.1 ≠ key)) by (intros N; by apply N).
      pose proof (sublist_length _ _ (sublist_filter_mono (λ kv : StreamKey * StreamState, kv.1.1 = p)
        _ _ (filter_sublist (λ kv, kv.1 ≠ key) l))).
      pose proof (length_filter (λ kv, kv.1 ≠ key) l).
      rewrite !filter_cons in *. cbn [length fst] in *. repeat case_decide; cbn [length] in *; lia.
    - rewrite bt_remove_fresh by (intros kv Hin Ek; apply bt_get_None in G; apply G; subst;
        by apply list_elem_of_fmap_2). destruct (Room eq_refl) as [R1 R2]. rewrite filter_cons.
      specialize (P p). cbn [length fst]. case_decide; subst; cbn [length]; lia. }
  split; cbn; [apply bt_insert_sorted; [apply key_lt_irrefl|apply key_lt_trans|apply key_lt_total|done]
    |done|apply (B 0)|intros p; apply B|].
  rewrite Perm. apply Forall_cons. split; [done|]. apply Forall_forall. intros kv Hin.
  apply list_elem_of_filter in Hin as [_ Hin]. rewrite Forall_forall in E. by apply E.
Qed.

Lemma sublist_peer_count m m' p :
  streams m' `sublist_of` streams m → peer_streams_count m' p ≤ peer_streams_count m p.
Proof. intros S. apply inj_le, sublist_length. by apply sublist_filter_mono. Qed.

Lemma bt_get_None_sublist (k : StreamKey) (l l' : list (StreamKey * StreamState)) :
  l' `sublist_of` l → bt_get k l = None → bt_get k l' = None.
Proof.
  rewrite !bt_get_None, !list_elem_of_fmap. intros S N ([k' s] & E & Hin). apply N.
  exists (k', s). split; [done|]. by eapply sublist_elem_of.
Qed.

Lemma insert_into_stream_wf m key h msg created :
  map_wf m → Z.of_nat (length key.2) = STREAM_ID_LEN →
  stream_id_height key.2 = Some h → current_height m ≤ h →
  (bt_get key (streams m) = None → peer_streams_count m key.1 < MAX_STREAMS_PER_PEER
                                   ∧ Z.of_nat (length (streams m)) < max_total m) →
  map_wf (insert_into_stream m key h msg created).2.
Proof.
  intros W Hl Hh Hc Room. unfold insert_into_stream.
  set (s := default _ _).
  assert (entry_wf (current_height m) (key, s)) as Ws.
  { unfold s. destruct (bt_get key (streams m)) as [s0|] eqn:G; cbn.
    - apply bt_get_Some in G. pose proof (wf_entries m W) as E. rewrite Forall_forall in E. by apply E.
    - split; cbn; [apply StreamState_new_wf|done|]. exists h. auto. }
  pose proof (stream_insert_wf s msg (wf_stream _ _ Ws)) as Hi.
  destruct (StreamState_insert s msg) as [r s'].
  set (m1 := set_streams m (bt_insert key_lt key s' (streams m))).
  assert (∀ m2, streams m2 = bt_remove key (streams m1) → current_height m2 = current_height m →
    max_total m2 = max_total m → map_wf m2) as R.
  { intros m2 E H X. eapply wf_fewer; [exact W| |done..]. rewrite E. unfold m1, set_streams. cbn [streams]. rewrite bt_remove_insert.
    apply filter_sublist. }
  assert (entry_wf (current_height m) (key, s') → map_wf m1) as St by (intros; by apply store_wf).
  destruct r as [|[h'|]| | | |parts]; try (by apply R).
  - apply St. subst s'. done.
  - destruct Hi as (Ws' & Hs & _). case_decide as D; [by apply R|]. apply St.
    split; cbn; [done..|]. exists h. split_and!; [done..|right; congruence].
  - destruct Hi as (Ws' & Hs & _). apply St. split; cbn; [done..|]. exists h. auto.
  - destruct (ProposalParts_new parts); [|by apply R].
    case_decide; [|by apply R]. apply R; [|done..]. cbn. unfold bt_remove.
    by rewrite list_filter_filter_l by done.
Qed.

Lemma insert_wf m peer msg now created : map_wf m → map_wf (insert m peer msg now created).2.
Proof.
  intros W. unfold insert. case_decide as Hl; [by apply remove_wf|].
  destruct (stream_id_height (stream_id msg)) as [h|] eqn:Hh; [|by apply remove_wf].
  case_decide as Hc; [by apply remove_wf|].
  pose proof (evict_old_wf m now W) as W1.
  destruct (evict_old_frame m now) as [_ H1].
  set (m1 := evict_old_streams m now) in *. set (key := (peer, stream_id msg)).
  destruct (lru_peek _ _); [done|].
  destruct (bool_decide_reflect (bt_get key (streams m1) = None)) as [New|Old]; cbn [andb].
  2: { apply insert_into_stream_wf; [done|done|done|lia|done]. }
  destruct (bool_decide_reflect (MAX_STREAMS_PER_PEER ≤ peer_streams_count m1 peer)); [done|].
  destruct (bool_decide_reflect (max_total m1 ≤ Z.of_nat (length (streams m1)))) as [Full|Free].
  2: { apply insert_into_stream_wf; [done|done|done|lia|]. cbn. lia. }
  destruct (evict_oldest_frame m1) as (F1 & F2 & F3).
  assert (streams m1 ≠ []) as Hne.
  { intros E. rewrite E in Full. pose proof (wf_cap _ W1). unfold MAX_STREAMS_PER_PEER in *. cbn in *. lia. }
  pose proof (evict_oldest_shorter m1 Hne). pose proof (sublist_peer_count _ _ peer F1).
  pose proof (wf_total _ W1).
  apply insert_into_stream_wf; [by apply evict_oldest_wf|done|done|lia|]. cbn. lia.
Qed.

(** Bytes of proposal data a message, a stream and a list of streams hold. *)
Definition message_bytes (msg : StreamMessage) : Z :=
  match as_data (content msg) with Some (PartData data) => Z.of_nat (length data) | _ => 0 end.
Definition stream_bytes (s : StreamState) : Z :=
  foldr (λ msg acc, message_bytes msg + acc) 0 (ss_buffer s).
Definition held_bytes (l : list (StreamKey * StreamState)) : Z :=
  foldr (λ kv acc, stream_bytes kv.2 + acc) 0 l.

Lemma stream_bytes_bound s :
  stream_wf s → stream_bytes s ≤ MAX_MESSAGES_PER_STREAM * CHUNK_SIZE.
Proof.
  intros [Wc Wl _ _ Wz _ _]. transitivity (message_count s * CHUNK_SIZE).
  2: { apply Z.mul_le_mono_nonneg_r; [by vm_compute|done]. }
  rewrite Wc. unfold stream_bytes. clear Wc Wl.
  induction Wz as [|msg l O _ IH]; cbn [foldr length]; [done|].
  assert (message_bytes msg ≤ CHUNK_SIZE); [|lia].
  revert O. unfold oversized, message_bytes. destruct (as_data _) as [[]|]; try (by vm_compute).
  case_decide; [done|lia].
Qed.

Lemma held_bytes_bound h l :
  Forall (entry_wf h) l → held_bytes l ≤ Z.of_nat (length l) * (MAX_MESSAGES_PER_STREAM * CHUNK_SIZE).
Proof.
  induction 1 as [|kv l E _ IH]; cbn [held_bytes foldr length]; [done|].
  pose proof (stream_bytes_bound _ (wf_stream _ _ E)). unfold held_bytes in IH. lia.
Qed.

(** What the consensus application does to the map. *)
Inductive streams_step : PartStreamsMap → PartStreamsMap → Prop :=
| step_insert m peer msg now created : streams_step m (insert m peer msg now created).2
| step_height m height : streams_step m (set_current_height m height)
| step_validators m n : streams_step m (set_num_validators m n)
| step_closed m peer id : streams_step m (mark_closed m peer id).

Lemma step_wf m m' : streams_step m m' → map_wf m → map_wf m'.
Proof.
  intros [] W; [by apply insert_wf|by apply set_height_wf|by apply set_num_validators_wf|
    by apply mark_closed_wf].
Qed.

Lemma reachable_wf height n now m :
  rtc streams_step (PartStreamsMap_new height n now) m → map_wf m.
Proof.
  intros H. pose proof (new_wf height n now) as W. induction H as [m|m1 m2 m3 St _ IH]; [done|].
  apply IH. by eapply step_wf.
Qed.

(** C25: Whatever messages arrive from whatever peers, and however the height and the
    validator set change, the proposal streams stay within their documented limits: at
    most [max_total_streams] of them, at most 4 per peer, at most
    [max_total_streams * 128 * CHUNK_SIZE] bytes of proposal data in total and 64 MiB per
    peer, one stream per key, none of a height below the current one; lowering the
    number of validators enforces the new cap at once. *)
Theorem streams_always_bounded height n now m :
  rtc streams_step (PartStreamsMap_new height n now) m →
  Z.of_nat (length (streams m)) ≤ max_total m
  ∧ (∀ p, peer_streams_count m p ≤ MAX_STREAMS_PER_PEER)
  ∧ held_bytes (streams m) ≤ max_total m * (MAX_MESSAGES_PER_STREAM * CHUNK_SIZE)
  ∧ (∀ p, held_bytes (filter (λ kv, kv.1.1 = p) (streams m)) ≤ 64 * 1024 * 1024)
  ∧ NoDup (streams m).*1
  ∧ (∀ k s, (k, s) ∈ streams m → ∃ h, stream_id_height k.2 = Some h ∧ current_height m ≤ h)
  ∧ (∀ n', Z.of_nat (length (streams (set_num_validators m n'))) ≤ max_total_streams n').
Proof.
  intros R%reachable_wf. pose proof R as [S C T P E]. split_and!; [done|done| | | | |].
  - etrans; [by eapply held_bytes_bound|]. apply Z.mul_le_mono_nonneg_r; [by vm_compute|done].
  - intros p. etrans; [apply (held_bytes_bound (current_height m))|].
    { apply Forall_forall. intros kv [_ Hin]%list_elem_of_filter. rewrite Forall_forall in E. by apply E. }
    specialize (P p). unfold peer_streams_count, MAX_STREAMS_PER_PEER in P.
    unfold MAX_MESSAGES_PER_STREAM, CHUNK_SIZE. lia.
  - by apply (bt_sorted_NoDup key_lt key_lt_irrefl).
  - intros k s Hin. rewrite Forall_forall in E. destruct (E _ Hin) as [_ _ (h & ? & ? & _)]. eauto.
  - intros n'. destruct (set_num_validators_wf m n' R) as [W <-]. apply W.
Qed.

End Limits.

(** Two streams of one peer, then a new height that makes the first one stale. *)
Definition toy_id (h : Z) : bytes := default [] (new_stream_id h (Some 0) 1).
Lemma streams_always_bounded_witness :
  let m1 := (insert (PartStreamsMap_new 5 1 0) 9 (mkStreamMessage (toy_id 5) 3 StreamFin) 1 1).2 in
  let m2 := (insert m1 9 (mkStreamMessage (toy_id 6) 1 (StreamData (PartData []))) 2 2).2 in
  let m3 := set_current_height m2 6 in
  length (streams m2) = 2%nat ∧ length (streams m3) = 1%nat ∧ NoDup (streams m3).*1.
Proof.
  cbn zeta. split; [by vm_compute|]. split; [by vm_compute|].
  refine (proj1 (proj2 (proj2 (proj2 (proj2 (streams_always_bounded 5 1 0 _ _)))))).
  eapply rtc_l; [apply step_insert|]. eapply rtc_l; [apply step_insert|].
  eapply rtc_l; [apply step_height|]. apply rtc_refl.
Defined.
