(* ===== verification/Reassembly.v ===== *)
(** * Reassembly of a proposal from its stream

    A block split by [prepare_stream] and delivered message by message, in any order,
    with duplicates and interleaved with other traffic, is rebuilt by
    [PartStreamsMap::insert] and [assemble_block_from_parts]; what a completed stream
    guarantees; closed and stale keys; when gaps go unnoticed. *)

From stdpp Require Import sorting.
From S2P Require Import Prelude BTree Validators Proposal Codec CodecProps ToyCrypto Streaming ToyStreams StreamingProps.

(** ** Splitting and joining *)

Lemma chunks_fuel_spec fuel n (l : bytes) :
  (length l ≤ fuel)%nat → (0 < n)%nat →
  concat (chunks_fuel fuel n l) = l ∧ Forall (λ c : bytes, (length c ≤ n)%nat) (chunks_fuel fuel n l).
Proof.
  revert l. induction fuel as [|fuel IH]; intros [|b l] Hf Hn; cbn [length] in Hf; try (split; [done|constructor]).
  { lia. }
  cbn [chunks_fuel concat]. destruct (IH (drop n (b :: l))) as [E F].
  { rewrite length_drop. cbn [length]. lia. } { done. }
  split; [by rewrite E, take_drop|]. constructor; [rewrite length_take; lia|done].
Qed.

Lemma chunks_spec n (l : bytes) :
  0 < n → concat (chunks n l) = l ∧ Forall (λ c : bytes, Z.of_nat (length c) ≤ n) (chunks n l).
Proof.
  intros Hn. destruct (chunks_fuel_spec (length l) (Z.to_nat n) l) as [E F]; [done|lia|].
  split; [done|]. eapply Forall_impl; [exact F|]. cbn. lia.
Qed.

Lemma foldl_app_concat (acc : bytes) cs : foldl (λ h c : bytes, h ++ c) acc cs = acc ++ concat cs.
Proof.
  revert acc. induction cs as [|c cs IH]; intros acc; cbn; [by rewrite app_nil_r|].
  by rewrite IH, app_assoc.
Qed.

Section Splitting.
Context `{PC : ProposalCrypto}.

Lemma collect_data cs rest i f acc :
  collect_parts ((PartData <$> cs) ++ rest) i f acc = collect_parts rest i f (acc ++ cs).
Proof.
  revert acc. induction cs as [|c cs IH]; intros acc; cbn [fmap list_fmap app collect_parts].
  - by rewrite app_nil_r.
  - by rewrite IH, <- app_assoc.
Qed.

Lemma ProposalParts_new_split i cs f :
  ProposalParts_new (PartInit i :: (PartData <$> cs) ++ [PartFin f]) = Ok (mkProposalParts i cs f).
Proof. unfold ProposalParts_new. cbn [collect_parts]. by rewrite decide_False, collect_data by (by intros []). Qed.

(** The messages of a stream, by position. *)
Lemma number_parts_lookup id q parts j :
  number_parts id q parts !! j
  = if decide (j < length parts)%nat
    then (λ p, mkStreamMessage id (q + Z.of_nat j) (StreamData p)) <$> parts !! j
    else if decide (j = length parts) then Some (mkStreamMessage id (q + Z.of_nat j) StreamFin) else None.
Proof.
  revert q j. induction parts as [|p parts IH]; intros q j.
  - destruct j; cbn; [by rewrite Z.add_0_r|done].
  - destruct j as [|j]; cbn [number_parts lookup list_lookup length].
    + rewrite decide_True by lia. cbn. by rewrite Z.add_0_r.
    + change (number_parts id (q + 1) parts !! j = if decide (S j < S (length parts))%nat then
        (λ p, mkStreamMessage id (q + Z.of_nat (S j)) (StreamData p)) <$> parts !! j
        else if decide (S j = S (length parts)) then Some (mkStreamMessage id (q + Z.of_nat (S j)) StreamFin)
        else None).
      rewrite IH. replace (q + 1 + Z.of_nat j) with (q + Z.of_nat (S j)) by lia.
      repeat case_decide; try lia; done.
Qed.

Lemma number_parts_length id q parts : length (number_parts id q parts) = S (length parts).
Proof. revert q. induction parts as [|p parts IH]; intros q; cbn; [done|]. by rewrite IH. Qed.

Lemma number_parts_elem id q parts x :
  x ∈ number_parts id q parts →
  stream_id x = id ∧ q ≤ sequence x ≤ q + Z.of_nat (length parts)
  ∧ ((is_fin x = true ∧ sequence x = q + Z.of_nat (length parts) ∧ content x = StreamFin)
     ∨ (is_fin x = false ∧ ∃ p, p ∈ parts ∧ content x = StreamData p)).
Proof.
  intros [j Hj]%list_elem_of_lookup. rewrite number_parts_lookup in Hj. case_decide as L.
  - destruct (parts !! j) as [p|] eqn:E; [|done]. cbn in Hj. simplify_eq. cbn. split_and!; [done|lia|lia|].
    right. split; [done|]. exists p. split; [by eapply list_elem_of_lookup_2|done].
  - case_decide; [|done]. simplify_eq. cbn. split_and!; [done|lia|lia|]. by left.
Qed.

Lemma number_parts_sequences id q parts :
  StronglySorted (λ a b, sequence a < sequence b) (number_parts id q parts).
Proof.
  revert q. induction parts as [|p parts IH]; intros q; cbn; [by repeat constructor|].
  constructor; [apply IH|]. apply Forall_forall. intros x Hx. apply number_parts_elem in Hx. cbn. lia.
Qed.

Lemma number_parts_inj id q parts a b :
  a ∈ number_parts id q parts → b ∈ number_parts id q parts → sequence a = sequence b → a = b.
Proof.
  intros [i Ha]%list_elem_of_lookup [j Hb]%list_elem_of_lookup E.
  rewrite number_parts_lookup in Ha, Hb. assert (i = j) as ->; [|congruence].
  revert Ha Hb. repeat case_decide; try done;
    (destruct (parts !! i), (parts !! j)); cbn; intros; simplify_eq; cbn in *; lia.
Qed.

Lemma number_parts_NoDup id q parts : NoDup (number_parts id q parts).
Proof.
  pose proof (number_parts_sequences id q parts) as S. induction S as [|x l S IH F]; constructor; [|done].
  intros Hin. rewrite Forall_forall in F. specialize (F x Hin). cbn in F. lia.
Qed.

Lemma number_parts_data id q parts :
  omap (λ m, as_data (content m)) (number_parts id q parts) = parts.
Proof. revert q. induction parts as [|p parts IH]; intros q; cbn; [done|]. by rewrite IH. Qed.

(** The parts come back in order whatever order they were buffered in. *)
Lemma drain_number_parts id parts buffer :
  buffer ≡ₚ number_parts id 0 parts → drain buffer = parts.
Proof.
  intros P. unfold drain. rewrite <- (number_parts_data id 0 parts). f_equal.
  pose proof (number_parts_sequences id 0 parts) as S.
  assert (Transitive seq_le) by (intros a b c; unfold seq_le; lia).
  assert (Total seq_le) by (intros a b; unfold seq_le; lia).
  apply (StronglySorted_unique_strong seq_le).
  - intros a b Ha Hb L1 L2. rewrite merge_sort_Permutation, P in Ha. unfold seq_le in *.
    eapply number_parts_inj; [done..|lia].
  - by apply StronglySorted_merge_sort.
  - clear -S. induction S as [|x l S IH F]; constructor; [done|].
    eapply Forall_impl; [exact F|]. unfold seq_le. cbn. lia.
  - by rewrite merge_sort_Permutation.
Qed.

End Splitting.

(** ** One stream *)

Section OneStream.
Context `{PC : ProposalCrypto}.
Context (id : bytes) (i : ProposalInit) (cs : list bytes) (sig : Signature).
Hypothesis chunk_sizes : Forall (λ c : bytes, Z.of_nat (length c) ≤ CHUNK_SIZE) cs.

Definition the_parts : list ProposalPart := PartInit i :: (PartData <$> cs) ++ [PartFin sig].
Definition the_messages : list StreamMessage := number_parts id 0 the_parts.
Hypothesis fits : Z.of_nat (length the_messages) ≤ MAX_MESSAGES_PER_STREAM.

(** The stream has buffered exactly the messages of [recv], once each. *)
Record collected (recv : list StreamMessage) (s : StreamState) : Prop := {
  c_buffer : ∀ x, x ∈ ss_buffer s ↔ x ∈ recv;
  c_nodup : NoDup (ss_buffer s);
  c_seen : ∀ q, q ∈ seen_sequences s ↔ q ∈ sequence <$> ss_buffer s;
  c_count : message_count s = Z.of_nat (length (ss_buffer s));
  c_height : ss_height s = None ∧ (∀ x, x ∈ recv → as_data (content x) ≠ Some (PartInit i))
             ∨ ss_height s = Some (init_height i);
  c_fin : fin_received s = false ∧ (∀ x, x ∈ recv → is_fin x = false)
          ∨ fin_received s = true ∧ expected_messages s = Z.of_nat (length the_messages);
}.

Lemma collected_nil now : collected [] (StreamState_new now).
Proof. split; cbn; [done|by apply NoDup_nil|set_solver|done|left; set_solver|left; set_solver]. Qed.

Lemma message_kind x :
  x ∈ the_messages →
  oversized x = None ∧ (is_fin x = true → sequence x + 1 = Z.of_nat (length the_messages))
  ∧ (∀ i', as_data (content x) = Some (PartInit i') → i' = i).
Proof.
  intros Hx. apply number_parts_elem in Hx as (_ & _ & [(F & Q & C)|(F & p & Hp & C)]);
    unfold oversized, the_messages; rewrite C, number_parts_length; cbn [as_data].
  - split_and!; [done|lia|done].
  - split; [|split; [congruence|intros i' [= ->]]].
    + destruct p as [|d|]; try done. case_decide as D; [|done].
      apply elem_of_cons in Hp as [?|Hp]; [done|].
      apply elem_of_app in Hp as [(c & [= ->] & Hc)%list_elem_of_fmap|?%list_elem_of_singleton]; [|done].
      rewrite Forall_forall in chunk_sizes. specialize (chunk_sizes c Hc). cbn in chunk_sizes. lia.
    + apply elem_of_cons in Hp as [[= ->]|Hp]; [done|]. exfalso.
      apply elem_of_app in Hp as [(c & ? & _)%list_elem_of_fmap|?%list_elem_of_singleton]; done.
Qed.

Lemma seen_iff recv s msg :
  collected recv s → (∀ x, x ∈ recv → x ∈ the_messages) → msg ∈ the_messages →
  sequence msg ∈ seen_sequences s ↔ msg ∈ recv.
Proof.
  intros C Sub Hm. rewrite (c_seen _ _ C), list_elem_of_fmap. split.
  - intros (x & E & Hx%C). by rewrite (number_parts_inj id 0 the_parts msg x) by auto.
  - intros Hx%C. eauto.
Qed.

(** The state a fresh message of the stream leads to. *)
Definition buffered (s : StreamState) (msg : StreamMessage) (complete : bool) : StreamState :=
  mkStreamState (msg :: ss_buffer s) ({[sequence msg]} ∪ seen_sequences s)
    (if is_fin msg then sequence msg + 1 else expected_messages s) (message_count s + 1)
    (match as_data (content msg) ≫= as_init with Some i => Some (init_height i) | None => ss_height s end)
    (is_fin msg || fin_received s) complete (created_at s).

Lemma buffered_collected recv s msg complete :
  collected recv s → (∀ x, x ∈ recv → x ∈ the_messages) → msg ∈ the_messages → msg ∉ recv →
  collected (msg :: recv) (buffered s msg complete).
Proof.
  intros C Sub Hm N. pose proof (message_kind msg Hm) as (_ & Hf & Hi).
  pose proof C as [Cb Cn Cs Cc Ch Cf]. split; cbn.
  - intros x. rewrite !elem_of_cons. by rewrite Cb.
  - apply NoDup_cons. by rewrite Cb.
  - intros q. rewrite elem_of_union, elem_of_singleton, elem_of_cons. by rewrite Cs.
  - lia.
  - destruct (as_data (content msg)) as [[i'| |]|] eqn:E; cbn.
    { right. by rewrite (Hi i'). }
    all: destruct Ch as [[-> Ch]|]; [left|by right]; split; [done|];
      intros x [->|Hx]%elem_of_cons; [by rewrite E|auto].
  - destruct (is_fin msg) eqn:E; cbn; [right; auto|].
    destruct Cf as [[-> Cf]|[-> Cf]]; [left|right; done]. split; [done|].
    intros x [->|Hx]%elem_of_cons; auto.
Qed.

Lemma fin_valid x :
  x ∈ the_messages → is_fin x && negb (is_valid_fin_sequence (sequence x)) = false.
Proof.
  intros Hx. destruct (is_fin x) eqn:F; [|done]. cbn. apply negb_false_iff.
  destruct (message_kind x Hx) as (_ & Hf & _). specialize (Hf F).
  apply number_parts_elem in Hx as (_ & Hq & _).
  unfold is_valid_fin_sequence. unfold MAX_MESSAGES_PER_STREAM in *.
  rewrite try_from_Some by (unfold uint; lia). apply bool_decide_eq_true. lia.
Qed.

Lemma insert_duplicate recv s msg :
  collected recv s → (∀ x, x ∈ recv → x ∈ the_messages) → msg ∈ recv →
  StreamState_insert s msg = (Duplicate, s).
Proof.
  intros C Sub Hm. unfold StreamState_insert.
  destruct (message_kind msg (Sub _ Hm)) as (-> & _ & _). rewrite fin_valid by auto.
  by rewrite decide_True by (eapply seen_iff; eauto).
Qed.

(** The condition under which a fresh message completes the stream. *)
Definition completes (s : StreamState) (msg : StreamMessage) : bool :=
  let s' := buffered s msg false in
  bool_decide (is_Some (ss_height s')) && fin_received s'
  && bool_decide (Z.of_nat (length (ss_buffer s')) = expected_messages s').

Lemma buffer_room recv s msg :
  collected recv s → (∀ x, x ∈ recv → x ∈ the_messages) → msg ∈ the_messages → msg ∉ recv →
  (length (ss_buffer s) < length the_messages)%nat.
Proof.
  intros C Sub Hm N. apply (submseteq_length (msg :: ss_buffer s)), NoDup_submseteq.
  - apply NoDup_cons. split; [by rewrite (c_buffer _ _ C)|apply C].
  - intros x [->|Hx%C]%elem_of_cons; auto.
Qed.

Lemma insert_fresh recv s msg :
  collected recv s → (∀ x, x ∈ recv → x ∈ the_messages) → msg ∈ the_messages → msg ∉ recv →
  StreamState_insert s msg
  = if completes s msg
    then (StreamComplete (drain (msg :: ss_buffer s)),
          mkStreamState [] (seen_sequences (buffered s msg true)) (expected_messages (buffered s msg true))
            (message_count s + 1) (ss_height (buffered s msg true)) (fin_received (buffered s msg true))
            true (created_at s))
    else (Incomplete (ss_height (buffered s msg false)), buffered s msg false).
Proof.
  intros C Sub Hm N. pose proof (buffer_room _ _ _ C Sub Hm N). pose proof (c_count _ _ C).
  unfold StreamState_insert. destruct (message_kind msg Hm) as (-> & _ & _). rewrite fin_valid by done.
  rewrite decide_False by (rewrite seen_iff; eauto). rewrite decide_False by lia.
  fold (ss_height (buffered s msg false)). unfold completes, buffered. cbn [ss_height fin_received
    expected_messages ss_buffer seen_sequences created_at message_count is_complete].
  by destruct (_ && _ && _).
Qed.

(** A message that leaves another one missing is buffered or dropped as a duplicate. *)
Lemma insert_pending recv s msg y :
  collected recv s → (∀ x, x ∈ recv → x ∈ the_messages) → msg ∈ the_messages →
  y ∈ the_messages → y ∉ recv → y ≠ msg →
  ∃ r s', StreamState_insert s msg = (r, s') ∧ created_at s' = created_at s
    ∧ (r = Duplicate ∨ r = Incomplete None ∨ r = Incomplete (Some (init_height i)))
    ∧ collected (msg :: recv) s'.
Proof.
  intros C Sub Hm Hy N Ny. destruct (decide (sequence msg ∈ seen_sequences s)) as [D|D];
    rewrite (seen_iff recv) in D by done.
  - exists Duplicate, s. split_and!; [by eapply insert_duplicate|done|auto|].
    destruct C as [Cb Cn Cs Cc Ch Cf]. split; [set_solver|done..| |].
    + destruct Ch as [[? Ch]|]; [left; set_solver|by right].
    + destruct Cf as [[? Cf]|]; [left; set_solver|by right].
  - pose proof (buffered_collected _ _ _ false C Sub Hm D) as C'.
    rewrite (insert_fresh recv) by done.
    assert (completes s msg = false) as ->.
    { unfold completes. destruct (c_fin _ _ C') as [[-> _]|[-> ->]]; [by rewrite andb_false_r|].
      rewrite (bool_decide_eq_false_2 (_ = _)); [by rewrite andb_false_r|].
      pose proof (buffer_room (msg :: recv) _ y C'). intros E. apply Nat2Z.inj in E.
      ospecialize* H; [set_solver|done|set_solver|lia]. }
    eexists _, _. split_and!; [done|done| |done].
    destruct (c_height _ _ C') as [[-> _]| ->]; auto.
Qed.

(** The last missing message completes the stream with the parts in order. *)
Lemma insert_last recv s msg :
  collected recv s → (∀ x, x ∈ recv → x ∈ the_messages) → msg ∈ the_messages → msg ∉ recv →
  (∀ x, x ∈ the_messages → x = msg ∨ x ∈ recv) →
  ∃ s', StreamState_insert s msg = (StreamComplete the_parts, s').
Proof.
  intros C Sub Hm N All. pose proof (buffered_collected _ _ _ false C Sub Hm N) as C'.
  assert (msg :: ss_buffer s ≡ₚ the_messages) as P.
  { apply NoDup_Permutation; [exact (c_nodup _ _ C')|apply number_parts_NoDup|].
    intros x. rewrite (c_buffer _ _ C' x). set_solver. }
  rewrite (insert_fresh recv) by done. assert (completes s msg = true) as ->.
  { assert (∀ j, is_Some (the_messages !! j) → ∃ x, the_messages !! j = Some x ∧ x ∈ msg :: recv) as At.
    { intros j [x Hx]. exists x. split; [done|]. apply list_elem_of_lookup_2 in Hx. set_solver. }
    unfold completes. destruct (c_height _ _ C') as [[_ No]| ->].
    { exfalso. destruct (At 0%nat) as (x & Hx & Hin); [by eexists|]. apply (No x Hin).
      by injection Hx as <-. }
    destruct (c_fin _ _ C') as [[_ No]|[-> ->]].
    { exfalso. destruct (At (length the_parts)) as (x & Hx & Hin).
      { apply lookup_lt_is_Some. unfold the_messages. rewrite number_parts_length. lia. }
      specialize (No x Hin). unfold the_messages in Hx. rewrite number_parts_lookup in Hx.
      rewrite decide_False, decide_True in Hx by lia. by simplify_eq. }
    rewrite (bool_decide_eq_true_2 (is_Some _)) by eauto. cbn [andb]. apply bool_decide_eq_true.
    f_equal. exact (Permutation_length P). }
  eexists. by rewrite (drain_number_parts id the_parts).
Qed.

End OneStream.

(** ** The stream inside the map *)

Section Admission.
Context `{PC : ProposalCrypto} `{LO : LruOps} {LL : LruLaws}.
Context (peer : Z) (id : bytes) (h : Z).
Hypothesis id_length : Z.of_nat (length id) = STREAM_ID_LEN.
Hypothesis id_height : stream_id_height id = Some h.
Implicit Types m : PartStreamsMap.

Abbreviation key := (peer, id).

(** The map takes messages of the stream: its height is not stale, its key not closed,
    and it is either younger than [MAX_STREAM_AGE] or new with room for the peer. *)
Definition accepts m (now : Z) : Prop :=
  current_height m ≤ h ∧ lru_peek (closed_keys m) key = false ∧
  match bt_get key (streams m) with
  | Some s => duration_since now (created_at s) ≤ MAX_STREAM_AGE
  | None => peer_streams_count m peer < MAX_STREAMS_PER_PEER
  end.

(** Two maps agree on the stream. *)
Definition same_stream m m' : Prop :=
  bt_get key (streams m') = bt_get key (streams m)
  ∧ (lru_peek (closed_keys m) key = false → lru_peek (closed_keys m') key = false).

Lemma evict_other m k : k ≠ key → same_stream m (evict m k).
Proof.
  intros N. split; [by apply bt_get_remove_ne|]. intros F. cbn. apply not_true_iff_false.
  intros [E|E]%lru_peek_insert_inv; congruence.
Qed.

Lemma evict_others keys m : (∀ k, k ∈ keys → k ≠ key) → same_stream m (foldl evict m keys).
Proof.
  revert m. induction keys as [|k keys IH]; intros m N; [done|]. cbn [foldl].
  destruct (evict_other m k) as [E1 E2]; [apply N; left|].
  destruct (IH (evict m k)) as [F1 F2]; [intros k' ?; apply N; by right|].
  split; [congruence|auto].
Qed.

Lemma sweep_keeps m now :
  map_wf m →
  (∀ s, bt_get key (streams m) = Some s → duration_since now (created_at s) ≤ MAX_STREAM_AGE) →
  same_stream m (evict_old_streams m now).
Proof.
  intros W Young. unfold evict_old_streams. case_decide; [done|]. cbn zeta.
  set (m1 := mkPartStreamsMap _ _ _ _ _). change (same_stream m1 (foldl evict m1
    (filter (λ kv, MAX_STREAM_AGE < duration_since now (created_at kv.2)) (streams m1)).*1)).
  apply evict_others. intros k Hk ->. apply list_elem_of_fmap in Hk as ([k s] & E & Hk).
  cbn in E. subst k. apply list_elem_of_filter in Hk as [Old Hin]. cbn in Old.
  apply (bt_get_sorted key_lt key_lt_irrefl) in Hin; [|apply W]. specialize (Young s Hin). lia.
Qed.

Lemma oldest_keeps m :
  bt_get key (streams m) = None → same_stream m (evict_oldest_stream m).
Proof.
  intros N. destruct (streams m) eqn:E.
  { unfold evict_oldest_stream, busiest_peer. by rewrite E. }
  destruct (evict_oldest_spec m) as (k & s & Hin & -> & _); [congruence|].
  apply evict_other. intros ->. apply bt_get_None in N. apply N. rewrite <- E.
  apply list_elem_of_fmap. by exists (key, s).
Qed.

(** An accepted message reaches its stream. *)
Lemma insert_accepted m msg now created :
  map_wf m → accepts m now → stream_id msg = id →
  ∃ m1, insert m peer msg now created = insert_into_stream m1 key h msg created
    ∧ same_stream m m1.
Proof.
  intros W (Hc & Hl & Ha) Hid. unfold insert. rewrite Hid, id_height, decide_False by (intros N; by apply N).
  rewrite decide_False by lia.
  assert (same_stream m (evict_old_streams m now)) as S.
  { apply sweep_keeps; [done|]. intros s E. by rewrite E in Ha. }
  destruct (evict_old_frame m now) as [Sub _]. set (m1 := evict_old_streams m now) in *.
  destruct S as [S1 S2]. rewrite (S2 Hl), S1.
  pose proof (sublist_peer_count _ _ peer Sub).
  destruct (bt_get key (streams m)) as [s|] eqn:G; cbn [bool_decide decide andb].
  - rewrite bool_decide_eq_false_2 by done. cbn. exists m1. split; [done|]. split; [by rewrite G|done].
  - rewrite bool_decide_eq_true_2 by done. cbn [andb]. rewrite bool_decide_eq_false_2 by lia.
    case_bool_decide; [|exists m1; split; [done|]; split; [by rewrite G|done]].
    destruct (oldest_keeps m1 S1) as [O1 O2]. exists (evict_oldest_stream m1). split; [done|].
    split; [congruence|auto].
Qed.

End Admission.

(** ** Delivery *)

Section Delivery.
Context `{PC : ProposalCrypto} `{LO : LruOps} {LL : LruLaws}.
Context (peer : Z) (id : bytes) (h : Z).
Implicit Types m : PartStreamsMap.

Abbreviation key := (peer, id).

(** From [m0], the messages [recv] of the stream were inserted with the results [rs],
    each while the map accepts them; between them the map may take any step that leaves
    the state of this stream as it is. *)
Inductive delivery m0 : list StreamMessage → list InsertResult → PartStreamsMap → Prop :=
| delivery_start : delivery m0 [] [] m0
| delivery_other recv rs m m' :
    delivery m0 recv rs m → streams_step m m' →
    bt_get key (streams m') = bt_get key (streams m) → delivery m0 recv rs m'
| delivery_message recv rs m now created msg r m' :
    delivery m0 recv rs m → accepts peer id h m now → insert m peer msg now created = (r, m') →
    delivery m0 (msg :: recv) (r :: rs) m'.

Context (i : ProposalInit) (cs : list bytes) (sig : Signature).
Hypothesis id_length : Z.of_nat (length id) = STREAM_ID_LEN.
Hypothesis id_height : stream_id_height id = Some h.
Hypothesis init_agrees : init_height i = h.
Hypothesis chunk_sizes : Forall (λ c : bytes, Z.of_nat (length c) ≤ CHUNK_SIZE) cs.
Abbreviation messages := (the_messages id i cs sig).
Hypothesis fits : Z.of_nat (length messages) ≤ MAX_MESSAGES_PER_STREAM.

Lemma message_id msg : msg ∈ messages → stream_id msg = id.
Proof. by intros [? _]%number_parts_elem. Qed.

(** As long as [y] is missing every message is pending. *)
Lemma delivery_pending m0 recv rs m y :
  delivery m0 recv rs m → map_wf m0 → bt_get key (streams m0) = None →
  (∀ x, x ∈ recv → x ∈ messages) → y ∈ messages → y ∉ recv →
  map_wf m ∧ Forall (λ r, r = Pending) rs
  ∧ match bt_get key (streams m) with
    | None => recv = []
    | Some s => collected id i cs sig recv s
    end.
Proof.
  intros D W0 N0. induction D as [|recv rs m m' D IH St E|recv rs m now created msg r m' D IH Acc Ins];
    intros Sub Hy Ny.
  - split_and!; [done|by constructor|]. by rewrite N0.
  - destruct (IH Sub Hy Ny) as (W & F & C). split_and!; [by eapply step_wf|done|by rewrite E].
  - apply not_elem_of_cons in Ny as [Ny1 Ny2].
    destruct (IH (λ x Hx, Sub x (list_elem_of_further _ _ _ Hx)) Hy Ny2) as (W & F & C).
    assert (map_wf m') as W' by (by pose proof (insert_wf m peer msg now created W) as W'; rewrite Ins in W').
    assert (msg ∈ messages) as Hm by (apply Sub; left).
    destruct (insert_accepted peer id h id_length id_height m msg now created W Acc (message_id _ Hm))
      as (m1 & E & S1 & _). rewrite Ins in E. symmetry in E. unfold insert_into_stream in E. rewrite S1 in E.
    assert (collected id i cs sig recv (default (StreamState_new created) (bt_get key (streams m)))) as C0.
    { destruct (bt_get key (streams m)); [done|]. subst recv. by apply collected_nil. }
    destruct (insert_pending id i cs sig chunk_sizes fits recv _ msg y C0) as (r' & s' & Hi & _ & Hr & C'); auto.
    { intros x Hx. apply Sub. by right. }
    rewrite Hi in E. destruct Hr as [->|[->| ->]]; [| |rewrite decide_False in E by congruence];
      injection E as <- <-; (split; [done|]); (split; [by constructor|]);
      unfold set_streams; cbn [streams]; by rewrite bt_get_insert.
Qed.

(** The last message completes the stream. *)
Lemma delivery_completes m0 recv rs m msg now created :
  delivery m0 recv rs m → map_wf m0 → bt_get key (streams m0) = None →
  (∀ x, x ∈ recv → x ∈ messages) → msg ∈ messages → msg ∉ recv →
  (∀ x, x ∈ messages → x = msg ∨ x ∈ recv) → accepts peer id h m now →
  ∃ m', insert m peer msg now created = (Complete (mkProposalParts i cs sig), m')
    ∧ bt_get key (streams m') = None.
Proof.
  intros D W0 N0 Sub Hm N All Acc.
  destruct (delivery_pending m0 recv rs m msg D W0 N0 Sub Hm N) as (W & _ & C).
  destruct (insert_accepted peer id h id_length id_height m msg now created W Acc (message_id _ Hm))
    as (m1 & E & S1 & _). unfold insert_into_stream in E. rewrite S1 in E.
  assert (collected id i cs sig recv (default (StreamState_new created) (bt_get key (streams m)))) as C0.
  { destruct (bt_get key (streams m)); [done|]. subst recv. by apply collected_nil. }
  destruct (insert_last id i cs sig chunk_sizes fits recv _ msg C0) as (s' & Hi); auto.
  rewrite Hi in E. unfold the_parts in E. rewrite ProposalParts_new_split in E.
  rewrite decide_False in E by (intros X; by apply X).
  eexists. split; [exact E|]. cbn. apply bt_get_remove.
Qed.

End Delivery.

(** ** Properties *)

Section Properties.
Context `{PC : ProposalCrypto} {PCL : ProposalCryptoLaws} `{LO : LruOps} {LL : LruLaws}.
Implicit Types m : PartStreamsMap.

Lemma new_stream_id_spec height round nonce id :
  new_stream_id height round nonce = Some id → uint 64 height →
  Z.of_nat (length id) = STREAM_ID_LEN ∧ stream_id_height id = Some height.
Proof.
  unfold new_stream_id. destruct round as [r|]; [|done]. cbn [mbind option_bind].
  intros E%(inj Some) Hh. subst id.
  unfold stream_id_height, STREAM_ID_LEN. rewrite !length_app, !length_to_be_bytes.
  split; [done|]. rewrite decide_False by lia. f_equal.
  rewrite take_app_le by (rewrite length_to_be_bytes; lia).
  rewrite take_ge by (rewrite length_to_be_bytes; lia). by apply from_to_be_bytes.
Qed.

(** The block the receiver rebuilds: the same one, marked valid and signed. *)
Definition received (b : ConsensusBlock) (sig : Signature) : ConsensusBlock :=
  mkConsensusBlock (block_height b) (block_round b) (valid_round b) (block_proposer b) Valid
    (execution_payload b) (Some sig).

Lemma prepare_stream_spec id b msgs sig :
  prepare_stream id b = Ok (msgs, sig) →
  let i := mkProposalInit (block_height b) (block_round b) (valid_round b) (block_proposer b) in
  let cs := chunks CHUNK_SIZE (as_ssz_bytes (execution_payload b)) in
  let pp := mkProposalParts i cs sig in
  msgs = the_messages id i cs sig
  ∧ assemble_block_from_parts pp = Some (received b sig)
  ∧ (block_signature b = None → ∀ v, address v = block_proposer b → public_key v = own_public_key →
     validate_proposal_parts pp v = true).
Proof.
  intros E. cbn zeta. unfold prepare_stream in E.
  destruct (make_proposal_parts b) as [[parts s]|] eqn:M; [|done]. cbn in E.
  injection E as <- ->. unfold make_proposal_parts in M.
  set (sg := match block_signature b with Some _ => _ | None => _ end) in M.
  destruct sg as [s|] eqn:Sg; [|done]. injection M as <- ->. split; [done|].
  destruct (chunks_spec CHUNK_SIZE (as_ssz_bytes (execution_payload b)) ltac:(done)) as [J _]. split.
  - unfold assemble_block_from_parts. cbn [parts_data]. rewrite foldl_app_concat. cbn [app].
    rewrite J, from_as_ssz. done.
  - intros No v Ha Hk. unfold validate_proposal_parts. rewrite decide_False by (intros X; by apply X).
    unfold sg in Sg. rewrite No in Sg. unfold parts_hash. rewrite Hk.
    by rewrite (verify_sign _ _ Sg).
Qed.

(** C18: A block split by [prepare_stream] into at most 128 messages is rebuilt by its
    receiver.  The messages may arrive in any order, any number of times, interleaved
    with any other traffic, height and validator-set changes that leave the stream
    tracked.  Every message before the last missing one is [Pending]; that one completes
    the stream, the assembled parts decode to the block that was sent, with its
    signature, the parts verify against the proposer's key, and the stream's slot is
    free again. *)
Theorem stream_reassembles height n t m0 b nonce id msgs sig peer recv rs m msg now created :
  rtc streams_step (PartStreamsMap_new height n t) m0 →
  bt_get (peer, id) (streams m0) = None →
  uint 64 (block_height b) →
  new_stream_id (block_height b) (block_round b) nonce = Some id →
  prepare_stream id b = Ok (msgs, sig) →
  Z.of_nat (length msgs) ≤ MAX_MESSAGES_PER_STREAM →
  delivery peer id (block_height b) m0 recv rs m →
  (∀ x, x ∈ recv → x ∈ msgs) → msg ∈ msgs → msg ∉ recv → (∀ x, x ∈ msgs → x = msg ∨ x ∈ recv) →
  accepts peer id (block_height b) m now →
  Forall (λ r, r = Pending) rs
  ∧ ∃ parts m', insert m peer msg now created = (Complete parts, m')
    ∧ bt_get (peer, id) (streams m') = None
    ∧ assemble_block_from_parts parts = Some (received b sig)
    ∧ (block_signature b = None → ∀ v, address v = block_proposer b → public_key v = own_public_key →
       validate_proposal_parts parts v = true).
Proof.
  intros R N0 Hh Hid Hp Fit D Sub Hm N All Acc. apply reachable_wf in R.
  apply prepare_stream_spec in Hp as (-> & Asm & Val).
  destruct (new_stream_id_spec _ _ _ _ Hid Hh) as [L H].
  destruct (chunks_spec CHUNK_SIZE (as_ssz_bytes (execution_payload b)) ltac:(done)) as [_ Cs].
  set (i := mkProposalInit _ _ _ _) in *. assert (init_height i = block_height b) as Hi by done.
  destruct (delivery_pending peer id _ i _ sig L H Hi Cs Fit _ _ _ _ _ D R N0 Sub Hm N) as (_ & P & _).
  destruct (delivery_completes peer id _ i _ sig L H Hi Cs Fit _ _ _ _ _ now created D R N0 Sub Hm N All Acc)
    as (m' & E & F).
  split; [done|]. eexists _, m'. eauto.
Qed.

End Properties.

(** A three-byte block in four messages; the stream end arrives first, the data twice. *)
Definition toy_block : ConsensusBlock :=
  mkConsensusBlock 5 (Some 0) None 9 Valid [Byte.x01; Byte.x02; Byte.x03] None.
Definition toy_stream : list StreamMessage * Signature :=
  match prepare_stream (toy_id 5) toy_block with Ok r => r | Err _ => ([], sig64 []) end.
Definition toy_message (j : nat) : StreamMessage :=
  default (mkStreamMessage [] 0 StreamFin) (toy_stream.1 !! j).
Definition toy_deliver (m : PartStreamsMap) (j : nat) : PartStreamsMap :=
  (insert m 9 (toy_message j) 10 10).2.

Lemma toy_delivery m0 recv rs m j :
  delivery 9 (toy_id 5) 5 m0 recv rs m → accepts 9 (toy_id 5) 5 m 10 →
  delivery 9 (toy_id 5) 5 m0 (toy_message j :: recv) ((insert m 9 (toy_message j) 10 10).1 :: rs)
    (toy_deliver m j).
Proof. intros D A. eapply delivery_message; [exact D|exact A|]. apply surjective_pairing. Qed.

Lemma stream_reassembles_witness :
  let m := toy_deliver (toy_deliver (toy_deliver (toy_deliver (PartStreamsMap_new 5 1 0) 3) 1) 1) 0 in
  ∃ parts m', insert m 9 (toy_message 2) 10 10 = (Complete parts, m')
    ∧ assemble_block_from_parts parts = Some (received toy_block toy_stream.2)
    ∧ validate_proposal_parts parts (mkValidator 9 7 1) = true.
Proof.
  cbn zeta. set (m0 := PartStreamsMap_new 5 1 0).
  pose proof (delivery_start 9 (toy_id 5) 5 m0) as D.
  apply (toy_delivery _ _ _ m0 3) in D; [|split_and!; by vm_compute].
  apply (toy_delivery _ _ _ _ 1) in D; [|split_and!; by vm_compute].
  apply (toy_delivery _ _ _ _ 1) in D; [|split_and!; by vm_compute].
  apply (toy_delivery _ _ _ _ 0) in D; [|split_and!; by vm_compute].
  destruct (stream_reassembles 5 1 0 m0 toy_block 1 (toy_id 5) toy_stream.1
    toy_stream.2 9 _ _ _ (toy_message 2) 10 10 (rtc_refl _ _) eq_refl ltac:(by split)
    ltac:(by vm_compute) ltac:(by vm_compute) ltac:(by vm_compute) D)
    as (_ & parts & m' & E & _ & A & V).
  - intros x Hx. repeat (apply elem_of_cons in Hx as [->|Hx]);
      [apply (list_elem_of_lookup_2 _ 0%nat); by vm_compute|apply (list_elem_of_lookup_2 _ 1%nat); by vm_compute|
       apply (list_elem_of_lookup_2 _ 1%nat); by vm_compute|apply (list_elem_of_lookup_2 _ 3%nat); by vm_compute|].
    by apply elem_of_nil in Hx.
  - apply (list_elem_of_lookup_2 _ 2%nat); by vm_compute.
  - intros Hx. repeat (apply elem_of_cons in Hx as [E%(f_equal sequence)|Hx];
      [vm_compute in E; discriminate|]). by apply elem_of_nil in Hx.
  - intros x Hx. assert (toy_stream.1 = [toy_message 0; toy_message 1; toy_message 2; toy_message 3]) as Es
      by (by vm_compute). rewrite Es in Hx. clear Es.
    repeat (apply elem_of_cons in Hx as [->|Hx]); [right; by left|right; right; by left|by left|right; do 3 right; by left|].
    by apply elem_of_nil in Hx.
  - split_and!; by vm_compute.
  - exists parts, m'. split_and!; [exact E|exact A|]. by apply V.
Defined.
