(* ===== verification/App.v ===== *)
(** * The event loop of the consensus application

    malachite-app/src/app.rs with the requests of request.rs and the status of state.rs: the
    messages of the consensus engine are dispatched to the handlers one after the other until
    the first error, the status is published after each, and requests of the RPC are answered
    by a task of their own from the store and the published status.

    What the outside world answers while a message is handled comes with the message
    ([Outside]), so it may be different every time.  The task that collects the values of a
    [GetDecidedValues] runs at once. *)

From S2P Require Import Prelude BTree Validators Proposal ConsensusSpec Codec StoreCodec Store Streaming Decide Ingest Serve Propose Startup.

Section App.
Context `{PC : ProposalCrypto} {SB : SignatureBytes} {SZ : SszBlockCodec} {PH : PayloadHash} {PF : PayloadFields}.
Context {SM : StoreMessages} `{!EqDecision Signature} `{LO : LruOps}.
Context {CH : CanonicalHash} {TX : Texts} {RL : RlpEncode} {RF : RoundFrom}.
Context {EX : ExtendCertificate} {MR : ProstMessage pSyncResponse}.

(** ** Messages of the consensus engine *)

Inductive AppMsg :=
| ConsensusReady
| StartedRound (height : Z) (round : Round) (proposer : Z)
| GetValue (height : Z) (round : Round)
| ReceivedProposalPart (from : Z) (part : StreamMessage)
| Decided (certificate : CommitCertificate)
| Finalized (certificate : CommitCertificate) (evidence : MisbehaviorEvidence)
| ProcessSyncedValue (height : Z) (round : Round) (proposer : Z) (value_bytes : bytes)
| GetDecidedValues (range : Z * Z)
| GetHistoryMinHeight
| RestreamProposal (height : Z) (round valid_round : Round) (value_id : ValueId)
| ExtendVote
| VerifyVoteExtension.

(** What the reply channel of a message gets; the acknowledgement of a decision and the
    instructions for a height are in the log of the state. *)
Inductive Reply :=
| NoReply
| ReplyProposals (l : list ProposedValue)
| ReplyLocalValue (v : LocallyProposedValue)
| ReplyProposal (v : option ProposedValue)
| ReplySynced (o : SyncedValueOutcome)
| ReplyValues (l : list RawDecidedValue)
| ReplyHeight (h : Z)
| ReplyNoExtension
| ReplyExtensionOk.

Record Config := mkConfig {
  cfg_address : Z;
  cfg_public_key : bytes;
  cfg_fee_recipient : Z;
  sync_enabled : bool;
  sync_batch_size : Z;
  sync_max_response_size : Z;
}.
Record Outside := mkOutside {
  o_env : Env;
  o_node : Node;
  o_clock : Clock;
  o_engine : Engine;
  o_execution : Execution;
  o_builder : Builder;
  o_history : History;
}.

Definition handle_consensus (cfg : Config) (o : Outside) (msg : AppMsg) : M State AppError Reply :=
  match msg with
  | ConsensusReady =>
      handle_consensus_ready (o_env o) (o_node o) (o_engine o) (o_execution o) ;;; m_ret NoReply
  | StartedRound height round proposer =>
      proposals <-- handle_started_round (o_node o) (o_clock o) height round proposer ;;
      m_ret (ReplyProposals proposals)
  | GetValue height round =>
      v <-- handle_get_value (o_node o) (o_clock o) (o_builder o) (cfg_address cfg) (cfg_fee_recipient cfg) height round ;;
      m_ret (match v with Some v => ReplyLocalValue v | None => NoReply end)
  | ReceivedProposalPart from part =>
      v <-- handle_received_proposal_part (o_node o) (o_clock o) from part ;;
      m_ret (ReplyProposal v)
  | Decided certificate => handle_decided (o_env o) (o_engine o) certificate ;;; m_ret NoReply
  | Finalized certificate evidence => handle_finalized (o_env o) certificate evidence ;;; m_ret NoReply
  | ProcessSyncedValue height round proposer value_bytes => λ s,
      let '(outcome, s) := handle_process_synced_value (o_node o) (o_clock o) height round proposer value_bytes s in
      (Ok (ReplySynced outcome), s)
  | GetDecidedValues range =>
      values <-- on_store (handle_get_decided_values (sync_enabled cfg) (o_history o) range
                   (sync_batch_size cfg) (sync_max_response_size cfg)) ;;
      m_ret (match values with Some values => ReplyValues values | None => NoReply end)
  | GetHistoryMinHeight =>
      h <-- on_store (handle_get_history_min_height (o_history o) (env_halt_height (o_env o))) ;;
      m_ret (ReplyHeight h)
  | RestreamProposal height _ _ value_id => handle_restream_proposal height value_id ;;; m_ret NoReply
  | ExtendVote => m_ret ReplyNoExtension
  | VerifyVoteExtension => m_ret ReplyExtensionOk
  end.

(** ** The published status *)

Record StatusSnapshot := mkStatusSnapshot {
  snap_height : Z;
  snap_round : Round;
  snap_proposer : option Z;
  snap_address : Z;
  snap_public_key : bytes;
  snap_previous_block : option ExecutionBlock;
  snap_validator_set : ValidatorSet;
  snap_sync_state : SyncState;
}.
Definition status_snapshot (cfg : Config) (s : State) : StatusSnapshot :=
  mkStatusSnapshot (st_current_height s) (st_current_round s) (st_current_proposer s) (cfg_address cfg) (cfg_public_key cfg)
    (st_previous_block s) (st_validator_set s) (st_sync_state s).

Record Status := mkStatus {
  status_height : Z;
  status_round : Round;
  status_address : Z;
  status_public_key : bytes;
  status_proposer : option Z;
  status_height_start_time : Z;
  status_prev_payload_hash : option bytes;
  status_db_latest_height : Z;
  status_db_earliest_height : Z;
  status_undecided_blocks_count : Z;
  status_pending_proposal_parts : list (Z * Z);
  status_validator_set : ValidatorSet;
  status_sync_state : SyncState;
}.
(** [StatusSnapshot::get_status]; the start of the height is read from the statistics. *)
Definition get_status (snap : StatusSnapshot) (height_start_time : Z) : M Db StoreError Status :=
  blocks <-- get_undecided_blocks (snap_height snap) (snap_round snap) ;;
  latest <-- max_height ;;
  earliest <-- min_height ;;
  counts <-- get_pending_proposal_parts_counts ;;
  m_ret (mkStatus (snap_height snap) (snap_round snap) (snap_address snap) (snap_public_key snap) (snap_proposer snap)
           height_start_time (eb_block_hash <$> snap_previous_block snap) (default 0 latest) (default 0 earliest)
           (Z.of_nat (length blocks)) counts (snap_validator_set snap) (snap_sync_state snap)).

(** ** The loop *)

(** What the loop waits for: a message, the end of the consensus channel, or the end of the task
    that answers requests.  [HandlingFailed] with a panic is a panic of the whole task. *)
Inductive Input :=
| Message (o : Outside) (msg : AppMsg)
| ChannelClosed
| AppTaskEnded (msg : string).
Inductive GoError := ConsensusChannelClosed | HandlingFailed (e : AppError) | AppTaskFailed (msg : string).

(** The state, the published status and the replies so far. *)
Record App := mkApp { app_state : State; app_status : StatusSnapshot; app_replies : list Reply }.

(** [go], up to the inputs that have arrived: [None] is a loop that still runs. *)
Fixpoint go (cfg : Config) (inputs : list Input) (a : App) : option GoError * App :=
  match inputs with
  | [] => (None, a)
  | ChannelClosed :: _ => (Some ConsensusChannelClosed, a)
  | AppTaskEnded msg :: _ => (Some (AppTaskFailed msg), a)
  | Message o msg :: inputs =>
      match handle_consensus cfg o msg (app_state a) with
      | (Ok reply, s) => go cfg inputs (mkApp s (status_snapshot cfg s) (app_replies a ++ [reply]))
      | (Err e, s) => (Some (HandlingFailed e), mkApp s (app_status a) (app_replies a))
      end
  end.

(** [run]: cancelled after the inputs, or ended by the loop.  The savepoint at the end changes no
    table. *)
Definition run (cfg : Config) (graceful_shutdown : bool) (inputs : list Input) (s : State) : result GoError unit * App :=
  match go cfg inputs (mkApp s (status_snapshot cfg s) []) with
  | (None, a) => (Ok tt, a)
  | (Some ConsensusChannelClosed, a) => (if graceful_shutdown then Ok tt else Err ConsensusChannelClosed, a)
  | (Some e, a) => (Err e, a)
  end.

(** ** Requests *)

Record CommitCertificateInfo := mkCommitCertificateInfo {
  info_certificate : CommitCertificate;
  info_certificate_type : CommitCertificateType;
  info_proposer : Z;
}.

(** [None] when the validator set of an old certificate is not available; a panic of
    [select_proposer] ends the task. *)
Definition get_certificate_info (engine : Engine) (stored : StoredCommitCertificate) : result AppError (option CommitCertificateInfo) :=
  let c := certificate stored in
  match cert_proposer stored with
  | Some proposer => Ok (Some (mkCommitCertificateInfo c (certificate_type stored) proposer))
  | None =>
      match get_signing_validator_set engine (cert_height c) with
      | Err _ => Ok None
      | Ok validator_set =>
          v ← ok_or (select_proposer validator_set (cert_height c) (cert_round c)) (AppPanicked "select_proposer");
          Ok (Some (mkCommitCertificateInfo c (certificate_type stored) (address v)))
      end
  end.
Fixpoint resolve_certificates (engine : Engine) (certs : list StoredCommitCertificate)
    : result AppError (list CommitCertificateInfo * list Z) :=
  match certs with
  | [] => Ok ([], [])
  | stored :: certs =>
      info ← get_certificate_info engine stored;
      rest ← resolve_certificates engine certs;
      Ok match info with
         | Some info => (info :: rest.1, rest.2)
         | None => (rest.1, cert_height (certificate stored) :: rest.2)
         end
  end.
Definition get_certificates_info (engine : Engine) (certs : list StoredCommitCertificate)
    : result AppError (RangeQueryResult CommitCertificateInfo) :=
  resolved ← resolve_certificates engine certs;
  Ok match resolved.2 with
     | [] => Store.Complete resolved.1
     | failed_heights => Store.Unavailable Internal failed_heights
     end.

Inductive AppRequest :=
| GetCertificate (height : option Z)
| GetMisbehaviorEvidence (height : option Z)
| GetProposalMonitorData (height : option Z)
| GetInvalidPayloads (height : option Z)
| GetCertificateRange (from count : Z)
| GetMisbehaviorEvidenceRange (from count : Z)
| GetProposalMonitorDataRange (from count : Z)
| GetInvalidPayloadsRange (from count : Z)
| GetStatus
| GetHealth
| GetSyncState.
Inductive AppAnswer :=
| AnswerCertificate (c : option CommitCertificateInfo)
| AnswerEvidence (e : option StoredMisbehaviorEvidence)
| AnswerMonitor (m : option ProposalMonitor)
| AnswerPayloads (p : option StoredInvalidPayloads)
| AnswerCertificateRange (r : option (RangeQueryResult CommitCertificateInfo))
| AnswerEvidenceRange (r : option (RangeQueryResult StoredMisbehaviorEvidence))
| AnswerMonitorRange (r : option (RangeQueryResult ProposalMonitor))
| AnswerPayloadsRange (r : option (RangeQueryResult StoredInvalidPayloads))
| AnswerStatus (s : Status)
| AnswerHealth
| AnswerSyncState (y : SyncState).

(** A request is answered from the store; on an error there is no answer, and the task goes on. *)
Definition read_store {A} (m : M Db StoreError A) : M Db AppError A := λ db,
  let '(r, db) := m db in (map_err AppStore r, db).
Definition handle_app_request (engine : Engine) (snap : StatusSnapshot) (height_start_time : Z) (req : AppRequest)
    : M Db AppError AppAnswer :=
  match req with
  | GetCertificate height =>
      result <-- read_store (get_certificate height) ;;
      info <-- m_lift (match result with Some c => get_certificate_info engine c | None => Ok None end) ;;
      m_ret (AnswerCertificate info)
  | GetMisbehaviorEvidence height => e <-- read_store (get_misbehavior_evidence height) ;; m_ret (AnswerEvidence e)
  | GetProposalMonitorData height => d <-- read_store (get_proposal_monitor_data height) ;; m_ret (AnswerMonitor d)
  | GetInvalidPayloads height => p <-- read_store (get_invalid_payloads height) ;; m_ret (AnswerPayloads p)
  | GetCertificateRange from count =>
      result <-- read_store (get_certificate_range from count) ;;
      info <-- m_lift (match result with
                       | None => Ok None
                       | Some (Store.Unavailable reason failed_heights) => Ok (Some (Store.Unavailable reason failed_heights))
                       | Some (Store.Complete certs) => Some <$> get_certificates_info engine certs
                       end) ;;
      m_ret (AnswerCertificateRange info)
  | GetMisbehaviorEvidenceRange from count =>
      r <-- read_store (get_misbehavior_evidence_range from count) ;; m_ret (AnswerEvidenceRange r)
  | GetProposalMonitorDataRange from count =>
      r <-- read_store (get_proposal_monitor_data_range from count) ;; m_ret (AnswerMonitorRange r)
  | GetInvalidPayloadsRange from count =>
      r <-- read_store (get_invalid_payloads_range from count) ;; m_ret (AnswerPayloadsRange r)
  | GetStatus => status <-- read_store (get_status snap height_start_time) ;; m_ret (AnswerStatus status)
  | GetHealth => m_ret AnswerHealth
  | GetSyncState => m_ret (AnswerSyncState (snap_sync_state snap))
  end.

End App.
