(* ===== verification/AppMem.v ===== *)
(** * What the application holds in memory

    The stream map, the proposal monitor and the early arrivals stay well formed through every
    handler, so that what is written to the store from them can be read back, and a complete
    stream always gives parts the handlers can take. *)

From stdpp Require Import sorting.
From S2P Require Import Prelude BTree Validators Proposal ConsensusSpec Codec CodecProps StoreCodec Store StoreCodecProps StoreProps StoreInv Streaming StreamingProps Decide DecideProps Ingest IngestProps RoundProps Propose ProposeProps Startup.

Lemma bt_insert_in {K V} `{!EqDecision K} (lt : K → K → bool) k (v : V) m kv :
  kv ∈ bt_insert lt k v m → kv = (k, v) ∨ kv ∈ m.
Proof.
  induction m as [|[k' v'] m IH]; cbn; [rewrite list_elem_of_singleton; auto|].
  case_decide; [|destruct (lt k k')]; rewrite !elem_of_cons; naive_solver.
Qed.

(** ** Streams *)

Section Streams.
Context `{PC : ProposalCrypto} `{LO : LruOps}.

(** The first part of a proposal, as the codec gives it: a round, an address, a height. *)
Definition init_ok (i : ProposalInit) : Prop :=
  wf_init i ∧ uint 64 (init_height i) ∧ wf_round (init_round i) ∧ wf_round (init_pol_round i).
Definition part_ok (msg : StreamMessage) : Prop := ∀ i, as_data (content msg) = Some (PartInit i) → init_ok i.
Definition buffers_ok (m : PartStreamsMap) : Prop :=
  ∀ k s msg, (k, s) ∈ streams m → msg ∈ ss_buffer s → part_ok msg.

Lemma buffers_fewer m m' : buffers_ok m → streams m' `sublist_of` streams m → buffers_ok m'.
Proof. intros B S k s msg Hin. apply (B k). by eapply sublist_elem_of. Qed.
Lemma buffers_evict m k : buffers_ok m → buffers_ok (evict m k).
Proof. intros B. eapply buffers_fewer; [exact B|apply filter_sublist]. Qed.
Lemma buffers_set_height m h : buffers_ok m → buffers_ok (set_current_height m h).
Proof. intros B. eapply buffers_fewer; [exact B|apply filter_sublist]. Qed.
Lemma buffers_closed m p id : buffers_ok m → buffers_ok (mark_closed m p id).
Proof. done. Qed.
Lemma buffers_validators m n : buffers_ok m → buffers_ok (set_num_validators m n).
Proof.
  intros B. unfold set_num_validators. set (m1 := mkPartStreamsMap _ _ _ _ _).
  destruct (evict_down_spec (length (streams m1)) m1) as (S & _); [done|cbn; unfold max_total_streams; lia|].
  by eapply buffers_fewer.
Qed.

Lemma collect_init parts : ∀ init fin data i f d, collect_parts parts init fin data = Ok (Some i, f, d) →
  init = Some i ∨ PartInit i ∈ parts.
Proof.
  induction parts as [|[p|p|p] parts IH]; intros init fin data i f d; cbn [collect_parts].
  - intros [= -> _ _]. by left.
  - case_decide; [done|]. intros [[= ->]|?]%IH; right; [left|by right].
  - intros [->|?]%IH; [by left|right; by right].
  - case_decide; [done|]. intros [->|?]%IH; [by left|right; by right].
Qed.
Lemma parts_new_init parts pp : ProposalParts_new parts = Ok pp → PartInit (parts_init pp) ∈ parts.
Proof.
  unfold ProposalParts_new. destruct (collect_parts parts None None []) as [[[[i|] f] d]|] eqn:C; cbn; [|done..].
  destruct f; cbn; [|done]. intros [= <-]. apply collect_init in C as [?|?]; [done|done].
Qed.

(** One message: the buffer grows by it, or is handed out with it. *)
Lemma stream_insert_parts s msg : (∀ x, x ∈ ss_buffer s → part_ok x) → part_ok msg →
  let '(r, s') := StreamState_insert s msg in
  (∀ x, x ∈ ss_buffer s' → part_ok x)
  ∧ ∀ parts, r = StreamComplete parts → ∀ i, PartInit i ∈ parts → init_ok i.
Proof.
  intros B P. unfold StreamState_insert. destruct (oversized msg); [done|].
  destruct (_ && _); [done|]. case_decide; [done|]. case_decide; [done|].
  assert (∀ x, x ∈ msg :: ss_buffer s → part_ok x) as B' by (intros x [->|?]%elem_of_cons; auto).
  destruct (negb _); [by split|]. split; [intros x ?%elem_of_nil; done|]. intros parts [= <-] i Hin.
  unfold drain in Hin. apply list_elem_of_omap in Hin as (x & Hx & E). eapply B'; [|exact E].
  by rewrite <- (merge_sort_Permutation seq_le).
Qed.

Lemma insert_into_buffers m key h msg created : buffers_ok m → part_ok msg →
  let '(r, m') := insert_into_stream m key h msg created in
  buffers_ok m' ∧ ∀ parts, r = Complete parts → wf_pending parts.
Proof.
  intros B P. unfold insert_into_stream. set (s := default _ _).
  assert (∀ x, x ∈ ss_buffer s → part_ok x) as Bs.
  { unfold s. destruct (bt_get key (streams m)) as [s0|] eqn:G; cbn; [|intros x ?%elem_of_nil; done].
    intros x Hx. apply bt_get_Some in G. by eapply B. }
  pose proof (stream_insert_parts s msg Bs P) as X. destruct (StreamState_insert s msg) as [r s']. destruct X as [Bs' C].
  set (m1 := set_streams m (bt_insert key_lt key s' (streams m))).
  assert (buffers_ok m1) as B1.
  { intros k x y Hin. cbn in Hin. apply bt_insert_in in Hin as [[= -> ->]|Hin]; [apply Bs'|by apply (B k)]. }
  pose proof (buffers_evict m1 key B1) as B2.
  destruct r as [|[h'|]| | | |parts]; try done; [case_decide; done|].
  assert (buffers_ok (set_streams m1 (bt_remove key (streams m1)))) as B3
    by (eapply buffers_fewer; [exact B1|apply filter_sublist]).
  destruct (ProposalParts_new parts) as [pp|] eqn:N; [|done].
  case_decide; [split; [by apply buffers_evict|done]|]. split; [done|]. intros ? [= <-].
  apply parts_new_init, (C parts eq_refl) in N as (W & U & Wr & Wp). by split_and!.
Qed.
Lemma insert_buffers m peer msg now created : buffers_ok m → part_ok msg →
  let '(r, m') := insert m peer msg now created in
  buffers_ok m' ∧ ∀ parts, r = Complete parts → wf_pending parts.
Proof.
  intros B P. unfold insert.
  assert (∀ k, buffers_ok (set_streams m (bt_remove k (streams m)))) as R
    by (intros k; eapply buffers_fewer; [exact B|apply filter_sublist]).
  case_decide; [by split|]. destruct (stream_id_height _); [|by split]. case_decide; [by split|].
  assert (buffers_ok (evict_old_streams m now)) as B1 by (eapply buffers_fewer; [exact B|apply evict_old_frame]).
  cbv zeta. set (m1 := evict_old_streams m now) in *. destruct (lru_peek _ _); [done|]. destruct (_ && _); [done|].
  apply insert_into_buffers; [|done]. destruct (_ && _); [|done]. eapply buffers_fewer; [exact B1|apply evict_oldest_frame].
Qed.

(** The stream map of a running node. *)
Definition streams_ok (m : PartStreamsMap) : Prop := map_wf m ∧ buffers_ok m.
Lemma streams_set_height m h : streams_ok m → streams_ok (set_current_height m h).
Proof. intros [W B]. split; [by apply set_height_wf|by apply buffers_set_height]. Qed.
Lemma streams_closed m p id : streams_ok m → streams_ok (mark_closed m p id).
Proof. intros [W B]. split; [by apply mark_closed_wf|by apply buffers_closed]. Qed.
Lemma streams_validators m n : streams_ok m → streams_ok (set_num_validators m n).
Proof. intros [W B]. split; [by apply set_num_validators_wf|by apply buffers_validators]. Qed.
Lemma streams_insert m peer msg now created : streams_ok m → part_ok msg →
  let '(r, m') := insert m peer msg now created in
  streams_ok m' ∧ ∀ parts, r = Complete parts → wf_pending parts.
Proof.
  intros [W B] P. pose proof (insert_wf m peer msg now created W) as W'. pose proof (insert_buffers m peer msg now created B P) as X.
  destruct (insert m peer msg now created) as [r m'].
  split; [split; [exact W'|apply X]|apply X].
Qed.
End Streams.

(** ** The monitor and the early arrivals *)

Section Memory.
Context `{PC : ProposalCrypto} {PCL : ProposalCryptoLaws} {SB : SignatureBytes} {SL : SignatureLaws}.
Context {SZ : SszBlockCodec} {SZL : SszBlockLaws} {PH : PayloadHash} {HL : HashLengths} {PF : PayloadFields}.
Context {SM : StoreMessages} {SML : StoreMessagesLaws} `{!EqDecision Signature} `{LO : LruOps}.
Context {CH : CanonicalHash} {TX : Texts} {RL : RlpEncode} {RF : RoundFrom} {RFL : RoundFromLaws}.

Definition time_ok (t : Z) : Prop := 0 < t ∧ uint 64 t.
Definition arrival_ok (e : EarlyArrival) : Prop := match e with EarlySynced t | PendingPartsTime t => time_ok t end.
Definition monitor_ok (m : option ProposalMonitor) : Prop := ∀ x, m = Some x → wf_monitor x.
Definition early_ok (l : list (Z * EarlyArrival)) : Prop := ∀ h e, (h, e) ∈ l → arrival_ok e.
Record mem_ok (s : State) : Prop := {
  mem_streams : streams_ok (st_streams_map s);
  mem_monitor : monitor_ok (st_proposal_monitor s);
  mem_early : early_ok (st_early_arrivals s);
}.

Lemma received_wf m t : wf_monitor m → time_ok t → wf_monitor (set_receive_time m t).
Proof. intros (A & S & R & V) T. split_and!; [done|done| |done]. cbn. by intros ? [= <-]. Qed.
Lemma synced_monitor_wf m : wf_monitor m → wf_monitor (mark_synced m).
Proof. done. Qed.
Lemma record_wf m v t : wf_monitor m → wf_value_id v → time_ok t → wf_monitor (record_proposal m v t).
Proof.
  intros W Wv T. unfold record_proposal. pose proof W as (A & S & R & V).
  assert (wf_monitor (mkProposalMonitor (pm_height m) (pm_proposer m) (pm_start_time m) (Some t) (Some v) (pm_successful m) false)) as X.
  { split_and!; [done|done|cbn; by intros ? [= <-]|cbn; by intros ? [= <-]]. }
  destruct (pm_value_id m), (pm_synced m); done.
Qed.
Lemma attach_wf m v : wf_monitor m → wf_value_id v → wf_monitor (attach_assembled_value_id m v).
Proof.
  intros W Wv. unfold attach_assembled_value_id. destruct (pm_synced m); [done|]. destruct (pm_value_id m) eqn:E; [done|].
  destruct W as (A & S & R & _). split_and!; [done..|]. cbn. by intros ? [= <-].
Qed.
Lemma build_wf h a t e : wf_address a → time_ok t → (∀ x, e = Some x → arrival_ok x) → wf_monitor (build_monitor h a t e).
Proof.
  intros Wa T E. assert (wf_monitor (ProposalMonitor_new h a t)) as W by (split_and!; [done|apply T|done|done]).
  destruct e as [[t'|t']|]; [| |done]; specialize (E _ eq_refl); by apply received_wf.
Qed.
Lemma stash_ok l h e : early_ok l → arrival_ok e → early_ok (stash_early_arrival l h e).
Proof.
  intros L E. assert (early_ok (bt_insert Z.ltb h e l)) as X
    by (intros h' e' [[= -> ->]|?]%bt_insert_in; [done|by eapply L]).
  unfold stash_early_arrival. by repeat case_match.
Qed.
Lemma record_synced_ok m l h t : monitor_ok m → early_ok l → time_ok t →
  monitor_ok (record_synced m l h t).1 ∧ early_ok (record_synced m l h t).2.
Proof.
  intros M L T. unfold record_synced. destruct m as [x|]; [|split; [done|by apply stash_ok]].
  specialize (M x eq_refl). case_decide; [|split; [by intros ? [= <-]|by apply stash_ok]].
  destruct (pm_receive_time x); (split; [|done]); cbn [fst]; intros y [= <-]; [exact M|by apply (received_wf x)].
Qed.
Lemma value_of_block b v : wf_value_id (value_id_of (pval_value (to_proposed_value_with_validity b v))).
Proof. apply payload_hash_length. Qed.
Lemma attach_all_ok m h r vs : monitor_ok m → Forall (λ v, wf_value_id (value_id_of (pval_value v))) vs →
  monitor_ok (attach_valid_proposal_value_ids m h r vs).
Proof.
  intros M F. unfold attach_valid_proposal_value_ids. case_decide; [done|].
  assert (Forall (λ v, wf_value_id (value_id_of (pval_value v))) (filter (λ p, is_valid (pval_validity p) = true) vs)) as F'.
  { apply Forall_forall. intros v [_ Hin]%list_elem_of_filter. rewrite Forall_forall in F. by apply F. }
  revert m M. induction F' as [|v l Wv F' IH]; intros m M; [done|]. cbn [foldl]. apply IH.
  destruct m as [x|]; cbn; [|done]. case_decide; intros ? [= <-]; [by apply M|]. apply attach_wf; [by apply M|done].
Qed.

(** ** Relations every step of a handler respects *)

Definition keeps_mem (s s' : State) : Prop := mem_ok s → mem_ok s'.
Definition same_decision (s s' : State) : Prop := st_decision s' = st_decision s.
Definition same_sent (s s' : State) : Prop := st_sent s' = st_sent s.
(** The memory stays well formed, nothing is decided and nothing is sent. *)
Definition calm (s s' : State) : Prop := keeps_mem s s' ∧ same_decision s s' ∧ same_sent s s'.
(** The same, but something may be sent. *)
Definition steady (s s' : State) : Prop := keeps_mem s s' ∧ same_decision s s'.

(** Relations that ignore the database and the count of engine calls, and the log. *)
Class Frame (R : State → State → Prop) : Prop := {
  frame_refl s : R s s;
  frame_trans a b c : R a b → R b c → R a c;
  frame_store db s : R s (with_store db s);
  frame_calls n s : R s (with_calls n s);
}.
Class FrameSend (R : State → State → Prop) : Prop := { frame_sent x s : R s (with_sent x s) }.

Lemma mem_same s s' : st_streams_map s' = st_streams_map s → st_proposal_monitor s' = st_proposal_monitor s →
  st_early_arrivals s' = st_early_arrivals s → keeps_mem s s'.
Proof. intros S M E [? ? ?]. split; by rewrite ?S, ?M, ?E. Qed.
#[export] Instance keeps_mem_frame : Frame keeps_mem.
Proof. split; try (intros; by apply mem_same). unfold keeps_mem. auto. Qed.
#[export] Instance keeps_mem_send : FrameSend keeps_mem.
Proof. split. intros. by apply mem_same. Qed.
#[export] Instance same_decision_frame : Frame same_decision.
Proof. split; try done. unfold same_decision. intros. congruence. Qed.
#[export] Instance same_decision_send : FrameSend same_decision.
Proof. done. Qed.
#[export] Instance steady_frame : Frame steady.
Proof.
  split; [split; apply frame_refl| |split; apply frame_store|split; apply frame_calls].
  intros a b c [? ?] [? ?]. split; by eapply frame_trans.
Qed.
#[export] Instance steady_send : FrameSend steady.
Proof. split. split; apply frame_sent. Qed.
#[export] Instance calm_frame : Frame calm.
Proof.
  split; [|idtac|..]; try (intros; split; [apply frame_refl || apply frame_store || apply frame_calls|done]).
  intros a b c (? & ? & ?) (? & ? & ?). split_and!; [by eapply frame_trans..|unfold same_sent in *; congruence].
Qed.
Lemma calm_steady s s' : calm s s' → steady s s'.
Proof. by intros (? & ? & _). Qed.

Definition respects {E A} (R : State → State → Prop) (m : M State E A) : Prop := ∀ s, R s (m s).2.

(** What a computation returns when it succeeds. *)
Definition yields {E A} (m : M State E A) (Q : A → Prop) : Prop := ∀ s a s', m s = (Ok a, s') → Q a.
Lemma yields_bind {E A B} (m : M State E A) (k : A → M State E B) Q : (∀ a, yields (k a) Q) → yields (m_bind m k) Q.
Proof. intros H s b s' E'. apply m_bind_cases in E' as [(a & s1 & _ & E')|(e & _ & ?)]; [by eapply H|done]. Qed.
Lemma yields_ret {E A} (a : A) (Q : A → Prop) : Q a → yields (m_ret (E := E) a) Q.
Proof. by intros H s x s' [= <- _]. Qed.
Lemma yields_err {E A} (e : E) (Q : A → Prop) : yields (m_err e) Q.
Proof. done. Qed.

Section Respects.
Context (R : State → State → Prop) `{!Frame R}.

Lemma respects_bind_post {E A B} (Q : A → Prop) (m : M State E A) (k : A → M State E B) :
  respects R m → yields m Q → (∀ a, Q a → respects R (k a)) → respects R (m_bind m k).
Proof.
  intros Hm HQ Hk s. unfold m_bind. specialize (Hm s). specialize (HQ s). destruct (m s) as [[a|e] s1]; [|exact Hm].
  eapply frame_trans; [exact Hm|]. apply Hk. by eapply HQ.
Qed.
Lemma respects_bind {E A B} (m : M State E A) (k : A → M State E B) :
  respects R m → (∀ a, respects R (k a)) → respects R (m_bind m k).
Proof. intros Hm Hk. by apply (respects_bind_post (λ _, True)). Qed.
Lemma respects_ret {E A} (a : A) : respects R (m_ret (E := E) a).
Proof. intros s. apply frame_refl. Qed.
Lemma respects_err {E A} (e : E) : respects R (m_err (A := A) e).
Proof. intros s. apply frame_refl. Qed.
Lemma respects_lift {E A} (r : result E A) : respects R (m_lift (S := State) r).
Proof. intros s. destruct r; apply frame_refl. Qed.
Lemma respects_get {E} : respects R (m_get (E := E)).
Proof. intros s. apply frame_refl. Qed.
Lemma respects_store {A} (m : M Db StoreError A) : respects R (on_store m).
Proof. intros s. unfold on_store. destruct (m (st_store s)). apply frame_store. Qed.
Lemma respects_try {A} (m : M Db StoreError A) : respects R (try_store m).
Proof. intros s. apply frame_store. Qed.
Lemma respects_notify nd p : respects R (notify_new_block nd p).
Proof. intros s. apply frame_calls. Qed.
Lemma respects_send `{!FrameSend R} mk : respects R (send mk).
Proof. intros s. apply frame_sent. Qed.
Lemma respects_modify f : (∀ s, R s (f s)) → respects R (modify f).
Proof. done. Qed.
Lemma respects_other {A} (m : M State AppError A) : respects R m → respects R (other m).
Proof. intros H s. unfold other. specialize (H s). by destruct (m s). Qed.
End Respects.

End Memory.

#[export] Hint Resolve respects_ret respects_err respects_lift respects_get respects_store respects_try respects_notify
  respects_send respects_other : respects.
(** Goes through a computation step by step, into both sides of every case. *)
Ltac respects :=
  repeat first
    [ progress intros
    | solve [eauto with respects typeclass_instances nocore]
    | apply respects_bind; [apply _| |]
    | match goal with
      | |- respects _ (match ?x with _ => _ end) => destruct x
      | |- respects _ (let '(_, _) := ?x in _) => destruct x
      end ].

(** ** The handlers *)

Section Handlers.
Context `{PC : ProposalCrypto} {PCL : ProposalCryptoLaws} {SB : SignatureBytes} {SL : SignatureLaws}.
Context {SZ : SszBlockCodec} {SZL : SszBlockLaws} {PH : PayloadHash} {HL : HashLengths} {PF : PayloadFields}.
Context {SM : StoreMessages} {SML : StoreMessagesLaws} `{!EqDecision Signature} `{LO : LruOps}.
Context {CH : CanonicalHash} {TX : Texts} {RL : RlpEncode} {RF : RoundFrom} {RFL : RoundFromLaws}.

Section Any.
Context (R : State → State → Prop) `{!Frame R}.

Lemma validate_respects nd b : respects R (validate_consensus_block nd b).
Proof. unfold validate_consensus_block, persist_invalid_payload_best_effort. respects. Qed.
Lemma establish_respects nd b prev : respects R (establish_block_validity nd b prev).
Proof.
  unfold establish_block_validity, persist_invalid_payload_best_effort. pose proof (validate_respects nd b). respects.
Qed.
Lemma parts_respects h r vs max parts : respects R (process_proposal_parts h r vs max parts).
Proof. unfold process_proposal_parts, maybe_store_pending_proposal, persist_invalid_payload_best_effort. respects. Qed.
Lemma complete_respects nd ck s0 max parts : respects R (handle_complete_parts nd ck s0 max parts).
Proof.
  unfold handle_complete_parts, validate_block. pose proof (parts_respects (st_current_height s0) (st_current_round s0) (st_validator_set s0) max parts).
  pose proof (establish_respects nd). respects.
Qed.
Lemma synced_respects nd h r a bs prev : respects R (on_process_synced_value nd h r a bs prev).
Proof.
  unfold on_process_synced_value, persist_invalid_payload_best_effort. pose proof (establish_respects nd). respects.
Qed.
Lemma pending_respects nd vs prev parts : respects R (process_pending_part nd vs prev parts).
Proof.
  unfold process_pending_part, persist_invalid_payload_best_effort. respects. intros s.
  pose proof (establish_respects nd c prev s) as E. destruct (establish_block_validity nd c prev s) as [[v|e] s1]; [|exact E].
  eapply frame_trans; [exact E|]. by apply respects_store.
Qed.
Lemma all_pending_respects nd ps vs prev : respects R (process_pending_proposal_parts nd ps vs prev).
Proof. pose proof (pending_respects nd vs prev). induction ps; cbn [process_pending_proposal_parts]; respects. Qed.
Lemma revalidate_respects nd prev b : respects R (revalidate_block nd prev b).
Proof.
  unfold revalidate_block, persist_invalid_payload_best_effort.
  destruct (check_payload_binding _ _ _); [|respects]. intros s. pose proof (validate_respects nd b s) as V.
  destruct (validate_consensus_block nd b s) as [[v|e] s1]; [|exact V]. case_decide; [exact V|].
  eapply frame_trans; [exact V|]. assert (∀ x, respects R (on_store (store_undecided_block x) ;;; m_ret x)) as X by respects.
  apply X.
Qed.
Lemma revalidates_respects nd prev bs : respects R (revalidate_blocks nd prev bs).
Proof. pose proof (revalidate_respects nd prev). induction bs; cbn [revalidate_blocks]; respects. Qed.
Lemma fetch_respects nd ck h r vs prev : respects R (fetch_and_process_pending_proposals nd ck h r vs prev).
Proof.
  unfold fetch_and_process_pending_proposals, validate_undecided_blocks. pose proof (all_pending_respects nd).
  pose proof (revalidates_respects nd). respects.
Qed.
Lemma to_propose_respects nd bd h r a prev fee : respects R (block_to_propose nd bd h r a prev fee).
Proof.
  unfold block_to_propose, get_previously_built_block.
  assert (∀ p, respects R (build_and_validate_block nd bd h r a p fee)) as B
    by (intros p; unfold build_and_validate_block; pose proof (validate_respects nd); respects).
  respects.
Qed.
Lemma finalize_respects `{!FrameSend R} engine p : respects R (finalize_decided_block engine p).
Proof. unfold finalize_decided_block. respects. Qed.
Lemma checkpoint_respects `{!FrameSend R} engine el x h t : respects R (checkpoint_sync engine el x h t).
Proof. unfold checkpoint_sync. respects. Qed.
Lemma replay_respects `{!FrameSend R} nd engine h prev : respects R (replay_block nd engine h prev).
Proof. unfold replay_block. pose proof (finalize_respects engine). respects. Qed.
Lemma replays_respects `{!FrameSend R} nd engine el cons n : ∀ h b, respects R (replay_blocks n nd engine el cons h b).
Proof.
  induction n as [|n IH]; intros h b; cbn [replay_blocks]; [respects|]. intros s.
  pose proof (replay_respects nd engine h b s) as X. destruct (replay_block nd engine h b s) as [[x|[h'|e]] s1]; [| |exact X];
    (eapply frame_trans; [exact X|]).
  - assert (respects R (h' <-- m_lift (ok_or (height_increment h) (AppPanicked "block height overflow")) ;;
      replay_blocks n nd engine el cons h' x)) as Y by respects. apply Y.
  - assert (respects R (found <-- on_store (get_certificate (Some cons)) ;;
      c <-- m_lift (ok_or found (Report "Handshake: no certificate")) ;;
      checkpoint_sync engine el (block_hash (cert_value_id (certificate c))) cons None)) as Y.
    { pose proof (checkpoint_respects engine el). respects. }
    apply Y.
Qed.
Lemma ready_respects `{!FrameSend R} env nd engine el :
  (∀ p vs h b s, R s (set_consensus_params p (set_validator_set vs (with_current_height h (with_previous_block b s))))) →
  respects R (handle_consensus_ready env nd engine el).
Proof.
  intros H. unfold handle_consensus_ready, on_consensus_ready, handshake_and_replay, enforce_limit_on_startup.
  pose proof (replays_respects nd engine el). respects. apply respects_modify. intros. apply H.
Qed.
Lemma decide_respects `{!FrameSend R} env engine c prev : respects R (decide_block env engine c prev).
Proof. unfold decide_block, commit, store_decision. pose proof (finalize_respects engine). respects. Qed.
End Any.

(** ** The memory through the handlers *)

Lemma complete_yields nd ck s0 max parts :
  yields (handle_complete_parts nd ck s0 max parts)
    (λ d, match d with DispAssembled v => wf_value_id (value_id_of (pval_value v)) | _ => True end).
Proof.
  apply yields_bind. intros [b| | | | |]; try (by apply yields_ret); [|case_decide; by apply yields_ret].
  apply yields_bind. intros b'. destruct (negb _); [by apply yields_ret|]. apply yields_bind. intros _.
  apply yields_ret, value_of_block.
Qed.
Lemma received_mem nd ck from part s : mem_ok s → part_ok part → time_ok (ck_system ck) →
  calm s (handle_received_proposal_part nd ck from part s).2
  ∧ ∀ parts m, insert (st_streams_map s) from part (ck_now ck) (ck_created ck) = (Complete parts, m) → wf_pending parts.
Proof.
  intros Mo Po To. pose proof (streams_insert (st_streams_map s) from part (ck_now ck) (ck_created ck) (mem_streams s Mo) Po) as I.
  unfold handle_received_proposal_part, m_bind, m_lift, m_get.
  destruct (max_pending_proposals nd) as [max|e].
  2: { split; [apply frame_refl|]. intros parts m E. rewrite E in I. by apply I. }
  unfold on_received_proposal_part. destruct (insert _ _ _ _ _) as [ir m].
  destruct I as [So Wp]. split; [|intros parts m' [= -> _]; by apply Wp].
  assert (∀ m', streams_ok m' → calm s (with_streams m' s)) as St.
  { intros m' S'. split_and!; [|done|done]. intros [? ? ?]. by split. }
  pose proof (St m So) as Sm. destruct ir as [parts| | |e]; [|exact Sm..].
  pose proof (complete_respects calm nd ck s max parts (with_streams m s)) as C.
  pose proof (complete_yields nd ck s max parts (with_streams m s)) as Y.
  destruct (handle_complete_parts _ _ _ _ _ _) as [rc s1].
  pose proof (frame_trans _ _ _ Sm C) as X. cbn [snd] in X.
  assert (calm s (with_streams (mark_closed (st_streams_map s1) from (stream_id part)) s1)) as Xc.
  { eapply frame_trans; [exact X|]. split_and!; [|done|done]. intros [? ? ?]. split; [by apply streams_closed|done..]. }
  set (s2 := with_streams (mark_closed _ _ _) s1) in *.
  destruct rc as [[v|h| |]|[msg|msg|se|msg]]; try exact Xc; try exact X; (eapply frame_trans; [exact Xc|]); (split_and!; [|done|done]).
  - specialize (Y _ _ eq_refl). cbn beta iota in Y. intros [? Mm ?]. split; [done| |done].
    change (monitor_ok (record_proposal_in_monitor (st_proposal_monitor s2) (st_current_round s2) v (ck_system ck))).
    unfold record_proposal_in_monitor.
    destruct (negb _); [done|]. case_decide; [done|]. destruct (st_proposal_monitor s2) as [x|]; [|done].
    case_decide; [done|]. case_decide; [done|]. intros ? [= <-]. apply record_wf; [by apply Mm|done..].
  - intros [? ? ?]. split; [done..|]. by apply stash_ok.
Qed.

Lemma synced_mem nd ck h r a bs s : time_ok (ck_system ck) → calm s (handle_process_synced_value nd ck h r a bs s).2.
Proof.
  intros To. unfold handle_process_synced_value. pose proof (synced_respects calm nd h r a bs (st_previous_block s) s) as X.
  destruct (on_process_synced_value _ _ _ _ _ _ _) as [[[v|]|e] s1]; [|exact X..]. destruct (is_valid _); [|exact X].
  eapply frame_trans; [exact X|]. unfold mark_height_synced. cbn [snd].
  pose proof (λ M E, record_synced_ok (st_proposal_monitor s1) (st_early_arrivals s1) h (ck_system ck) M E To) as Y.
  destruct (record_synced _ _ _ _) as [m l]. split_and!; [|done|done]. intros [? Mm Em]. destruct (Y Mm Em). by split.
Qed.

Lemma fetch_yields nd ck h r vs prev :
  yields (fetch_and_process_pending_proposals nd ck h r vs prev) (Forall (λ v, wf_value_id (value_id_of (pval_value v)))).
Proof.
  apply yields_bind. intros ps. apply yields_bind. intros _. apply yields_bind. intros bs. apply yields_ret.
  apply Forall_fmap, Forall_forall. intros b _. apply value_of_block.
Qed.
Lemma started_mem nd ck h r a s : wf_address a → time_ok (ck_system ck) → calm s (handle_started_round nd ck h r a s).2.
Proof.
  intros Wa To. assert (respects calm (on_started_round nd ck h r a)) as X.
  { unfold on_started_round. apply respects_bind; [apply _| |intros _].
    { case_decide; [|respects]. intros s'. split_and!; [|done|done]. intros [? Mm Em]. split; cbn.
      - by apply streams_set_height.
      - intros ? [= <-]. apply build_wf; [done..|]. intros e E. apply bt_get_Some in E. by eapply Em.
      - intros h' e [_ Hin]%list_elem_of_filter. by eapply Em. }
    apply respects_bind; [apply _|respects|]. intros s0.
    case_decide; [respects|]. case_decide; [respects|]. case_decide; [respects|].
    apply respects_bind; [apply _|respects|]. intros _. apply respects_bind; [apply _| |intros _].
    { apply respects_modify. intros s'. split_and!; [by apply mem_same|done|done]. }
    eapply respects_bind_post; [apply _|apply fetch_respects, _|apply fetch_yields|]. intros vs F.
    respects. apply respects_modify. intros s'. split_and!; [|done|done].
    intros [? ? ?]. split; [done| |done]. by apply attach_all_ok. }
  unfold handle_started_round. specialize (X s). by destruct (on_started_round nd ck h r a s) as [[vs|[]] s1].
Qed.

Lemma get_value_yields nd bd h r a prev fee id :
  yields (on_get_value nd bd h r a prev fee id) (λ o, ∀ v, o = Some v → wf_value_id (value_id_of (lpv_value v))).
Proof.
  apply yields_bind. intros [b|]; [|by apply yields_ret]. apply yields_bind. intros st. apply yields_bind. intros _.
  apply yields_bind. intros _. apply yields_ret. intros v [= <-]. apply payload_hash_length.
Qed.
Lemma next_stream_respects h r : respects calm (next_stream_id h r).
Proof. unfold next_stream_id. respects. apply respects_modify. intros s'. split_and!; [by apply mem_same|done|done]. Qed.
Lemma get_value_mem nd ck bd a fee h r s : time_ok (ck_system ck) → steady s (handle_get_value nd ck bd a fee h r s).2.
Proof.
  intros To. assert (respects steady (handle_get_value nd ck bd a fee h r)) as X; [|apply X].
  unfold handle_get_value. apply respects_bind; [apply _| |].
  { intros s'. apply calm_steady, next_stream_respects. }
  intros id. apply respects_bind; [apply _|respects|]. intros s'.
  eapply respects_bind_post; [apply _| |apply get_value_yields|].
  { unfold on_get_value. pose proof (to_propose_respects steady nd bd h r a). respects. }
  intros [v|] Q; [|respects]. cbn beta in Q. specialize (Q v eq_refl). respects. apply respects_modify. intros s2. split; [|done].
  intros [? Mm ?]. split; [done| |done]. cbn. destruct (st_proposal_monitor s2) as [m|]; [|done].
  intros ? [= <-]. apply record_wf; [by apply Mm|done..].
Qed.
Lemma restream_mem h v s : steady s (handle_restream_proposal h v s).2.
Proof.
  assert (respects steady (handle_restream_proposal h v)) as X; [|apply X].
  assert (∀ h r, respects steady (next_stream_id h r)) by (intros h' r s'; apply calm_steady, next_stream_respects).
  unfold handle_restream_proposal, get_block_to_restream, restream_proposal. respects.
Qed.
Lemma startup_mem env nd engine el s : steady s (handle_consensus_ready env nd engine el s).2.
Proof.
  apply (ready_respects steady). intros p vs h b s'. split; [|done]. intros [? ? ?]. split; [by apply streams_validators|done..].
Qed.
Lemma decided_mem env engine c s : keeps_mem s (handle_decided env engine c s).2.
Proof.
  assert (respects keeps_mem (store_proposal_monitor_on_decision (cert_height c) (cert_value_id c))) as X.
  { unfold store_proposal_monitor_on_decision. respects. apply respects_modify. intros s' [? ? ?]. by split. }
  unfold handle_decided, m_bind at 1. specialize (X s). destruct (store_proposal_monitor_on_decision _ _ s) as [[[]|e] s1]; [|exact X].
  unfold m_bind at 1, m_get. cbn [snd] in X. eapply frame_trans; [exact X|]. clear X s.
  pose proof (decide_respects keeps_mem env engine c (st_previous_block s1) s1) as Y.
  destruct (decide_block env engine c (st_previous_block s1) s1) as [[b|[msg|msg|e|msg]] s2]; cbn [snd] in Y; try done.
  - eapply frame_trans; [exact Y|]. unfold m_bind, modify, m_lift. destruct (prepare_next_height _ _ _ _); by apply mem_same.
  - eapply frame_trans; [exact Y|]. by apply mem_same.
  - eapply frame_trans; [exact Y|]. by apply mem_same.
Qed.
Lemma finalized_mem env c ev s : keeps_mem s (handle_finalized env c ev s).2.
Proof.
  assert (respects keeps_mem (handle_finalized env c ev)) as X; [|apply X].
  unfold handle_finalized, start_next_height, restart_height, state_restart_height. respects; apply respects_modify; intros s'.
  - by apply mem_same.
  - intros [? ? Em]. split; [by apply streams_validators|done|]. intros h e [_ Hin]%list_elem_of_filter. by eapply Em.
  - intros [? ? ?]. split; [by apply streams_validators|done..].
  - by apply mem_same.
Qed.
End Handlers.
