(* ===== verification/AppProps.v ===== *)
(** * Properties of the event loop

    Over every sequence of messages the loop keeps its state sound, and what the node says to
    consensus, to the execution layer and to its peers is justified by what its database held
    at that moment. *)

From S2P Require Import Prelude BTree Validators Proposal ConsensusSpec Codec CodecProps StoreCodec Store StoreCodecProps StoreProps StoreInv StoreQueries Streaming StreamingProps Decide DecideProps Ingest IngestProps RoundProps Serve ServeProps Propose ProposeProps Startup StartupProps App AppMem.

(** ** Reading the database *)

Section Reads.
Context `{PC : ProposalCrypto} {SB : SignatureBytes} {SZ : SszBlockCodec} {PH : PayloadHash} {PF : PayloadFields}.
Context {SM : StoreMessages} `{!EqDecision Signature} `{LO : LruOps}.
Context {EX : ExtendCertificate} {MR : ProstMessage pSyncResponse}.

Definition reads {E A} (m : M Db E A) : Prop := ∀ db, tables (m db).2 = tables db.

Lemma reads_bind {E A B} (m : M Db E A) (k : A → M Db E B) : reads m → (∀ a, reads (k a)) → reads (m_bind m k).
Proof.
  intros Hm Hk db. unfold m_bind. specialize (Hm db). destruct (m db) as [[a|e] db1]; [|exact Hm].
  etrans; [apply Hk|exact Hm].
Qed.
Lemma reads_ret {E A} (a : A) : reads (m_ret (E := E) a).
Proof. done. Qed.
Lemma reads_lift {E A} (r : result E A) : reads (m_lift r).
Proof. by destruct r. Qed.
Lemma reads_read {A} (f : Tables → result StoreError A) : reads (with_read f).
Proof. intros db. apply read_tables. Qed.
Lemma reads_store {A} (m : M Db StoreError A) : reads m → reads (read_store m).
Proof. intros H db. unfold read_store. specialize (H db). by destruct (m db). Qed.

Lemma raw_value_reads p h : reads (get_raw_decided_value p h).
Proof.
  intros db. unfold get_raw_decided_value. pose proof (reads_read _ db : tables (get_certificate (Some h) db).2 = tables db) as R.
  by destruct (get_certificate (Some h) db).
Qed.
Lemma collect_reads hs : ∀ ps n mx, reads (collect_values hs ps n mx).
Proof.
  induction hs as [|h hs IH]; intros [|[p|] ps] n mx; cbn [collect_values]; try apply reads_ret; [|apply IH].
  intros db. pose proof (raw_value_reads p h db) as R. destruct (get_raw_decided_value p h db) as [[[v k]|[]] db1]; cbn [snd] in R;
    try (rewrite <- R; apply IH); [|exact R]. case_decide; [exact R|]. rewrite <- R.
  by apply (reads_bind (collect_values hs ps (n + k) mx) (λ vs, m_ret (v :: vs))).
Qed.
Lemma serve_reads enabled el range batch mx : reads (handle_get_decided_values enabled el range batch mx).
Proof.
  unfold handle_get_decided_values. destruct (negb enabled); [apply reads_ret|].
  apply reads_bind; [apply reads_read|]. intros latest. apply reads_bind; [apply reads_read|]. intros earliest db.
  assert (reads (get_decided_values el range (default 0 earliest, default 0 latest) batch mx)) as R.
  { unfold get_decided_values. apply reads_bind; [apply reads_lift|]. intros [r|]; [|apply reads_ret].
    apply reads_bind; [apply reads_lift|]. intros ps. apply collect_reads. }
  specialize (R db). by destruct (get_decided_values _ _ _ _ _ db) as [[vs|[]] db1].
Qed.
Lemma history_reads el halt : reads (handle_get_history_min_height el halt).
Proof.
  unfold handle_get_history_min_height. apply reads_bind; [apply reads_read|]. intros e. apply reads_bind; [apply reads_read|].
  intros l. apply reads_ret.
Qed.
End Reads.

Section AppProps.
Context `{PC : ProposalCrypto} {PCL : ProposalCryptoLaws} {SB : SignatureBytes} {SL : SignatureLaws}.
Context {SZ : SszBlockCodec} {SZL : SszBlockLaws} {PH : PayloadHash} {HL : HashLengths} {PF : PayloadFields}.
Context {SM : StoreMessages} {SML : StoreMessagesLaws} `{!EqDecision Signature} `{LO : LruOps} {LL : LruLaws}.
Context {CH : CanonicalHash} {TX : Texts} {RL : RlpEncode} {RF : RoundFrom} {RFL : RoundFromLaws}.
Context {EX : ExtendCertificate} {MR : ProstMessage pSyncResponse}.

(** ** What the node says *)

Definition certified (t : Tables) (h : Z) (x : bytes) : Prop :=
  ∃ c, stored_certificate t h = Some c ∧ block_hash (cert_value_id (certificate c)) = x.
(** The execution layer was told of the block decided at [h], when its certificate was stored. *)
Definition told_decided (l : list Sent) (h : Z) : Prop := ∃ x t, SentForkchoice x t ∈ l ∧ certified t h x.

(** A message is justified by the tables at that moment and what was said before. *)
Definition justified (before : list Sent) (e : Sent) : Prop :=
  match e with
  | SentAck t => ∃ c block, holds c block t
  | SentForkchoice x t => backed t x
  | SentNext (NextStart h _) t => h = decided_height t + 1 ∨ told_decided before (h - 1)
  | SentNext (NextRestart h _) t => cleaned h t
  | SentParts msgs t => ∃ id b sig, stored_block b t ∧ block_signature b = Some sig ∧ prepare_stream id b = Ok (msgs, sig)
  end.
Definition conversation (l : list Sent) : Prop := ∀ i e, l !! i = Some e → justified (take i l) e.

Lemma told_decided_app l l' h : told_decided l h → told_decided (l ++ l') h.
Proof. intros (x & t & Hin & C). exists x, t. split; [|done]. apply elem_of_app. by left. Qed.
Lemma conversation_snoc l e : conversation l → justified l e → conversation (l ++ [e]).
Proof.
  intros C J i x Hx. apply lookup_app_Some in Hx as [Hx|[L Hx]].
  - rewrite take_app_le by (apply lookup_lt_Some in Hx; lia). by apply C.
  - apply list_lookup_singleton_Some in Hx as [Hi <-]. assert (i = length l) as -> by lia. by rewrite take_app_length.
Qed.
Lemma conversation_heads l t hs : conversation l → Forall (backed t) hs → conversation (l ++ told t hs).
Proof.
  intros C F. revert l C. induction F as [|h hs B F IH]; intros l C.
  - change (told t []) with (@nil Sent). by rewrite app_nil_r.
  - change (told t (h :: hs)) with ([SentForkchoice h t] ++ told t hs). rewrite app_assoc. apply IH. by apply conversation_snoc.
Qed.

(** ** The invariant *)

Record app_ok (s : State) : Prop := {
  ok_store : store_ok (tables (st_store s));
  ok_mem : mem_ok s;
  ok_decision : ∀ i, st_decision s = Some (DecisionSuccess i) → told_decided (st_sent s) (nh_next_height i - 1);
  ok_sent : conversation (st_sent s);
}.

(** Clocks after 1970, and an execution layer that answers with the block it is asked for. *)
Record wf_outside (o : Outside) : Prop := {
  wf_clock : time_ok (ck_system (o_clock o));
  wf_execution : ∀ n h b, block_by_number (o_execution o) n h = Ok (Some b) → eb_block_number b = h;
}.
Definition round_ok (r : Round) : Prop := ∃ z, r = Some z ∧ 0 ≤ z ∧ z + 1 < 2 ^ 32.
Definition wf_msg (msg : AppMsg) : Prop :=
  match msg with
  | StartedRound h r a => round_ok r ∧ wf_address a
  | GetValue h r => uint 64 h ∧ round_ok r
  | ReceivedProposalPart _ part => part_ok part
  | Decided c => wf_certificate c ∧ uint 64 (cert_height c)
  | Finalized c ev => wf_certificate c ∧ uint 64 (cert_height c) ∧ wf_misbehavior ev
  | ProcessSyncedValue h r a _ => uint 64 h ∧ round_ok r ∧ wf_address a
  | _ => True
  end.
Definition wf_input (i : Input) : Prop := match i with Message o msg => wf_outside o ∧ wf_msg msg | _ => True end.

Lemma app_calm s s' : app_ok s → calm s s' → store_ok (tables (st_store s')) → app_ok s'.
Proof. intros [O M D C] (Km & Sd & Se) O'. split; [done|by apply Km|by rewrite Sd, Se|by rewrite Se]. Qed.
Lemma app_steady s s' evs : app_ok s → steady s s' → store_ok (tables (st_store s')) → st_sent s' = st_sent s ++ evs →
  conversation (st_sent s ++ evs) → app_ok s'.
Proof.
  intros [O M D C] [Km Sd] O' Se C'. split; [done|by apply Km| |by rewrite Se]. rewrite Sd, Se. intros i E.
  by apply told_decided_app, D.
Qed.

(** ** Message by message *)

Lemma startup_ok o s : app_ok s → wf_outside o →
  app_ok (handle_consensus_ready (o_env o) (o_node o) (o_engine o) (o_execution o) s).2.
Proof.
  intros A [_ We]. pose proof A as [O _ _ C].
  pose proof (startup_mem (o_env o) (o_node o) (o_engine o) (o_execution o) s) as K.
  pose proof (startup_handled (o_env o) (o_node o) (o_engine o) (o_execution o) s O We) as X.
  destruct (handle_consensus_ready _ _ _ _ _) as [r s']. destruct X as (O' & [Sc Sd] & X). destruct r as [u|e].
  - destruct X as (b & ps & ck & prev & _ & _ & U & (_ & _ & _ & _ & _ & _ & Se)). apply caught_up_backed in U.
    eapply app_steady; [exact A|exact K|exact O'|exact Se|]. rewrite app_assoc. unfold startup_reply.
    pose proof (conversation_heads _ _ _ C U) as C'. destruct (env_reply_open _); [|by rewrite app_nil_r].
    apply conversation_snoc; [done|]. left. unfold decided_height. by rewrite Sc.
  - destruct X as (_ & _ & hs & Se & B & _). eapply app_steady; [exact A|exact K|exact O'|exact Se|]. by apply conversation_heads.
Qed.

Lemma started_ok o h r a s : app_ok s → wf_outside o → round_ok r → wf_address a →
  app_ok (handle_started_round (o_node o) (o_clock o) h r a s).2.
Proof.
  intros A [Wc _] (z & -> & H0 & H1) Wa. pose proof A as [O _ _ _].
  pose proof (started_mem (o_node o) (o_clock o) h (Some z) a s Wa Wc) as K.
  pose proof (started_handled (o_node o) (o_clock o) h z a s O H0 H1) as X.
  destruct (handle_started_round _ _ _ _ _ _) as [res s']. destruct X as [B _]. eapply app_calm; [exact A|exact K|]. by apply B.
Qed.

Lemma received_ok o from part s : app_ok s → wf_outside o → part_ok part →
  app_ok (handle_received_proposal_part (o_node o) (o_clock o) from part s).2.
Proof.
  intros A [Wc _] Wp. pose proof A as [O M _ _].
  destruct (received_mem (o_node o) (o_clock o) from part s M Wp Wc) as [K I].
  pose proof (received_handled (o_node o) (o_clock o) from part s I) as X.
  destruct (handle_received_proposal_part _ _ _ _ _) as [r s']. destruct X as [B _]. eapply app_calm; [exact A|exact K|]. by apply B.
Qed.

Lemma synced_value_ok o h r a bs s : app_ok s → wf_outside o → uint 64 h → round_ok r → wf_address a →
  app_ok (handle_process_synced_value (o_node o) (o_clock o) h r a bs s).2.
Proof.
  intros A [Wc _] U (z & -> & H0 & H1) Wa. pose proof A as [O _ _ _].
  pose proof (synced_mem (o_node o) (o_clock o) h (Some z) a bs s Wc) as K.
  pose proof (synced_value_outcomes (o_node o) (o_clock o) h (Some z) a bs s O U ltac:(done)) as X.
  destruct (handle_process_synced_value _ _ _ _ _ _ _) as [r s']. destruct X as [B _]; [intros ? [= <-]; lia|done|].
  eapply app_calm; [exact A|exact K|]. by apply B.
Qed.

Lemma store_read_ok {A} (m : M Db StoreError A) s : app_ok s → reads m → app_ok (on_store m s).2.
Proof.
  intros Ao H. pose proof (respects_store calm m s) as K. unfold on_store in *. specialize (H (st_store s)).
  destruct (m (st_store s)) as [r db]. eapply app_calm; [exact Ao|exact K|]. cbn in *. rewrite H. apply Ao.
Qed.

(** At most one proposal was streamed, of a block that is stored under its signature. *)
Definition streamed (s s' : State) : Prop :=
  benign (st_store s) (st_store s')
  ∧ ∃ evs, st_sent s' = st_sent s ++ evs
      ∧ (evs = [] ∨ ∃ msgs, evs = [SentParts msgs (tables (st_store s'))] ∧ justified [] (SentParts msgs (tables (st_store s')))).
Lemma streamed_silent s s' : benign (st_store s) (st_store s') → st_sent s' = st_sent s → streamed s s'.
Proof. intros B E. split; [done|]. exists []. rewrite app_nil_r. auto. Qed.
Lemma app_streamed s s' : app_ok s → steady s s' → streamed s s' → app_ok s'.
Proof.
  intros A K (B & evs & Se & X). pose proof A as [O _ _ C]. eapply app_steady; [exact A|exact K|by apply B|exact Se|].
  destruct X as [->|(msgs & -> & J)]; [by rewrite app_nil_r|]. by apply conversation_snoc.
Qed.

Lemma on_get_value_streams nd bd h z a prev fee id s :
  store_ok (tables (st_store s)) → uint 64 h → 0 ≤ z → z + 1 < 2 ^ 32 → wf_address a →
  streamed s (on_get_value nd bd h (Some z) a prev fee id s).2.
Proof.
  intros O U H0 H1 Wa. unfold on_get_value. unfold m_bind at 1.
  pose proof (to_propose_spec nd bd h z a prev fee s O U H0 H1 Wa) as P.
  destruct (block_to_propose _ _ _ _ _ _ _ s) as [[[b0|]|e] s1]; destruct P as [(db & n & -> & [B Eu]) P];
    [|by apply streamed_silent..].
  destruct P as (W & _). unfold m_bind, m_lift, on_store, send, modify, m_ret.
  destruct (prepare_stream id b0) as [[msgs sig]|e] eqn:Ps; cbn [map_err fst snd]; [|by apply streamed_silent].
  change (st_store (progress s db n)) with db. set (b := set_signature b0 sig).
  pose proof (store_undecided_spec b db W) as St. destruct (store_undecided_block b db) as [r3 db3].
  destruct St as [B3 [[-> T3]|(-> & F & T3)]]; cbn [map_err snd]; [|apply streamed_silent; [exact (benign_trans _ _ _ B B3)|done]].
  split; [exact (benign_trans _ _ _ B B3)|]. eexists. split; [done|]. right. exists msgs. split; [done|].
  exists id, b, sig. split; [|split; [done|by apply prepare_signed]]. cbn -[stored_block]. rewrite T3. by apply stored_after_insert.
Qed.
Lemma get_value_ok cfg o h r s : app_ok s → wf_outside o → wf_address (cfg_address cfg) → uint 64 h → round_ok r →
  app_ok (handle_get_value (o_node o) (o_clock o) (o_builder o) (cfg_address cfg) (cfg_fee_recipient cfg) h r s).2.
Proof.
  intros A [Wc _] Wa U (z & -> & H0 & H1). eapply app_streamed; [exact A|by apply get_value_mem|].
  unfold handle_get_value, next_stream_id. unfold m_bind at 1, m_bind at 1, m_get at 1.
  unfold m_bind at 1, modify at 1, m_lift at 1. cbn [new_stream_id mbind option_bind ok_or].
  set (id := _ ++ _ ++ _). set (s0 := with_nonce _ s). unfold m_bind at 1, m_get. unfold m_bind at 1.
  pose proof (on_get_value_streams (o_node o) (o_builder o) h z (cfg_address cfg) (st_previous_block s0) (cfg_fee_recipient cfg) id s0
    (ok_store s A) U H0 H1 Wa) as X.
  destruct (on_get_value _ _ _ _ _ _ _ _ s0) as [[[v|]|e] s1]; [|exact X..]. by case_decide.
Qed.

Lemma find_undecided_stored t h x b : store_ok t → find_undecided h x (undecided_blocks t) = Ok (Some b) → stored_block b t.
Proof.
  intros O F. assert (∃ k v, (k, v) ∈ undecided_blocks t ∧ decode_block v = Ok b) as (k & v & Hin & D).
  { clear O. revert F. generalize (undecided_blocks t). induction l as [|[[[h' r'] x'] v] l IH]; [done|]. cbn [find_undecided].
    case_decide.
    - destruct (decode_block v) as [b'|] eqn:D; [|done]. cbn. intros [= <-]. exists (h', r', x'), v. split; [left|done].
    - intros F. destruct (IH F) as (k & v' & Hin & D). exists k, v'. split; [by right|done]. }
  destruct (ok_undecided _ _ O _ _ Hin) as (b' & D' & K & _). rewrite D in D'. injection D' as <-. exists v. split; [|done].
  unfold block_key. rewrite <- K. eapply (bt_get_sorted block_key_lt); [apply block_key_lt_irrefl|apply (ok_wf _ _ O)|exact Hin].
Qed.
Lemma restream_ok h v s : app_ok s → app_ok (handle_restream_proposal h v s).2.
Proof.
  intros A. eapply app_streamed; [exact A|apply restream_mem|]. pose proof A as [O _ _ _].
  set (read := λ t, find_undecided h (block_hash v) (undecided_blocks t)).
  assert (benign (st_store s) (with_read read (st_store s)).2) as B.
  { intros _. rewrite read_tables. split_and!; [done|by apply certificates_grow_same|done|apply read_faults]. }
  unfold handle_restream_proposal, get_block_to_restream. unfold m_bind at 1, on_store.
  unfold get_undecided_block_by_height_and_block_hash. fold read. unfold with_read in *.
  destruct (next_fault (st_store s)); cbn [snd map_err] in *; [by apply streamed_silent|].
  destruct (read (tables (st_store s))) as [[b|]|e] eqn:E; cbn [map_err]; [|by apply streamed_silent..].
  apply (find_undecided_stored _ _ _ _ O) in E.
  unfold next_stream_id, m_bind, m_get, modify, m_lift, restream_proposal, m_err.
  destruct (new_stream_id _ _ _) as [id|]; cbn [ok_or]; [|by apply streamed_silent].
  destruct (block_signature b) as [sig|] eqn:Sg; [|by apply streamed_silent].
  destruct (prepare_with_signature id b sig Sg) as [msgs Ps]. rewrite Ps. cbn [map_err].
  split; [exact B|]. eexists. split; [done|]. right. exists msgs. split; [done|]. by exists id, b, sig.
Qed.

Lemma decided_ok o c s : app_ok s → wf_certificate c → uint 64 (cert_height c) →
  app_ok (handle_decided (o_env o) (o_engine o) c s).2.
Proof.
  intros A W U. pose proof A as [O M D C].
  assert ((∀ m, st_proposal_monitor s = Some m → pm_height m = cert_height c)
    ∨ ∃ m, st_proposal_monitor s = Some m ∧ pm_height m ≠ cert_height c) as [Hm|(m & E & N)].
  { destruct (st_proposal_monitor s) as [m|]; [|by left]. destruct (decide (pm_height m = cert_height c)) as [E|N];
      [left; by intros ? [= <-]|right; by exists m]. }
  2: { assert (handle_decided (o_env o) (o_engine o) c s
         = (Err (AppPanicked "assertion failed: monitor.height == decided_height"), with_monitor None s)) as ->.
       { unfold handle_decided, store_proposal_monitor_on_decision, m_bind, m_get, modify. rewrite E. by rewrite decide_True. }
       eapply app_calm; [exact A| |exact O]. split_and!; [|done|done]. intros [? ? ?]. by split. }
  pose proof (decided_mem (o_env o) (o_engine o) c s) as K.
  pose proof (decided_handled (o_env o) (o_engine o) c s O W U (λ m E, conj (mem_monitor s M m E) (Hm m E))) as X.
  destruct (handle_decided _ _ _ _) as [r s']. destruct X as [O' X]. cbn [snd] in *.
  destruct X as [(e & _ & Se & _ & X)|(block & t1 & t2 & _ & _ & _ & H1 & H2 & Se & X)].
  - split; [done|by apply K| |by rewrite Se]. rewrite Se. intros i Ei.
    destruct e; destruct X as [_ Ed]; try congruence. apply D. congruence.
  - assert (conversation (st_sent s ++ ack_events (o_env o) t1)) as C1.
    { unfold ack_events. destruct (env_ack_open _); [|by rewrite app_nil_r]. apply conversation_snoc; [done|]. by exists c, block. }
    assert (certified t2 (cert_height c) (block_hash (cert_value_id c))) as Ct.
    { destruct H2 as [E _]. by eexists. }
    assert (conversation (st_sent s')) as C2.
    { rewrite Se, app_assoc. apply conversation_snoc; [done|]. right. destruct Ct as (x & ? & ?). by eexists _, x. }
    split; [done|by apply K| |done]. intros i Ei.
    assert (st_decision s' = st_decision s ∨ (∃ e, st_decision s' = Some (DecisionFailure e))
      ∨ ∃ j, st_decision s' = Some (DecisionSuccess j) ∧ nh_next_height j = cert_height c + 1) as [Ed|[[e Ed]|(j & Ed & N)]].
    { destruct (finalize_result _ _) as [b|e]; [|right; left; exists e; by destruct X].
      destruct X as (_ & _ & X). destruct (prepare_next_height _ _ _ _) as [j|e]; [|left; by destruct X].
      right; right. exists j. by destruct X as (_ & ? & ? & _). }
    + rewrite Se. apply told_decided_app, D. congruence.
    + congruence.
    + rewrite Ed in Ei. injection Ei as <-. exists (block_hash (cert_value_id c)), t2. split.
      * rewrite Se, !elem_of_app. right; right. by left.
      * by replace (nh_next_height j - 1) with (cert_height c) by lia.
Qed.

Lemma finalized_ok o c ev s : app_ok s → wf_certificate c → uint 64 (cert_height c) → wf_misbehavior ev →
  app_ok (handle_finalized (o_env o) c ev s).2.
Proof.
  intros A W U We. pose proof A as [O M D C]. pose proof (finalized_mem (o_env o) c ev s) as K.
  pose proof (finalized_handled (o_env o) c ev s O W U We) as X.
  destruct (handle_finalized _ _ _ _) as [r s']. destruct X as (B & Ed & X). cbn [snd] in *.
  assert (conversation (st_sent s')) as C'; [|split; [by apply B|by apply K|by rewrite Ed|done]].
  assert (∀ next, justified (st_sent s) (SentNext next (tables (st_store s'))) → replied (o_env o) next s s' r →
    conversation (st_sent s')) as Rp.
  { intros next J. unfold replied. destruct (env_reply_open _); intros [_ Se]; rewrite Se; [|done]. by apply conversation_snoc. }
  destruct (st_decision s) as [[i|e]|] eqn:Es.
  - destruct X as [_ X]. case_decide; [destruct X as [_ Se]; by rewrite Se|]. eapply Rp; [|exact X]. right. by apply D.
  - destruct X as [_ [(_ & _ & Se)|(X & Cl & _)]]; [by rewrite Se|]. eapply Rp; [|exact X]. exact Cl.
  - destruct X as [_ ->]. done.
Qed.

Lemma bind_ret_state {E A B} (m : M State E A) (f : A → B) s : (m_bind m (λ a, m_ret (f a)) s).2 = (m s).2.
Proof. unfold m_bind. by destruct (m s) as [[]]. Qed.

(** Every message keeps the invariant, whether it is handled or fails. *)
Lemma message_ok cfg o msg s : app_ok s → wf_address (cfg_address cfg) → wf_outside o → wf_msg msg →
  app_ok (handle_consensus cfg o msg s).2.
Proof.
  intros A Wa Wo Wm. destruct msg; cbn [handle_consensus wf_msg] in *; destruct_and? Wm; try exact A.
  - rewrite (bind_ret_state _ (λ _, NoReply)). by apply startup_ok.
  - rewrite bind_ret_state. by apply started_ok.
  - rewrite bind_ret_state. by apply get_value_ok.
  - rewrite bind_ret_state. by apply received_ok.
  - rewrite (bind_ret_state _ (λ _, NoReply)). by apply decided_ok.
  - rewrite (bind_ret_state _ (λ _, NoReply)). by apply finalized_ok.
  - pose proof (synced_value_ok o height round proposer value_bytes s A Wo) as X.
    destruct (handle_process_synced_value _ _ _ _ _ _ _) as [out s']. naive_solver.
  - rewrite bind_ret_state. apply store_read_ok; [done|apply serve_reads].
  - rewrite bind_ret_state. apply store_read_ok; [done|apply history_reads].
  - rewrite (bind_ret_state _ (λ _, NoReply)). by apply restream_ok.
Qed.

(** ** Runs *)

(** The messages were handled one after the other, each with its reply. *)
Inductive served (cfg : Config) : State → list (Outside * AppMsg) → list Reply → State → Prop :=
| served_nil s : served cfg s [] [] s
| served_cons s o msg reply s1 msgs replies s2 :
    handle_consensus cfg o msg s = (Ok reply, s1) → served cfg s1 msgs replies s2 →
    served cfg s ((o, msg) :: msgs) (reply :: replies) s2.

(** Where the loop stands after some inputs: [handled] of them were messages it served, and the
    next one, if any, ended it. *)
Definition stands (cfg : Config) (inputs : list Input) (s : State) (status : StatusSnapshot) (before : list Reply)
    (r : option GoError) (a : App) : Prop :=
  ∃ handled replies rest s1,
    inputs = ((λ m, Message m.1 m.2) <$> handled) ++ rest ∧ served cfg s handled replies s1
    ∧ app_replies a = before ++ replies
    ∧ app_status a = match handled with [] => status | _ => status_snapshot cfg s1 end
    ∧ match rest with
      | [] => r = None ∧ app_state a = s1
      | ChannelClosed :: _ => r = Some ConsensusChannelClosed ∧ app_state a = s1
      | AppTaskEnded m :: _ => r = Some (AppTaskFailed m) ∧ app_state a = s1
      | Message o msg :: _ => ∃ e, handle_consensus cfg o msg s1 = (Err e, app_state a) ∧ r = Some (HandlingFailed e)
      end.
Lemma go_stands cfg inputs : ∀ a,
  let '(r, a') := go cfg inputs a in stands cfg inputs (app_state a) (app_status a) (app_replies a) r a'.
Proof.
  assert (∀ s, app_replies s ++ [] = app_replies s) as Nil by (intros; apply app_nil_r).
  induction inputs as [|[o msg| |m] inputs IH]; intros a; cbn [go].
  - exists [], [], [], (app_state a). by rewrite Nil; split_and!; [|apply served_nil|..].
  - destruct (handle_consensus cfg o msg (app_state a)) as [[reply|e] s] eqn:E.
    + specialize (IH (mkApp s (status_snapshot cfg s) (app_replies a ++ [reply]))).
      destruct (go cfg inputs _) as [r a']. destruct IH as (handled & replies & rest & s1 & -> & S & R & St & X).
      exists ((o, msg) :: handled), (reply :: replies), rest, s1. split_and!; [done|by econstructor| | |exact X].
      * rewrite R. cbn. by rewrite <- app_assoc.
      * rewrite St. destruct handled; [|done]. inversion S. by subst.
    + exists [], [], (Message o msg :: inputs), (app_state a). rewrite Nil. split_and!; [done|apply served_nil|done|done|].
      by exists e.
  - exists [], [], (ChannelClosed :: inputs), (app_state a). by rewrite Nil; split_and!; [|apply served_nil|..].
  - exists [], [], (AppTaskEnded m :: inputs), (app_state a). by rewrite Nil; split_and!; [|apply served_nil|..].
Qed.

Lemma go_ok cfg inputs : wf_address (cfg_address cfg) → Forall wf_input inputs → ∀ a, app_ok (app_state a) →
  app_ok (app_state (go cfg inputs a).2).
Proof.
  intros Wa F. induction F as [|[o msg| |m] inputs Wi F IH]; intros a A; cbn [go]; try exact A.
  destruct Wi as [Wo Wm]. pose proof (message_ok cfg o msg (app_state a) A Wa Wo Wm) as X.
  destruct (handle_consensus cfg o msg (app_state a)) as [[reply|e] s]; [by apply IH|exact X].
Qed.

(** C2: A running node is always sound, and everything it says is justified.  Whatever messages
    consensus sends, in whatever order, and whatever the execution layer, the clocks and a
    failing database do meanwhile: the database stays sound; the proposal streams stay within
    their limits; consensus is told to start a height only as the one after the last decided
    one, or after the execution layer was told of the block decided below it, whose
    certificate was then stored; it is told to restart a height only when nothing undecided is
    left of it; a decision is acknowledged only with its certificate and payload stored; the
    execution layer is only ever pointed to a block whose payload or certificate is stored; and
    a proposal is streamed only if its block is stored under the signature it is streamed with.
    Messages are handled in order up to the first error, which ends the loop; the published
    status is that of the last one handled. *)
Theorem application_sound cfg graceful inputs s :
  app_ok s → wf_address (cfg_address cfg) → Forall wf_input inputs →
  let '(r, a) := run cfg graceful inputs s in
  let s' := app_state a in
  store_ok (tables (st_store s')) ∧ conversation (st_sent s')
  ∧ Z.of_nat (length (streams (st_streams_map s'))) ≤ max_total (st_streams_map s')
  ∧ ∃ ended, stands cfg inputs s (status_snapshot cfg s) [] ended a
      ∧ r = match ended with
            | None => Ok tt
            | Some ConsensusChannelClosed => if graceful then Ok tt else Err ConsensusChannelClosed
            | Some e => Err e
            end.
Proof.
  intros A Wa F. pose proof (go_ok cfg inputs Wa F (mkApp s (status_snapshot cfg s) []) A) as X.
  pose proof (go_stands cfg inputs (mkApp s (status_snapshot cfg s) [])) as Y. unfold run.
  destruct (go cfg inputs _) as [ended a]. cbn [snd] in X. destruct X as [O [[Ws _] _ _] _ C].
  assert (store_ok (tables (st_store (app_state a))) ∧ conversation (st_sent (app_state a))
    ∧ Z.of_nat (length (streams (st_streams_map (app_state a)))) ≤ max_total (st_streams_map (app_state a))) as (P1 & P2 & P3)
    by (split_and!; [done..|apply Ws]).
  destruct ended as [[| |]|]; (split; [exact P1|]; split; [exact P2|]; split; [exact P3|]; by eexists).
Qed.
End AppProps.
