(* ===== verification/RequestProps.v ===== *)
(** * Requests

    What the application answers to the requests of its RPC server, for every kind of request and
    against the contents of the database: single records, ranges of heights, and the status. *)

From S2P Require Import Prelude BTree Validators Proposal ConsensusSpec Codec CodecProps StoreCodec Store StoreCodecProps StoreProps StoreInv StoreQueries Streaming Decide DecideProps Ingest IngestProps RoundProps Serve Propose Startup StartupProps App AppProps.

(** ** Ranges *)

Definition failure {A} (item : result RangeFailureReason A) : option RangeFailureReason :=
  match item with Err reason => Some reason | Ok _ => None end.

(** The answer to the heights [hs], for which the records or reasons [items] were found: all records, or the
    reason of the lowest height without one and all the heights that fail for it. *)
Definition range_of_items {A} (hs : list Z) (items : list (result RangeFailureReason A)) (a : RangeQueryResult A) : Prop :=
  match a with
  | Store.Complete xs => items = Ok <$> xs
  | Store.Unavailable reason failed =>
      head (omap failure items) = Some reason
      ∧ failed = fst <$> filter (λ hi, failure hi.2 = Some reason) (zip hs items)
  end.

Lemma read_heights_items {A} (read : Z → result RangeFailureReason A) hs :
  range_of_items hs (read <$> hs) (range_result (read_heights read hs).1 (read_heights read hs).2).
Proof.
  assert (let '(items, failures) := read_heights read hs in
    failures = omap (λ h, pair h <$> failure (read h)) hs ∧ (failures = [] → read <$> hs = Ok <$> items)) as X.
  { induction hs as [|h hs IH]; cbn; [done|]. destruct (read_heights read hs) as [items failures]. destruct IH as [-> IH].
    destruct (read h) as [x|reason]; cbn; [|done]. split; [done|]. intros E. by rewrite IH. }
  destruct (read_heights read hs) as [items failures]. destruct X as [E X]. cbn [fst snd]. unfold range_of_items, range_result.
  destruct failures as [|[h reason] rest]; [by apply X|]. rewrite E. clear X. split.
  - clear -E. revert E. induction hs as [|h' hs IH]; cbn; [done|]. destruct (failure (read h')) as [r'|]; cbn; [|exact IH].
    by intros [= <- <- _].
  - clear E. induction hs as [|h' hs IH]; [done|].
    change (zip (h' :: hs) (read <$> h' :: hs)) with ((h', read h') :: zip hs (read <$> hs)).
    rewrite (filter_cons (λ hi : Z * _, failure hi.2 = Some reason)). cbn [omap list_omap snd].
    destruct (failure (read h')) as [r'|]; cbn [fmap option_fmap option_map].
    + rewrite filter_cons. cbn [snd]. destruct (decide (r' = reason)) as [->|D].
      * rewrite decide_True by done. cbn. by rewrite IH.
      * rewrite decide_False by congruence. exact IH.
    + rewrite decide_False by done. exact IH.
Qed.

Section Requests.
Context `{PC : ProposalCrypto} {PCL : ProposalCryptoLaws} {SB : SignatureBytes} {SL : SignatureLaws}.
Context {SZ : SszBlockCodec} {SZL : SszBlockLaws} {PH : PayloadHash} {HL : HashLengths} {PF : PayloadFields}.
Context {SM : StoreMessages} {SML : StoreMessagesLaws} `{!EqDecision Signature} `{LO : LruOps} {LL : LruLaws}.
Context {CH : CanonicalHash} {TX : Texts} {RL : RlpEncode} {RF : RoundFrom} {RFL : RoundFromLaws}.
Context {EX : ExtendCertificate} {MR : ProstMessage pSyncResponse}.

(** ** What the database says *)

(** The first and the last height with a certificate. *)
Definition window (t : Tables) : option (Z * Z) :=
  earliest ← fst <$> head (certificates t); top ← fst <$> last (certificates t); Some (earliest, top).

(** The row of a height, or the last row. *)
Definition requested_row (rows : list (Z * bytes)) (height : option Z) : option bytes :=
  match height with Some h => bt_get h rows | None => snd <$> last rows end.
(** [a] is what the row holds; there is none without a row. *)
Definition held {A} (decode : bytes → result DecodeError A) (row : option bytes) (a : option A) : Prop :=
  match row with Some b => ∃ x, decode b = Ok x ∧ a = Some x | None => a = None end.
(** [a] is the record of a height that is not above the last certificate, of that one's height if none is given;
    a height without a row has the empty record. *)
Definition recorded {A} (decode : bytes → result DecodeError A) (empty : Z → A) (rows : list (Z * bytes)) (t : Tables)
    (height : option Z) (a : option A) : Prop :=
  match window t with
  | None => a = None
  | Some (_, top) =>
      let h := default top height in
      if decide (top < h) then a = None
      else ∃ x, a = Some x ∧ match bt_get h rows with Some b => decode b = Ok x | None => x = empty h end
  end.

(** What a range has for one height. *)
Inductive item_at {A} (decode : bytes → result DecodeError A) (missing : Z → result RangeFailureReason A)
    (rows : list (Z * bytes)) (earliest top h : Z) : result RangeFailureReason A → Prop :=
| item_pruned : h < earliest → item_at decode missing rows earliest top h (Err Pruned)
| item_above : earliest ≤ h → top < h → item_at decode missing rows earliest top h (Err AboveCurrentHead)
| item_stored b x : earliest ≤ h ≤ top → bt_get h rows = Some b → decode b = Ok x → item_at decode missing rows earliest top h (Ok x)
| item_missing : earliest ≤ h ≤ top → bt_get h rows = None → item_at decode missing rows earliest top h (missing h).
(** The answer to a range of heights; there is none without certificates. *)
Definition ranged {A} (decode : bytes → result DecodeError A) (missing : Z → result RangeFailureReason A) (rows : list (Z * bytes))
    (t : Tables) (from count : Z) (a : option (RangeQueryResult A)) : Prop :=
  match window t with
  | None => a = None
  | Some (earliest, top) => ∃ items r, a = Some r ∧ Forall2 (item_at decode missing rows earliest top) (seqZ from count) items
      ∧ range_of_items (seqZ from count) items r
  end.

(** ** Certificates and their proposers *)

(** What the answer about a stored certificate says: the proposer it was stored with, or else the
    one the validators of its height give. *)
Definition resolved (engine : Engine) (c : StoredCommitCertificate) (info : CommitCertificateInfo) : Prop :=
  info_certificate info = certificate c ∧ info_certificate_type info = certificate_type c
  ∧ match cert_proposer c with
    | Some p => info_proposer info = p
    | None => ∃ vs v, get_signing_validator_set engine (cert_height (certificate c)) = Ok vs
        ∧ select_proposer vs (cert_height (certificate c)) (cert_round (certificate c)) = Some v ∧ info_proposer info = address v
    end.
(** It was stored without a proposer, and the validators of its height are unknown. *)
Definition unresolved (engine : Engine) (c : StoredCommitCertificate) : bool :=
  match cert_proposer c, get_signing_validator_set engine (cert_height (certificate c)) with None, Err _ => true | _, _ => false end.
(** It was stored without a proposer, and the validators of its height give none: there are none of them, its height
    is 0, its round is nil, or the two overflow. *)
Definition proposerless (engine : Engine) (c : StoredCommitCertificate) : Prop :=
  cert_proposer c = None ∧ ∃ vs, get_signing_validator_set engine (cert_height (certificate c)) = Ok vs
  ∧ select_proposer vs (cert_height (certificate c)) (cert_round (certificate c)) = None.
(** The answer about the certificates of a range. *)
Definition range_resolved (engine : Engine) (certs : option (RangeQueryResult StoredCommitCertificate))
    (a : option (RangeQueryResult CommitCertificateInfo)) : Prop :=
  match certs with
  | None => a = None
  | Some (Store.Unavailable reason failed) => a = Some (Store.Unavailable reason failed)
  | Some (Store.Complete cs) =>
      match filter (λ c, unresolved engine c = true) cs with
      | [] => ∃ infos, a = Some (Store.Complete infos) ∧ Forall2 (resolved engine) cs infos
      | failed => a = Some (Store.Unavailable Internal ((λ c, cert_height (certificate c)) <$> failed))
      end
  end.

Lemma certificate_info_spec engine c :
  match get_certificate_info engine c with
  | Ok (Some info) => unresolved engine c = false ∧ resolved engine c info
  | Ok None => unresolved engine c = true
  | Err e => e = AppPanicked "select_proposer" ∧ proposerless engine c
  end.
Proof.
  unfold get_certificate_info, resolved, unresolved, proposerless. destruct (cert_proposer c) as [p|]; [done|].
  destruct (get_signing_validator_set engine _) as [vs|e] eqn:V; [|done].
  destruct (select_proposer vs _ _) as [v|] eqn:S; cbn; [|by eauto]. split; [done|]. by eauto 7.
Qed.
Lemma certificates_info_spec engine cs :
  match get_certificates_info engine cs with
  | Ok r => range_resolved engine (Some (Store.Complete cs)) (Some r)
  | Err e => e = AppPanicked "select_proposer" ∧ Exists (proposerless engine) cs
  end.
Proof.
  assert (match resolve_certificates engine cs with
    | Ok (infos, failed) =>
        failed = (λ c, cert_height (certificate c)) <$> filter (λ c, unresolved engine c = true) cs
        ∧ (failed = [] → Forall2 (resolved engine) cs infos)
    | Err e => e = AppPanicked "select_proposer" ∧ Exists (proposerless engine) cs
    end) as X.
  { induction cs as [|c cs IH]; cbn [resolve_certificates]; [by split; [|constructor]|].
    rewrite filter_cons. pose proof (certificate_info_spec engine c) as C.
    destruct (get_certificate_info engine c) as [[info|]|e]; cbn [mbind result_bind]; [| |destruct C; split; [done|by left]];
      (destruct (resolve_certificates engine cs) as [[infos failed]|e]; cbn [mbind result_bind fst snd]; [|destruct IH; split; [done|by right]]);
      destruct IH as [-> IH].
    - destruct C as [-> C]. rewrite decide_False by done. split; [done|]. intros F. constructor; [done|by apply IH].
    - rewrite C, decide_True by done. by split. }
  unfold get_certificates_info, range_resolved. destruct (resolve_certificates engine cs) as [[infos failed]|e]; cbn [mbind result_bind snd fst]; [|done].
  destruct X as [-> X]. destruct (filter _ cs); [|done]. exists infos. split; [done|]. by apply X.
Qed.

(** ** Answers *)

(** The range a request asks for. *)
Definition range_of (req : AppRequest) : option (Z * Z) :=
  match req with
  | GetCertificateRange from count | GetMisbehaviorEvidenceRange from count | GetProposalMonitorDataRange from count
  | GetInvalidPayloadsRange from count => Some (from, count)
  | _ => None
  end.
(** The certificates a request is about. *)
Definition asks_about (t : Tables) (req : AppRequest) (c : StoredCommitCertificate) : Prop :=
  match req with
  | GetCertificate h => held decode_certificate (requested_row (certificates t) h) (Some c)
  | GetCertificateRange from count => ∃ h, from ≤ h < from + count ∧ stored_certificate t h = Some c
  | _ => False
  end.

Definition status_of (snap : StatusSnapshot) (start : Z) (t : Tables) (x : Status) : Prop :=
  ∃ undecided pending,
  x = mkStatus (snap_height snap) (snap_round snap) (snap_address snap) (snap_public_key snap) (snap_proposer snap) start
        (eb_block_hash <$> snap_previous_block snap) (default 0 (snd <$> window t)) (default 0 (fst <$> window t))
        undecided pending (snap_validator_set snap) (snap_sync_state snap)
  ∧ (∀ r, snap_round snap = Some r → 0 ≤ r → r + 1 < 2 ^ 32 →
       ∃ bs, round_blocks (snap_height snap) (Some r) t bs ∧ undecided = Z.of_nat (length bs))
  ∧ ∀ h, default 0 (bt_get h pending) = Z.of_nat (length (filter (λ kv : BlockKey * bytes, key_height kv.1 = h) (pending_proposal_parts t))).

(** What is answered to each request, and the failures: of the database, of a range that is empty or runs
    over the last height there is, or for a certificate whose proposer cannot be selected. *)
Definition answered (engine : Engine) (snap : StatusSnapshot) (start : Z) (db : Db) (req : AppRequest) (r : result AppError AppAnswer) : Prop :=
  let t := tables db in
  match r with
  | Ok a =>
      match req, a with
      | GetCertificate h, AnswerCertificate a =>
          ∃ c, held decode_certificate (requested_row (certificates t) h) c
          ∧ match c with
            | Some c => if unresolved engine c then a = None else ∃ info, a = Some info ∧ resolved engine c info
            | None => a = None
            end
      | GetMisbehaviorEvidence h, AnswerEvidence a =>
          recorded decode_misbehavior_evidence Evidence_empty (misbehavior_evidence t) t h a
      | GetProposalMonitorData h, AnswerMonitor a => held decode_proposal_monitor_data (requested_row (proposal_monitor_data t) h) a
      | GetInvalidPayloads h, AnswerPayloads a =>
          recorded decode_invalid_payloads InvalidPayloads_empty (invalid_payloads t) t h a
      | GetCertificateRange from count, AnswerCertificateRange a =>
          ∃ cs, ranged decode_certificate (λ _, Err Internal) (certificates t) t from count cs ∧ range_resolved engine cs a
      | GetMisbehaviorEvidenceRange from count, AnswerEvidenceRange a =>
          ranged decode_misbehavior_evidence (λ h, Ok (Evidence_empty h)) (misbehavior_evidence t) t from count a
      | GetProposalMonitorDataRange from count, AnswerMonitorRange a =>
          ranged decode_proposal_monitor_data (λ _, Err NotRecorded) (proposal_monitor_data t) t from count a
      | GetInvalidPayloadsRange from count, AnswerPayloadsRange a =>
          ranged decode_invalid_payloads (λ h, Ok (InvalidPayloads_empty h)) (invalid_payloads t) t from count a
      | GetStatus, AnswerStatus x => status_of snap start t x
      | GetHealth, AnswerHealth => True
      | GetSyncState, AnswerSyncState y => y = snap_sync_state snap
      | _, _ => False
      end
  | Err e =>
      req ≠ GetHealth ∧ req ≠ GetSyncState
      ∧ (e = AppStore Storage ∧ true ∈ faults db
         ∨ e = AppStore (StoreOther "invalid height range")
           ∧ (∃ from count, range_of req = Some (from, count) ∧ ¬ (uint 64 (count - 1) ∧ uint 64 (from + (count - 1))))
         ∨ e = AppPanicked "select_proposer" ∧ ∃ c, asks_about t req c ∧ proposerless engine c)
  end.

(** ** Reading *)

Lemma read_cases {A} (f : Tables → result StoreError A) db r db' : with_read f db = (r, db') →
  tables db' = tables db ∧ (∀ b, b ∈ faults db' → b ∈ faults db) ∧ (r = Err Storage ∧ true ∈ faults db ∨ r = f (tables db)).
Proof.
  pose proof (next_fault_in db) as N. unfold with_read. destruct (next_fault db); intros [= <- <-]; cbn;
    (split; [done|]; split; [intros b; destruct (faults db); [done|by right]|]); [left; auto|by right].
Qed.

Lemma window_empty t : window t = None → certificates t = [].
Proof. unfold window. destruct (certificates t) as [|c l]; [done|]. cbn. destruct (last (c :: l)) eqn:E; [done|]. by rewrite last_None in E. Qed.
Lemma window_top t : fst <$> last (certificates t) = snd <$> window t.
Proof. unfold window. destruct (certificates t) as [|c l]; [done|]. by destruct (last (c :: l)). Qed.
Lemma window_earliest t : fst <$> head (certificates t) = fst <$> window t.
Proof.
  unfold window. destruct (certificates t) as [|c l]; [done|]. destruct (last (c :: l)) eqn:E; [done|]. by rewrite last_None in E.
Qed.

(** A table whose rows all read back. *)
Definition readable {A} (decode : bytes → result DecodeError A) (rows : list (Z * bytes)) : Prop :=
  ∀ h b, (h, b) ∈ rows → ∃ x, decode b = Ok x.

Lemma readable_row {A} (decode : bytes → result DecodeError A) rows h b : readable decode rows → bt_get h rows = Some b → ∃ x, decode b = Ok x.
Proof. intros R E%bt_get_Some. by eapply R. Qed.
Lemma held_ok {A} (decode : bytes → result DecodeError A) rows h : readable decode rows →
  ∃ a, transpose ((λ b, map_err StoreDecode (decode b)) <$> requested_row rows h) = Ok a ∧ held decode (requested_row rows h) a.
Proof.
  intros R. assert (∀ b, requested_row rows h = Some b → ∃ x, decode b = Ok x) as X.
  { intros b. destruct h as [h|]; cbn; [by apply readable_row|]. intros ([k v] & E & [= <-])%fmap_Some. apply last_Some_elem_of in E. by eapply R. }
  destruct (requested_row rows h) as [b|]; cbn; [|by exists None]. destruct (X b eq_refl) as [x E]. rewrite E. cbn. exists (Some x). eauto.
Qed.
Lemma recorded_ok {A} (decode : bytes → result DecodeError A) (empty : Z → A) (rows : Tables → list (Z * bytes)) h db r db' :
  readable decode (rows (tables db)) →
  (max <-- max_height ;;
   match max ≫= effective_height h with
   | None => m_ret None
   | Some n => with_read (λ t, e ← transpose ((λ b, map_err StoreDecode (decode b)) <$> bt_get n (rows t)); Ok (Some (default (empty n) e)))
   end) db = (r, db') →
  match r with
  | Ok a => recorded decode empty (rows (tables db)) (tables db) h a
  | Err e => e = Storage ∧ true ∈ faults db
  end.
Proof.
  intros R H. unfold m_bind, max_height, limit_height in H.
  destruct (with_read _ db) as [r1 db1] eqn:E. apply read_cases in E as (T & Fs & E).
  destruct E as [[-> F]| ->]; [by injection H as <- <-|]. cbn zeta in H. rewrite window_top in H.
  unfold recorded. destruct (window (tables db)) as [[earliest top]|]; cbn [fmap option_fmap option_map snd mbind option_bind] in H;
    [|by injection H as <- <-].
  assert (effective_height h top = if decide (top < default top h) then None else Some (default top h)) as Ef.
  { destruct h as [h|]; cbn; [done|]. by rewrite decide_False by lia. }
  rewrite Ef in H. case_decide; [by injection H as <- <-|].
  apply read_cases in H as (_ & _ & [[-> F]| ->]); [split; [done|by apply Fs]|]. rewrite T.
  destruct (bt_get _ (rows (tables db))) as [b|] eqn:B; [|by eexists]. cbn.
  destruct (readable_row _ _ _ _ R B) as [x D]. rewrite D. cbn. by exists x.
Qed.
Lemma ranged_ok {A} id (decode : bytes → result DecodeError A) (missing : Z → result RangeFailureReason A) from count db r db' :
  readable decode (height_table (tables db) id) → read_height_range id from count decode missing db = (r, db') →
  match r with
  | Ok a => ranged decode missing (height_table (tables db) id) (tables db) from count a
  | Err e => e = Storage ∧ true ∈ faults db
             ∨ e = StoreOther "invalid height range" ∧ ¬ (uint 64 (count - 1) ∧ uint 64 (from + (count - 1)))
  end.
Proof.
  intros R H. unfold read_height_range, m_bind, m_lift, checked_sub, checked_add, try_from in H.
  destruct (decide (uint 64 (count - 1))) as [U1|N1]; cbn in H; [|injection H as <- <-; right; tauto].
  destruct (decide (uint 64 (from + (count - 1)))) as [U2|N2]; cbn in H; [|injection H as <- <-; right; tauto].
  replace (from + (count - 1) - from + 1) with count in H by lia.
  apply read_cases in H as (_ & _ & [[-> F]| ->]); [by left|].
  pose proof (window_earliest (tables db)) as We. pose proof (window_top (tables db)) as Wt. unfold ranged.
  destruct (window (tables db)) as [[earliest top]|]; cbn in We, Wt.
  - destruct (head (certificates (tables db))) as [[e b1]|]; [|done]. destruct (last (certificates (tables db))) as [[l b2]|]; [|done].
    injection We as ->. injection Wt as ->. set (read := read_height _ _ _ _ _ _).
    pose proof (read_heights_items read (seqZ from count)) as X. destruct (read_heights read _) as [items failures].
    exists (read <$> seqZ from count). eexists. split; [done|]. split; [|exact X].
    apply Forall2_fmap_r, Forall_Forall2_diag, Forall_forall. intros h _. unfold compose. unfold read, read_height.
    case_decide; [by constructor|]. case_decide; [by constructor; lia|].
    destruct (bt_get h (height_table (tables db) id)) as [b|] eqn:B; [|by constructor; [lia|]].
    destruct (readable_row _ _ _ _ R B) as [x D]. rewrite D. by econstructor; [lia|..].
  - destruct (head (certificates (tables db))) as [[e b1]|]; [done|]. done.
Qed.

(** ** The status *)

Lemma counts_rows rows : ∀ counts (seen : list (BlockKey * bytes)),
  (∀ h, default 0 (bt_get h counts) = Z.of_nat (length (filter (λ kv, key_height kv.1 = h) seen))) →
  ∀ h, default 0 (bt_get h (foldl count_height counts rows)) = Z.of_nat (length (filter (λ kv, key_height kv.1 = h) (seen ++ rows))).
Proof.
  induction rows as [|kv rows IH]; intros counts seen C h; cbn [foldl]; [by rewrite app_nil_r|].
  rewrite (cons_middle kv seen rows), app_assoc. apply IH. intros h'. unfold count_height. rewrite filter_app, length_app.
  rewrite (filter_cons _ kv []). case_decide as D.
  - subst h'. rewrite bt_get_insert. cbn. rewrite C. lia.
  - rewrite bt_get_insert_ne by done. cbn. rewrite C. lia.
Qed.
Lemma undecided_ok h r db res db' : store_ok (tables db) → get_undecided_blocks h r db = (res, db') →
  match res with
  | Ok bs => ∀ n, r = Some n → 0 ≤ n → n + 1 < 2 ^ 32 → round_blocks h (Some n) (tables db) bs
  | Err e => e = Storage ∧ true ∈ faults db
  end.
Proof.
  intros O H. destruct res as [bs|e].
  - intros n -> N0 N1. pose proof (get_undecided_blocks_spec h n db O N0 N1) as G. by rewrite H in G.
  - unfold get_undecided_blocks in H. apply read_cases in H as (_ & _ & [[[= ->] F]|H]); [done|]. cbv zeta in H.
    set (l := filter (λ kv, kv.1.1 = (h, r)) _) in H. destruct (read_rows l) as (bs & E & _); [|by rewrite E in H].
    intros k v [_ [_ Hin]%list_elem_of_filter]%list_elem_of_filter. by apply (ok_undecided _ _ O).
Qed.
Lemma status_ok snap start db r db' : store_ok (tables db) → get_status snap start db = (r, db') →
  match r with Ok x => status_of snap start (tables db) x | Err e => e = Storage ∧ true ∈ faults db end.
Proof.
  intros O H. unfold get_status, m_bind at 1 in H. destruct (get_undecided_blocks _ _ db) as [r1 db1] eqn:E1.
  pose proof E1 as E1'. apply (undecided_ok _ _ _ _ _ O) in E1. apply read_cases in E1' as (T1 & F1 & _).
  destruct r1 as [bs|e]; [|by injection H as <- <-].
  unfold m_bind at 1, max_height, limit_height in H. destruct (with_read _ db1) as [r2 db2] eqn:E2. apply read_cases in E2 as (T2 & F2 & E2).
  destruct E2 as [[-> F]| ->]; [injection H as <- <-; split; [done|by apply F1]|].
  unfold m_bind at 1, min_height, limit_height in H. destruct (with_read _ db2) as [r3 db3] eqn:E3. apply read_cases in E3 as (T3 & F3 & E3).
  destruct E3 as [[-> F]| ->]; [injection H as <- <-; split; [done|by apply F1, F2]|].
  unfold m_bind, m_ret, get_pending_proposal_parts_counts in H. destruct (with_read _ db3) as [r4 db4] eqn:E4.
  apply read_cases in E4 as (_ & _ & E4). destruct E4 as [[-> F]| ->]; [injection H as <- <-; split; [done|by apply F1, F2, F3]|].
  injection H as <- <-. rewrite T3, T2, T1, window_top, window_earliest. eexists _, _. split; [done|]. split.
  - intros n Hn N0 N1. exists bs. split; [by apply E1|done].
  - by apply (counts_rows (pending_proposal_parts (tables db)) [] []).
Qed.

(** ** Each request *)

Lemma tables_readable t : store_ok t →
  readable decode_certificate (certificates t) ∧ readable decode_misbehavior_evidence (misbehavior_evidence t)
  ∧ readable decode_proposal_monitor_data (proposal_monitor_data t) ∧ readable decode_invalid_payloads (invalid_payloads t).
Proof.
  intros O. split_and!; intros h b Hin.
  - destruct (ok_heights _ _ O CERTIFICATES_TABLE h b Hin) as (x & E & _). eauto.
  - destruct (ok_heights _ _ O MISBEHAVIOR_EVIDENCE_TABLE h b Hin) as (x & E & _). eauto.
  - destruct (ok_heights _ _ O PROPOSAL_MONITOR_DATA_TABLE h b Hin) as (x & E & _). eauto.
  - destruct (ok_heights _ _ O INVALID_PAYLOADS_TABLE h b Hin) as (x & E & _). eauto.
Qed.

Section Answers.
Context (engine : Engine) (snap : StatusSnapshot) (start : Z) (db : Db) (O : store_ok (tables db)).
Notation handled req := (handle_app_request engine snap start req db).1.
Notation ok req := (answered engine snap start db req (handled req)).

Lemma store_failure req : req ≠ GetHealth → req ≠ GetSyncState → true ∈ faults db → answered engine snap start db req (Err (AppStore Storage)).
Proof. intros N1 N2 F. split_and!; [done..|]. left. by split. Qed.

Lemma certificate_answered h : ok (GetCertificate h).
Proof.
  cbn [handle_app_request]. unfold m_bind, read_store, m_lift, m_ret. destruct (get_certificate h db) as [r db1] eqn:E.
  apply read_cases in E as (_ & _ & [[-> F]| ->]); [by apply store_failure|]. cbn [map_err].
  change (match h with Some height => _ | None => _ end) with (requested_row (certificates (tables db)) h).
  destruct (held_ok decode_certificate (certificates (tables db)) h) as (a & _ & Hd); [by apply tables_readable|].
  assert ((requested_row (certificates (tables db)) h ≫= λ b, result_ok (decode_certificate b)) = a) as ->.
  { destruct (requested_row _ _) as [b|]; cbn in Hd |- *; [destruct Hd as (x & D & ->); by rewrite D|done]. }
  destruct a as [c|]; cbn [fst]; [|by exists None].
  pose proof (certificate_info_spec engine c) as C. destruct (get_certificate_info engine c) as [[info|]|e]; cbn.
  - destruct C as [U C]. exists (Some c). split; [done|]. rewrite U. eauto.
  - exists (Some c). split; [done|]. by rewrite C.
  - destruct C as [-> C]. split_and!; [done..|]. right. right. split; [done|]. exists c. by split.
Qed.
Lemma complete_certificate from count cs c : ranged decode_certificate (λ _, Err Internal) (certificates (tables db)) (tables db) from count
  (Some (Store.Complete cs)) → c ∈ cs → asks_about (tables db) (GetCertificateRange from count) c.
Proof.
  unfold ranged. destruct (window _) as [[earliest top]|]; [|done]. intros (items & r & [= <-] & F & ->) [i Hi]%list_elem_of_lookup.
  assert (((Ok <$> cs) : list (result RangeFailureReason _)) !! i = Some (Ok c)) as Hc by (by rewrite list_lookup_fmap, Hi).
  destruct (Forall2_lookup_r _ _ _ _ _ F Hc) as (h & Hh & It). exists h. split.
  - apply list_elem_of_lookup_2, elem_of_seqZ in Hh. lia.
  - inversion It as [| |b x _ B D|]. unfold stored_certificate. rewrite B. cbn. by rewrite D.
Qed.
Lemma certificates_answered from count : ok (GetCertificateRange from count).
Proof.
  cbn [handle_app_request]. unfold m_bind, read_store, m_lift, m_ret. destruct (get_certificate_range from count db) as [r db1] eqn:E.
  apply (ranged_ok CERTIFICATES_TABLE) in E; [|by apply tables_readable]. destruct r as [cs|e]; cbn [map_err].
  2: { cbn [fst]. destruct E as [[-> F]|[-> N]]; [by apply store_failure|]. split_and!; [done..|]. right. left. split; [done|]. by exists from, count. }
  cbn [height_table] in E. destruct cs as [[cs|reason failed]|]; cbn [fst]; [|by eexists..].
  pose proof (certificates_info_spec engine cs) as C. destruct (get_certificates_info engine cs) as [infos|e]; cbn; [by eexists|].
  destruct C as [-> [c [Hin C]]%Exists_exists]. split_and!; [done..|]. right. right. split; [done|]. exists c. split; [|done].
  by eapply complete_certificate.
Qed.
Lemma range_answered {A} id (decode : bytes → result DecodeError A) (missing : Z → result RangeFailureReason A) from count k req :
  readable decode (height_table (tables db) id) → range_of req = Some (from, count) →
  (∀ a, ranged decode missing (height_table (tables db) id) (tables db) from count a → answered engine snap start db req (Ok (k a))) →
  answered engine snap start db req (m_bind (read_store (read_height_range id from count decode missing)) (λ a, m_ret (k a)) db).1.
Proof.
  intros R Rq K. unfold m_bind, read_store, m_ret. destruct (read_height_range id from count decode missing db) as [r db1] eqn:E.
  apply ranged_ok in E; [|done]. destruct r as [a|e]; cbn [map_err fst]; [by apply K|].
  assert (req ≠ GetHealth ∧ req ≠ GetSyncState) as [N1 N2] by (split; intros ->; done).
  destruct E as [[-> F]|[-> N]]; [by apply store_failure|]. split_and!; [done..|]. right. left. split; [done|]. by exists from, count.
Qed.
Lemma record_answered {A} (m : M Db StoreError A) k req : req ≠ GetHealth → req ≠ GetSyncState →
  match (m db).1 with Ok a => answered engine snap start db req (Ok (k a)) | Err e => e = Storage ∧ true ∈ faults db end →
  answered engine snap start db req (m_bind (read_store m) (λ a, m_ret (k a)) db).1.
Proof.
  intros N1 N2 H. unfold m_bind, read_store, m_ret. destruct (m db) as [[a|e] db1]; cbn [fst map_err] in *; [done|].
  destruct H as [-> F]. by apply store_failure.
Qed.

Lemma all_answered req : ok req.
Proof.
  destruct (tables_readable _ O) as (Rc & Re & Rm & Rp).
  destruct req as [h|h|h|h|from count|from count|from count|from count| | |]; cbn [handle_app_request].
  - apply certificate_answered.
  - apply record_answered; [done..|]. destruct (get_misbehavior_evidence h db) as [r db1] eqn:E.
    apply (recorded_ok decode_misbehavior_evidence Evidence_empty misbehavior_evidence h) in E; [|done]. by destruct r.
  - apply record_answered; [done..|]. unfold get_proposal_monitor_data. destruct (with_read _ db) as [r db1] eqn:E.
    apply read_cases in E as (_ & _ & [[-> F]| ->]); [done|].
    destruct (held_ok decode_proposal_monitor_data (proposal_monitor_data (tables db)) h Rm) as (a & Ea & Hd).
    cbn [fst]. change (match h with Some height => _ | None => _ end) with (requested_row (proposal_monitor_data (tables db)) h).
    by rewrite Ea.
  - apply record_answered; [done..|]. destruct (get_invalid_payloads h db) as [r db1] eqn:E.
    apply (recorded_ok decode_invalid_payloads InvalidPayloads_empty invalid_payloads h) in E; [|done]. by destruct r.
  - apply certificates_answered.
  - by apply (range_answered MISBEHAVIOR_EVIDENCE_TABLE _ _ from count).
  - by apply (range_answered PROPOSAL_MONITOR_DATA_TABLE _ _ from count).
  - by apply (range_answered INVALID_PAYLOADS_TABLE _ _ from count).
  - apply record_answered; [done..|]. destruct (get_status snap start db) as [r db1] eqn:E. by apply status_ok in E; destruct r.
  - done.
  - done.
Qed.
End Answers.

Lemma range_reads {A} from count id (d : bytes → result DecodeError A) mi : reads (read_height_range id from count d mi).
Proof. apply reads_bind; [apply reads_lift|]. intros to. apply reads_read. Qed.
Lemma requests_read engine snap start req : reads (handle_app_request engine snap start req).
Proof.
  assert (∀ h, reads (get_misbehavior_evidence h) ∧ reads (get_invalid_payloads h)) as Q.
  { intros h. split; (apply reads_bind; [apply reads_read|]; intros m; destruct (m ≫= effective_height h); [apply reads_read|apply reads_ret]). }
  destruct req; cbn [handle_app_request]; try apply reads_ret; (apply reads_bind; [apply reads_store|intros ?]);
    try apply reads_ret; try apply reads_read; try apply range_reads; try apply Q; try (apply reads_bind; [apply reads_lift|intros ?; apply reads_ret]).
  repeat (apply reads_bind; [apply reads_read|intros ?]). apply reads_ret.
Qed.

(** C40: A request is answered from the database and the published status and changes neither.
    A certificate is the stored one of its height, or the last one, with
    the proposer stored with it, or, for one stored without, the proposer selected from the
    validators of its height; there is no answer only if none is stored or those validators are
    unknown.  Evidence and invalid payloads are those stored for a height up to the last certificate, none
    recorded giving the empty record; monitor data is that stored.  A range has one record per height in
    order, or else says which reason keeps the lowest height from having one, and which heights fail for
    it; it is not answered at all only without certificates.  The status has the published fields, the first and
    last height with a certificate, and the numbers of undecided blocks and pending proposals.
    A request fails only when the database does, when its range is empty or runs over the last height there is, or
    when no proposer can be selected for a certificate it asks about. *)
Theorem requests_answered_from_store engine snap start req db : store_ok (tables db) →
  let '(r, db') := handle_app_request engine snap start req db in
  tables db' = tables db ∧ answered engine snap start db req r.
Proof.
  intros O. pose proof (requests_read engine snap start req db) as R. pose proof (all_answered engine snap start db O req) as A.
  by destruct (handle_app_request engine snap start req db).
Qed.
End Requests.
