(* ===== verification/ToyApp.v ===== *)
(** * A node at work

    The nodes of the other files run through a height: consensus is ready, a round starts, the
    node proposes, its block is decided and finalized, and the channel closes. *)

From S2P Require Import Prelude BTree Validators Proposal ConsensusSpec Codec CodecProps StoreCodec Store StoreCodecProps StoreProps StoreInv StoreQueries ToyCrypto ToyStore Streaming ToyStreams StreamingProps Decide DecideProps ToyDecide Ingest Propose ToyIngest ToyPropose Serve ToyServe Startup StartupProps ToyStartup App AppMem AppProps RequestProps.

Definition toy_config : Config := mkConfig 9 [] 0 true 10 1000000.
Definition toy_outside : Outside :=
  mkOutside toy_env toy_node toy_clock toy_engine (toy_execution 3) (toy_builder [Byte.x04]) toy_history.
Definition toy_inputs : list Input :=
  [Message toy_outside ConsensusReady; Message toy_outside (StartedRound 4 (Some 0) 9); Message toy_outside (GetValue 4 (Some 0));
   Message toy_outside (Decided toy_height4); Message toy_outside ExtendVote;
   Message toy_outside (Finalized toy_height4 (mkMisbehaviorEvidence [] [])); ChannelClosed; Message toy_outside ConsensusReady].
Lemma toy_app_ok : app_ok toy_proposing.
Proof.
  split; [apply toy_db_ok| |done|].
  - split; [split; [apply new_wf|intros k x msg H; by apply elem_of_nil in H]|done|].
    intros h x H. by apply elem_of_nil in H.
  - intros i e H. by destruct i.
Qed.
Lemma toy_outside_wf : wf_outside toy_outside.
Proof.
  split; [by vm_compute|]. intros n h b. cbn. case_decide; [done|]. by intros [= <-].
Qed.
Lemma toy_inputs_wf : Forall wf_input toy_inputs.
Proof.
  assert (∀ msg, wf_msg msg → wf_input (Message toy_outside msg)) as W by (intros msg H; split; [apply toy_outside_wf|exact H]).
  assert (round_ok (Some 0)) as R by (exists 0; by split).
  assert (wf_certificate toy_height4 ∧ uint 64 4) as C by (split; [apply toy_height4_wf|by vm_compute]).
  assert (wf_address 9 ∧ uint 64 4) as [A U] by (by vm_compute).
  apply Forall_cons_2; [by apply W|]. apply Forall_cons_2; [by apply W|]. apply Forall_cons_2; [by apply W|].
  apply Forall_cons_2; [by apply W|]. apply Forall_cons_2; [by apply W|].
  apply Forall_cons_2; [apply W; split_and!; [apply C..|by constructor|by constructor]|].
  apply Forall_cons_2; [done|]. apply Forall_cons_2; [by apply W|]. by apply Forall_nil.
Qed.

Definition said (e : Sent) : string :=
  match e with
  | SentAck _ => "acknowledged"
  | SentForkchoice _ _ => "forkchoice"
  | SentNext _ _ => "next"
  | SentParts _ _ => "parts"
  end.
Lemma application_sound_witness :
  let '(r, a) := run toy_config true toy_inputs toy_proposing in
  r = Ok tt ∧ said <$> st_sent (app_state a) = ["next"; "parts"; "acknowledged"; "forkchoice"; "next"]
  ∧ conversation (st_sent (app_state a)) ∧ snap_height (app_status a) = 5 ∧ length (app_replies a) = 6%nat.
Proof.
  pose proof (application_sound toy_config true toy_inputs toy_proposing toy_app_ok ltac:(by vm_compute) toy_inputs_wf) as X.
  assert (let '(r, a) := run toy_config true toy_inputs toy_proposing in
          (r, said <$> st_sent (app_state a), snap_height (app_status a), length (app_replies a))
          = (Ok tt, ["next"; "parts"; "acknowledged"; "forkchoice"; "next"], 5, 6%nat)) as Y by (by vm_compute).
  destruct (run _ _ _ _) as [r a]. injection Y as Y1 Y2 Y3 Y4. destruct X as (_ & C & _).
  split; [exact Y1|]. split; [exact Y2|]. split; [exact C|]. split; [exact Y3|exact Y4].
Defined.

(** The certificates of the heights 2 to 3. *)
Definition toy_snapshot : StatusSnapshot := status_snapshot toy_config toy_proposing.
Definition range_heights (r : result AppError AppAnswer) : option (list Z) :=
  match r with Ok (AnswerCertificateRange (Some (Store.Complete l))) => Some ((λ i, cert_height (info_certificate i)) <$> l) | _ => None end.
Lemma requests_answered_from_store_witness :
  let '(r, db') := handle_app_request toy_engine toy_snapshot 0 (GetCertificateRange 2 2) toy_db in
  range_heights r = Some [2; 3] ∧ tables db' = tables toy_db ∧ answered toy_engine toy_snapshot 0 toy_db (GetCertificateRange 2 2) r.
Proof.
  pose proof (requests_answered_from_store toy_engine toy_snapshot 0 (GetCertificateRange 2 2) toy_db toy_db_ok) as X.
  assert (range_heights (handle_app_request toy_engine toy_snapshot 0 (GetCertificateRange 2 2) toy_db).1 = Some [2; 3]) as Y by (by vm_compute).
  destruct (handle_app_request _ _ _ _ _) as [r db']. destruct X as [T A]. split; [exact Y|]. by split.
Defined.
